(** * wconnect: payout-cycle state machine, scan eligibility and the
    approval-queue orchestrator.

    Shallow embedding of
      - src/utils/payoutControls.ts  (sanitizeControlState, derivePayoutState;
                                      the version with [freezePaused])
      - src/pages/Transfer.tsx       (AdminPage: payoutSummaries,
                                      upcomingPayouts, setControlForPayout and
                                      the producers of the payout buttons:
                                      pause, resume, time shift, time edit,
                                      start, reset)
      - src/ErrorBoundary.tsx        (App: scanAll, loadPayoutSchedule,
                                      updatePayoutSchedule, the schedule
                                      effect, markApproved, isUserRejected,
                                      ensureChain, runAll, retryOne)

    Numbers.  Timestamps and durations are epoch milliseconds; they are
    modelled as [Z], which is what the double-precision arithmetic of the
    code computes as long as every value stays an integer of magnitude at
    most 2^53 (any time read from [Date.now()] is far inside that range).
    [Math.floor (a / b)] with [0 < b] is [Z.div].  Token amounts ([bigint])
    are [Z].  The numbers that are not integers (the progress fraction, the
    token amount [Number(formatUnits(..))] and the USD values) are doubles:
    they are modelled as the rationals they denote, and every operation that
    produces one rounds its exact result with [toDouble] (to the nearest
    double, ties to even).

    Controls.  An optional numeric field of a control record is an
    [option Z]: [None] is an absent field, [Some z] a finite number, and
    [paused] is a boolean.  These are the records [sanitizeControlState]
    returns, and every control the pages hand to [derivePayoutState] has
    gone through it (Transfer.tsx 774, 913; ErrorBoundary.tsx 1103;
    lib/payouts.ts 20; lib/adminApi.ts 86).  A field that holds NaN or an
    infinity, or a [paused] that is truthy without being [true], is outside
    the model.

    State.  The local-storage objects are finite maps ([gmap]) and the
    remembered approved set is a [gset].  A run of [runAll] is a function of
    the shared state ([World]) and of a script of [Answer]s, one for each
    [await] it reaches: the answer says whether the awaited call rejected
    and whether the wallet changed meanwhile.  Every effect of the run is
    logged with the value the session counter had at that moment.  What
    the page does on its own while a run waits (a scan, the schedule
    effect, the run of a new session) is not part of the run. *)

From Stdlib Require Import ZArith QArith Qminmax Qround Qabs Qpower Lia Lqa
  Ascii String List Sorted.
From Stdlib Require SpecFloat.
From stdpp Require Import gmap strings list.
Import ListNotations.

Local Open Scope Z_scope.

(* ===================================================================== *)
(** ** Double-precision numbers *)
(* ===================================================================== *)

(** The integer nearest to [q], the even one of the two when [q] lies
    half-way between two integers. *)
Definition roundTiesToEven (q : Q) : Z :=
  let f := Qfloor q in
  match (q - inject_Z f ?= 1 # 2)%Q with
  | Lt => f
  | Gt => f + 1
  | Eq => if Z.even f then f else f + 1
  end.

(** [floor (log2 q)] for [0 < q]. *)
Definition floorLog2 (q : Q) : Z :=
  let k := Z.log2 (Qnum q) - Z.log2 (Z.pos (Qden q)) in
  if Qle_bool (2 ^ k) q then k else k - 1.

(** The double nearest to the rational [q] (IEEE 754 binary64, round to
    nearest, ties to even): [q] is rounded to a multiple of its unit in the
    last place, [2 ^ (e - 52)] with [2 ^ e <= |q| < 2 ^ (e + 1)], and of
    [2 ^ (-1074)] below the normal range.  This is the value of [a / b],
    [a * b] and [Number(decimal string)] in JavaScript when the exact
    result is [q] and the rounded one is finite, that is of magnitude below
    [2 ^ 1024]; beyond that the code has [Infinity], which is not
    modelled. *)
Definition toDouble (q : Q) : Q :=
  if Qeq_bool q 0 then 0%Q
  else
    let e := Z.max (floorLog2 (Qabs q)) (-1022) in
    let ulp := (2 ^ (e - 52))%Q in
    (inject_Z (roundTiesToEven (q / ulp)) * ulp)%Q.

(** The rational a finite float of the Standard Library's specification of
    IEEE 754 arithmetic stands for. *)
Definition valueOfFloat (f : SpecFloat.spec_float) : Q :=
  match f with
  | SpecFloat.S754_finite sign m e =>
      ((if sign then -1 else 1) * inject_Z (Z.pos m) * 2 ^ e)%Q
  | _ => 0%Q
  end.

(** [m * 2^e], for [0 < m], as a float of that specification. *)
Definition floatOf (m e : Z) : SpecFloat.spec_float :=
  SpecFloat.S754_finite false (Z.to_pos m) e.

(** Whether [a / b] and [x * y], computed by the Standard Library's
    binary64 division and multiplication, are what [toDouble] gives. *)
Definition agreesOnQuotient (ab : Z * Z) : bool :=
  Qeq_bool (valueOfFloat (SpecFloat.SFdiv 53 1024 (floatOf (fst ab) 0) (floatOf (snd ab) 0)))
           (toDouble (inject_Z (fst ab) / inject_Z (snd ab))).

Definition agreesOnProduct (xy : (Z * Z) * (Z * Z)) : bool :=
  let '((m1, e1), (m2, e2)) := xy in
  Qeq_bool (valueOfFloat (SpecFloat.SFmul 53 1024 (floatOf m1 e1) (floatOf m2 e2)))
           (toDouble (valueOfFloat (floatOf m1 e1) * valueOfFloat (floatOf m2 e2))).

(** [Number.isFinite] of a value computed with [toDouble]. *)
Definition isFiniteDouble (q : Q) : Prop := (Qabs q < 2 ^ 1024)%Q.

(* ===================================================================== *)
(** ** src/utils/payoutControls.ts *)
(* ===================================================================== *)

Definition DAY_MS : Z := 24 * 60 * 60 * 1000.

(** A control record whose numeric fields are absent ([None]) or finite
    numbers and whose [paused] is a boolean ([false] when absent): what
    [sanitizeControlState] returns and the producers of the admin page
    build. *)
Record PayoutControlState := mkControl {
  paused : bool;
  pauseRemainingMs : option Z;
  resumeAt : option Z;
  adjustedNextPayoutAt : option Z;
  adjustedLastApprovedAt : option Z;
  cycleStartAt : option Z;
  cycleMs : option Z
}.

Inductive PayoutStatus := StPaused | StReady | StRunning.

Record DerivedPayoutState := mkDerived {
  d_lastApprovedAt : Z;
  d_nextPayoutAt : Z;
  d_remaining : Z;
  d_resumeAt : Z;
  d_status : PayoutStatus;
  d_progress : Q;
  d_isCycle : bool;
  d_cycleMs : option Z
}.

(** [a ?? b] on an optional number. *)
Definition nullish (a : option Z) (b : Z) : Z :=
  match a with Some x => x | None => b end.

Definition isSome {A} (o : option A) : bool :=
  match o with Some _ => true | None => false end.

(** [control?.cycleMs && control.cycleMs > 0 ? control.cycleMs : DAY_MS] *)
Definition cycleMsOrDay (control : option PayoutControlState) : Z :=
  match control with
  | Some c =>
      match cycleMs c with
      | Some m => if 0 <? m then m else DAY_MS
      | None => DAY_MS
      end
  | None => DAY_MS
  end.

(** [sanitizeControlState].  A field of its argument that is not a finite
    number is left out like an absent one, and a [paused] other than
    [true] counts as [false]; the argument is read here as the record of
    its finite fields. *)
Definition sanitizeControlState (control : option PayoutControlState)
  : option PayoutControlState :=
  match control with
  | None => None
  | Some c =>
      let hasPause := paused c in
      let r_pauseRemaining :=
        if hasPause then option_map (Z.max 0) (pauseRemainingMs c) else None in
      let r_resumeAt :=
        if hasPause then option_map (Z.max 0) (resumeAt c) else None in
      let r_adjLast := adjustedLastApprovedAt c in
      let r_adjNext := adjustedNextPayoutAt c in
      let r_cycleStart := cycleStartAt c in
      let r_cycleMs :=
        match cycleMs c with
        | Some m => if 0 <? m then Some m else None
        | None => None
        end in
      let hasManualAdjust := isSome r_adjLast || isSome r_adjNext in
      let hasCycle := isSome r_cycleStart in
      if negb hasPause && negb hasManualAdjust && negb hasCycle then None
      else Some {|
        paused := hasPause;
        pauseRemainingMs := r_pauseRemaining;
        resumeAt := r_resumeAt;
        adjustedNextPayoutAt := r_adjNext;
        adjustedLastApprovedAt := r_adjLast;
        cycleStartAt := r_cycleStart;
        cycleMs := if hasCycle then r_cycleMs else None
      |}
  end.

(** The mutable locals of [derivePayoutState] as they stand when the
    [if (control)] block is left. *)
Record DeriveLocals := mkLocals {
  l_lastApprovedAt : Z;
  l_nextPayoutAt : Z;
  l_remaining : Z;
  l_resumeAt : Z;
  l_status : PayoutStatus;
  l_isCycle : bool;
  l_cycleMs : Z
}.

Definition statusOfRemaining (remaining : Z) : PayoutStatus :=
  if remaining <=? 0 then StReady else StRunning.

(** The [if (control.paused)] branch.  [targetResumeAt] is a finite
    number here, so the [!Number.isFinite(targetResumeAt)] reset does not
    apply. *)
Definition derivePaused (baseLastApprovedAt baseNextPayoutAt : Z)
    (c : PayoutControlState) (nowTs : Z) (freezePaused : bool) (cycleMs0 : Z)
  : DeriveLocals :=
  let hasCycle := isSome (cycleStartAt c) in
  let storedResumeAt := option_map (fun r => Z.max r 0) (resumeAt c) in
  let storedRemaining := option_map (fun r => Z.max r 0) (pauseRemainingMs c) in
  let targetResumeAt :=
    match storedResumeAt with
    | Some r => r
    | None =>
        if hasCycle then
          let safeCycleMs := if 0 <? cycleMs0 then cycleMs0 else DAY_MS in
          let cycleStartRaw :=
            match cycleStartAt c with
            | Some s => s
            | None => baseNextPayoutAt - safeCycleMs
            end in
          let normalizedStart := Z.max baseLastApprovedAt cycleStartRaw in
          match storedRemaining with
          | Some r => nowTs + r
          | None =>
              let elapsed := Z.max (nowTs - normalizedStart) 0 in
              let cyclesElapsed := elapsed / safeCycleMs in
              let nextCycleStart := normalizedStart + cyclesElapsed * safeCycleMs in
              let candidate := nextCycleStart + safeCycleMs in
              if nowTs <? candidate then candidate else nowTs + safeCycleMs
          end
        else
          let adjustedNext := nullish (adjustedNextPayoutAt c) baseNextPayoutAt in
          let minTarget :=
            nullish (adjustedLastApprovedAt c) baseLastApprovedAt + 1000 in
          match storedRemaining with
          | Some r => nowTs + r
          | None => Z.max (Z.max adjustedNext minTarget) nowTs
          end
    end in
  let dynamicRemaining := Z.max (targetResumeAt - nowTs) 0 in
  let remaining :=
    if freezePaused then nullish storedRemaining dynamicRemaining
    else dynamicRemaining in
  if hasCycle then
    let safeCycleMs := if 0 <? cycleMs0 then cycleMs0 else DAY_MS in
    {| l_lastApprovedAt := Z.max baseLastApprovedAt (targetResumeAt - safeCycleMs);
       l_nextPayoutAt := targetResumeAt;
       l_remaining := remaining;
       l_resumeAt := targetResumeAt;
       l_status := StPaused;
       l_isCycle := true;
       l_cycleMs := safeCycleMs |}
  else
    {| l_lastApprovedAt := nullish (adjustedLastApprovedAt c) baseLastApprovedAt;
       l_nextPayoutAt := targetResumeAt;
       l_remaining := remaining;
       l_resumeAt := targetResumeAt;
       l_status := StPaused;
       l_isCycle := false;
       l_cycleMs := cycleMs0 |}.

(** The [else if (hasCycle)] branch. *)
Definition deriveCycle (baseLastApprovedAt baseNextPayoutAt : Z)
    (c : PayoutControlState) (nowTs : Z) (cycleMs0 : Z) : DeriveLocals :=
  let safeCycleMs := if 0 <? cycleMs0 then cycleMs0 else DAY_MS in
  let start :=
    match cycleStartAt c with Some s => s | None => baseNextPayoutAt end in
  let '(lastApprovedAt, nextPayoutAt) :=
    if nowTs <? start then
      (Z.max baseLastApprovedAt (start - safeCycleMs), start)
    else
      let elapsed := nowTs - start in
      let cyclesElapsed := elapsed / safeCycleMs in
      let lastApprovedAt :=
        Z.max baseLastApprovedAt (start + cyclesElapsed * safeCycleMs) in
      let nextPayoutAt := lastApprovedAt + safeCycleMs in
      if nextPayoutAt <=? nowTs then
        let nextCycle := cyclesElapsed + 1 in
        let lastApprovedAt :=
          Z.max baseLastApprovedAt (start + nextCycle * safeCycleMs) in
        (lastApprovedAt, lastApprovedAt + safeCycleMs)
      else (lastApprovedAt, nextPayoutAt) in
  {| l_lastApprovedAt := lastApprovedAt;
     l_nextPayoutAt := nextPayoutAt;
     l_remaining := Z.max (nextPayoutAt - nowTs) 0;
     l_resumeAt := nextPayoutAt;
     l_status := StRunning;
     l_isCycle := true;
     l_cycleMs := safeCycleMs |}.

(** The schedule read with no cycle and no pause: the initial values of the
    locals when [lastApprovedAt]/[nextPayoutAt] are given. *)
Definition derivePlain (lastApprovedAt nextPayoutAt nowTs cycleMs0 : Z)
  : DeriveLocals :=
  let remaining := Z.max (nextPayoutAt - nowTs) 0 in
  let status := statusOfRemaining remaining in
  {| l_lastApprovedAt := lastApprovedAt;
     l_nextPayoutAt := nextPayoutAt;
     l_remaining := remaining;
     l_resumeAt := match status with StReady => nowTs | _ => nextPayoutAt end;
     l_status := status;
     l_isCycle := false;
     l_cycleMs := cycleMs0 |}.

Definition deriveLocals (baseLastApprovedAt baseNextPayoutAt : Z)
    (control : option PayoutControlState) (nowTs : Z) (freezePaused : bool)
  : DeriveLocals :=
  let cycleMs0 := cycleMsOrDay control in
  match control with
  | None => derivePlain baseLastApprovedAt baseNextPayoutAt nowTs cycleMs0
  | Some c =>
      if paused c then
        derivePaused baseLastApprovedAt baseNextPayoutAt c nowTs freezePaused cycleMs0
      else if isSome (cycleStartAt c) then
        deriveCycle baseLastApprovedAt baseNextPayoutAt c nowTs cycleMs0
      else
        derivePlain (nullish (adjustedLastApprovedAt c) baseLastApprovedAt)
                    (nullish (adjustedNextPayoutAt c) baseNextPayoutAt)
                    nowTs cycleMs0
  end.

(** [totalDuration] of the progress computation. *)
Definition totalDurationOf (control : option PayoutControlState)
    (l : DeriveLocals) : Z :=
  let baseDuration := l_nextPayoutAt l - l_lastApprovedAt l in
  let defaultDuration := cycleMsOrDay control in
  Z.max (Z.max baseDuration (if l_isCycle l then l_cycleMs l else defaultDuration)) 1.

(** [elapsed] and [progress].  The subtraction is exact for integers within
    2^53; the division is a division of doubles. *)
Definition progressOf (totalDuration remaining : Z) : Q :=
  let elapsed := Z.max (totalDuration - remaining) 0 in
  if 0 <? totalDuration
  then Qmin 1 (Qmax 0 (toDouble (inject_Z elapsed / inject_Z totalDuration)))
  else 1%Q.

Definition derivePayoutStateWith (baseLastApprovedAt baseNextPayoutAt : Z)
    (control : option PayoutControlState) (nowTs : Z) (freezePaused : bool)
  : DerivedPayoutState :=
  let l := deriveLocals baseLastApprovedAt baseNextPayoutAt control nowTs freezePaused in
  let totalDuration := totalDurationOf control l in
  {| d_lastApprovedAt := l_lastApprovedAt l;
     d_nextPayoutAt := l_nextPayoutAt l;
     d_remaining := l_remaining l;
     d_resumeAt := l_resumeAt l;
     d_status := l_status l;
     d_progress := progressOf totalDuration (l_remaining l);
     d_isCycle := l_isCycle l;
     d_cycleMs := if l_isCycle l then Some (l_cycleMs l) else None |}.

(** [options.freezePaused ?? true] *)
Definition derivePayoutState (baseLastApprovedAt baseNextPayoutAt : Z)
    (control : option PayoutControlState) (nowTs : Z) : DerivedPayoutState :=
  derivePayoutStateWith baseLastApprovedAt baseNextPayoutAt control nowTs true.

(* ===================================================================== *)
(** ** Admin page: payout rows and the control producers *)
(* ===================================================================== *)

Definition lowerAscii (a : ascii) : ascii :=
  let n := nat_of_ascii a in
  if ((65 <=? n) && (n <=? 90))%nat then ascii_of_nat (n + 32) else a.

(** [String.prototype.toLowerCase], on the ASCII letters. *)
Fixpoint toLowerCase (s : string) : string :=
  match s with
  | EmptyString => EmptyString
  | String a rest => String (lowerAscii a) (toLowerCase rest)
  end.

Record PayoutSummary := mkSummary {
  sm_address : string;
  sm_lastApprovedAt : Z;
  sm_nextPayoutAt : Z
}.

Record UpcomingPayoutRow := mkPayoutRow {
  p_address : string;
  p_baseLastApprovedAt : Z;
  p_baseNextPayoutAt : Z;
  p_lastApprovedAt : Z;
  p_scheduledNextPayoutAt : Z;
  p_resumeAt : Z;
  p_remaining : Z;
  p_status : PayoutStatus;
  p_progress : Q;
  p_control : option PayoutControlState;
  p_isCycle : bool;
  p_cycleMs : option Z
}.

(** One element of [upcomingPayouts]: the summary of a wallet derived under
    its control at [nowTs]. *)
Definition upcomingPayout (summary : PayoutSummary)
    (control : option PayoutControlState) (nowTs : Z) : UpcomingPayoutRow :=
  let derived :=
    derivePayoutState (sm_lastApprovedAt summary) (sm_nextPayoutAt summary)
                      control nowTs in
  {| p_address := sm_address summary;
     p_baseLastApprovedAt := sm_lastApprovedAt summary;
     p_baseNextPayoutAt := sm_nextPayoutAt summary;
     p_lastApprovedAt := d_lastApprovedAt derived;
     p_scheduledNextPayoutAt := d_nextPayoutAt derived;
     p_resumeAt := d_resumeAt derived;
     p_remaining := d_remaining derived;
     p_status := d_status derived;
     p_progress := d_progress derived;
     p_control := control;
     p_isCycle := d_isCycle derived;
     p_cycleMs := d_cycleMs derived |}.

(** [current?.field] *)
Definition optField (current : option PayoutControlState)
    (field : PayoutControlState -> option Z) : option Z :=
  match current with Some c => field c | None => None end.

(** [payout.isCycle || typeof current?.cycleStartAt === 'number'] *)
Definition producerHasCycle (payout : UpcomingPayoutRow)
    (current : option PayoutControlState) : bool :=
  p_isCycle payout || isSome (optField current cycleStartAt).

(** [current?.cycleMs && current.cycleMs > 0 ? current.cycleMs
      : payout.cycleMs ?? DAY_MS] *)
Definition producerCycleLength (payout : UpcomingPayoutRow)
    (current : option PayoutControlState) : Z :=
  match optField current cycleMs with
  | Some m => if 0 <? m then m else nullish (p_cycleMs payout) DAY_MS
  | None => nullish (p_cycleMs payout) DAY_MS
  end.

(** The producer that [handlePausePayout] hands to [setControlForPayout]. *)
Definition pauseProducer (payout : UpcomingPayoutRow) (now : Z)
    (current : option PayoutControlState) : option PayoutControlState :=
  let remaining := Z.max (p_remaining payout) 0 in
  let defaultResumeAt :=
    Z.max (nullish (Some (p_resumeAt payout)) (now + remaining)) now in
  if producerHasCycle payout current then
    let cycleLength := producerCycleLength payout current in
    let baseCycleStart :=
      nullish (optField current cycleStartAt)
              (Z.max (p_scheduledNextPayoutAt payout - cycleLength)
                     (p_baseLastApprovedAt payout)) in
    let resumeAt' :=
      Z.max (Z.max (nullish (optField current resumeAt) defaultResumeAt)
                   (baseCycleStart + 1000)) now in
    let cycleStart := Z.max (resumeAt' - cycleLength) (p_baseLastApprovedAt payout) in
    Some {| paused := true;
            pauseRemainingMs := Some (Z.max (resumeAt' - now) 0);
            resumeAt := Some resumeAt';
            adjustedNextPayoutAt := None;
            adjustedLastApprovedAt := None;
            cycleStartAt := Some cycleStart;
            cycleMs := Some cycleLength |}
  else
    let adjustedLast :=
      nullish (optField current adjustedLastApprovedAt) (p_lastApprovedAt payout) in
    let baseTarget :=
      nullish (optField current adjustedNextPayoutAt) (p_scheduledNextPayoutAt payout) in
    let resumeAt' :=
      Z.max (Z.max (nullish (optField current resumeAt)
                            (nullish (Some baseTarget) defaultResumeAt))
                   (adjustedLast + 1000)) now in
    Some {| paused := true;
            pauseRemainingMs := Some (Z.max (resumeAt' - now) 0);
            resumeAt := Some resumeAt';
            adjustedNextPayoutAt := Some resumeAt';
            adjustedLastApprovedAt := Some adjustedLast;
            cycleStartAt := None;
            cycleMs := None |}.

(** The producer of [handleResumePayout]. *)
Definition resumeProducer (payout : UpcomingPayoutRow) (now : Z)
    (current : option PayoutControlState) : option PayoutControlState :=
  let storedRemaining :=
    Z.max (nullish (optField current pauseRemainingMs) (p_remaining payout)) 0 in
  let resumeAtCandidate :=
    Z.max (nullish (optField current resumeAt)
                   (nullish (Some (p_resumeAt payout)) (now + storedRemaining)))
          now in
  if producerHasCycle payout current then
    let cycleLength := producerCycleLength payout current in
    let cycleStart :=
      Z.max (resumeAtCandidate - cycleLength) (p_baseLastApprovedAt payout) in
    Some {| paused := false;
            pauseRemainingMs := None;
            resumeAt := None;
            adjustedNextPayoutAt := None;
            adjustedLastApprovedAt := None;
            cycleStartAt := Some cycleStart;
            cycleMs := Some cycleLength |}
  else
    let adjustedLast :=
      nullish (optField current adjustedLastApprovedAt) (p_lastApprovedAt payout) in
    let target := Z.max resumeAtCandidate (adjustedLast + 1000) in
    Some {| paused := false;
            pauseRemainingMs := None;
            resumeAt := None;
            adjustedNextPayoutAt := Some target;
            adjustedLastApprovedAt := Some adjustedLast;
            cycleStartAt := None;
            cycleMs := None |}.

(** The value [setControlForPayout] leaves at the wallet's key of
    [payoutControls] ([None]: the key is removed or stays absent): the
    producer applied to the current entry, then sanitized.  When the result
    serializes like the current entry the map is returned as it is, which
    leaves the same value at the key. *)
Definition producedControl
    (producer : option PayoutControlState -> option PayoutControlState)
    (current : option PayoutControlState) : option PayoutControlState :=
  match producer current with
  | None => None
  | Some nextRaw => sanitizeControlState (Some nextRaw)
  end.

Definition setControlForPayout (payoutControls : gmap string PayoutControlState)
    (payout : UpcomingPayoutRow)
    (producer : option PayoutControlState -> option PayoutControlState)
  : gmap string PayoutControlState :=
  let key := toLowerCase (p_address payout) in
  let current := payoutControls !! key in
  match producedControl producer current with
  | None => delete key payoutControls
  | Some cleaned => <[key := cleaned]> payoutControls
  end.

(** [handlePausePayout]: nothing happens on a row that shows as paused. *)
Definition handlePausePayout (payoutControls : gmap string PayoutControlState)
    (payout : UpcomingPayoutRow) (now : Z) : gmap string PayoutControlState :=
  match p_status payout with
  | StPaused => payoutControls
  | _ => setControlForPayout payoutControls payout (pauseProducer payout now)
  end.

Definition handleResumePayout (payoutControls : gmap string PayoutControlState)
    (payout : UpcomingPayoutRow) (now : Z) : gmap string PayoutControlState :=
  setControlForPayout payoutControls payout (resumeProducer payout now).

(** Pause at [now], let the page re-derive its row under the stored control,
    resume at the same [now], and derive again: the state shown after the
    round trip. *)
Definition pauseThenResume (summary : PayoutSummary)
    (control : option PayoutControlState) (now : Z) : DerivedPayoutState :=
  let key := toLowerCase (sm_address summary) in
  let controls0 : gmap string PayoutControlState :=
    match control with Some c => {[ key := c ]} | None => ∅ end in
  let row0 := upcomingPayout summary (controls0 !! key) now in
  let controls1 := handlePausePayout controls0 row0 now in
  let row1 := upcomingPayout summary (controls1 !! key) now in
  let controls2 := handleResumePayout controls1 row1 now in
  derivePayoutState (sm_lastApprovedAt summary) (sm_nextPayoutAt summary)
                    (controls2 !! key) now.

(** The producer of [handleAdjustPayoutTime]; [now] is its [Date.now()]. *)
Definition adjustProducer (payout : UpcomingPayoutRow) (deltaMs now : Z)
    (current : option PayoutControlState) : option PayoutControlState :=
  let currentPaused :=
    match current with Some c => paused c | None => false end in
  if producerHasCycle payout current then
    let cycleLength := producerCycleLength payout current in
    let baseStart :=
      nullish (optField current cycleStartAt)
              (Z.max (p_scheduledNextPayoutAt payout - cycleLength)
                     (p_baseLastApprovedAt payout)) in
    if currentPaused then
      let baseResumeAt :=
        nullish (optField current resumeAt)
                (nullish (Some (p_resumeAt payout)) (baseStart + cycleLength)) in
      let nextResumeAt := Z.max (baseResumeAt + deltaMs) now in
      let nextCycleStart :=
        Z.max (baseStart + deltaMs) (p_baseLastApprovedAt payout) in
      Some {| paused := true;
              pauseRemainingMs := Some (Z.max (nextResumeAt - now) 0);
              resumeAt := Some nextResumeAt;
              adjustedNextPayoutAt := None;
              adjustedLastApprovedAt := None;
              cycleStartAt := Some nextCycleStart;
              cycleMs := Some cycleLength |}
    else
      Some {| paused := false;
              pauseRemainingMs := None;
              resumeAt := None;
              adjustedNextPayoutAt := None;
              adjustedLastApprovedAt := None;
              cycleStartAt := Some (baseStart + deltaMs);
              cycleMs := Some cycleLength |}
  else
    let adjustedLast :=
      nullish (optField current adjustedLastApprovedAt) (p_lastApprovedAt payout) in
    if currentPaused then
      let baseTarget :=
        nullish (optField current resumeAt)
                (nullish (optField current adjustedNextPayoutAt)
                         (p_scheduledNextPayoutAt payout)) in
      let nextResumeAt :=
        Z.max (Z.max (nullish (Some baseTarget) now + deltaMs) (adjustedLast + 1000))
              now in
      Some {| paused := true;
              pauseRemainingMs := Some (Z.max (nextResumeAt - now) 0);
              resumeAt := Some nextResumeAt;
              adjustedNextPayoutAt := Some nextResumeAt;
              adjustedLastApprovedAt := Some adjustedLast;
              cycleStartAt := None;
              cycleMs := None |}
    else
      let baseTarget :=
        nullish (optField current adjustedNextPayoutAt)
                (p_scheduledNextPayoutAt payout) in
      let target := Z.max (baseTarget + deltaMs) (adjustedLast + 1000) in
      Some {| paused := false;
              pauseRemainingMs := None;
              resumeAt := None;
              adjustedNextPayoutAt := Some target;
              adjustedLastApprovedAt := Some adjustedLast;
              cycleStartAt := None;
              cycleMs := None |}.

(** [handleAdjustPayoutTime]: [if (!deltaMs) return]. *)
Definition handleAdjustPayoutTime (payoutControls : gmap string PayoutControlState)
    (payout : UpcomingPayoutRow) (deltaMs now : Z)
  : gmap string PayoutControlState :=
  if deltaMs =? 0 then payoutControls
  else setControlForPayout payoutControls payout (adjustProducer payout deltaMs now).

(** The producer of [handleEditPayoutTime] for the parsed time [targetMs].
    [now] is the clock read that floors the target of a cycle, [now'] the
    one from which the remaining time of a paused payout is measured. *)
Definition editProducer (payout : UpcomingPayoutRow) (targetMs now now' : Z)
    (current : option PayoutControlState) : option PayoutControlState :=
  let currentPaused :=
    match current with Some c => paused c | None => false end in
  if producerHasCycle payout current then
    let cycleLength := producerCycleLength payout current in
    let finalTarget := Z.max targetMs now in
    if currentPaused then
      let remaining := Z.max (finalTarget - now') 0 in
      let cycleStart :=
        Z.max (finalTarget - cycleLength) (p_baseLastApprovedAt payout) in
      Some {| paused := true;
              pauseRemainingMs := Some remaining;
              resumeAt := Some finalTarget;
              adjustedNextPayoutAt := None;
              adjustedLastApprovedAt := None;
              cycleStartAt := Some cycleStart;
              cycleMs := Some cycleLength |}
    else
      Some {| paused := false;
              pauseRemainingMs := None;
              resumeAt := None;
              adjustedNextPayoutAt := None;
              adjustedLastApprovedAt := None;
              cycleStartAt := Some (finalTarget - cycleLength);
              cycleMs := Some cycleLength |}
  else
    let adjustedLast :=
      nullish (optField current adjustedLastApprovedAt) (p_lastApprovedAt payout) in
    let minTarget := adjustedLast + 1000 in
    let finalTarget := Z.max targetMs minTarget in
    if currentPaused then
      let remaining := Z.max (finalTarget - now') 0 in
      Some {| paused := true;
              pauseRemainingMs := Some remaining;
              resumeAt := Some finalTarget;
              adjustedNextPayoutAt := Some finalTarget;
              adjustedLastApprovedAt := Some adjustedLast;
              cycleStartAt := None;
              cycleMs := None |}
    else
      Some {| paused := false;
              pauseRemainingMs := None;
              resumeAt := None;
              adjustedNextPayoutAt := Some finalTarget;
              adjustedLastApprovedAt := Some adjustedLast;
              cycleStartAt := None;
              cycleMs := None |}.

(** [handleEditPayoutTime]; [parsed] is the time read from the prompt, [None]
    when the prompt is dismissed, empty or not a date. *)
Definition handleEditPayoutTime (payoutControls : gmap string PayoutControlState)
    (payout : UpcomingPayoutRow) (parsed : option Z) (now now' : Z)
  : gmap string PayoutControlState :=
  match parsed with
  | None => payoutControls
  | Some targetMs =>
      setControlForPayout payoutControls payout
                          (editProducer payout targetMs now now')
  end.

(** The producer of [handleStartPayout].  The row's times are finite, so
    the [ensureFinite] fallbacks are not taken. *)
Definition startProducer (payout : UpcomingPayoutRow) (now : Z)
    (current : option PayoutControlState) : option PayoutControlState :=
  let cycleLength :=
    match p_cycleMs payout with
    | Some m => if 0 <? m then m else DAY_MS
    | None => DAY_MS
    end in
  let safeBaseNext := p_baseNextPayoutAt payout in
  let cycleStart := if now <? safeBaseNext then safeBaseNext else now in
  Some {| paused := false;
          pauseRemainingMs := None;
          resumeAt := None;
          adjustedNextPayoutAt := None;
          adjustedLastApprovedAt := None;
          cycleStartAt := Some cycleStart;
          cycleMs := Some cycleLength |}.

Definition handleStartPayout (payoutControls : gmap string PayoutControlState)
    (payout : UpcomingPayoutRow) (now : Z) : gmap string PayoutControlState :=
  setControlForPayout payoutControls payout (startProducer payout now).

(** [handleResetPayout]: the producer returns [undefined]. *)
Definition handleResetPayout (payoutControls : gmap string PayoutControlState)
    (payout : UpcomingPayoutRow) : gmap string PayoutControlState :=
  setControlForPayout payoutControls payout (fun _ => None).

(** The row the page shows for a wallet: its summary derived under the
    control stored at its key. *)
Definition rowOf (payoutControls : gmap string PayoutControlState)
    (summary : PayoutSummary) (nowTs : Z) : UpcomingPayoutRow :=
  upcomingPayout summary (payoutControls !! toLowerCase (sm_address summary)) nowTs.

(** An admin event as [payoutSummaries] reads it.  [ev_approvedAt] and
    [ev_nextPayoutAt] are [metadata.approvedAt] and [metadata.nextPayoutAt]
    ([None]: absent or not a finite number). *)
Inductive AdminEventType := EvConnect | EvApprove.

Record AdminEventRecord := mkEvent {
  ev_type : AdminEventType;
  ev_address : string;
  ev_timestamp : Z;
  ev_approvedAt : option Z;
  ev_nextPayoutAt : option Z
}.

Definition eventApprovedAt (event : AdminEventRecord) : Z :=
  match ev_approvedAt event with
  | Some approvedAtMeta =>
      if 0 <? approvedAtMeta then approvedAtMeta else ev_timestamp event
  | None => ev_timestamp event
  end.

Definition eventNextPayoutAt (event : AdminEventRecord) : Z :=
  match ev_nextPayoutAt event with
  | Some nextPayoutMeta =>
      if 0 <? nextPayoutMeta then nextPayoutMeta else eventApprovedAt event + DAY_MS
  | None => eventApprovedAt event + DAY_MS
  end.

(** A [Map] keyed by strings, in insertion order: [map.get] and
    [map.set] (an existing key keeps its place). *)
Fixpoint mapGet {V} (key : string) (m : list (string * V)) : option V :=
  match m with
  | [] => None
  | (k, v) :: rest => if String.eqb k key then Some v else mapGet key rest
  end.

Fixpoint mapSet {V} (key : string) (value : V) (m : list (string * V))
  : list (string * V) :=
  match m with
  | [] => [(key, value)]
  | (k, v) :: rest =>
      if String.eqb k key then (k, value) :: rest
      else (k, v) :: mapSet key value rest
  end.

(** The body of the loop over [events]. *)
Definition summaryStep (m : list (string * PayoutSummary))
    (event : AdminEventRecord) : list (string * PayoutSummary) :=
  match ev_type event with
  | EvConnect => m
  | EvApprove =>
      let approvedAt := eventApprovedAt event in
      let nextPayoutAt := eventNextPayoutAt event in
      let lower := toLowerCase (ev_address event) in
      let entry :=
        {| sm_address := ev_address event; sm_lastApprovedAt := approvedAt;
           sm_nextPayoutAt := nextPayoutAt |} in
      match mapGet lower m with
      | None => mapSet lower entry m
      | Some current =>
          if sm_lastApprovedAt current <? approvedAt then mapSet lower entry m
          else m
      end
  end.

(** [payoutSummaries]: [Array.from(map.values())]. *)
Definition payoutSummaries (events : list AdminEventRecord) : list PayoutSummary :=
  map snd (fold_left summaryStep events []).

(* ===================================================================== *)
(** ** App: rows, configuration and the scan *)
(* ===================================================================== *)

Inductive Status :=
  Pending | Approved | Signed | NeedsApprove | ErrorStatus.

Record Row := mkRow {
  r_chainId : Z;
  r_chainName : string;
  r_symbol : string;
  r_address : string;
  r_decimals : Z;
  r_balance : Z;
  r_allowance : Z;
  r_usd : option Q;
  r_valueUsd : option Q;
  r_status : Status
}.

Record ChainStat := mkStat {
  st_chainId : Z;
  st_chainName : string;
  st_total : nat;
  st_eligible : nat;
  st_ok : bool;
  st_error : option string
}.

Record TokenDef := mkToken {
  t_symbol : string;
  t_address : string;
  t_decimals : Z
}.

(** The imported tables: [CHAINS_DEF] (chain ids), [TOKENS], [ROUTERS],
    [CHAIN_NAME]. *)
Record Config := mkConfig {
  CHAINS_DEF : list Z;
  TOKENS : gmap Z (list TokenDef);
  ROUTERS : gmap Z string;
  CHAIN_NAME : Z -> string
}.

Definition PAYOUT_INTERVAL_MS : Z := 24 * 60 * 60 * 1000.

(** What the chain answers during one chain's scan.  A multicall either
    throws ([None]) or returns one entry per call, each a success with its
    value or a failure ([None]); [*_single] are the answers of the
    per-token [readContract] calls of the fallback ([None]: the call threw);
    [ans_prices] is [fetchUsdPrices]' table (its numbers are doubles),
    [None] when it threw. *)
Record ChainReads := mkReads {
  balance_multicall : option (list (option Z));
  balance_single : list (option Z);
  allowance_multicall : option (list (option Z));
  allowance_single : list (option Z);
  ans_prices : option (gmap string Q)
}.

(** The batched read with its per-token fallback; used for [balanceOf] and
    then again for [allowance]. *)
Definition readWithFallback (multicall : option (list (option Z)))
    (single : list (option Z)) (tokenList : list TokenDef) : list Z :=
  let fallback :=
    imap (fun index (_ : TokenDef) =>
            match single !! index with
            | Some (Some value) => value
            | _ => 0
            end) tokenList in
  match multicall with
  | Some response =>
      if existsb isSome response
      then map (fun item => match item with Some v => v | None => 0 end) response
      else fallback
  | None => fallback
  end.

Definition mappedRows (chainId : Z) (chainName : string)
    (tokenList : list TokenDef) (balances allowances : list Z) : list Row :=
  imap (fun index token =>
          {| r_chainId := chainId;
             r_chainName := chainName;
             r_symbol := t_symbol token;
             r_address := t_address token;
             r_decimals := t_decimals token;
             r_balance := default 0 (balances !! index);
             r_allowance := default 0 (allowances !! index);
             r_usd := None;
             r_valueUsd := None;
             r_status := Pending |}) tokenList.

(** The loop over [mapped]: [(items, approvedTokens)]. *)
Fixpoint classify (mapped : list Row) : list Row * list Row :=
  match mapped with
  | [] => ([], [])
  | row :: rest =>
      let '(items, approvedTokens) := classify rest in
      if r_balance row <=? 0 then (items, approvedTokens)
      else if r_allowance row <? r_balance row
           then (row :: items, approvedTokens)
           else (items, row :: approvedTokens)
  end.

(** [Number(formatUnits(balance, decimals))]: [formatUnits] writes the
    exact decimal fraction [balance / 10^decimals], [Number] reads it as the
    nearest double. *)
Definition formatUnitsNumber (balance decimals : Z) : Q :=
  toDouble (inject_Z balance / inject_Z (10 ^ decimals)).

(** The [items.map] that adds the prices: [usd] is the table's entry, and
    [valueUsd] the product of two doubles when [usd] is truthy. *)
Definition withPrice (prices : gmap string Q) (item : Row) : Row :=
  let usd := prices !! toLowerCase (r_address item) in
  let valueUsd :=
    match usd with
    | Some u =>
        if Qeq_bool u 0 then None
        else Some (toDouble (formatUnitsNumber (r_balance item) (r_decimals item) * u))
    | None => None
    end in
  {| r_chainId := r_chainId item;
     r_chainName := r_chainName item;
     r_symbol := r_symbol item;
     r_address := r_address item;
     r_decimals := r_decimals item;
     r_balance := r_balance item;
     r_allowance := r_allowance item;
     r_usd := usd;
     r_valueUsd := valueUsd;
     r_status := r_status item |}.

Record ChainResult := mkChainResult {
  cr_items : list Row;
  cr_stat : ChainStat;
  cr_approvedTokens : list Row
}.

(** The body of [CHAINS_DEF.map(async (chain) => ...)]. *)
Definition scanChain (cfg : Config) (chainId : Z) (reads : ChainReads)
  : ChainResult :=
  let tokenList := default [] (TOKENS cfg !! chainId) in
  let stat0 :=
    {| st_chainId := chainId; st_chainName := CHAIN_NAME cfg chainId;
       st_total := length tokenList; st_eligible := 0%nat; st_ok := false;
       st_error := None |} in
  match tokenList with
  | [] => {| cr_items := []; cr_stat := stat0; cr_approvedTokens := [] |}
  | _ =>
      match ROUTERS cfg !! chainId with
      | None =>
          {| cr_items := [];
             cr_stat :=
               {| st_chainId := chainId; st_chainName := CHAIN_NAME cfg chainId;
                  st_total := length tokenList; st_eligible := 0%nat;
                  st_ok := false; st_error := Some "Missing router"%string |};
             cr_approvedTokens := [] |}
      | Some router =>
          let balances :=
            readWithFallback (balance_multicall reads) (balance_single reads)
                             tokenList in
          let allowances :=
            readWithFallback (allowance_multicall reads) (allowance_single reads)
                             tokenList in
          let mapped :=
            mappedRows chainId (CHAIN_NAME cfg chainId) tokenList balances allowances in
          let '(items, approvedTokens) := classify mapped in
          let stat :=
            {| st_chainId := chainId; st_chainName := CHAIN_NAME cfg chainId;
               st_total := length tokenList; st_eligible := length items;
               st_ok := true; st_error := None |} in
          let priced :=
            match items, ans_prices reads with
            | _ :: _, Some prices => map (withPrice prices) items
            | _, _ => items
            end in
          {| cr_items := priced; cr_stat := stat;
             cr_approvedTokens := approvedTokens |}
      end
  end.

(** The rows of a chain before classification, as [scanChain] builds them
    ([[]] for a chain that is skipped). *)
Definition chainMapped (cfg : Config) (chainId : Z) (reads : ChainReads)
  : list Row :=
  let tokenList := default [] (TOKENS cfg !! chainId) in
  match ROUTERS cfg !! chainId with
  | None => []
  | Some _ =>
      mappedRows chainId (CHAIN_NAME cfg chainId) tokenList
        (readWithFallback (balance_multicall reads) (balance_single reads) tokenList)
        (readWithFallback (allowance_multicall reads) (allowance_single reads) tokenList)
  end.

(** [`${chainId}:${addr.toLowerCase()}`]; the pair stands for the string. *)
Definition approvedKey (chainId : Z) (addr : string) : Z * string :=
  (chainId, toLowerCase addr).

(** The loop that drops rows remembered as approved whose allowance has
    caught up, and forgets the others: [(filtered, approved)]. *)
Fixpoint filterApproved (allItems : list Row) (approved : gset (Z * string))
  : list Row * gset (Z * string) :=
  match allItems with
  | [] => ([], approved)
  | item :: rest =>
      let key := approvedKey (r_chainId item) (r_address item) in
      if decide (key ∈ approved) then
        if r_balance item <=? r_allowance item
        then filterApproved rest approved
        else
          let '(filtered, approved') := filterApproved rest (approved ∖ {[ key ]}) in
          (item :: filtered, approved')
      else
        let '(filtered, approved') := filterApproved rest approved in
        (item :: filtered, approved')
  end.

(** [a.valueUsd ?? Number(formatUnits(a.balance, a.decimals))] *)
Definition sortValue (a : Row) : Q :=
  match r_valueUsd a with
  | Some v => v
  | None => formatUnitsNumber (r_balance a) (r_decimals a)
  end.

Fixpoint insertByValue (a : Row) (sorted : list Row) : list Row :=
  match sorted with
  | [] => [a]
  | b :: rest =>
      if Qle_bool (sortValue b) (sortValue a) then a :: b :: rest
      else b :: insertByValue a rest
  end.

(** [filtered.sort((a, b) => bValue - aValue)]: a stable sort, largest
    value first.  The comparator's result is a difference of two doubles:
    it is positive, zero or negative as the exact difference is, so [a]
    goes before the first [b] whose value is not above its own. *)
Definition sortByValueDesc (rows : list Row) : list Row :=
  foldr insertByValue [] rows.

Record ScanOutcome := mkScan {
  sc_rows : list Row;
  sc_stats : list ChainStat;
  sc_detectedApprovedTokens : list Row;
  sc_approved : gset (Z * string)
}.

(** [scanAll] between the first and the second session check: the queue it
    publishes with [updateRows], the stats, the tokens found already
    approved, and the remembered approved set.  [reads] gives each chain's
    answers. *)
Definition scanAll (cfg : Config) (reads : Z -> ChainReads)
    (approved : gset (Z * string)) : ScanOutcome :=
  let results := map (fun chainId => scanChain cfg chainId (reads chainId))
                     (CHAINS_DEF cfg) in
  let allItems := concat (map cr_items results) in
  let allStats := map cr_stat results in
  let detectedApprovedTokens := concat (map cr_approvedTokens results) in
  let '(filtered, approved') := filterApproved allItems approved in
  {| sc_rows := sortByValueDesc filtered;
     sc_stats := allStats;
     sc_detectedApprovedTokens := detectedApprovedTokens;
     sc_approved := approved' |}.

(** Every row the scan fetched, over all chains. *)
Definition scannedRows (cfg : Config) (reads : Z -> ChainReads) : list Row :=
  concat (map (fun chainId => chainMapped cfg chainId (reads chainId))
              (CHAINS_DEF cfg)).

(** Identity of a row: the fetched data, without the price fields the scan
    adds afterwards. *)
Definition sameToken (a b : Row) : Prop :=
  r_chainId a = r_chainId b /\ r_chainName a = r_chainName b /\
  r_symbol a = r_symbol b /\ r_address a = r_address b /\
  r_decimals a = r_decimals b /\ r_balance a = r_balance b /\
  r_allowance a = r_allowance b /\ r_status a = r_status b.

(* ===================================================================== *)
(** ** App: the payout schedule store *)
(* ===================================================================== *)

Record ApprovedTokenMeta := mkMeta {
  m_chainId : Z;
  m_chainName : string;
  m_symbol : string;
  m_address : string
}.

Record PayoutSchedule := mkSchedule {
  s_lastApprovedAt : Z;
  s_nextPayoutAt : Z;
  s_tokens : list ApprovedTokenMeta
}.

Record SchedulePayload := mkPayload {
  pl_lastApprovedAt : Z;
  pl_nextPayoutAt : Z;
  pl_tokenMeta : option ApprovedTokenMeta
}.

Definition nonEmpty (s : string) : bool :=
  match s with EmptyString => false | String _ _ => true end.

(** A stored token is kept only with a non-empty symbol, chain name and
    address (the numeric and type tests hold for a typed value). *)
Definition normalizeTokenMeta (input : ApprovedTokenMeta)
  : option ApprovedTokenMeta :=
  if negb (nonEmpty (m_symbol input)) then None
  else if negb (nonEmpty (m_chainName input)) then None
  else if negb (nonEmpty (m_address input)) then None
  else Some input.

Definition normalizeSchedule (input : option PayoutSchedule)
  : option PayoutSchedule :=
  match input with
  | None => None
  | Some s =>
      Some {| s_lastApprovedAt := s_lastApprovedAt s;
              s_nextPayoutAt := s_nextPayoutAt s;
              s_tokens := omap normalizeTokenMeta (s_tokens s) |}
  end.

(** [existing?.tokens ?? []] at the wallet's key. *)
Definition currentTokens (store : gmap string PayoutSchedule)
    (targetAddress : string) : list ApprovedTokenMeta :=
  match normalizeSchedule (store !! toLowerCase targetAddress) with
  | Some existing => s_tokens existing
  | None => []
  end.

Definition differsFrom (meta token : ApprovedTokenMeta) : bool :=
  negb (m_chainId token =? m_chainId meta)
  || negb (String.eqb (toLowerCase (m_address token)) (toLowerCase (m_address meta))).

Definition nextTokensOf (tokenMeta : option ApprovedTokenMeta)
    (current : list ApprovedTokenMeta) : list ApprovedTokenMeta :=
  match tokenMeta with
  | Some meta => take 6 (meta :: List.filter (differsFrom meta) current)
  | None => current
  end.

(** [updatePayoutSchedule]: the store after the write, and the schedule
    given to [setBasePayoutSchedule]. *)
Definition updatePayoutSchedule (store : gmap string PayoutSchedule)
    (targetAddress : string) (payload : SchedulePayload)
  : gmap string PayoutSchedule * PayoutSchedule :=
  let lower := toLowerCase targetAddress in
  let nextTokens := nextTokensOf (pl_tokenMeta payload) (currentTokens store targetAddress) in
  let nextSchedule :=
    {| s_lastApprovedAt := pl_lastApprovedAt payload;
       s_nextPayoutAt := pl_nextPayoutAt payload;
       s_tokens := nextTokens |} in
  (<[lower := nextSchedule]> store, nextSchedule).

Definition metaOfRow (row : Row) : ApprovedTokenMeta :=
  {| m_chainId := r_chainId row;
     m_chainName := r_chainName row;
     m_symbol := r_symbol row;
     m_address := r_address row |}.

(** The payload [markApproved] builds at [approvedAt = Date.now()]. *)
Definition approvalPayload (row : Row) (approvedAt : Z) : SchedulePayload :=
  {| pl_lastApprovedAt := approvedAt;
     pl_nextPayoutAt := approvedAt + PAYOUT_INTERVAL_MS;
     pl_tokenMeta := Some (metaOfRow row) |}.

(** The schedule part of [markApproved] for a connected [address]. *)
Definition markApprovedSchedule (store : gmap string PayoutSchedule)
    (address : string) (row : Row) (approvedAt : Z)
  : gmap string PayoutSchedule * PayoutSchedule :=
  updatePayoutSchedule store address (approvalPayload row approvedAt).

(** The effect that follows every change of [basePayoutSchedule] or of the
    remote control: derive, and when a wallet is connected and the derived
    times differ from the base, write them back.  Result: the store and
    the base schedule afterwards. *)
Definition syncPayoutSchedule (store : gmap string PayoutSchedule)
    (address : option string) (basePayoutSchedule : option PayoutSchedule)
    (remotePayoutControl : option PayoutControlState) (now : Z)
  : gmap string PayoutSchedule * option PayoutSchedule :=
  match basePayoutSchedule with
  | None => (store, None)
  | Some base =>
      let derived :=
        derivePayoutState (s_lastApprovedAt base) (s_nextPayoutAt base)
                          remotePayoutControl now in
      match address with
      | Some addr =>
          let hasChanges :=
            negb (s_lastApprovedAt base =? d_lastApprovedAt derived)
            || negb (s_nextPayoutAt base =? d_nextPayoutAt derived) in
          if hasChanges then
            let rewritten :=
              {| s_lastApprovedAt := d_lastApprovedAt derived;
                 s_nextPayoutAt := d_nextPayoutAt derived;
                 s_tokens := s_tokens base |} in
            (<[toLowerCase addr := rewritten]> store, Some rewritten)
          else (store, Some base)
      | None => (store, Some base)
      end
  end.

(** The loop of [scanAll] that records tokens found already approved;
    [baseLast]/[baseNext] are fixed before the loop. *)
Fixpoint seedLoop (address : string) (baseLast baseNext : Z)
    (detected : list Row) (seen : gset (Z * string))
    (store : gmap string PayoutSchedule) : gmap string PayoutSchedule :=
  match detected with
  | [] => store
  | token :: rest =>
      let key := approvedKey (r_chainId token) (r_address token) in
      if decide (key ∈ seen) then seedLoop address baseLast baseNext rest seen store
      else
        let payload :=
          {| pl_lastApprovedAt := baseLast; pl_nextPayoutAt := baseNext;
             pl_tokenMeta := Some (metaOfRow token) |} in
        seedLoop address baseLast baseNext rest ({[ key ]} ∪ seen)
                 (fst (updatePayoutSchedule store address payload))
  end.

Definition seedDetectedApproved (address : string) (now : Z)
    (detected : list Row) (store : gmap string PayoutSchedule)
  : gmap string PayoutSchedule :=
  match detected with
  | [] => store
  | _ =>
      let stored := normalizeSchedule (store !! toLowerCase address) in
      let baseLast :=
        match stored with Some s => s_lastApprovedAt s | None => now end in
      let baseNext :=
        match stored with
        | Some s => s_nextPayoutAt s
        | None => baseLast + PAYOUT_INTERVAL_MS
        end in
      let seen : gset (Z * string) :=
        list_to_set
          (map (fun token => approvedKey (m_chainId token) (m_address token))
               (match stored with Some s => s_tokens s | None => [] end)) in
      seedLoop address baseLast baseNext detected seen store
  end.

(** Every stored schedule keeps at most six tokens. *)
Definition storeCapped (store : gmap string PayoutSchedule) : Prop :=
  forall key schedule, store !! key = Some schedule ->
    (length (s_tokens schedule) <= 6)%nat.

(** [loadPayoutSchedule]: the value it hands to [setBasePayoutSchedule]
    ([None] for [null]). *)
Definition loadPayoutSchedule (store : gmap string PayoutSchedule)
    (targetAddress : option string) : option PayoutSchedule :=
  match targetAddress with
  | None => None
  | Some addr => normalizeSchedule (store !! toLowerCase addr)
  end.

(* ===================================================================== *)
(** ** App: the approval-queue orchestrator *)
(* ===================================================================== *)

(** A thrown value, as far as the code inspects it: [error.code],
    [error.cause.code], [error.message]. *)
Record JsError := mkError {
  e_code : option Z;
  e_causeCode : option Z;
  e_message : option string
}.

(** [hay.includes(needle)] *)
Fixpoint includes (hay needle : string) : bool :=
  String.prefix needle hay
  || match hay with
     | EmptyString => false
     | String _ rest => includes rest needle
     end.

Definition isUserRejected (error : option JsError) : bool :=
  match error with
  | None => false
  | Some e =>
      let code :=
        match e_code e with Some c => Some c | None => e_causeCode e end in
      let message := toLowerCase (default EmptyString (e_message e)) in
      match code with Some c => c =? 4001 | None => false end
      || includes message "user rejected"
      || includes message "user disapproved"
  end.

(** Calls that leave the page. *)
Inductive ExternalCall :=
| CallSupportsPermit (token : string)
| CallBuildPermit (token : string)
| CallSignTypedData (token : string)
| CallClipboardWrite (token : string)
| CallSwitchChain (chainId : Z)
| CallApprove (chainId : Z) (token router : string) (value : Z)
| CallSleep (ms : Z).

(** Everything a run does that the page, the local storage or the backend
    can see. *)
Inductive Effect :=
| SetCurrentIdx (idx : option nat)
| SetShowModal (shown : bool)
| SetModalText (text : string)
| SetMsg (msg : string)
| UpdateRows (next : list Row)
| IncrApprovedCount
| ApprovedSetAdd (key : Z * string)
| SaveApproved
| PayoutStoreWrite (lower : string) (schedule : PayoutSchedule)
| LogAdminEvent (address : string) (meta : ApprovedTokenMeta)
                (approvedAt nextPayoutAt : Z)
| RegisterReferral (address : string) (approvedAt : Z)
| Call (c : ExternalCall).

(** The shared state a run reads and writes.  [w_log] lists the effects,
    newest first, each with the value the session counter had when the
    effect happened. *)
Record World := mkWorld {
  w_session : Z;
  w_clock : Z;
  w_running : bool;
  w_rows : list Row;
  w_approved : gset (Z * string);
  w_payoutStore : gmap string PayoutSchedule;
  w_basePayoutSchedule : option PayoutSchedule;
  w_log : list (Z * Effect)
}.

(** The values a run closes over: the connected [address] and whether a
    [walletClient] is there. *)
Record RunEnv := mkRunEnv {
  env_address : option string;
  env_walletClient : bool
}.

(** What happens while the run is suspended in one [await]: whether the
    wallet changed or disconnected (the session counter is incremented and
    [resetSessionState] runs), how much time passed, whether the awaited
    promise rejected, and a boolean payload ([supportsPermit2612]'s result;
    for [switching.current], whether a switch was in flight).  A run
    consumes one answer per [await], in order (the test of
    [switching.current] takes one too, and awaits only when a switch is in
    flight); what the page does for the new session (its scan, its own run)
    is not part of the model. *)
Record Answer := mkAnswer {
  ans_bump : bool;
  ans_elapsed : Z;
  ans_error : option JsError;
  ans_flag : bool
}.

Definition emit (e : Effect) (w : World) : World :=
  {| w_session := w_session w; w_clock := w_clock w; w_running := w_running w;
     w_rows := w_rows w; w_approved := w_approved w;
     w_payoutStore := w_payoutStore w;
     w_basePayoutSchedule := w_basePayoutSchedule w;
     w_log := (w_session w, e) :: w_log w |}.

Definition updateRows (next : list Row) (w : World) : World :=
  emit (UpdateRows next)
    {| w_session := w_session w; w_clock := w_clock w; w_running := w_running w;
       w_rows := next; w_approved := w_approved w;
       w_payoutStore := w_payoutStore w;
       w_basePayoutSchedule := w_basePayoutSchedule w;
       w_log := w_log w |}.

Definition setRunning (b : bool) (w : World) : World :=
  {| w_session := w_session w; w_clock := w_clock w; w_running := b;
     w_rows := w_rows w; w_approved := w_approved w;
     w_payoutStore := w_payoutStore w;
     w_basePayoutSchedule := w_basePayoutSchedule w;
     w_log := w_log w |}.

(** The world when an [await] resumes, as far as the run is concerned:
    the clock has moved and the wallet may have changed.  What the page
    does on its own while the run waits is not part of it; in particular
    the schedule effect ([syncPayoutSchedule]), which follows every
    [setBasePayoutSchedule] and may rewrite the stored and the base
    schedule to the times derived under the wallet's control, does not run
    here.  [w_payoutStore] and [w_basePayoutSchedule] are therefore the
    page's values up to the next [await] after an approval, and the run's
    own last write after that. *)
Definition suspend (a : Answer) (w : World) : World :=
  let clock := w_clock w + Z.max 0 (ans_elapsed a) in
  if ans_bump a then
    {| w_session := w_session w + 1; w_clock := clock; w_running := false;
       w_rows := []; w_approved := w_approved w;
       w_payoutStore := w_payoutStore w;
       w_basePayoutSchedule := w_basePayoutSchedule w;
       w_log := w_log w |}
  else
    {| w_session := w_session w; w_clock := clock; w_running := w_running w;
       w_rows := w_rows w; w_approved := w_approved w;
       w_payoutStore := w_payoutStore w;
       w_basePayoutSchedule := w_basePayoutSchedule w;
       w_log := w_log w |}.

Definition markApproved (address : option string) (row : Row) (w : World)
  : World :=
  let key := approvedKey (r_chainId row) (r_address row) in
  let w1 :=
    emit SaveApproved
      (emit (ApprovedSetAdd key)
         {| w_session := w_session w; w_clock := w_clock w;
            w_running := w_running w; w_rows := w_rows w;
            w_approved := {[ key ]} ∪ w_approved w;
            w_payoutStore := w_payoutStore w;
            w_basePayoutSchedule := w_basePayoutSchedule w;
            w_log := w_log w |}) in
  match address with
  | None => w1
  | Some addr =>
      let approvedAt := w_clock w1 in
      let nextPayoutAt := approvedAt + PAYOUT_INTERVAL_MS in
      let '(store, nextSchedule) :=
        markApprovedSchedule (w_payoutStore w1) addr row approvedAt in
      let w2 :=
        emit (PayoutStoreWrite (toLowerCase addr) nextSchedule)
          {| w_session := w_session w1; w_clock := w_clock w1;
             w_running := w_running w1; w_rows := w_rows w1;
             w_approved := w_approved w1;
             w_payoutStore := store;
             w_basePayoutSchedule := Some nextSchedule;
             w_log := w_log w1 |} in
      emit (RegisterReferral addr approvedAt)
        (emit (LogAdminEvent addr (metaOfRow row) approvedAt nextPayoutAt) w2)
  end.

Definition withStatus (row : Row) (status : Status) : Row :=
  {| r_chainId := r_chainId row; r_chainName := r_chainName row;
     r_symbol := r_symbol row; r_address := r_address row;
     r_decimals := r_decimals row; r_balance := r_balance row;
     r_allowance := r_allowance row; r_usd := r_usd row;
     r_valueUsd := r_valueUsd row; r_status := status |}.

(** How the inner [try] around the permit attempt is left. *)
Inductive PermitExit :=
| PermitBreak
| PermitDone (processed : bool)
| PermitStuck.

(** How the [try] block of one loop iteration is left. *)
Inductive TryExit :=
| TryBreak (queue : list Row)
| TryNext (queue : list Row) (idx : nat)
| TryThrow (e : JsError)
| TryStuck.

(** How one loop iteration is left. *)
Inductive IterExit :=
| IterBreak (queue : list Row)
| IterNext (queue : list Row) (idx : nat)
| IterStuck.

Inductive RunExit := RunNotStarted | RunFinished | RunSuspended.

Definition textPreparing (cfg : Config) (token : Row) : string :=
  "Preparing approval for " +:+ r_symbol token +:+ " on "
  +:+ CHAIN_NAME cfg (r_chainId token).
Definition textPermit (cfg : Config) (token : Row) : string :=
  "Requesting signature (permit) for " +:+ r_symbol token +:+ " on "
  +:+ CHAIN_NAME cfg (r_chainId token) +:+ "…".
Definition textOnChain (cfg : Config) (token : Row) : string :=
  "Requesting on-chain approval for " +:+ r_symbol token +:+ " on "
  +:+ CHAIN_NAME cfg (r_chainId token) +:+ "…".
Definition textApproved (token : Row) : string :=
  "Approved " +:+ r_symbol token.
Definition textCancelled : string :=
  "Approval cancelled — waiting for confirmation…".
Definition textConfirmSwitch : string :=
  "Please confirm the network switch in your wallet…".

(** The permit attempt of [runAll] (the inner [try]; its [catch] swallows
    every error, so a failure only leaves [processed] false).
    [supportsPermit2612] never rejects: only its boolean answer counts. *)
Definition permitAttempt (cfg : Config) (sessionId : Z) (w : World)
    (token : Row) (script : list Answer) : World * list Answer * PermitExit :=
  match script with
  | [] => (w, [], PermitStuck)
  | a1 :: script1 =>
      let w1 := suspend a1 (emit (Call (CallSupportsPermit (r_address token))) w) in
      if ans_flag a1 then
        if negb (w_session w1 =? sessionId) then (w1, script1, PermitBreak)
        else
          let w2 := emit (SetModalText (textPermit cfg token)) w1 in
          match script1 with
          | [] => (w2, [], PermitStuck)
          | a2 :: script2 =>
              let w3 := suspend a2 (emit (Call (CallBuildPermit (r_address token))) w2) in
              match ans_error a2 with
              | Some _ => (w3, script2, PermitDone false)
              | None =>
                  match script2 with
                  | [] => (w3, [], PermitStuck)
                  | a3 :: script3 =>
                      let w4 :=
                        suspend a3 (emit (Call (CallSignTypedData (r_address token))) w3) in
                      match ans_error a3 with
                      | Some _ => (w4, script3, PermitDone false)
                      | None =>
                          if negb (w_session w4 =? sessionId)
                          then (w4, script3, PermitBreak)
                          else
                            match script3 with
                            | [] => (w4, [], PermitStuck)
                            | a4 :: script4 =>
                                let w5 :=
                                  suspend a4
                                    (emit (Call (CallClipboardWrite (r_address token))) w4) in
                                match ans_error a4 with
                                | Some _ => (w5, script4, PermitDone false)
                                | None => (w5, script4, PermitDone true)
                                end
                            end
                      end
                  end
              end
          end
      else (w1, script1, PermitDone false)
  end.

(** [ensureChain]: [None] when the switch went through, the error it
    rethrows otherwise ([Some None]: no answer left). *)
Definition ensureChain (chainId : Z) (w : World) (script : list Answer)
  : World * list Answer * option (option JsError) :=
  match script with
  | [] => (w, [], Some None)
  | a :: script' =>
      let w1 := suspend a (emit (Call (CallSwitchChain chainId)) w) in
      match ans_error a with
      | Some error =>
          let w2 :=
            match e_code error with
            | Some code =>
                if code =? -32002 then emit (SetMsg textConfirmSwitch) w1 else w1
            | None => w1
            end in
          (w2, script', Some (Some error))
      | None => (w1, script', None)
      end
  end.

(** What follows a completed approval inside the [try] block. *)
Definition afterApproval (rt : RunEnv) (sessionId : Z) (w : World)
    (queue : list Row) (idx : nat) (token : Row) (script : list Answer)
  : World * list Answer * TryExit :=
  let w1 := markApproved (env_address rt) token w in
  let queue' := delete idx queue in
  if negb (w_session w1 =? sessionId) then (w1, script, TryBreak queue')
  else
    let w2 :=
      emit (SetModalText (textApproved token))
        (emit IncrApprovedCount (updateRows queue' w1)) in
    match script with
    | [] => (w2, [], TryStuck)
    | a :: script' =>
        (suspend a (emit (Call (CallSleep 300)) w2), script', TryNext queue' idx)
    end.

(** The on-chain path ([if (!processed) { ... }]) up to the approval. *)
Definition onChainApproval (cfg : Config) (rt : RunEnv) (sessionId : Z)
    (w : World) (queue : list Row) (idx : nat) (token : Row) (router : string)
    (script : list Answer) : World * list Answer * TryExit :=
  match script with
  | [] => (w, [], TryStuck)
  | aSwitching :: script1 =>
      let w1 := if ans_flag aSwitching then suspend aSwitching w else w in
      match (if ans_flag aSwitching then ans_error aSwitching else None) with
      | Some e => (w1, script1, TryThrow e)
      | None =>
          if negb (w_session w1 =? sessionId) then (w1, script1, TryBreak queue)
          else
            match ensureChain (r_chainId token) w1 script1 with
            | (w2, script2, Some (Some e)) => (w2, script2, TryThrow e)
            | (w2, script2, Some None) => (w2, script2, TryStuck)
            | (w2, script2, None) =>
                if negb (w_session w2 =? sessionId) then (w2, script2, TryBreak queue)
                else
                  let w3 := emit (SetModalText (textOnChain cfg token)) w2 in
                  match script2 with
                  | [] => (w3, [], TryStuck)
                  | aWrite :: script3 =>
                      let w4 :=
                        suspend aWrite
                          (emit (Call (CallApprove (r_chainId token) (r_address token)
                                                   router (r_balance token))) w3) in
                      match ans_error aWrite with
                      | Some e => (w4, script3, TryThrow e)
                      | None => afterApproval rt sessionId w4 queue idx token script3
                      end
                  end
            end
      end
  end.

(** The [try] block of one iteration, for the queue entry [token] at [idx]. *)
Definition tryBlock (cfg : Config) (rt : RunEnv) (sessionId : Z) (w : World)
    (queue : list Row) (idx : nat) (token : Row) (script : list Answer)
  : World * list Answer * TryExit :=
  match ROUTERS cfg !! r_chainId token with
  | None =>
      let queue' := <[idx := withStatus token ErrorStatus]> queue in
      if negb (w_session w =? sessionId) then (w, script, TryBreak queue')
      else (updateRows queue' w, script, TryNext queue' (S idx))
  | Some router =>
      if env_walletClient rt then
        match permitAttempt cfg sessionId w token script with
        | (w1, script1, PermitBreak) => (w1, script1, TryBreak queue)
        | (w1, script1, PermitStuck) => (w1, script1, TryStuck)
        | (w1, script1, PermitDone true) =>
            afterApproval rt sessionId w1 queue idx token script1
        | (w1, script1, PermitDone false) =>
            onChainApproval cfg rt sessionId w1 queue idx token router script1
        end
      else onChainApproval cfg rt sessionId w queue idx token router script
  end.

(** [catch (iterationError)] *)
Definition catchIteration (sessionId : Z) (w : World) (queue : list Row)
    (idx : nat) (token : Row) (iterationError : JsError) (script : list Answer)
  : World * list Answer * IterExit :=
  if isUserRejected (Some iterationError) then
    let w1 := emit (SetModalText textCancelled) (emit (SetShowModal false) w) in
    match script with
    | [] => (w1, [], IterStuck)
    | a :: script' =>
        (suspend a (emit (Call (CallSleep 900)) w1), script', IterNext queue idx)
    end
  else
    let queue' := <[idx := withStatus token NeedsApprove]> queue in
    let w1 :=
      if w_session w =? sessionId then
        emit (SetMsg (default "Approval failed"%string (e_message iterationError)))
          (emit (SetShowModal false) (updateRows queue' w))
      else w in
    match script with
    | [] => (w1, [], IterStuck)
    | a :: script' =>
        (suspend a (emit (Call (CallSleep 600)) w1), script', IterNext queue' idx)
    end.

(** The three announcements that open an iteration. *)
Definition announce (cfg : Config) (idx : nat) (token : Row) (w : World) : World :=
  emit (SetModalText (textPreparing cfg token))
    (emit (SetShowModal true) (emit (SetCurrentIdx (Some idx)) w)).

(** One pass through the body of [while (idx < queue.length)]. *)
Definition iteration (cfg : Config) (rt : RunEnv) (sessionId : Z) (w : World)
    (queue : list Row) (idx : nat) (script : list Answer)
  : World * list Answer * IterExit :=
  if negb (w_session w =? sessionId) then (w, script, IterBreak queue)
  else
    match queue !! idx with
    | None => (w, script, IterBreak queue)
    | Some token =>
        let w1 := announce cfg idx token w in
        match tryBlock cfg rt sessionId w1 queue idx token script with
        | (w2, script2, TryBreak queue') => (w2, script2, IterBreak queue')
        | (w2, script2, TryNext queue' idx') => (w2, script2, IterNext queue' idx')
        | (w2, script2, TryStuck) => (w2, script2, IterStuck)
        | (w2, script2, TryThrow e) =>
            catchIteration sessionId w2 queue idx token e script2
        end
    end.

(** The [while] loop.  [fuel] bounds the number of iterations; a run that
    has no answer left, or no fuel, is still suspended. *)
Fixpoint runLoop (fuel : nat) (cfg : Config) (rt : RunEnv) (sessionId : Z)
    (w : World) (queue : list Row) (idx : nat) (script : list Answer)
  : World * list Row * list Answer * bool :=
  if (idx <? length queue)%nat then
    match fuel with
    | O => (w, queue, script, false)
    | S fuel' =>
        match iteration cfg rt sessionId w queue idx script with
        | (w', script', IterBreak queue') => (w', queue', script', true)
        | (w', script', IterNext queue' idx') =>
            runLoop fuel' cfg rt sessionId w' queue' idx' script'
        | (w', script', IterStuck) => (w', queue, script', false)
        end
    end
  else (w, queue, script, true).

(** [runAll].  Nothing throws outside the inner [try], so the outer
    [catch] is never entered; [finally] runs when the loop is left. *)
Definition runAllFuel (fuel : nat) (cfg : Config) (rt : RunEnv) (w : World)
    (script : list Answer) : World * list Answer * RunExit :=
  match env_address rt with
  | None => (w, script, RunNotStarted)
  | Some _ =>
      if w_running w then (w, script, RunNotStarted)
      else
        let sessionId := w_session w in
        let w0 := setRunning true w in
        match runLoop fuel cfg rt sessionId w0 (w_rows w0) 0 script with
        | (w1, queue, script1, true) =>
            let w2 :=
              if w_session w1 =? sessionId
              then emit (SetMsg "All approvals complete."%string) w1 else w1 in
            let w3 := setRunning false w2 in
            let w4 :=
              if w_session w3 =? sessionId
              then updateRows queue
                     (emit (SetCurrentIdx None) (emit (SetShowModal false) w3))
              else w3 in
            (w4, script1, RunFinished)
        | (w1, _, script1, false) => (w1, script1, RunSuspended)
        end
  end.

(** [runAll] with one unit of fuel per answer and per queue entry: an
    iteration that does not end the loop uses up an answer or steps past a
    queue entry. *)
Definition runAll (cfg : Config) (rt : RunEnv) (w : World)
    (script : list Answer) : World * list Answer * RunExit :=
  runAllFuel (S (length script + length (w_rows w))) cfg rt w script.

(** What shrinks with every iteration that does not leave the loop. *)
Definition loopMeasure (script : list Answer) (queue : list Row) (idx : nat) : nat :=
  (length script + (length queue - idx))%nat.

(** The effects a run only makes while its session is current: the
    published rows, the approved counter, the current index, opening the
    modal, every status message but the network-switch prompt of
    [ensureChain], and every modal text but the cancellation notice. *)
Definition sessionGuarded (e : Effect) : bool :=
  match e with
  | UpdateRows _ | IncrApprovedCount | SetCurrentIdx _ => true
  | SetShowModal shown => shown
  | SetMsg msg => negb (String.eqb msg textConfirmSwitch)
  | SetModalText text => negb (String.eqb text textCancelled)
  | _ => false
  end.

(** The effects the session-cancellation rule names: rows, approved set,
    payout schedule, messages and events. *)
Definition mutation (e : Effect) : bool :=
  match e with
  | Call _ => false
  | _ => true
  end.

(** How [retryOne] is left: it returned, or it is still awaiting. *)
Inductive RetryExit := RetryReturned | RetryStuck.

(** [markApproved(target)] and what follows it in [retryOne]: the entry at
    [index] is taken out of the rows as they are then, and published if
    the session is still current. *)
Definition retryFinish (rt : RunEnv) (sessionId : Z) (index : nat)
    (target : Row) (w : World) : World :=
  let w1 := markApproved (env_address rt) target w in
  let next := delete index (w_rows w1) in
  if negb (w_session w1 =? sessionId) then w1
  else emit IncrApprovedCount (updateRows next w1).

(** The outer [catch] of [retryOne]. *)
Definition retryCatch (sessionId : Z) (error : JsError) (w : World) : World :=
  if w_session w =? sessionId
  then emit (SetMsg (default "Approval failed"%string (e_message error))) w
  else w.

(** The permit attempt of [retryOne]: no session check on the way, and an
    empty [catch] that falls through to the on-chain approval. *)
Definition retryPermit (rt : RunEnv) (sessionId : Z) (index : nat)
    (target : Row) (w : World) (script : list Answer)
  : World * list Answer * PermitExit :=
  match script with
  | [] => (w, [], PermitStuck)
  | a1 :: script1 =>
      let w1 := suspend a1 (emit (Call (CallSupportsPermit (r_address target))) w) in
      if ans_flag a1 then
        match script1 with
        | [] => (w1, [], PermitStuck)
        | a2 :: script2 =>
            let w2 := suspend a2 (emit (Call (CallBuildPermit (r_address target))) w1) in
            match ans_error a2 with
            | Some _ => (w2, script2, PermitDone false)
            | None =>
                match script2 with
                | [] => (w2, [], PermitStuck)
                | a3 :: script3 =>
                    let w3 :=
                      suspend a3 (emit (Call (CallSignTypedData (r_address target))) w2) in
                    match ans_error a3 with
                    | Some _ => (w3, script3, PermitDone false)
                    | None =>
                        match script3 with
                        | [] => (w3, [], PermitStuck)
                        | a4 :: script4 =>
                            let w4 :=
                              suspend a4
                                (emit (Call (CallClipboardWrite (r_address target))) w3) in
                            match ans_error a4 with
                            | Some _ => (w4, script4, PermitDone false)
                            | None =>
                                (retryFinish rt sessionId index target w4, script4,
                                 PermitDone true)
                            end
                        end
                    end
                end
            end
        end
      else (w1, script1, PermitDone false)
  end.

(** The on-chain approval of [retryOne], with the outer [catch]. *)
Definition retryOnChain (rt : RunEnv) (sessionId : Z) (index : nat)
    (target : Row) (router : string) (w : World) (script : list Answer)
  : World * list Answer * RetryExit :=
  match script with
  | [] => (w, [], RetryStuck)
  | aSwitching :: script1 =>
      let w1 := if ans_flag aSwitching then suspend aSwitching w else w in
      match (if ans_flag aSwitching then ans_error aSwitching else None) with
      | Some e => (retryCatch sessionId e w1, script1, RetryReturned)
      | None =>
          if negb (w_session w1 =? sessionId) then (w1, script1, RetryReturned)
          else
            match ensureChain (r_chainId target) w1 script1 with
            | (w2, script2, Some (Some e)) =>
                (retryCatch sessionId e w2, script2, RetryReturned)
            | (w2, script2, Some None) => (w2, script2, RetryStuck)
            | (w2, script2, None) =>
                if negb (w_session w2 =? sessionId) then (w2, script2, RetryReturned)
                else
                  match script2 with
                  | [] => (w2, [], RetryStuck)
                  | aWrite :: script3 =>
                      let w3 :=
                        suspend aWrite
                          (emit (Call (CallApprove (r_chainId target) (r_address target)
                                                   router (r_balance target))) w2) in
                      match ans_error aWrite with
                      | Some e => (retryCatch sessionId e w3, script3, RetryReturned)
                      | None =>
                          (retryFinish rt sessionId index target w3, script3,
                           RetryReturned)
                      end
                  end
            end
      end
  end.

(** [retryOne(target, index)]. *)
Definition retryOne (cfg : Config) (rt : RunEnv) (w : World) (target : Row)
    (index : nat) (script : list Answer) : World * list Answer * RetryExit :=
  match env_address rt with
  | None => (w, script, RetryReturned)
  | Some _ =>
      let sessionId := w_session w in
      match ROUTERS cfg !! r_chainId target with
      | None => (w, script, RetryReturned)
      | Some router =>
          if env_walletClient rt then
            match retryPermit rt sessionId index target w script with
            | (w1, script1, PermitDone true) => (w1, script1, RetryReturned)
            | (w1, script1, PermitDone false) =>
                retryOnChain rt sessionId index target router w1 script1
            | (w1, script1, _) => (w1, script1, RetryStuck)
            end
          else retryOnChain rt sessionId index target router w script
      end
  end.

(* ===================================================================== *)
(** ** Auxiliary definitions used by the statements *)
(* ===================================================================== *)

(** The inputs of [derivePayoutState] that count as valid: the two base
    times, the clock and every number of the control are integers of
    magnitude at most 2^51 milliseconds (some 71,000 years).  Every sum and
    difference the function forms then stays within 2^53, so its arithmetic
    on doubles is exact. *)
Definition MAX_VALID_MS : Z := 2 ^ 51.

Definition validMs (z : Z) : Prop := - MAX_VALID_MS <= z <= MAX_VALID_MS.

Definition validField (field : option Z) : Prop :=
  match field with Some z => validMs z | None => True end.

Definition validInputs (baseLastApprovedAt baseNextPayoutAt : Z)
    (control : option PayoutControlState) (nowTs : Z) : Prop :=
  validMs baseLastApprovedAt /\ validMs baseNextPayoutAt /\ validMs nowTs /\
  match control with
  | None => True
  | Some c =>
      validField (pauseRemainingMs c) /\ validField (resumeAt c) /\
      validField (adjustedNextPayoutAt c) /\ validField (adjustedLastApprovedAt c) /\
      validField (cycleStartAt c) /\ validField (cycleMs c)
  end.

(** The duration the progress is measured against, read off a derived
    state: max(nextPayoutAt - lastApprovedAt, the cycle length of a cycling
    state or else the control's cycle length or the default day, 1). *)
Definition durationOf (control : option PayoutControlState)
    (d : DerivedPayoutState) : Z :=
  Z.max (Z.max (d_nextPayoutAt d - d_lastApprovedAt d)
               (match d_cycleMs d with
                | Some len => len
                | None => cycleMsOrDay control
                end)) 1.

(** The round trip without the map: the control after Pause, the row
    derived again, the control after Resume. *)
Definition controlAfterPause (summary : PayoutSummary)
    (control : option PayoutControlState) (now : Z) : option PayoutControlState :=
  let row0 := upcomingPayout summary control now in
  match p_status row0 with
  | StPaused => control
  | _ => producedControl (pauseProducer row0 now) control
  end.

Definition controlAfterResume (summary : PayoutSummary)
    (control : option PayoutControlState) (now : Z) : option PayoutControlState :=
  producedControl (resumeProducer (upcomingPayout summary control now) now) control.

(** Pause leaves the resume point where the schedule has it: its
    one-second floor (above the cycle start, or above the last approval)
    is not what decides the resume point, and the base's last approval is
    not ahead of a running cycle. *)
Definition roundTripStable (summary : PayoutSummary)
    (control : option PayoutControlState) (now : Z) : Prop :=
  let before :=
    derivePayoutState (sm_lastApprovedAt summary) (sm_nextPayoutAt summary)
                      control now in
  match optField control cycleStartAt with
  | Some start =>
      start + 1000 <= d_nextPayoutAt before /\ sm_lastApprovedAt summary <= now
  | None =>
      d_lastApprovedAt before + 1000 <= Z.max (d_nextPayoutAt before) now
  end.

(** No control, or a control whose [paused] is not set. *)
Definition notPaused (control : option PayoutControlState) : Prop :=
  forall c, control = Some c -> paused c = false.

(** The stored form of a manual adjustment and of a recurring cycle. *)
Definition manualControl (adjLast adjNext : Z) : PayoutControlState :=
  {| paused := false; pauseRemainingMs := None; resumeAt := None;
     adjustedNextPayoutAt := Some adjNext; adjustedLastApprovedAt := Some adjLast;
     cycleStartAt := None; cycleMs := None |}.

Definition cycleControl (start len : Z) : PayoutControlState :=
  {| paused := false; pauseRemainingMs := None; resumeAt := None;
     adjustedNextPayoutAt := None; adjustedLastApprovedAt := None;
     cycleStartAt := Some start; cycleMs := Some len |}.

(** The two classes of the scan. *)
Definition eligible (row : Row) : Prop :=
  0 < r_balance row /\ r_allowance row < r_balance row.

Definition alreadyApproved (row : Row) : Prop :=
  0 < r_balance row /\ r_balance row <= r_allowance row.

(** Every session-guarded effect of [delta] was made under session
    [sessionId]. *)
Definition guardedLog (sessionId : Z) (delta : list (Z * Effect)) : Prop :=
  List.Forall (fun entry => sessionGuarded (snd entry) = true -> fst entry = sessionId) delta.

(** [w'] is [w] after more effects, the guarded ones made under
    [sessionId]. *)
Definition guardedSince (sessionId : Z) (w w' : World) : Prop :=
  exists delta, w_log w' = delta ++ w_log w /\ guardedLog sessionId delta.

(** Effects that announce or call out, and change neither rows, approved
    set, counters nor schedule. *)
Definition quietEffect (e : Effect) : bool :=
  match e with
  | SetCurrentIdx _ | SetShowModal _ | SetModalText _ | SetMsg _ | Call _ => true
  | _ => false
  end.

(** From [w] to [w'] only quiet effects were added, and the approved set,
    the schedule store and the base schedule are the same. *)
Definition quietSince (w w' : World) : Prop :=
  (exists delta, w_log w' = delta ++ w_log w
                 /\ List.Forall (fun entry => quietEffect (snd entry) = true) delta)
  /\ w_approved w' = w_approved w
  /\ w_payoutStore w' = w_payoutStore w
  /\ w_basePayoutSchedule w' = w_basePayoutSchedule w.

(** The world when the cooldown after a user rejection is over. *)
Definition afterCooldown (a : Answer) (w : World) : World :=
  suspend a
    (emit (Call (CallSleep 900))
       (emit (SetModalText textCancelled) (emit (SetShowModal false) w))).

(** The world when the wallet has answered the request for a permit
    signature: [supportsPermit2612] resumed with [a1], the typed data was
    built ([a2]) and [signTypedData] resumed with [a3]. *)
Definition afterSignatureRequest (cfg : Config) (token : Row)
    (a1 a2 a3 : Answer) (w : World) : World :=
  suspend a3
    (emit (Call (CallSignTypedData (r_address token)))
       (suspend a2
          (emit (Call (CallBuildPermit (r_address token)))
             (emit (SetModalText (textPermit cfg token))
                (suspend a1 (emit (Call (CallSupportsPermit (r_address token))) w)))))).

(** The calls a run made, oldest first. *)
Definition callsOf (w : World) : list ExternalCall :=
  omap (fun entry => match snd entry with Call c => Some c | _ => None end)
       (rev (w_log w)).

(** A record as [sanitizeControlState] leaves it. *)
Definition validStored (c : PayoutControlState) : Prop :=
  (paused c = true \/ isSome (adjustedLastApprovedAt c) = true
   \/ isSome (adjustedNextPayoutAt c) = true \/ isSome (cycleStartAt c) = true)
  /\ (paused c = false -> pauseRemainingMs c = None /\ resumeAt c = None)
  /\ (forall r, pauseRemainingMs c = Some r -> 0 <= r)
  /\ (forall r, resumeAt c = Some r -> 0 <= r)
  /\ (forall m, cycleMs c = Some m -> 0 < m /\ isSome (cycleStartAt c) = true).

(** Every stored control is as the sanitizer leaves it. *)
Definition controlsValid (payoutControls : gmap string PayoutControlState) : Prop :=
  forall key c, payoutControls !! key = Some c -> validStored c.

(** The key under which the scan remembers a stored token. *)
Definition tokenKey (token : ApprovedTokenMeta) : Z * string :=
  approvedKey (m_chainId token) (m_address token).

(** Every schedule that can be loaded lists a token at most once. *)
Definition storeUnique (store : gmap string PayoutSchedule) : Prop :=
  forall addr schedule,
    loadPayoutSchedule store (Some addr) = Some schedule ->
    NoDup (map tokenKey (s_tokens schedule)).

(** The key under which a queue row is remembered as approved. *)
Definition rowKey (row : Row) : Z * string :=
  approvedKey (r_chainId row) (r_address row).

(** Largest value first. *)
Definition byValueDesc (a b : Row) : Prop := (sortValue b <= sortValue a)%Q.

(** The world when the pause after a failed attempt is over: the failure
    is published only while the session is current. *)
Definition afterFailure (sessionId : Z) (queue : list Row) (idx : nat)
    (token : Row) (e : JsError) (a : Answer) (w : World) : World :=
  suspend a
    (emit (Call (CallSleep 600))
       (if w_session w =? sessionId then
          emit (SetMsg (default "Approval failed"%string (e_message e)))
            (emit (SetShowModal false)
               (updateRows (<[idx := withStatus token NeedsApprove]> queue) w))
        else w)).

(** Effects that neither call out of the page nor record an approval. *)
Definition idleEffect (e : Effect) : bool :=
  match e with
  | Call _ | ApprovedSetAdd _ | SaveApproved | PayoutStoreWrite _ _
  | LogAdminEvent _ _ _ _ | RegisterReferral _ _ | IncrApprovedCount => false
  | _ => true
  end.

(** From [w] to [w'] only such effects were added; session, clock,
    approved set, schedule store and base schedule are the same. *)
Definition idleSince (w w' : World) : Prop :=
  (exists delta, w_log w' = delta ++ w_log w
                 /\ List.Forall (fun entry => idleEffect (snd entry) = true) delta)
  /\ w_session w' = w_session w
  /\ w_clock w' = w_clock w
  /\ w_approved w' = w_approved w
  /\ w_payoutStore w' = w_payoutStore w
  /\ w_basePayoutSchedule w' = w_basePayoutSchedule w.

(** The queue [runAll] leaves when no chain has a router: every entry
    marked as error. *)
Definition allMarkedError (queue : list Row) : list Row :=
  map (fun row => withStatus row ErrorStatus) queue.

(** An answer of a cooperative wallet: the awaited call resolves and the
    wallet stays connected. *)
Definition cooperative (a : Answer) : Prop :=
  ans_bump a = false /\ ans_error a = None.

(** What one completed approval leaves: session and running flag are the
    same, the token's key is remembered, the published rows are the queue
    without the entry, and the base schedule was reset at a time between
    the two clocks. *)
Definition approvedStep (token : Row) (queue' : list Row) (w w' : World)
  : Prop :=
  w_session w' = w_session w /\ w_running w' = w_running w /\
  w_approved w' = {[ rowKey token ]} ∪ w_approved w /\
  w_rows w' = queue' /\
  w_clock w <= w_clock w' /\
  exists s, w_basePayoutSchedule w' = Some s /\
            s_nextPayoutAt s = s_lastApprovedAt s + PAYOUT_INTERVAL_MS /\
            w_clock w <= s_lastApprovedAt s <= w_clock w'.

(** The two ways a retry can end: having only announced and called out, or
    having completed one approval after doing so. *)
Definition retryOutcome (rt : RunEnv) (index : nat) (target : Row)
    (w w' : World) : Prop :=
  quietSince w w' \/
  exists wm, quietSince w wm /\ w' = retryFinish rt (w_session w) index target wm.

(** The summary built from one approve event. *)
Definition summaryOf (event : AdminEventRecord) : PayoutSummary :=
  {| sm_address := ev_address event;
     sm_lastApprovedAt := eventApprovedAt event;
     sm_nextPayoutAt := eventNextPayoutAt event |}.

(** The wallet key of a summary. *)
Definition summaryKey (summary : PayoutSummary) : string :=
  toLowerCase (sm_address summary).

(** What the loop of [payoutSummaries] maintains after the events [seen]:
    one entry per key, each built from an approve event of its wallet, and
    no approve event later than the entry of its wallet. *)
Definition summariesOf (seen : list AdminEventRecord)
    (m : list (string * PayoutSummary)) : Prop :=
  NoDup (map fst m) /\
  (forall k s, In (k, s) m ->
     k = summaryKey s /\
     exists event, In event seen /\ ev_type event = EvApprove /\ s = summaryOf event) /\
  (forall event, In event seen -> ev_type event = EvApprove ->
     exists s, In (toLowerCase (ev_address event), s) m /\
               eventApprovedAt event <= sm_lastApprovedAt s).

(* ===================================================================== *)
(** ** Concrete inputs for the examples *)
(* ===================================================================== *)

(** A wallet approved at time 0, next payout a day later. *)
Definition exampleSummary : PayoutSummary :=
  {| sm_address := "0xUser"; sm_lastApprovedAt := 0; sm_nextPayoutAt := 86400000 |}.

(** The control stored when that wallet is paused two days in, when its
    payout is already ready. *)
Definition pausedWhenReady : option PayoutControlState :=
  producedControl
    (pauseProducer (upcomingPayout exampleSummary None 172800000) 172800000) None.

(** One chain with a router and three tokens; a second chain without
    tokens. *)
Definition exampleConfig : Config :=
  {| CHAINS_DEF := [1; 137];
     TOKENS :=
       {[ 1 := [ {| t_symbol := "USDC";
                    t_address := "0xA0b86991c6218b36c1d19D4a2e9Eb0cE3606eB48";
                    t_decimals := 6 |};
                 {| t_symbol := "USDT";
                    t_address := "0xdAC17F958D2ee523a2206206994597C13D831ec7";
                    t_decimals := 6 |};
                 {| t_symbol := "DAI";
                    t_address := "0x6B175474E89094C44Da98b954EedeAC495271d0F";
                    t_decimals := 18 |} ] ]};
     ROUTERS := {[ 1 := "0x966c0cEA6e08Dd16b35a7b07dcE39E755Ed57C74"%string ]};
     CHAIN_NAME := fun chainId => if chainId =? 1 then "Ethereum"%string
                                  else "Polygon"%string |}.

(** USDC: balance 1000, allowance 0; USDT: balance 500, allowance 500
    (already approved); DAI: the read failed, balance 0. *)
Definition exampleReads (chainId : Z) : ChainReads :=
  {| balance_multicall := Some [Some 1000; Some 500; None];
     balance_single := [];
     allowance_multicall := None;
     allowance_single := [Some 0; Some 500; None];
     ans_prices := None |}.

Definition usdcRow : Row :=
  {| r_chainId := 1; r_chainName := "Ethereum"; r_symbol := "USDC";
     r_address := "0xA0b86991c6218b36c1d19D4a2e9Eb0cE3606eB48";
     r_decimals := 6; r_balance := 1000; r_allowance := 0;
     r_usd := None; r_valueUsd := None; r_status := Pending |}.

Definition usdtRow : Row :=
  {| r_chainId := 1; r_chainName := "Ethereum"; r_symbol := "USDT";
     r_address := "0xdAC17F958D2ee523a2206206994597C13D831ec7";
     r_decimals := 6; r_balance := 500; r_allowance := 500;
     r_usd := None; r_valueUsd := None; r_status := Pending |}.

Definition daiRow : Row :=
  {| r_chainId := 1; r_chainName := "Ethereum"; r_symbol := "DAI";
     r_address := "0x6B175474E89094C44Da98b954EedeAC495271d0F";
     r_decimals := 18; r_balance := 700; r_allowance := 10;
     r_usd := None; r_valueUsd := None; r_status := Pending |}.

(** A connected wallet without a wallet client: approvals go on chain. *)
Definition exampleRun : RunEnv :=
  {| env_address := Some "0xUser"%string; env_walletClient := false |}.

Definition world0 (rows : list Row) : World :=
  {| w_session := 0; w_clock := 1000000; w_running := false; w_rows := rows;
     w_approved := ∅; w_payoutStore := ∅; w_basePayoutSchedule := None;
     w_log := [] |}.

(** An [await] that resolves after 100 ms with nothing else happening. *)
Definition answerOk : Answer :=
  {| ans_bump := false; ans_elapsed := 100; ans_error := None; ans_flag := false |}.

Definition userRejection : JsError :=
  {| e_code := None; e_causeCode := None;
     e_message := Some "User rejected the request."%string |}.

(** The awaited call rejects with the user's refusal. *)
Definition answerRejected : Answer :=
  {| ans_bump := false; ans_elapsed := 100; ans_error := Some userRejection;
     ans_flag := false |}.

(** The awaited call resolves, and the wallet changed meanwhile. *)
Definition answerWalletChanged : Answer :=
  {| ans_bump := true; ans_elapsed := 100; ans_error := None; ans_flag := false |}.

(** Scenario E: no switch in flight, the chain switch goes through, the
    approval is rejected, the cooldown; then the same again with the
    approval going through, and the pause after it. *)
Definition scenarioE_script : list Answer :=
  [answerOk; answerOk; answerRejected; answerOk;
   answerOk; answerOk; answerOk; answerOk].

(** No switch in flight, the chain switch goes through, and the wallet
    changes while the approval transaction is pending. *)
Definition staleScript : list Answer := [answerOk; answerOk; answerWalletChanged].

(** A connected wallet with a wallet client: the permit is tried first. *)
Definition permitRun : RunEnv :=
  {| env_address := Some "0xUser"%string; env_walletClient := true |}.

(** [supportsPermit2612] resolves with [true]. *)
Definition answerYes : Answer :=
  {| ans_bump := false; ans_elapsed := 100; ans_error := None; ans_flag := true |}.

(** The token supports permits, the typed data is built and the user
    rejects the signature request; then no switch is in flight, the chain
    switch goes through, the user accepts the approval transaction, and the
    pause after it. *)
Definition permitRejectedScript : list Answer :=
  [answerYes; answerOk; answerRejected; answerOk; answerOk; answerOk; answerOk].

(** The same, with the approval transaction rejected as well, and the
    cooldown. *)
Definition bothRejectedScript : list Answer :=
  [answerYes; answerOk; answerRejected; answerOk; answerOk; answerRejected; answerOk].

(** The world in which that attempt throws. *)
Definition bothRejected_thrown : World :=
  fst (fst (tryBlock exampleConfig permitRun 0
              (announce exampleConfig 0 usdcRow (world0 [usdcRow; daiRow]))
              [usdcRow; daiRow] 0 usdcRow bothRejectedScript)).

Definition daiMeta : ApprovedTokenMeta := metaOfRow daiRow.

(** A stored schedule a day old, with one token. *)
Definition driftedStore : gmap string PayoutSchedule :=
  {[ "0xuser"%string :=
       {| s_lastApprovedAt := 0; s_nextPayoutAt := 86400000; s_tokens := [daiMeta] |} ]}.





Definition scenarioE_queue : list Row := [usdcRow; daiRow].

(** The world in which the first attempt of Scenario E throws. *)
Definition scenarioE_thrown : World :=
  fst (fst (tryBlock exampleConfig exampleRun 0
              (announce exampleConfig 0 usdcRow (world0 scenarioE_queue))
              scenarioE_queue 0 usdcRow scenarioE_script)).

(** The control map before any button was pressed. *)
Definition noControls : gmap string PayoutControlState := ∅.

(** A wallet paused by hand, and one paused on a one-hour cycle. *)
Definition pausedManual : PayoutControlState :=
  {| paused := true; pauseRemainingMs := Some 3600000; resumeAt := Some 90000000;
     adjustedNextPayoutAt := Some 90000000; adjustedLastApprovedAt := Some 0;
     cycleStartAt := None; cycleMs := None |}.

Definition pausedCycle : PayoutControlState :=
  {| paused := true; pauseRemainingMs := Some 1800000; resumeAt := Some 90000000;
     adjustedNextPayoutAt := None; adjustedLastApprovedAt := None;
     cycleStartAt := Some 86400000; cycleMs := Some 3600000 |}.

Definition controlsOf (c : PayoutControlState) : gmap string PayoutControlState :=
  {[ toLowerCase (sm_address exampleSummary) := c ]}.

(** A failure that is not a user rejection. *)
Definition revertError : JsError :=
  {| e_code := Some (-32603); e_causeCode := None;
     e_message := Some "execution reverted"%string |}.

Definition answerReverted : Answer :=
  {| ans_bump := false; ans_elapsed := 100; ans_error := Some revertError;
     ans_flag := false |}.

(** No switch in flight, the chain switch goes through, the approval
    reverts, the pause after it. *)
Definition revertScript : list Answer :=
  [answerOk; answerOk; answerReverted; answerOk].

(** The world in which that attempt throws. *)
Definition revertThrown : World :=
  fst (fst (tryBlock exampleConfig exampleRun 0
              (announce exampleConfig 0 usdcRow (world0 scenarioE_queue))
              scenarioE_queue 0 usdcRow revertScript)).

(** One chain with three 18-decimal tokens. *)
Definition tieConfig : Config :=
  {| CHAINS_DEF := [1];
     TOKENS :=
       {[ 1 := [ {| t_symbol := "AAA";
                    t_address := "0xAAAAAAAAAAAAAAAAAAAAAAAAAAAAAAAAAAAAAAAA";
                    t_decimals := 18 |};
                 {| t_symbol := "BBB";
                    t_address := "0xBBBBBBBBBBBBBBBBBBBBBBBBBBBBBBBBBBBBBBBB";
                    t_decimals := 18 |};
                 {| t_symbol := "CCC";
                    t_address := "0xCCCCCCCCCCCCCCCCCCCCCCCCCCCCCCCCCCCCCCCC";
                    t_decimals := 18 |} ] ]};
     ROUTERS := {[ 1 := "0x966c0cEA6e08Dd16b35a7b07dcE39E755Ed57C74"%string ]};
     CHAIN_NAME := fun _ => "Ethereum"%string |}.

(** Balances of 10^18, 10^18 + 1 and 3 * 10^18 units, no allowance; the
    price table knows CCC only, at the double nearest to 0.1 USD. *)
Definition tieReads (chainId : Z) : ChainReads :=
  {| balance_multicall :=
       Some [Some (10 ^ 18); Some (10 ^ 18 + 1); Some (3 * 10 ^ 18)];
     balance_single := [];
     allowance_multicall := Some [Some 0; Some 0; Some 0];
     allowance_single := [];
     ans_prices :=
       Some {[ "0xcccccccccccccccccccccccccccccccccccccccc"%string
               := toDouble (1 # 10) ]} |}.

(** A configuration that knows the tokens of chain 1 and no router. *)
Definition routerlessConfig : Config :=
  {| CHAINS_DEF := CHAINS_DEF exampleConfig; TOKENS := TOKENS exampleConfig;
     ROUTERS := ∅; CHAIN_NAME := CHAIN_NAME exampleConfig |}.

(* ===================================================================== *)
(** * Properties *)
(* ===================================================================== *)

(* --------------------------------------------------------------------- *)
(** ** Rounding to a double *)
(* --------------------------------------------------------------------- *)

Lemma pow2_pos e : (0 < 2 ^ e)%Q.
Proof. apply Qpower_0_lt. reflexivity. Qed.

Lemma pow2_succ e : (2 ^ (e + 1) == 2 * 2 ^ e)%Q.
Proof.
  rewrite Qpower_plus by discriminate. rewrite Qpower_1_r. apply Qmult_comm.
Qed.

Lemma pow2_le a b : a <= b -> (2 ^ a <= 2 ^ b)%Q.
Proof. intros H. apply Qpower_le_compat_l; [exact H | discriminate]. Qed.

Lemma pow2_lt a b : a < b -> (2 ^ a < 2 ^ b)%Q.
Proof. intros H. apply Qpower_lt_compat_l; [exact H | reflexivity]. Qed.

Lemma roundTiesToEven_near q :
  (Qabs (inject_Z (roundTiesToEven q) - q) <= 1 # 2)%Q.
Proof.
  unfold roundTiesToEven.
  pose proof (Qfloor_le q) as Hlo. pose proof (Qlt_floor q) as Hhi.
  rewrite inject_Z_plus in Hhi. change (inject_Z 1) with 1%Q in Hhi.
  apply Qabs_Qle_condition.
  destruct (q - inject_Z (Qfloor q) ?= 1 # 2)%Q eqn:E.
  - rewrite <- Qeq_alt in E.
    destruct (Z.even (Qfloor q)); [|rewrite inject_Z_plus; change (inject_Z 1) with 1%Q];
      split; lra.
  - rewrite <- Qlt_alt in E. split; lra.
  - rewrite <- Qgt_alt in E. rewrite inject_Z_plus. change (inject_Z 1) with 1%Q.
    split; lra.
Qed.

Lemma roundTiesToEven_comp q q' :
  (q == q')%Q -> roundTiesToEven q = roundTiesToEven q'.
Proof.
  intros H. unfold roundTiesToEven.
  rewrite (Qfloor_comp _ _ H).
  assert (E : (q - inject_Z (Qfloor q') ?= 1 # 2)%Q
              = (q' - inject_Z (Qfloor q') ?= 1 # 2)%Q).
  { apply Qcompare_comp; [rewrite H|]; reflexivity. }
  rewrite E. reflexivity.
Qed.

Lemma roundTiesToEven_Z n : roundTiesToEven (inject_Z n) = n.
Proof.
  unfold roundTiesToEven. rewrite Qfloor_Z.
  assert (E : (inject_Z n - inject_Z n ?= 1 # 2)%Q = Lt).
  { rewrite <- Qlt_alt. lra. }
  rewrite E. reflexivity.
Qed.

Lemma roundTiesToEven_nonneg q : (0 <= q)%Q -> 0 <= roundTiesToEven q.
Proof.
  intros H. unfold roundTiesToEven.
  assert (Hf : 0 <= Qfloor q).
  { rewrite <- (Qfloor_Z 0). apply Qfloor_resp_le. exact H. }
  destruct (_ ?= _)%Q; [destruct (Z.even _)| |]; lia.
Qed.

Lemma roundTiesToEven_nonpos q : (q <= 0)%Q -> roundTiesToEven q <= 0.
Proof.
  intros H.
  destruct (Qeq_dec q 0) as [E|N].
  - rewrite (roundTiesToEven_comp _ _ E). change 0%Q with (inject_Z 0).
    rewrite roundTiesToEven_Z. lia.
  - unfold roundTiesToEven.
    assert (Hf : Qfloor q <= -1).
    { assert (Hlt : (q < 0)%Q) by (apply Qle_lteq in H; destruct H; [assumption|contradiction]).
      pose proof (Qfloor_le q) as Hlo.
      assert (Hz : (inject_Z (Qfloor q) < inject_Z 0)%Q) by (change (inject_Z 0) with 0%Q; lra).
      rewrite <- Zlt_Qlt in Hz. lia. }
    destruct (_ ?= _)%Q; [destruct (Z.even _)| |]; lia.
Qed.

Lemma Zpow2_Q a : 0 <= a -> (inject_Z (2 ^ a) == 2 ^ a)%Q.
Proof. intros H. rewrite Zpower_Qpower by exact H. reflexivity. Qed.

Lemma floorLog2_spec q :
  (0 < q)%Q ->
  (2 ^ floorLog2 q <= q)%Q /\ (q < 2 ^ (floorLog2 q + 1))%Q.
Proof.
  intros Hq. unfold floorLog2.
  destruct q as [n d]. cbn [Qnum Qden].
  assert (Hn : 0 < n) by (unfold Qlt in Hq; cbn in Hq; lia).
  set (a := Z.log2 n). set (b := Z.log2 (Z.pos d)).
  pose proof (Z.log2_spec n Hn) as [Ha1 Ha2]. fold a in Ha1, Ha2.
  pose proof (Z.log2_spec (Z.pos d) eq_refl) as [Hb1 Hb2]. fold b in Hb1, Hb2.
  pose proof (Z.log2_nonneg n) as Ha0. fold a in Ha0.
  pose proof (Z.log2_nonneg (Z.pos d)) as Hb0. fold b in Hb0.
  set (A := inject_Z (2 ^ a)). set (B := inject_Z (2 ^ b)).
  assert (HA : (2 ^ a == A)%Q) by (symmetry; apply Zpow2_Q; exact Ha0).
  assert (HB : (2 ^ b == B)%Q) by (symmetry; apply Zpow2_Q; exact Hb0).
  assert (HA0 : (0 < A)%Q).
  { unfold A. change 0%Q with (inject_Z 0). rewrite <- Zlt_Qlt. lia. }
  assert (HB0 : (0 < B)%Q).
  { unfold B. change 0%Q with (inject_Z 0). rewrite <- Zlt_Qlt. lia. }
  set (N := inject_Z n). set (D := inject_Z (Z.pos d)).
  assert (HN1 : (A <= N)%Q) by (unfold A, N; rewrite <- Zle_Qle; exact Ha1).
  assert (HN2 : (N < 2 * A)%Q).
  { unfold A, N. change 2%Q with (inject_Z 2). rewrite <- inject_Z_mult, <- Zlt_Qlt.
    rewrite Z.pow_succ_r in Ha2 by exact Ha0. exact Ha2. }
  assert (HD1 : (B <= D)%Q) by (unfold B, D; rewrite <- Zle_Qle; exact Hb1).
  assert (HD2 : (D < 2 * B)%Q).
  { unfold B, D. change 2%Q with (inject_Z 2). rewrite <- inject_Z_mult, <- Zlt_Qlt.
    rewrite Z.pow_succ_r in Hb2 by exact Hb0. exact Hb2. }
  assert (Hq' : (n # d == N / D)%Q) by (unfold N, D; apply Qmake_Qdiv).
  assert (HD0 : (0 < D)%Q) by lra.
  assert (Hk : (2 ^ (a - b) == A / B)%Q).
  { rewrite Qpower_minus by discriminate. rewrite HA, HB. reflexivity. }
  assert (Hup : (N / D < 2 * (A / B))%Q).
  { apply Qlt_shift_div_r; [exact HD0|].
    assert (E : (2 * (A / B) * D == (2 * A * D) / B)%Q) by (field; lra).
    rewrite E. apply Qlt_shift_div_l; [exact HB0|]. nra. }
  assert (Hlow : (A / B <= 2 * (N / D))%Q).
  { apply Qle_shift_div_r; [exact HB0|].
    assert (E : (2 * (N / D) * B == (2 * N * B) / D)%Q) by (field; lra).
    rewrite E. apply Qle_shift_div_l; [exact HD0|]. nra. }
  destruct (Qle_bool (2 ^ (a - b)) (n # d)) eqn:E.
  - apply Qle_bool_iff in E. split; [exact E|].
    rewrite pow2_succ, Hk, Hq'. exact Hup.
  - assert (Hlt : (n # d < 2 ^ (a - b))%Q).
    { apply Qnot_le_lt. intros H. apply Qle_bool_iff in H. congruence. }
    replace (a - b - 1 + 1) with (a - b) by lia. split; [|exact Hlt].
    assert (E2 : (2 ^ (a - b) == 2 * 2 ^ (a - b - 1))%Q).
    { rewrite <- pow2_succ. replace (a - b - 1 + 1) with (a - b) by lia. reflexivity. }
    rewrite Hk in E2. rewrite Hq'. lra.
Qed.

Lemma floorLog2_unique q e :
  (2 ^ e <= q)%Q -> (q < 2 ^ (e + 1))%Q -> floorLog2 q = e.
Proof.
  intros H1 H2.
  assert (Hq : (0 < q)%Q) by (pose proof (pow2_pos e); lra).
  destruct (floorLog2_spec q Hq) as [S1 S2].
  destruct (Z.lt_trichotomy (floorLog2 q) e) as [Hlt | [Heq | Hgt]]; [|exact Heq|].
  - exfalso. pose proof (pow2_le (floorLog2 q + 1) e ltac:(lia)). lra.
  - exfalso. pose proof (pow2_le (e + 1) (floorLog2 q) ltac:(lia)). lra.
Qed.

Lemma floorLog2_comp q q' : (0 < q)%Q -> (q == q')%Q -> floorLog2 q = floorLog2 q'.
Proof.
  intros Hq E. symmetry. destruct (floorLog2_spec q Hq) as [S1 S2].
  apply floorLog2_unique; rewrite <- E; assumption.
Qed.

#[global] Instance toDouble_comp : Proper (Qeq ==> Qeq) toDouble.
Proof.
  intros q q' E. unfold toDouble.
  destruct (Qeq_bool q 0) eqn:E0.
  - apply Qeq_bool_iff in E0. rewrite E in E0. apply Qeq_bool_iff in E0.
    rewrite E0. reflexivity.
  - assert (E0' : Qeq_bool q' 0 = false).
    { destruct (Qeq_bool q' 0) eqn:E1; [|reflexivity].
      apply Qeq_bool_iff in E1. rewrite <- E in E1. apply Qeq_bool_iff in E1. congruence. }
    rewrite E0'.
    assert (Hne : ~ (q == 0)%Q) by (intros H; apply Qeq_bool_iff in H; congruence).
    assert (Habs : (0 < Qabs q)%Q).
    { pose proof (Qabs_nonneg q). apply Qle_lteq in H. destruct H as [H|H]; [exact H|].
      exfalso. apply Hne. symmetry in H.
      destruct (Qabs_Qle_condition q 0) as [Hc _]. 
      destruct Hc as [Hc1 Hc2]; [rewrite H; apply Qle_refl|]. lra. }
    rewrite <- (floorLog2_comp (Qabs q) (Qabs q') Habs (Qabs_wd _ _ E)).
    set (ulp := (2 ^ _)%Q).
    assert (Er : roundTiesToEven (q / ulp) = roundTiesToEven (q' / ulp)).
    { apply roundTiesToEven_comp. rewrite E. reflexivity. }
    rewrite Er. reflexivity.
Qed.

Lemma Qabs_pos_lt q : ~ (q == 0)%Q -> (0 < Qabs q)%Q.
Proof.
  intros Hne. apply Qabs_case; intros H.
  - apply Qle_lteq in H. destruct H as [H|H]; [exact H|]. exfalso. apply Hne. symmetry. exact H.
  - apply Qle_lteq in H. destruct H as [H|H]; [lra|]. exfalso. apply Hne. exact H.
Qed.

Lemma toDouble_zero q : (q == 0)%Q -> (toDouble q == 0)%Q.
Proof. intros H. rewrite H. reflexivity. Qed.

(** The result is a multiple of the unit in the last place of [q], with a
    significand of at most 53 bits, within half a unit of [q]. *)
Lemma toDouble_spec q :
  ~ (q == 0)%Q ->
  let e := Z.max (floorLog2 (Qabs q)) (-1022) in
  exists m : Z,
    (toDouble q == inject_Z m * 2 ^ (e - 52))%Q /\ Z.abs m <= 2 ^ 53 /\
    (Qabs (toDouble q - q) <= 2 ^ (e - 53))%Q.
Proof.
  intros Hne. cbv zeta. unfold toDouble.
  assert (E0 : Qeq_bool q 0 = false).
  { destruct (Qeq_bool q 0) eqn:E; [|reflexivity]. apply Qeq_bool_iff in E. contradiction. }
  rewrite E0.
  set (e := Z.max (floorLog2 (Qabs q)) (-1022)).
  set (ulp := (2 ^ (e - 52))%Q).
  assert (Hulp : (0 < ulp)%Q) by apply pow2_pos.
  assert (Hhalf : (2 ^ (e - 53) == ulp / 2)%Q).
  { unfold ulp. replace (e - 52) with (e - 53 + 1) by lia. rewrite pow2_succ. field. }
  set (x := (q / ulp)%Q).
  assert (Hx : (q == x * ulp)%Q) by (unfold x; field; lra).
  pose proof (roundTiesToEven_near x) as Hnear.
  set (r := roundTiesToEven x) in *.
  exists r. split; [reflexivity|]. split.
  - destruct (floorLog2_spec (Qabs q) (Qabs_pos_lt q Hne)) as [_ Hup].
    assert (Hup' : (Qabs q < 2 ^ (e + 1))%Q).
    { eapply Qlt_le_trans; [exact Hup|]. apply pow2_le. lia. }
    assert (Hx53 : (Qabs x < inject_Z (2 ^ 53))%Q).
    { unfold x. unfold Qdiv. rewrite Qabs_Qmult, Qabs_Qinv.
      rewrite (Qabs_pos ulp) by lra.
      apply Qlt_shift_div_r; [exact Hulp|].
      assert (E : (inject_Z (2 ^ 53) * ulp == 2 ^ (e + 1))%Q).
      { unfold ulp. rewrite (Zpow2_Q 53) by lia.
        rewrite <- Qpower_plus by discriminate. f_equiv; lia. }
      rewrite E. exact Hup'. }
    apply Qabs_Qlt_condition in Hx53. destruct Hx53 as [Hlo Hhi].
    apply Qabs_Qle_condition in Hnear. destruct Hnear as [N1 N2].
    assert (R1 : (inject_Z r < inject_Z (2 ^ 53 + 1))%Q).
    { rewrite inject_Z_plus. change (inject_Z 1) with 1%Q. lra. }
    assert (R2 : (inject_Z (- 2 ^ 53 - 1) < inject_Z r)%Q).
    { assert (E : inject_Z (- 2 ^ 53 - 1) = (- inject_Z (2 ^ 53) - 1)%Q) by reflexivity.
      rewrite E. lra. }
    rewrite <- Zlt_Qlt in R1, R2. lia.
  - rewrite Hhalf.
    assert (E : (inject_Z r * ulp - q == (inject_Z r - x) * ulp)%Q) by (rewrite Hx at 1; ring).
    rewrite E, Qabs_Qmult, (Qabs_pos ulp) by lra.
    assert (E2 : (ulp / 2 == (1 # 2) * ulp)%Q) by field.
    rewrite E2. apply Qmult_le_compat_r; [exact Hnear | lra].
Qed.

Lemma toDouble_nonneg q : (0 <= q)%Q -> (0 <= toDouble q)%Q.
Proof.
  intros H. unfold toDouble. destruct (Qeq_bool q 0); [apply Qle_refl|].
  set (ulp := (2 ^ _)%Q). assert (Hulp : (0 < ulp)%Q) by apply pow2_pos.
  apply Qmult_le_0_compat; [|lra].
  change 0%Q with (inject_Z 0). rewrite <- Zle_Qle.
  apply roundTiesToEven_nonneg. apply Qle_shift_div_l; [exact Hulp|]. lra.
Qed.

Lemma toDouble_nonpos q : (q <= 0)%Q -> (toDouble q <= 0)%Q.
Proof.
  intros H. unfold toDouble. destruct (Qeq_bool q 0); [apply Qle_refl|].
  set (ulp := (2 ^ _)%Q). assert (Hulp : (0 < ulp)%Q) by apply pow2_pos.
  assert (Hr : (inject_Z (roundTiesToEven (q / ulp)) <= 0)%Q).
  { change 0%Q with (inject_Z 0). rewrite <- Zle_Qle.
    apply roundTiesToEven_nonpos. apply Qle_shift_div_r; [exact Hulp|]. lra. }
  nra.
Qed.

Lemma toDouble_one : (toDouble 1 == 1)%Q.
Proof. vm_compute. reflexivity. Qed.

Lemma floorLog2_below_one q : (0 < q)%Q -> (q < 1)%Q -> floorLog2 q <= -1.
Proof.
  intros H0 H1. destruct (floorLog2_spec q H0) as [S1 _].
  destruct (Z_le_gt_dec (floorLog2 q) (-1)) as [H|H]; [exact H|exfalso].
  pose proof (pow2_le 0 (floorLog2 q) ltac:(lia)) as Hp.
  change (2 ^ 0)%Q with 1%Q in Hp. lra.
Qed.

(** Below 1 the result is within [2^-54] of the argument. *)
Lemma toDouble_error_below_one q :
  (0 <= q)%Q -> (q < 1)%Q -> (Qabs (toDouble q - q) <= 2 ^ (-54))%Q.
Proof.
  intros H0 H1.
  destruct (Qeq_dec q 0) as [E|Hne].
  - rewrite E. vm_compute. discriminate.
  - destruct (toDouble_spec q Hne) as (m & _ & _ & Herr). cbv zeta in Herr.
    eapply Qle_trans; [exact Herr|]. apply pow2_le.
    assert (Hl : floorLog2 (Qabs q) <= -1).
    { apply floorLog2_below_one.
      - apply Qabs_pos_lt, Hne.
      - rewrite Qabs_pos by exact H0. exact H1. }
    lia.
Qed.

(** A quotient that stays more than [2^-54] below 1 is not rounded up
    to 1. *)
Lemma toDouble_lt_one q :
  (q < 1 - 2 ^ (-54))%Q -> (toDouble q < 1)%Q.
Proof.
  intros H.
  assert (Hp : (0 < 2 ^ (-54))%Q) by apply pow2_pos.
  destruct (Qlt_le_dec q 0) as [Hneg|Hpos].
  - pose proof (toDouble_nonpos q ltac:(lra)). lra.
  - pose proof (toDouble_error_below_one q Hpos ltac:(lra)) as He.
    apply Qabs_Qle_condition in He. lra.
Qed.

(** [toDouble] against the Standard Library's specification of IEEE 754
    arithmetic, on quotients of integers and on products of floats, down to
    the smallest subnormal and its ties. *)
Lemma toDouble_agrees_with_SpecFloat :
  forallb agreesOnQuotient
    [ (1, 3); (1, 10); (2, 3); (43200000, 86400000); (86399999, 86400000);
      (1, 86400000); (9007199254740991, 9007199254740992);
      (18014398509481983, 18014398509481984);
      (1000000000000000001, 1000000000000000000); (700, 1000000000000000000);
      (1, 9007199254740993); (123456789, 987654321) ] = true /\
  forallb agreesOnProduct
    [ ((3, 0), (3602879701896397, -55)); ((6004799503160661, -54), (3, 0));
      ((4503599627370497, -52), (4503599627370497, -52));
      ((1, -1000), (1, -74)); ((1, -1000), (3, -75)); ((1, -1000), (1, -75));
      ((9007199254740991, 0), (9007199254740991, 0)) ] = true.
Proof. split; vm_compute; reflexivity. Qed.

(** Rounding at work: one third and one tenth; 2^53 + 1 lies half-way
    between two doubles and goes to the even one, 2^53 + 3 goes up;
    1 + 10^-18 is 1; and 3 * 0.1 is 0.30000000000000004. *)
Lemma toDouble_examples :
  (toDouble (1 # 3) == 6004799503160661 # 18014398509481984)%Q /\
  (toDouble (1 # 10) == 3602879701896397 # 36028797018963968)%Q /\
  (toDouble (inject_Z (2 ^ 53 + 1)) == inject_Z (2 ^ 53))%Q /\
  (toDouble (inject_Z (2 ^ 53 + 3)) == inject_Z (2 ^ 53 + 4))%Q /\
  (toDouble (inject_Z (10 ^ 18 + 1) / inject_Z (10 ^ 18)) == 1)%Q /\
  (toDouble (3 * toDouble (1 # 10)) == 5404319552844596 # 18014398509481984)%Q.
Proof. repeat split; vm_compute; reflexivity. Qed.

(* --------------------------------------------------------------------- *)
(** ** The payout state machine *)
(* --------------------------------------------------------------------- *)

Lemma DAY_MS_pos : 0 < DAY_MS.
Proof. reflexivity. Qed.

Lemma cycleMsOrDay_pos control : 0 < cycleMsOrDay control.
Proof.
  unfold cycleMsOrDay.
  destruct control as [c|]; [|apply DAY_MS_pos].
  destruct (cycleMs c) as [m|]; [|apply DAY_MS_pos].
  destruct (0 <? m) eqn:E; [apply Z.ltb_lt in E; exact E | apply DAY_MS_pos].
Qed.

(** Closed form of the cycle branch: the second advance is never taken. *)
Lemma deriveCycle_next L N c now len :
  0 < len ->
  l_nextPayoutAt (deriveCycle L N c now len) =
    let start := match cycleStartAt c with Some s => s | None => N end in
    if now <? start then start
    else Z.max L (start + (now - start) / len * len) + len.
Proof.
  intros Hlen. unfold deriveCycle.
  assert (E : (0 <? len) = true) by (apply Z.ltb_lt; lia). rewrite E.
  set (start := match cycleStartAt c with Some s => s | None => N end).
  cbv zeta.
  destruct (now <? start) eqn:Hlt; [reflexivity|].
  apply Z.ltb_ge in Hlt.
  pose proof (Z.mul_div_le (now - start) len Hlen) as Hlo.
  pose proof (Z.mul_succ_div_gt (now - start) len Hlen) as Hhi.
  destruct (Z.max L (start + (now - start) / len * len) + len <=? now) eqn:Hle.
  - apply Z.leb_le in Hle. lia.
  - reflexivity.
Qed.

Lemma deriveCycle_next_gt L N c now len :
  0 < len -> now < l_nextPayoutAt (deriveCycle L N c now len).
Proof.
  intros Hlen. rewrite deriveCycle_next by exact Hlen. cbv zeta.
  set (start := match cycleStartAt c with Some s => s | None => N end).
  destruct (now <? start) eqn:E; [apply Z.ltb_lt in E; lia|].
  apply Z.ltb_ge in E.
  pose proof (Z.mul_succ_div_gt (now - start) len Hlen). lia.
Qed.

Lemma deriveCycle_remaining_pos L N c now len :
  0 < len -> 0 < l_remaining (deriveCycle L N c now len).
Proof.
  intros Hlen. pose proof (deriveCycle_next_gt L N c now len Hlen) as Hnext.
  revert Hnext. unfold deriveCycle.
  destruct (now <? _); [cbn; lia|]. destruct (_ <=? now); cbn; lia.
Qed.


Lemma deriveCycle_last_ge L N c now len :
  L <= l_lastApprovedAt (deriveCycle L N c now len).
Proof.
  unfold deriveCycle.
  destruct (now <? _); [cbn; lia|].
  destruct (_ <=? now); cbn; lia.
Qed.

Lemma deriveLocals_cycle L N c now fz :
  paused c = false -> isSome (cycleStartAt c) = true ->
  deriveLocals L N (Some c) now fz = deriveCycle L N c now (cycleMsOrDay (Some c)).
Proof. intros Hp Hc. unfold deriveLocals. rewrite Hp, Hc. reflexivity. Qed.

(** C5.  Cycle monotonicity and clamping: under a control that is not
    paused and carries a cycle start, the derived [nextPayoutAt] never
    decreases as the passed time grows ([t1 < t2]), and at every time the
    derived [lastApprovedAt] is at least the base [lastApprovedAt]. *)
Theorem cycle_monotone_and_clamped (L N : Z) (c : PayoutControlState) (t1 t2 : Z) :
  paused c = false ->
  isSome (cycleStartAt c) = true ->
  t1 < t2 ->
  d_nextPayoutAt (derivePayoutState L N (Some c) t1)
    <= d_nextPayoutAt (derivePayoutState L N (Some c) t2)
  /\ forall now, L <= d_lastApprovedAt (derivePayoutState L N (Some c) now).
Proof.
  intros Hp Hc Ht. unfold derivePayoutState, derivePayoutStateWith. cbn [d_nextPayoutAt d_lastApprovedAt].
  split.
  - rewrite !(deriveLocals_cycle L N c _ true Hp Hc).
    pose proof (cycleMsOrDay_pos (Some c)) as Hlen.
    rewrite !deriveCycle_next by exact Hlen.
    cbv zeta.
    set (len := cycleMsOrDay (Some c)) in *.
    set (start := match cycleStartAt c with Some s => s | None => N end).
    destruct (t1 <? start) eqn:E1; destruct (t2 <? start) eqn:E2;
      try apply Z.ltb_lt in E1; try apply Z.ltb_ge in E1;
      try apply Z.ltb_lt in E2; try apply Z.ltb_ge in E2; try lia.
    + assert (0 <= (t2 - start) / len) by (apply Z.div_pos; lia). nia.
    + assert ((t1 - start) / len <= (t2 - start) / len)
        by (apply Z.div_le_mono; lia).
      nia.
  - intros now. rewrite (deriveLocals_cycle L N c now true Hp Hc).
    apply deriveCycle_last_ge.
Qed.

(** C5, at a one-day cycle starting at the base's next payout, one
    millisecond and two days after the start. *)
Lemma cycle_monotone_witness :
  d_nextPayoutAt (derivePayoutState 0 86400000 (Some (cycleControl 86400000 86400000)) 86400001)
    <= d_nextPayoutAt (derivePayoutState 0 86400000 (Some (cycleControl 86400000 86400000)) 259200000)
  /\ forall now, 0 <= d_lastApprovedAt
       (derivePayoutState 0 86400000 (Some (cycleControl 86400000 86400000)) now).
Proof.
  apply (cycle_monotone_and_clamped 0 86400000 (cycleControl 86400000 86400000)
           86400001 259200000); [reflexivity | reflexivity | lia].
Defined.



(** C7.  No control: the base times are kept, remaining is
    [max (nextPayoutAt - now) 0], the status is ready when remaining is 0
    (with [resumeAt = now]) and running otherwise (with
    [resumeAt = nextPayoutAt]); and one millisecond after a one-day window
    the state is ready, remaining 0, progress 1 (Scenario B, for every T). *)
Theorem derive_no_control (L N now : Z) :
  let d := derivePayoutState L N None now in
  d_lastApprovedAt d = L /\ d_nextPayoutAt d = N /\
  d_remaining d = Z.max (N - now) 0 /\
  (d_remaining d <= 0 -> d_status d = StReady /\ d_resumeAt d = now) /\
  (0 < d_remaining d -> d_status d = StRunning /\ d_resumeAt d = N) /\
  forall T : Z,
    let b := derivePayoutState T (T + 86400000) None (T + 86400001) in
    d_status b = StReady /\ d_remaining b = 0 /\ (d_progress b == 1)%Q.
Proof.
  cbn zeta. unfold derivePayoutState, derivePayoutStateWith, deriveLocals, derivePlain, statusOfRemaining.
  cbn [d_lastApprovedAt d_nextPayoutAt d_remaining d_status d_resumeAt d_progress
       l_remaining l_status l_resumeAt].
  repeat split.
  - destruct (Z.max (N - now) 0 <=? 0) eqn:E; [reflexivity|]. apply Z.leb_gt in E. lia.
  - destruct (Z.max (N - now) 0 <=? 0) eqn:E; [reflexivity|]. apply Z.leb_gt in E. lia.
  - destruct (Z.max (N - now) 0 <=? 0) eqn:E; [|reflexivity]. apply Z.leb_le in E. lia.
  - destruct (Z.max (N - now) 0 <=? 0) eqn:E; [|reflexivity]. apply Z.leb_le in E. lia.
  - replace (Z.max (T + 86400000 - (T + 86400001)) 0) with 0 by lia. reflexivity.
  - lia.
  - replace (Z.max (T + 86400000 - (T + 86400001)) 0) with 0 by lia.
    unfold totalDurationOf. cbn [l_nextPayoutAt l_lastApprovedAt l_isCycle l_cycleMs].
    replace (T + 86400000 - T) with 86400000 by lia.
    reflexivity.
Qed.

Lemma deriveLocals_remaining_nonneg L N control now fz :
  0 <= l_remaining (deriveLocals L N control now fz).
Proof.
  unfold deriveLocals.
  destruct control as [c|]; [|cbn; lia].
  destruct (paused c).
  - unfold derivePaused.
    destruct (isSome (cycleStartAt c)); cbn [l_remaining];
      destruct fz; try lia;
      destruct (pauseRemainingMs c); cbn [option_map nullish]; lia.
  - destruct (isSome (cycleStartAt c)); [|cbn; lia].
    unfold deriveCycle. destruct (now <? _); [cbn; lia|].
    destruct (_ <=? now); cbn; lia.
Qed.

Lemma totalDurationOf_pos control l : 1 <= totalDurationOf control l.
Proof. unfold totalDurationOf. lia. Qed.

Lemma progressOf_bounds total remaining :
  (0 <= progressOf total remaining /\ progressOf total remaining <= 1)%Q.
Proof.
  unfold progressOf. destruct (0 <? total).
  - split.
    + apply Q.min_glb; [discriminate | apply Q.le_max_l].
    + apply Q.le_min_l.
  - split; discriminate.
Qed.

Lemma clamp_zero_of_nonpos t : (t <= 0)%Q -> (Qmin 1 (Qmax 0 t) == 0)%Q.
Proof.
  intros H. rewrite (Q.max_l 0%Q t) by exact H. apply Q.min_r. discriminate.
Qed.

Lemma clamp_nonexpansive a b :
  (Qabs (Qmin 1 (Qmax 0 a) - Qmin 1 (Qmax 0 b)) <= Qabs (a - b))%Q.
Proof.
  destruct (Q.max_spec 0%Q a) as [[A1 A2]|[A1 A2]];
    destruct (Q.max_spec 0%Q b) as [[B1 B2]|[B1 B2]];
    destruct (Q.min_spec 1%Q (Qmax 0 a)) as [[A3 A4]|[A3 A4]];
    destruct (Q.min_spec 1%Q (Qmax 0 b)) as [[B3 B4]|[B3 B4]];
    rewrite A4, B4; rewrite ?A2, ?B2 in *;
    apply Qabs_Qle_condition; (apply Qabs_case; intros Hc); split; lra.
Qed.

Lemma quotient_neg a total :
  a < 0 -> 0 < total -> (inject_Z a / inject_Z total < 0)%Q.
Proof.
  intros Ha Ht. unfold Qlt, Qdiv, Qmult, Qinv, inject_Z. cbn.
  destruct total as [|t|t]; try lia. cbn. lia.
Qed.

Lemma quotient_one total : 0 < total -> (inject_Z total / inject_Z total == 1)%Q.
Proof.
  intros Ht. field. intros H. unfold Qeq in H. cbn in H. lia.
Qed.

Lemma quotient_below_one a total :
  a < total -> 0 < total < 2 ^ 54 ->
  (inject_Z a / inject_Z total < 1 - 2 ^ (-54))%Q.
Proof.
  intros Ha [Ht0 Ht].
  assert (E : ((2 ^ (-54))%Q == 1 / inject_Z (2 ^ 54))%Q) by reflexivity.
  rewrite E.
  assert (HT : (0 < inject_Z total)%Q).
  { change 0%Q with (inject_Z 0). rewrite <- Zlt_Qlt. lia. }
  assert (HP : (inject_Z total < inject_Z (2 ^ 54))%Q) by (rewrite <- Zlt_Qlt; lia).
  assert (HA : (inject_Z a <= inject_Z total - 1)%Q).
  { change 1%Q with (inject_Z 1). unfold Qminus. rewrite <- inject_Z_opp, <- inject_Z_plus.
    rewrite <- Zle_Qle. lia. }
  generalize dependent (inject_Z (2 ^ 54)). generalize dependent (inject_Z total).
  generalize dependent (inject_Z a). intros A T HT HA P _ HP.
  apply Qlt_shift_div_r; [exact HT|].
  assert (E2 : ((1 - 1 / P) * T == (P * T - T) / P)%Q) by (field; lra).
  rewrite E2. apply Qlt_shift_div_l; [lra|]. nra.
Qed.

Lemma progressOf_clamp total remaining :
  0 < total ->
  (progressOf total remaining ==
   Qmin 1 (Qmax 0 (toDouble (inject_Z (total - remaining) / inject_Z total))))%Q.
Proof.
  intros Ht. unfold progressOf.
  assert (E : (0 <? total) = true) by (apply Z.ltb_lt; lia). rewrite E.
  destruct (Z_le_gt_dec 0 (total - remaining)) as [Hge|Hlt].
  - rewrite Z.max_l by lia. reflexivity.
  - rewrite Z.max_r by lia.
    rewrite (clamp_zero_of_nonpos (toDouble (inject_Z (total - remaining) / inject_Z total))).
    + apply clamp_zero_of_nonpos. apply toDouble_nonpos.
      unfold Qdiv. rewrite Qmult_0_l. apply Qle_refl.
    + apply toDouble_nonpos. apply Qlt_le_weak, quotient_neg; lia.
Qed.

Lemma progressOf_full total : 0 < total -> (progressOf total 0 == 1)%Q.
Proof.
  intros Ht. unfold progressOf.
  assert (E : (0 <? total) = true) by (apply Z.ltb_lt; lia). rewrite E.
  replace (Z.max (total - 0) 0) with total by lia.
  assert (H1 : (toDouble (inject_Z total / inject_Z total) == 1)%Q).
  { rewrite (quotient_one total Ht). apply toDouble_one. }
  apply Q.min_l. eapply Qle_trans; [|apply Q.le_max_r]. rewrite H1. apply Qle_refl.
Qed.

Lemma progressOf_one total remaining :
  0 < total < 2 ^ 54 -> 0 <= remaining ->
  ((progressOf total remaining == 1)%Q <-> remaining = 0).
Proof.
  intros Ht Hr. split.
  - intros H.
    destruct (Z.eq_dec remaining 0) as [|Hne]; [assumption|exfalso].
    unfold progressOf in H.
    assert (E : (0 <? total) = true) by (apply Z.ltb_lt; lia). rewrite E in H.
    set (t := toDouble (inject_Z (Z.max (total - remaining) 0) / inject_Z total)) in H.
    assert (Hlt : (t < 1)%Q).
    { apply toDouble_lt_one. apply quotient_below_one; lia. }
    assert (Hm : (Qmax 0 t < 1)%Q).
    { apply Q.max_lub_lt; [reflexivity | exact Hlt]. }
    rewrite Q.min_r in H by (apply Qlt_le_weak; exact Hm).
    rewrite H in Hm. apply (Qlt_irrefl 1). exact Hm.
  - intros ->. apply progressOf_full. lia.
Qed.

Lemma progressOf_error total remaining :
  0 < total -> 0 <= remaining ->
  (Qabs (progressOf total remaining
         - Qmin 1 (Qmax 0 (inject_Z (total - remaining) / inject_Z total)))
   <= 2 ^ (-54))%Q.
Proof.
  intros Ht Hr. rewrite (progressOf_clamp total remaining Ht).
  set (q := (inject_Z (total - remaining) / inject_Z total)%Q).
  assert (Hp : (0 < 2 ^ (-54))%Q) by apply pow2_pos.
  destruct (Z.eq_dec remaining 0) as [->|Hne].
  - assert (Hq : (q == 1)%Q).
    { unfold q. replace (total - 0) with total by lia. apply quotient_one, Ht. }
    eapply Qle_trans; [apply clamp_nonexpansive|].
    rewrite Hq, toDouble_one. vm_compute. discriminate.
  - destruct (Z_le_gt_dec 0 (total - remaining)) as [Hge|Hlt].
    + eapply Qle_trans; [apply clamp_nonexpansive|].
      apply toDouble_error_below_one.
      * unfold q. apply Qle_shift_div_l.
        -- change 0%Q with (inject_Z 0). rewrite <- Zlt_Qlt. lia.
        -- rewrite Qmult_0_l. change 0%Q with (inject_Z 0). rewrite <- Zle_Qle. lia.
      * unfold q. apply Qlt_shift_div_r.
        -- change 0%Q with (inject_Z 0). rewrite <- Zlt_Qlt. lia.
        -- rewrite Qmult_1_l. rewrite <- Zlt_Qlt. lia.
    + assert (Hq : (q < 0)%Q) by (apply quotient_neg; lia).
      rewrite (clamp_zero_of_nonpos (toDouble q)) by (apply toDouble_nonpos; lra).
      rewrite (clamp_zero_of_nonpos q) by lra.
      vm_compute. discriminate.
Qed.

Lemma deriveLocals_ready_remaining L N control now fz :
  l_status (deriveLocals L N control now fz) = StReady ->
  l_remaining (deriveLocals L N control now fz) = 0.
Proof.
  assert (Hplain : forall a b m, l_status (derivePlain a b now m) = StReady ->
                                 l_remaining (derivePlain a b now m) = 0).
  { intros a b m. unfold derivePlain, statusOfRemaining. cbn.
    destruct (Z.max (b - now) 0 <=? 0) eqn:E; [|discriminate].
    apply Z.leb_le in E. lia. }
  unfold deriveLocals.
  destruct control as [c|]; [|apply Hplain].
  destruct (paused c).
  - unfold derivePaused. destruct (isSome (cycleStartAt c)); discriminate.
  - destruct (isSome (cycleStartAt c)); [|apply Hplain].
    unfold deriveCycle. destruct (now <? _); [discriminate|].
    destruct (_ <=? now); discriminate.
Qed.

Lemma deriveLocals_running_remaining L N control now fz :
  l_status (deriveLocals L N control now fz) = StRunning ->
  0 < l_remaining (deriveLocals L N control now fz).
Proof.
  assert (Hplain : forall a b m, l_status (derivePlain a b now m) = StRunning ->
                                 0 < l_remaining (derivePlain a b now m)).
  { intros a b m. unfold derivePlain, statusOfRemaining. cbn.
    destruct (Z.max (b - now) 0 <=? 0) eqn:E; [discriminate|].
    apply Z.leb_gt in E. lia. }
  unfold deriveLocals.
  destruct control as [c|]; [|apply Hplain].
  destruct (paused c) eqn:Hp.
  - unfold derivePaused. destruct (isSome (cycleStartAt c)); discriminate.
  - destruct (isSome (cycleStartAt c)) eqn:Hc; [|apply Hplain].
    intros _. apply deriveCycle_remaining_pos. apply cycleMsOrDay_pos.
Qed.

Lemma validMs_bounds z : validMs z -> - 2 ^ 51 <= z <= 2 ^ 51.
Proof. intros H. exact H. Qed.

Lemma cycleMsOrDay_valid control :
  match control with Some c => validField (cycleMs c) | None => True end ->
  cycleMsOrDay control <= 2 ^ 51.
Proof.
  unfold cycleMsOrDay, validField, validMs, MAX_VALID_MS.
  destruct control as [c|]; [|intros _; vm_compute; discriminate].
  destruct (cycleMs c) as [m|]; [|intros _; vm_compute; discriminate].
  intros H. destruct (0 <? m); [lia | vm_compute; discriminate].
Qed.

(** On valid inputs the duration of the progress computation stays within
    the integers a double holds exactly. *)
Lemma totalDuration_valid L N control now fz :
  validInputs L N control now ->
  totalDurationOf control (deriveLocals L N control now fz) <= 2 ^ 53.
Proof.
  intros (HL & HN & Hnow & Hc).
  assert (Hlen : cycleMsOrDay control <= 2 ^ 51).
  { apply cycleMsOrDay_valid. destruct control; [tauto|exact I]. }
  pose proof (cycleMsOrDay_pos control) as Hpos.
  assert (Hsafe : (if 0 <? cycleMsOrDay control then cycleMsOrDay control else DAY_MS)
                  = cycleMsOrDay control).
  { destruct (Z.ltb_spec 0 (cycleMsOrDay control)); [reflexivity | lia]. }
  apply validMs_bounds in HL, HN, Hnow.
  change (2 ^ 51) with 2251799813685248 in *.
  change (2 ^ 53) with 9007199254740992.
  unfold totalDurationOf, deriveLocals.
  remember (cycleMsOrDay control) as len eqn:Elen.
  destruct control as [c|].
  - destruct Hc as (Hrem & Hres & Hadjn & Hadjl & Hstart & Hms).
    unfold validField, validMs, MAX_VALID_MS in Hrem, Hres, Hadjn, Hadjl, Hstart.
    change (2 ^ 51) with 2251799813685248 in *.
    destruct (paused c).
    + unfold derivePaused. rewrite Hsafe.
      destruct (isSome (cycleStartAt c));
        cbn [l_nextPayoutAt l_lastApprovedAt l_isCycle l_cycleMs]; [lia|].
      destruct (resumeAt c) as [r|]; cbn [option_map];
        destruct (pauseRemainingMs c) as [pr|]; cbn [option_map];
        destruct (adjustedLastApprovedAt c) as [al|];
        destruct (adjustedNextPayoutAt c) as [an|]; cbn [nullish]; lia.
    + destruct (isSome (cycleStartAt c)).
      * unfold deriveCycle. rewrite Hsafe.
        destruct (now <? _); [cbn; lia|].
        destruct (_ <=? now); cbn; lia.
      * unfold derivePlain. cbn [l_nextPayoutAt l_lastApprovedAt l_isCycle l_cycleMs].
        destruct (adjustedLastApprovedAt c) as [al|];
        destruct (adjustedNextPayoutAt c) as [an|]; cbn [nullish]; lia.
  - unfold derivePlain. cbn [l_nextPayoutAt l_lastApprovedAt l_isCycle l_cycleMs]. lia.
Qed.

(** C6 (as amended).  Progress bounds: for all valid inputs (every time and
    duration an integer of magnitude at most 2^51 ms) and either value of
    [freezePaused] the progress lies in [0, 1] and is
    clamp((duration - remaining) / duration, 0, 1) computed on doubles,
    hence within 2^-54 of the exact fraction, where duration is
    max(nextPayoutAt - lastApprovedAt, the cycle length or the default day,
    1).  Progress is 1 exactly when remaining is 0; a ready state has
    remaining 0 (so progress 1), a running state has remaining above 0 (so
    progress below 1); a paused state whose frozen remaining is 0 also has
    progress 1. *)
Theorem progress_bounds (L N : Z) (control : option PayoutControlState)
    (now : Z) (freezePaused : bool) :
  validInputs L N control now ->
  let d := derivePayoutStateWith L N control now freezePaused in
  let duration := durationOf control d in
  let fraction := (inject_Z (duration - d_remaining d) / inject_Z duration)%Q in
  (0 <= d_progress d)%Q /\ (d_progress d <= 1)%Q /\
  (d_progress d == Qmin 1 (Qmax 0 (toDouble fraction)))%Q /\
  (Qabs (d_progress d - Qmin 1 (Qmax 0 fraction)) <= 2 ^ (-54))%Q /\
  ((d_progress d == 1)%Q <-> d_remaining d = 0) /\
  (d_status d = StReady -> d_remaining d = 0) /\
  (d_status d = StRunning -> 0 < d_remaining d).
Proof.
  intros Hvalid. cbn zeta. unfold derivePayoutStateWith, durationOf.
  cbn [d_progress d_remaining d_status d_nextPayoutAt d_lastApprovedAt d_cycleMs].
  pose proof (totalDuration_valid L N control now freezePaused Hvalid) as Hmax.
  set (l := deriveLocals L N control now freezePaused) in *.
  assert (Hdur : Z.max (Z.max (l_nextPayoutAt l - l_lastApprovedAt l)
                   (match (if l_isCycle l then Some (l_cycleMs l) else None) with
                    | Some len => len | None => cycleMsOrDay control end)) 1
                 = totalDurationOf control l).
  { unfold totalDurationOf. destruct (l_isCycle l); reflexivity. }
  rewrite Hdur.
  pose proof (totalDurationOf_pos control l) as Hpos.
  pose proof (deriveLocals_remaining_nonneg L N control now freezePaused) as Hrem.
  fold l in Hrem.
  assert (Hlt : totalDurationOf control l < 2 ^ 54).
  { change (2 ^ 53) with 9007199254740992 in Hmax.
    change (2 ^ 54) with 18014398509481984. lia. }
  repeat split.
  - apply progressOf_bounds.
  - apply progressOf_bounds.
  - apply progressOf_clamp. lia.
  - apply progressOf_error; lia.
  - apply progressOf_one; lia.
  - apply progressOf_one; lia.
  - apply deriveLocals_ready_remaining.
  - apply deriveLocals_running_remaining.
Qed.

(** C6 at a cycle seen half a day after its third boundary and at a payout
    paused when it was already due. *)
Lemma progress_bounds_witness :
  let d := derivePayoutStateWith 0 86400000 (Some (cycleControl 86400000 86400000))
             302400000 true in
  let p := derivePayoutStateWith 0 86400000 pausedWhenReady 172800000 true in
  (d_progress d == 1 # 2)%Q /\ d_remaining d = 43200000 /\
  ((d_progress d == 1)%Q <-> d_remaining d = 0) /\
  ((d_progress p == 1)%Q <-> d_remaining p = 0).
Proof.
  cbv zeta.
  split; [vm_compute; reflexivity|]. split; [vm_compute; reflexivity|].
  split.
  - exact (proj1 (proj2 (proj2 (proj2 (proj2
             (progress_bounds 0 86400000 (Some (cycleControl 86400000 86400000))
                302400000 true
                ltac:(unfold validInputs, validField, validMs, MAX_VALID_MS;
                      cbn; repeat split; lia))))))).
  - exact (proj1 (proj2 (proj2 (proj2 (proj2
             (progress_bounds 0 86400000 pausedWhenReady 172800000 true
                ltac:(unfold validInputs, validField, validMs, MAX_VALID_MS;
                      cbn; repeat split; lia))))))).
Defined.

(** C6, counterexample.  Pausing a payout that is already ready stores a
    frozen remaining of 0; the derived state is then paused with remaining 0
    and progress 1, so progress 1 does not come with status ready only. *)
Lemma progress_one_while_paused :
  let d := derivePayoutState 0 86400000 pausedWhenReady 172800000 in
  (d_progress d == 1)%Q /\ d_remaining d = 0 /\ d_status d = StPaused /\
  ~ ((d_progress d == 1)%Q <-> d_remaining d = 0 /\ d_status d = StReady).
Proof.
  cbv zeta. split; [vm_compute; reflexivity|]. split; [vm_compute; reflexivity|].
  split; [vm_compute; reflexivity|].
  intros [H _]. assert (E : (1 == 1)%Q) by reflexivity.
  assert (E' : (d_progress (derivePayoutState 0 86400000 pausedWhenReady 172800000) == 1)%Q)
    by (vm_compute; reflexivity).
  destruct (H E') as [_ Hs]. vm_compute in Hs. discriminate Hs.
Qed.

(** Why C6 needs valid inputs: with base times 2^53 ms before and after
    the epoch the duration is 2^54 ms, and one millisecond before the
    payout the quotient (2^54 - 1) / 2^54 rounds to 1, so the progress is 1
    while the state is running with remaining 1. *)
Lemma progress_one_outside_valid_range :
  let d := derivePayoutState (- 2 ^ 53) (2 ^ 53) None (2 ^ 53 - 1) in
  (d_progress d == 1)%Q /\ d_remaining d = 1 /\ d_status d = StRunning /\
  ~ validInputs (- 2 ^ 53) (2 ^ 53) None (2 ^ 53 - 1).
Proof.
  cbv zeta. repeat (split; [vm_compute; reflexivity|]).
  intros (H & _). unfold validMs, MAX_VALID_MS in H. vm_compute in H.
  destruct H as [H _]. apply H. reflexivity.
Qed.

(* --------------------------------------------------------------------- *)
(** ** The admin editor: pause and resume *)
(* --------------------------------------------------------------------- *)

Lemma setControlForPayout_lookup controls payout producer :
  setControlForPayout controls payout producer !! toLowerCase (p_address payout)
  = producedControl producer (controls !! toLowerCase (p_address payout)).
Proof.
  unfold setControlForPayout.
  destruct (producedControl producer _) as [cleaned|].
  - apply lookup_insert_eq.
  - apply lookup_delete_eq.
Qed.

Lemma pauseThenResume_unfold summary control now :
  pauseThenResume summary control now =
  derivePayoutState (sm_lastApprovedAt summary) (sm_nextPayoutAt summary)
    (controlAfterResume summary (controlAfterPause summary control now) now) now.
Proof.
  unfold pauseThenResume. cbv zeta.
  set (key := toLowerCase (sm_address summary)).
  set (controls0 := match control with Some c => {[ key := c ]} | None => ∅ end
                    : gmap string PayoutControlState).
  assert (H0 : controls0 !! key = control).
  { unfold controls0. destruct control; [apply lookup_singleton_eq | apply lookup_empty]. }
  rewrite H0.
  assert (H1 : handlePausePayout controls0 (upcomingPayout summary control now) now !! key
               = controlAfterPause summary control now).
  { unfold handlePausePayout, controlAfterPause.
    destruct (p_status (upcomingPayout summary control now)); try exact H0;
      (change key with (toLowerCase (p_address (upcomingPayout summary control now)));
       rewrite setControlForPayout_lookup;
       change (toLowerCase (p_address (upcomingPayout summary control now))) with key;
       rewrite H0; reflexivity). }
  rewrite H1.
  unfold handleResumePayout.
  set (c1 := controlAfterPause summary control now).
  change key with (toLowerCase (p_address (upcomingPayout summary c1 now))).
  rewrite setControlForPayout_lookup.
  change (toLowerCase (p_address (upcomingPayout summary c1 now))) with key.
  rewrite H1. reflexivity.
Qed.

Lemma derive_plain_fields L N control now fz :
  notPaused control ->
  optField control cycleStartAt = None ->
  let d := derivePayoutStateWith L N control now fz in
  let last0 := nullish (optField control adjustedLastApprovedAt) L in
  let next0 := nullish (optField control adjustedNextPayoutAt) N in
  d_lastApprovedAt d = last0 /\ d_nextPayoutAt d = next0 /\
  d_remaining d = Z.max (next0 - now) 0 /\
  d_status d = statusOfRemaining (Z.max (next0 - now) 0) /\
  d_resumeAt d = (match statusOfRemaining (Z.max (next0 - now) 0) with
                  | StReady => now | _ => next0 end) /\
  d_isCycle d = false /\ d_cycleMs d = None.
Proof.
  intros Hnp Hcs. cbv zeta.
  unfold derivePayoutStateWith.
  cbn [d_lastApprovedAt d_nextPayoutAt d_remaining d_status d_resumeAt d_isCycle d_cycleMs].
  assert (E : deriveLocals L N control now fz =
              derivePlain (nullish (optField control adjustedLastApprovedAt) L)
                          (nullish (optField control adjustedNextPayoutAt) N)
                          now (cycleMsOrDay control)).
  { unfold deriveLocals. destruct control as [c|]; [|reflexivity].
    rewrite (Hnp c eq_refl). cbn [optField] in Hcs. rewrite Hcs. reflexivity. }
  rewrite E. unfold derivePlain. cbn. auto 10.
Qed.

Lemma statusOfRemaining_not_paused r : statusOfRemaining r <> StPaused.
Proof. unfold statusOfRemaining. destruct (r <=? 0); discriminate. Qed.

Lemma derive_paused_isCycle L N c now fz :
  paused c = true ->
  d_isCycle (derivePayoutStateWith L N (Some c) now fz) = isSome (cycleStartAt c).
Proof.
  intros Hp. unfold derivePayoutStateWith, deriveLocals. cbn [d_isCycle].
  rewrite Hp. unfold derivePaused. destruct (isSome (cycleStartAt c)); reflexivity.
Qed.

Lemma round_trip_plain A L N now (control : option PayoutControlState) :
  0 <= now ->
  notPaused control ->
  optField control cycleStartAt = None ->
  optField control resumeAt = None ->
  nullish (optField control adjustedLastApprovedAt) L + 1000
    <= Z.max (nullish (optField control adjustedNextPayoutAt) N) now ->
  let summary := {| sm_address := A; sm_lastApprovedAt := L; sm_nextPayoutAt := N |} in
  let before := derivePayoutState L N control now in
  let after := pauseThenResume summary control now in
  d_remaining after = d_remaining before /\ d_status after = d_status before.
Proof.
  intros Hnow Hnp Hcs Hra Hst. cbv zeta.
  rewrite pauseThenResume_unfold. cbn [sm_lastApprovedAt sm_nextPayoutAt].
  pose proof (derive_plain_fields L N control now true Hnp Hcs) as H0.
  cbv zeta in H0. fold (derivePayoutState L N control now) in H0.
  set (last0 := nullish (optField control adjustedLastApprovedAt) L) in *.
  set (next0 := nullish (optField control adjustedNextPayoutAt) N) in *.
  destruct H0 as (Hl0 & Hn0 & Hrem & Hstat & Hres & Hic & Hcm).
  rewrite Hrem, Hstat.
  set (summary := {| sm_address := A; sm_lastApprovedAt := L; sm_nextPayoutAt := N |}).
  set (R := Z.max next0 now).
  set (paused1 :=
    {| paused := true; pauseRemainingMs := Some (R - now); resumeAt := Some R;
       adjustedNextPayoutAt := Some R; adjustedLastApprovedAt := Some last0;
       cycleStartAt := None; cycleMs := None |}).
  assert (HP : controlAfterPause summary control now = Some paused1).
  { unfold controlAfterPause.
    set (row0 := upcomingPayout summary control now).
    assert (Hs0 : p_status row0 = statusOfRemaining (Z.max (next0 - now) 0)) by exact Hstat.
    assert (Hprod : producedControl (pauseProducer row0 now) control = Some paused1).
    { unfold producedControl, pauseProducer.
      assert (Hhc : producerHasCycle row0 control = false).
      { unfold producerHasCycle. rewrite Hcs.
        replace (p_isCycle row0) with false by (symmetry; exact Hic). reflexivity. }
      rewrite Hhc. rewrite Hra.
      replace (p_lastApprovedAt row0) with last0 by (symmetry; exact Hl0).
      replace (p_scheduledNextPayoutAt row0) with next0 by (symmetry; exact Hn0).
      fold last0 next0. cbn [nullish].
      unfold sanitizeControlState.
      cbn [paused pauseRemainingMs resumeAt adjustedLastApprovedAt adjustedNextPayoutAt
           cycleStartAt cycleMs isSome orb andb negb option_map].
      assert (En : nullish (optField control adjustedNextPayoutAt) next0 = next0)
        by (unfold next0; destruct (optField control adjustedNextPayoutAt); reflexivity).
      assert (El : nullish (optField control adjustedLastApprovedAt) last0 = last0)
        by (unfold last0; destruct (optField control adjustedLastApprovedAt); reflexivity).
      rewrite En, El.
      unfold paused1, R. f_equal. f_equal; f_equal; lia. }
    rewrite Hs0.
    destruct (statusOfRemaining (Z.max (next0 - now) 0)) eqn:E; try exact Hprod.
    exfalso. exact (statusOfRemaining_not_paused _ E). }
  rewrite HP.
  assert (HR : controlAfterResume summary (Some paused1) now
               = Some (manualControl last0 R)).
  { unfold controlAfterResume, producedControl, resumeProducer.
    set (row1 := upcomingPayout summary (Some paused1) now).
    assert (Hhc : producerHasCycle row1 (Some paused1) = false).
    { unfold producerHasCycle, row1, upcomingPayout. cbn [p_isCycle].
      unfold derivePayoutState. rewrite derive_paused_isCycle by reflexivity.
      reflexivity. }
    rewrite Hhc.
    cbn [optField paused1 resumeAt pauseRemainingMs adjustedLastApprovedAt nullish].
    unfold sanitizeControlState.
    cbn [paused pauseRemainingMs resumeAt adjustedLastApprovedAt adjustedNextPayoutAt
         cycleStartAt cycleMs isSome orb andb negb option_map].
    unfold manualControl, R. f_equal. f_equal; f_equal; lia. }
  rewrite HR.
  pose proof (derive_plain_fields L N (Some (manualControl last0 R)) now true) as H2.
  cbv zeta in H2. fold (derivePayoutState L N (Some (manualControl last0 R)) now) in H2.
  destruct H2 as (_ & _ & Hrem2 & Hstat2 & _).
  { intros c [= <-]. reflexivity. }
  { reflexivity. }
  rewrite Hrem2, Hstat2.
  cbn [optField manualControl adjustedNextPayoutAt nullish].
  replace (Z.max (R - now) 0) with (Z.max (next0 - now) 0) by (unfold R; lia).
  split; reflexivity.
Qed.

Lemma deriveCycle_fields L N c now len :
  0 < len ->
  let nx := l_nextPayoutAt (deriveCycle L N c now len) in
  l_remaining (deriveCycle L N c now len) = Z.max (nx - now) 0 /\
  l_resumeAt (deriveCycle L N c now len) = nx /\
  l_status (deriveCycle L N c now len) = StRunning /\
  l_isCycle (deriveCycle L N c now len) = true /\
  l_cycleMs (deriveCycle L N c now len) = len.
Proof.
  intros Hlen. cbv zeta. unfold deriveCycle.
  assert (E : (0 <? len) = true) by (apply Z.ltb_lt; lia). rewrite E.
  destruct (now <? _); [cbn; auto|].
  destruct (_ <=? now); cbn; auto.
Qed.

Lemma derive_cycle_running L N c now :
  paused c = false -> isSome (cycleStartAt c) = true ->
  let d := derivePayoutState L N (Some c) now in
  let nx := l_nextPayoutAt (deriveCycle L N c now (cycleMsOrDay (Some c))) in
  d_nextPayoutAt d = nx /\ d_remaining d = Z.max (nx - now) 0 /\
  d_resumeAt d = nx /\ d_status d = StRunning /\ d_isCycle d = true /\
  d_cycleMs d = Some (cycleMsOrDay (Some c)).
Proof.
  intros Hp Hc. cbv zeta.
  unfold derivePayoutState, derivePayoutStateWith.
  cbn [d_nextPayoutAt d_remaining d_resumeAt d_status d_isCycle d_cycleMs].
  rewrite (deriveLocals_cycle L N c now true Hp Hc).
  pose proof (deriveCycle_fields L N c now _ (cycleMsOrDay_pos (Some c))) as H.
  cbv zeta in H. destruct H as (H1 & H2 & H3 & H4 & H5).
  rewrite H1, H2, H3, H4, H5. repeat split; reflexivity.
Qed.

Lemma round_trip_cycle A L N now (c : PayoutControlState) start :
  0 <= now ->
  paused c = false -> resumeAt c = None ->
  cycleStartAt c = Some start ->
  start + 1000 <= d_nextPayoutAt (derivePayoutState L N (Some c) now) ->
  L <= now ->
  let summary := {| sm_address := A; sm_lastApprovedAt := L; sm_nextPayoutAt := N |} in
  let before := derivePayoutState L N (Some c) now in
  let after := pauseThenResume summary (Some c) now in
  d_remaining after = d_remaining before /\ d_status after = d_status before.
Proof.
  intros Hnow Hp Hra Hcs Hfloor HL. cbv zeta.
  rewrite pauseThenResume_unfold. cbn [sm_lastApprovedAt sm_nextPayoutAt].
  assert (Hc : isSome (cycleStartAt c) = true) by (rewrite Hcs; reflexivity).
  pose proof (derive_cycle_running L N c now Hp Hc) as H0. cbv zeta in H0.
  pose proof (cycleMsOrDay_pos (Some c)) as Hpos.
  set (len := cycleMsOrDay (Some c)) in *.
  assert (Elen : (0 <? len) = true) by (apply Z.ltb_lt; lia).
  rewrite (deriveCycle_next L N c now len Hpos) in H0. cbv zeta in H0.
  rewrite Hcs in H0.
  assert (Hstart : start <= now).
  { destruct (Z.ltb_spec now start) as [Hlt|Hge]; [|exact Hge].
    destruct H0 as (Hnx & _). rewrite Hnx in Hfloor. lia. }
  assert (Hge : (now <? start) = false) by (apply Z.ltb_ge; lia).
  rewrite Hge in H0.
  pose proof (Z.mul_div_le (now - start) len Hpos) as Hlo.
  pose proof (Z.mul_succ_div_gt (now - start) len Hpos) as Hhi.
  assert (Hk0 : 0 <= (now - start) / len) by (apply Z.div_pos; lia).
  set (k := (now - start) / len) in *.
  assert (Hkl : 0 <= k * len) by nia.
  set (nx := Z.max L (start + k * len) + len) in *.
  destruct H0 as (Hnx & Hrem & Hres & Hst & Hic & Hcm).
  rewrite Hnx in Hfloor.
  rewrite Hrem, Hst.
  set (summary := {| sm_address := A; sm_lastApprovedAt := L; sm_nextPayoutAt := N |}).
  set (paused1 :=
    {| paused := true; pauseRemainingMs := Some (nx - now); resumeAt := Some nx;
       adjustedNextPayoutAt := None; adjustedLastApprovedAt := None;
       cycleStartAt := Some (nx - len); cycleMs := Some len |}).
  assert (HP : controlAfterPause summary (Some c) now = Some paused1).
  { unfold controlAfterPause.
    set (row0 := upcomingPayout summary (Some c) now).
    assert (Hs0 : p_status row0 = StRunning) by exact Hst.
    rewrite Hs0.
    unfold producedControl, pauseProducer.
    assert (Hhc : producerHasCycle row0 (Some c) = true).
    { unfold producerHasCycle. replace (p_isCycle row0) with true by (symmetry; exact Hic).
      reflexivity. }
    rewrite Hhc.
    assert (Hl : producerCycleLength row0 (Some c) = len).
    { unfold producerCycleLength, optField.
      replace (p_cycleMs row0) with (Some len) by (symmetry; exact Hcm).
      unfold len, cycleMsOrDay.
      destruct (cycleMs c) as [m|]; [|reflexivity].
      destruct (0 <? m); reflexivity. }
    rewrite Hl.
    replace (p_resumeAt row0) with nx by (symmetry; exact Hres).
    replace (p_remaining row0) with (Z.max (nx - now) 0) by (symmetry; exact Hrem).
    change (p_baseLastApprovedAt row0) with L.
    cbn [optField nullish]. rewrite Hra, Hcs. cbn [nullish].
    unfold sanitizeControlState.
    cbn [paused pauseRemainingMs resumeAt adjustedLastApprovedAt adjustedNextPayoutAt
         cycleStartAt cycleMs isSome orb andb negb option_map].
    rewrite Elen.
    unfold paused1. f_equal. f_equal; f_equal; lia. }
  rewrite HP.
  assert (HR : controlAfterResume summary (Some paused1) now
               = Some (cycleControl (nx - len) len)).
  { unfold controlAfterResume, producedControl, resumeProducer.
    set (row1 := upcomingPayout summary (Some paused1) now).
    assert (Hhc : producerHasCycle row1 (Some paused1) = true).
    { unfold producerHasCycle. cbn [optField paused1 cycleStartAt isSome].
      apply orb_true_r. }
    rewrite Hhc.
    assert (Hl : producerCycleLength row1 (Some paused1) = len).
    { unfold producerCycleLength. cbn [optField paused1 cycleMs].
      rewrite Elen. reflexivity. }
    rewrite Hl.
    change (p_baseLastApprovedAt row1) with L.
    cbn [optField paused1 resumeAt pauseRemainingMs nullish].
    unfold sanitizeControlState.
    cbn [paused pauseRemainingMs resumeAt adjustedLastApprovedAt adjustedNextPayoutAt
         cycleStartAt cycleMs isSome orb andb negb option_map].
    rewrite Elen.
    unfold cycleControl. f_equal. f_equal; f_equal; lia. }
  rewrite HR.
  pose proof (derive_cycle_running L N (cycleControl (nx - len) len) now
                eq_refl eq_refl) as H2.
  cbv zeta in H2.
  assert (Hcm2 : cycleMsOrDay (Some (cycleControl (nx - len) len)) = len).
  { unfold cycleMsOrDay, cycleControl. cbn [cycleMs]. rewrite Elen. reflexivity. }
  rewrite Hcm2 in H2.
  rewrite (deriveCycle_next L N _ now len Hpos) in H2. cbv zeta in H2.
  cbn [cycleControl cycleStartAt] in H2.
  assert (Hge2 : (now <? nx - len) = false) by (apply Z.ltb_ge; lia).
  rewrite Hge2 in H2.
  assert (Hk2 : (now - (nx - len)) / len = 0) by (apply Z.div_small; lia).
  rewrite Hk2 in H2.
  destruct H2 as (_ & Hrem2 & _ & Hst2 & _).
  rewrite Hrem2, Hst2. split; [|reflexivity]. lia.
Qed.

Lemma sanitized_not_paused_resumeAt (control : option PayoutControlState) :
  sanitizeControlState control = control -> notPaused control ->
  optField control resumeAt = None.
Proof.
  intros Hs Hnp. destruct control as [c|]; [|reflexivity].
  specialize (Hnp c eq_refl). cbn [optField].
  unfold sanitizeControlState in Hs. rewrite Hnp in Hs. cbn [negb andb] in Hs.
  destruct (negb _ && negb _); [discriminate|].
  injection Hs as Hs. rewrite <- Hs. reflexivity.
Qed.

(** C4 (as amended).  Pause/resume round trip at one [now >= 0], from a
    stored (sanitized) control that is not paused, or from no control: the
    state derived after Pause and then Resume has the remaining time and the
    status derived before Pause, provided Pause does not have to move the
    resume point ([roundTripStable]): with a recurring cycle, the derived
    [nextPayoutAt] is at least one second after the cycle start (which rules
    out a cycle whose start is still ahead) and the base [lastApprovedAt] is
    not after [now]; without a cycle, the derived [lastApprovedAt] plus one
    second is not after the later of the derived [nextPayoutAt] and [now]. *)
Theorem pause_resume_round_trip (summary : PayoutSummary)
    (control : option PayoutControlState) (now : Z) :
  0 <= now ->
  sanitizeControlState control = control ->
  notPaused control ->
  roundTripStable summary control now ->
  let before :=
    derivePayoutState (sm_lastApprovedAt summary) (sm_nextPayoutAt summary)
                      control now in
  let after := pauseThenResume summary control now in
  d_remaining after = d_remaining before /\ d_status after = d_status before.
Proof.
  intros Hnow Hsan Hnp Hst.
  pose proof (sanitized_not_paused_resumeAt control Hsan Hnp) as Hra.
  destruct summary as [A L N]. cbn [sm_lastApprovedAt sm_nextPayoutAt].
  unfold roundTripStable in Hst. cbv zeta in Hst.
  cbn [sm_lastApprovedAt sm_nextPayoutAt] in Hst.
  destruct (optField control cycleStartAt) as [start|] eqn:Hcs.
  - destruct control as [c|]; [|discriminate]. cbn [optField] in *.
    destruct Hst as (H1 & H2).
    apply (round_trip_cycle A L N now c start); auto.
  - apply (round_trip_plain A L N now control); auto.
    pose proof (derive_plain_fields L N control now true Hnp Hcs) as H0.
    cbv zeta in H0. fold (derivePayoutState L N control now) in H0.
    destruct H0 as (Hl0 & Hn0 & _). rewrite Hl0, Hn0 in Hst. exact Hst.
Qed.

(** C4, half a day into a one-day window with no control. *)
Lemma pause_resume_round_trip_witness :
  let before := derivePayoutState 0 86400000 None 43200000 in
  let after := pauseThenResume exampleSummary None 43200000 in
  d_remaining after = d_remaining before /\ d_status after = d_status before.
Proof.
  apply (pause_resume_round_trip exampleSummary None 43200000).
  - lia.
  - reflexivity.
  - intros c H. discriminate H.
  - vm_compute. discriminate.
Defined.

(** C4, counterexample.  A one-day cycle whose first boundary is still
    half a day ahead (what "start cycle" stores for a running wallet):
    Pause puts the resume point one second after the cycle start, and after
    Resume the remaining time is one second longer than before. *)
Lemma pause_resume_shifts_upcoming_cycle :
  let control := Some (cycleControl 86400000 86400000) in
  let now := 43200000 in
  let before := derivePayoutState 0 86400000 control now in
  let after := pauseThenResume exampleSummary control now in
  sanitizeControlState control = control /\ notPaused control /\
  d_remaining before = 43200000 /\ d_remaining after = 43201000 /\
  ~ (d_remaining after = d_remaining before /\ d_status after = d_status before).
Proof.
  cbv zeta. split; [reflexivity|]. split; [intros c [= <-]; reflexivity|].
  split; [vm_compute; reflexivity|]. split; [vm_compute; reflexivity|].
  intros [H _]. vm_compute in H. discriminate H.
Qed.

(* --------------------------------------------------------------------- *)
(** ** The scan *)
(* --------------------------------------------------------------------- *)

Lemma sameToken_refl a : sameToken a a.
Proof. unfold sameToken. auto 10. Qed.

Lemma sameToken_withPrice prices a : sameToken (withPrice prices a) a.
Proof. unfold sameToken, withPrice. cbn. auto 10. Qed.

Lemma sameToken_eligible a b : sameToken a b -> (eligible a <-> eligible b).
Proof.
  unfold sameToken, eligible. intros (_ & _ & _ & _ & _ & Hb & Ha & _).
  rewrite Hb, Ha. tauto.
Qed.

Lemma classify_items mapped row :
  In row (fst (classify mapped)) <-> In row mapped /\ eligible row.
Proof.
  unfold eligible. induction mapped as [|r rest IH]; cbn [classify].
  - cbn. tauto.
  - destruct (classify rest) as [items approvedTokens]. cbn [fst] in IH.
    destruct (Z.leb_spec (r_balance r) 0) as [Hb|Hb].
    + cbn [fst]. rewrite IH. cbn [In]. split; [tauto|].
      intros [[->|H] HE]; [lia | tauto].
    + destruct (Z.ltb_spec (r_allowance r) (r_balance r)) as [Ha|Ha]; cbn [fst In].
      * rewrite IH. split; [intros [->|H]; [auto|tauto] | tauto].
      * rewrite IH. split; [tauto|]. intros [[->|H] HE]; [lia | tauto].
Qed.

Lemma classify_approved mapped row :
  In row (snd (classify mapped)) <-> In row mapped /\ alreadyApproved row.
Proof.
  unfold alreadyApproved. induction mapped as [|r rest IH]; cbn [classify].
  - cbn. tauto.
  - destruct (classify rest) as [items approvedTokens]. cbn [snd] in IH.
    destruct (Z.leb_spec (r_balance r) 0) as [Hb|Hb].
    + cbn [snd]. rewrite IH. cbn [In]. split; [tauto|].
      intros [[->|H] HE]; [lia | tauto].
    + destruct (Z.ltb_spec (r_allowance r) (r_balance r)) as [Ha|Ha]; cbn [snd In].
      * rewrite IH. split; [tauto|]. intros [[->|H] HE]; [lia | tauto].
      * rewrite IH. split; [intros [->|H]; [auto|tauto] | tauto].
Qed.

Lemma scanChain_approved cfg chainId reads :
  cr_approvedTokens (scanChain cfg chainId reads)
  = snd (classify (chainMapped cfg chainId reads)).
Proof.
  unfold scanChain, chainMapped.
  destruct (default [] (TOKENS cfg !! chainId)) as [|t ts] eqn:Et.
  - destruct (ROUTERS cfg !! chainId); reflexivity.
  - destruct (ROUTERS cfg !! chainId) as [router|]; [|reflexivity].
    destruct (classify _) as [items approvedTokens]. reflexivity.
Qed.

Lemma scanChain_items cfg chainId reads :
  let items := fst (classify (chainMapped cfg chainId reads)) in
  cr_items (scanChain cfg chainId reads) = items
  \/ exists prices, cr_items (scanChain cfg chainId reads) = map (withPrice prices) items.
Proof.
  cbv zeta. unfold scanChain, chainMapped.
  destruct (default [] (TOKENS cfg !! chainId)) as [|t ts] eqn:Et.
  - destruct (ROUTERS cfg !! chainId); left; reflexivity.
  - destruct (ROUTERS cfg !! chainId) as [router|]; [|left; reflexivity].
    destruct (classify _) as [items approvedTokens]. cbn [fst cr_items].
    destruct items as [|i items']; [left; reflexivity|].
    destruct (ans_prices reads) as [prices|]; [right; eauto | left; reflexivity].
Qed.

Lemma scanChain_items_sound cfg chainId reads q :
  In q (cr_items (scanChain cfg chainId reads)) ->
  exists row, In row (chainMapped cfg chainId reads) /\ eligible row /\ sameToken q row.
Proof.
  intros Hq. destruct (scanChain_items cfg chainId reads) as [E|[prices E]];
    cbv zeta in E; rewrite E in Hq.
  - apply classify_items in Hq. exists q. split; [tauto|]. split; [tauto|].
    apply sameToken_refl.
  - apply in_map_iff in Hq. destruct Hq as (row & <- & Hrow).
    apply classify_items in Hrow. exists row. split; [tauto|]. split; [tauto|].
    apply sameToken_withPrice.
Qed.

Lemma scanChain_items_complete cfg chainId reads row :
  In row (chainMapped cfg chainId reads) -> eligible row ->
  exists q, In q (cr_items (scanChain cfg chainId reads)) /\ sameToken q row.
Proof.
  intros Hin He.
  assert (Hc : In row (fst (classify (chainMapped cfg chainId reads))))
    by (apply classify_items; tauto).
  destruct (scanChain_items cfg chainId reads) as [E|[prices E]];
    cbv zeta in E; rewrite E.
  - exists row. split; [exact Hc | apply sameToken_refl].
  - exists (withPrice prices row). split; [|apply sameToken_withPrice].
    apply in_map. exact Hc.
Qed.

Lemma filterApproved_keeps allItems approved :
  Forall (fun item => r_allowance item < r_balance item) allItems ->
  fst (filterApproved allItems approved) = allItems.
Proof.
  revert approved. induction allItems as [|item rest IH]; intros approved Hall;
    [reflexivity|].
  inversion Hall as [|? ? Hitem Hrest]; subst. cbn [filterApproved].
  destruct (decide _).
  - destruct (Z.leb_spec (r_balance item) (r_allowance item)); [lia|].
    specialize (IH (approved ∖ {[approvedKey (r_chainId item) (r_address item)]}) Hrest).
    destruct (filterApproved rest _) as [filtered approved']. cbn [fst] in *.
    congruence.
  - specialize (IH approved Hrest).
    destruct (filterApproved rest approved) as [filtered approved']. cbn [fst] in *.
    congruence.
Qed.

Lemma insertByValue_In a sorted x :
  In x (insertByValue a sorted) <-> x = a \/ In x sorted.
Proof.
  induction sorted as [|b rest IH]; cbn [insertByValue].
  - cbn. intuition.
  - destruct (Qle_bool _ _); cbn [In]; [intuition|].
    rewrite IH. intuition.
Qed.

Lemma sortByValueDesc_In rows x : In x (sortByValueDesc rows) <-> In x rows.
Proof.
  unfold sortByValueDesc. induction rows as [|a rest IH]; cbn [foldr]; [tauto|].
  rewrite insertByValue_In, IH. cbn [In]. intuition.
Qed.

Lemma scanAll_rows_In cfg reads approved q :
  In q (sc_rows (scanAll cfg reads approved)) <->
  exists chainId, In chainId (CHAINS_DEF cfg)
                  /\ In q (cr_items (scanChain cfg chainId (reads chainId))).
Proof.
  unfold scanAll.
  set (results := map _ (CHAINS_DEF cfg)).
  set (allItems := concat (map cr_items results)).
  assert (Hall : Forall (fun item => r_allowance item < r_balance item) allItems).
  { apply List.Forall_forall. intros item Hitem.
    unfold allItems in Hitem. apply in_concat in Hitem.
    destruct Hitem as (l & Hl & Hin).
    apply in_map_iff in Hl. destruct Hl as (res & <- & Hres).
    unfold results in Hres. apply in_map_iff in Hres.
    destruct Hres as (chainId & <- & _).
    apply scanChain_items_sound in Hin. destruct Hin as (row & _ & He & Hs).
    apply (sameToken_eligible _ _ Hs) in He. apply He. }
  pose proof (filterApproved_keeps allItems approved Hall) as Hf.
  destruct (filterApproved allItems approved) as [filtered approved'].
  cbn [fst] in Hf. subst filtered. cbn [sc_rows].
  rewrite sortByValueDesc_In. unfold allItems. rewrite in_concat.
  split.
  - intros (l & Hl & Hin). apply in_map_iff in Hl. destruct Hl as (res & <- & Hres).
    unfold results in Hres. apply in_map_iff in Hres.
    destruct Hres as (chainId & <- & Hc). eauto.
  - intros (chainId & Hc & Hin).
    exists (cr_items (scanChain cfg chainId (reads chainId))). split; [|exact Hin].
    apply in_map_iff. exists (scanChain cfg chainId (reads chainId)).
    split; [reflexivity|]. unfold results. apply in_map_iff. eauto.
Qed.

Lemma scannedRows_In cfg reads row :
  In row (scannedRows cfg reads) <->
  exists chainId, In chainId (CHAINS_DEF cfg)
                  /\ In row (chainMapped cfg chainId (reads chainId)).
Proof.
  unfold scannedRows. rewrite in_concat. split.
  - intros (l & Hl & Hin). apply in_map_iff in Hl. destruct Hl as (c & <- & Hc). eauto.
  - intros (c & Hc & Hin). exists (chainMapped cfg c (reads c)). split; [|exact Hin].
    apply in_map_iff. eauto.
Qed.

Lemma scanAll_detected_In cfg reads approved row :
  In row (sc_detectedApprovedTokens (scanAll cfg reads approved)) <->
  In row (scannedRows cfg reads) /\ alreadyApproved row.
Proof.
  unfold scanAll. destruct (filterApproved _ approved) as [filtered approved'].
  cbn [sc_detectedApprovedTokens]. rewrite in_concat, scannedRows_In. split.
  - intros (l & Hl & Hin). apply in_map_iff in Hl. destruct Hl as (res & <- & Hres).
    apply in_map_iff in Hres. destruct Hres as (c & <- & Hc).
    rewrite scanChain_approved in Hin. apply classify_approved in Hin.
    destruct Hin as [Hin Ha]. split; [exists c; split; assumption | exact Ha].
  - intros [(c & Hc & Hin) Ha].
    exists (cr_approvedTokens (scanChain cfg c (reads c))). split.
    + apply in_map_iff. exists (scanChain cfg c (reads c)). split; [reflexivity|].
      apply in_map_iff. eauto.
    + rewrite scanChain_approved. apply classify_approved. tauto.
Qed.

(** C2.  Eligibility: of the rows a scan fetched, a row is in the queue the
    scan publishes (possibly with its price filled in) if and only if its
    balance is above 0 and its allowance is below its balance; every queued
    row is a fetched row; the rows reported as already approved are exactly
    the fetched rows with balance above 0 and allowance at least the
    balance, and none of them is queued. *)
Theorem scan_eligibility (cfg : Config) (reads : Z -> ChainReads)
    (approved : gset (Z * string)) :
  let outcome := scanAll cfg reads approved in
  (forall row, In row (scannedRows cfg reads) ->
     ((exists q, In q (sc_rows outcome) /\ sameToken q row)
      <-> 0 < r_balance row /\ r_allowance row < r_balance row)) /\
  (forall q, In q (sc_rows outcome) ->
     exists row, In row (scannedRows cfg reads) /\ sameToken q row) /\
  (forall row, In row (sc_detectedApprovedTokens outcome) <->
     In row (scannedRows cfg reads)
     /\ 0 < r_balance row /\ r_balance row <= r_allowance row) /\
  (forall row, In row (sc_detectedApprovedTokens outcome) ->
     ~ exists q, In q (sc_rows outcome) /\ sameToken q row).
Proof.
  cbv zeta.
  assert (Hsound : forall q row, In q (sc_rows (scanAll cfg reads approved)) ->
            sameToken q row -> eligible row).
  { intros q row Hq Hs. apply scanAll_rows_In in Hq.
    destruct Hq as (c & _ & Hq). apply scanChain_items_sound in Hq.
    destruct Hq as (row' & _ & He & Hs').
    apply (sameToken_eligible _ _ Hs') in He. apply (sameToken_eligible _ _ Hs) in He.
    exact He. }
  split; [|split; [|split]].
  - intros row Hrow. split.
    + intros (q & Hq & Hs). exact (Hsound q row Hq Hs).
    + intros He. apply scannedRows_In in Hrow. destruct Hrow as (c & Hc & Hin).
      destruct (scanChain_items_complete cfg c (reads c) row Hin He) as (q & Hq & Hs).
      exists q. split; [|exact Hs]. apply scanAll_rows_In. eauto.
  - intros q Hq. apply scanAll_rows_In in Hq. destruct Hq as (c & Hc & Hq).
    apply scanChain_items_sound in Hq. destruct Hq as (row & Hin & _ & Hs).
    exists row. split; [|exact Hs]. apply scannedRows_In. eauto.
  - intros row. apply scanAll_detected_In.
  - intros row Hd (q & Hq & Hs). apply scanAll_detected_In in Hd.
    destruct Hd as [_ [_ Hge]].
    destruct (Hsound q row Hq Hs) as [_ Hlt]. lia.
Qed.

(** C2, on a scan with USDC eligible, USDT already approved and a failed
    DAI read. *)
Lemma scan_eligibility_witness :
  (exists q, In q (sc_rows (scanAll exampleConfig exampleReads ∅)) /\ sameToken q usdcRow)
  /\ In usdtRow (sc_detectedApprovedTokens (scanAll exampleConfig exampleReads ∅))
  /\ ~ exists q, In q (sc_rows (scanAll exampleConfig exampleReads ∅)) /\ sameToken q usdtRow.
Proof.
  pose proof (scan_eligibility exampleConfig exampleReads ∅) as H. cbv zeta in H.
  destruct H as (Hq & _ & Hd & Hn).
  assert (Hu : In usdcRow (scannedRows exampleConfig exampleReads))
    by (vm_compute; left; reflexivity).
  assert (Ht : In usdtRow (scannedRows exampleConfig exampleReads))
    by (vm_compute; right; left; reflexivity).
  split; [apply (Hq usdcRow Hu); cbn; lia|].
  assert (Hdt : In usdtRow (sc_detectedApprovedTokens (scanAll exampleConfig exampleReads ∅)))
    by (apply Hd; split; [exact Ht | cbn; lia]).
  split; [exact Hdt | exact (Hn usdtRow Hdt)].
Defined.

(* --------------------------------------------------------------------- *)
(** ** The payout schedule store *)
(* --------------------------------------------------------------------- *)

Lemma omap_normalize_length (tokens : list ApprovedTokenMeta) :
  (length (omap normalizeTokenMeta tokens) <= length tokens)%nat.
Proof.
  induction tokens as [|t rest IH]; cbn; [lia|].
  destruct (normalizeTokenMeta t); cbn; lia.
Qed.

Lemma currentTokens_capped (store : gmap string PayoutSchedule) targetAddress :
  storeCapped store -> (length (currentTokens store targetAddress) <= 6)%nat.
Proof.
  intros Hcap. unfold currentTokens, normalizeSchedule.
  destruct (store !! toLowerCase targetAddress) as [s|] eqn:E; cbn; [|lia].
  pose proof (omap_normalize_length (s_tokens s)).
  pose proof (Hcap _ _ E). lia.
Qed.

Lemma nextTokensOf_capped tokenMeta current :
  (length current <= 6)%nat -> (length (nextTokensOf tokenMeta current) <= 6)%nat.
Proof.
  intros H. unfold nextTokensOf. destruct tokenMeta as [meta|]; [|exact H].
  rewrite length_take. lia.
Qed.

Lemma updatePayoutSchedule_capped (store : gmap string PayoutSchedule) targetAddress payload :
  storeCapped store -> storeCapped (fst (updatePayoutSchedule store targetAddress payload)).
Proof.
  intros Hcap key schedule. unfold updatePayoutSchedule. cbn [fst].
  destruct (decide (toLowerCase targetAddress = key)) as [<-|Hne].
  - rewrite lookup_insert_eq. intros [= <-]. cbn [s_tokens].
    apply nextTokensOf_capped. apply currentTokens_capped. exact Hcap.
  - rewrite lookup_insert_ne by exact Hne. apply Hcap.
Qed.

Lemma In_take {A} (n : nat) (l : list A) (x : A) : In x (take n l) -> In x l.
Proof.
  revert l. induction n as [|n IH]; intros [|y l]; cbn; try tauto.
  intros [->|H]; [left; reflexivity | right; apply IH; exact H].
Qed.

Lemma differsFrom_false meta token :
  differsFrom meta token = false <->
  m_chainId token = m_chainId meta
  /\ toLowerCase (m_address token) = toLowerCase (m_address meta).
Proof.
  unfold differsFrom. rewrite orb_false_iff, !negb_false_iff.
  rewrite Z.eqb_eq, String.eqb_eq. tauto.
Qed.





Lemma seedLoop_capped address baseLast baseNext detected seen
    (store : gmap string PayoutSchedule) :
  storeCapped store -> storeCapped (seedLoop address baseLast baseNext detected seen store).
Proof.
  revert seen store. induction detected as [|token rest IH]; intros seen store Hcap;
    cbn [seedLoop]; [exact Hcap|].
  destruct (decide _); [apply IH; exact Hcap|].
  apply IH. apply updatePayoutSchedule_capped. exact Hcap.
Qed.

Lemma seedDetectedApproved_capped address now detected
    (store : gmap string PayoutSchedule) :
  storeCapped store -> storeCapped (seedDetectedApproved address now detected store).
Proof.
  intros Hcap. unfold seedDetectedApproved. destruct detected; [exact Hcap|].
  apply seedLoop_capped. exact Hcap.
Qed.

Lemma syncPayoutSchedule_capped (store : gmap string PayoutSchedule) address base control now :
  storeCapped store ->
  (forall b, base = Some b -> (length (s_tokens b) <= 6)%nat) ->
  storeCapped (fst (syncPayoutSchedule store address base control now)).
Proof.
  intros Hcap Hbase. unfold syncPayoutSchedule.
  destruct base as [b|]; [|exact Hcap].
  destruct address as [addr|]; [|exact Hcap].
  destruct (_ || _); [|exact Hcap]. cbn [fst].
  intros key schedule.
  destruct (decide (toLowerCase addr = key)) as [<-|Hne].
  - rewrite lookup_insert_eq. intros [= <-]. cbn [s_tokens]. apply Hbase. reflexivity.
  - rewrite lookup_insert_ne by exact Hne. apply Hcap.
Qed.

(** C3 (as amended).  Schedule on approval: an approval at [approvedAt]
    stores, for the wallet, [lastApprovedAt = approvedAt] and
    [nextPayoutAt = approvedAt + 24h], whatever was stored before and
    whatever the control is; the token list is the new token followed by the
    other stored tokens, cut to six (the new token alone when nothing was
    stored).  The rewrite to derived values is the work of the schedule
    effect that runs afterwards: it leaves the store and the base at the
    times derived from the new base under the control, keeping the tokens. *)
Theorem approval_resets_schedule (store : gmap string PayoutSchedule)
    (address : string) (row : Row) (approvedAt : Z) :
  let store' := fst (markApprovedSchedule store address row approvedAt) in
  let next := snd (markApprovedSchedule store address row approvedAt) in
  store' !! toLowerCase address = Some next /\
  s_lastApprovedAt next = approvedAt /\
  s_nextPayoutAt next = approvedAt + 86400000 /\
  s_tokens next =
    take 6 (metaOfRow row
            :: List.filter (differsFrom (metaOfRow row)) (currentTokens store address)) /\
  (store !! toLowerCase address = None -> s_tokens next = [metaOfRow row]) /\
  forall (control : option PayoutControlState) (now : Z),
    let derived := derivePayoutState approvedAt (approvedAt + 86400000) control now in
    let synced := syncPayoutSchedule store' (Some address) (Some next) control now in
    snd synced = Some {| s_lastApprovedAt := d_lastApprovedAt derived;
                         s_nextPayoutAt := d_nextPayoutAt derived;
                         s_tokens := s_tokens next |}
    /\ fst synced !! toLowerCase address = snd synced.
Proof.
  cbv zeta. unfold markApprovedSchedule, updatePayoutSchedule, approvalPayload.
  cbn [fst snd pl_lastApprovedAt pl_nextPayoutAt pl_tokenMeta nextTokensOf
       s_lastApprovedAt s_nextPayoutAt s_tokens].
  split; [apply lookup_insert_eq|]. split; [reflexivity|]. split; [reflexivity|].
  split; [reflexivity|]. split.
  - intros Hnone. unfold currentTokens. rewrite Hnone. reflexivity.
  - intros control now. unfold syncPayoutSchedule.
    cbn [s_lastApprovedAt s_nextPayoutAt s_tokens].
    change PAYOUT_INTERVAL_MS with 86400000.
    set (derived := derivePayoutState approvedAt (approvedAt + 86400000) control now).
    destruct (Z.eqb_spec approvedAt (d_lastApprovedAt derived)) as [E1|E1];
      destruct (Z.eqb_spec (approvedAt + 86400000) (d_nextPayoutAt derived)) as [E2|E2];
      cbn [negb orb fst snd]; try (split; [reflexivity | apply lookup_insert_eq]).
    rewrite <- E1, <- E2. split; [reflexivity | apply lookup_insert_eq].
Qed.

(** C3, counterexample.  A schedule stored at time 0 under a one-day cycle
    starting at day 1; a second token is approved five seconds after day 3.
    The derived state of the stored base is (day 3, day 4), yet the approval
    stores (day 3 + 5 s, day 4 + 5 s). *)
Lemma later_approval_overwrites_base :
  let control := Some (cycleControl 86400000 86400000) in
  let approvedAt := 259205000 in
  let derived := derivePayoutState 0 86400000 control approvedAt in
  let next := snd (markApprovedSchedule driftedStore "0xUser" usdcRow approvedAt) in
  d_lastApprovedAt derived = 259200000 /\ d_nextPayoutAt derived = 345600000 /\
  s_lastApprovedAt next = 259205000 /\ s_nextPayoutAt next = 345605000 /\
  s_tokens next = [metaOfRow usdcRow; daiMeta] /\
  ~ (s_lastApprovedAt next = d_lastApprovedAt derived
     /\ s_nextPayoutAt next = d_nextPayoutAt derived).
Proof.
  cbv zeta. repeat (split; [vm_compute; reflexivity|]).
  intros [H _]. vm_compute in H. discriminate H.
Qed.

(* --------------------------------------------------------------------- *)
(** ** The approval-queue orchestrator *)
(* --------------------------------------------------------------------- *)

(** *** Fuel: the loop stops short only when no answer is left *)

Lemma permitAttempt_script cfg sid w token script :
  let r := permitAttempt cfg sid w token script in
  (length (snd (fst r)) <= length script)%nat
  /\ (snd r = PermitStuck -> snd (fst r) = []).
Proof.
  cbv zeta. unfold permitAttempt.
  destruct script as [|a1 script1]; [cbn; auto|].
  destruct (ans_flag a1); [|cbn; split; [lia | discriminate]].
  destruct (negb _); [cbn; split; [lia | discriminate]|].
  destruct script1 as [|a2 script2]; [cbn; split; [lia | reflexivity]|].
  destruct (ans_error a2); [cbn; split; [lia | discriminate]|].
  destruct script2 as [|a3 script3]; [cbn; split; [lia | reflexivity]|].
  destruct (ans_error a3); [cbn; split; [lia | discriminate]|].
  destruct (negb _); [cbn; split; [lia | discriminate]|].
  destruct script3 as [|a4 script4]; [cbn; split; [lia | reflexivity]|].
  destruct (ans_error a4); cbn; split; first [lia | discriminate].
Qed.

Lemma afterApproval_script rt sid w queue idx token script :
  let r := afterApproval rt sid w queue idx token script in
  match snd r with
  | TryNext queue' idx' =>
      queue' = delete idx queue /\ idx' = idx
      /\ (length (snd (fst r)) < length script)%nat
  | TryStuck => snd (fst r) = []
  | TryBreak _ => True
  | TryThrow _ => False
  end.
Proof.
  cbv zeta. unfold afterApproval. destruct (negb _); [exact I|].
  destruct script as [|a script']; cbn; [reflexivity|]. repeat split. lia.
Qed.

Lemma onChainApproval_script cfg rt sid w queue idx token router script :
  let r := onChainApproval cfg rt sid w queue idx token router script in
  match snd r with
  | TryNext queue' idx' =>
      queue' = delete idx queue /\ idx' = idx
      /\ (length (snd (fst r)) < length script)%nat
  | TryStuck => snd (fst r) = []
  | TryBreak _ => True
  | TryThrow _ => (length (snd (fst r)) < length script)%nat
  end.
Proof.
  cbv zeta. unfold onChainApproval.
  destruct script as [|aSwitching script1]; [reflexivity|].
  destruct (if ans_flag aSwitching then ans_error aSwitching else None); [cbn; lia|].
  destruct (negb _); [exact I|].
  unfold ensureChain.
  destruct script1 as [|a script2]; [reflexivity|].
  destruct (ans_error a); [cbn; lia|].
  destruct (negb _); [exact I|].
  destruct script2 as [|aWrite script3]; [reflexivity|].
  destruct (ans_error aWrite); [cbn; lia|].
  pose proof (afterApproval_script rt sid
                (suspend aWrite
                   (emit (Call (CallApprove (r_chainId token) (r_address token) router
                                            (r_balance token)))
                      (emit (SetModalText (textOnChain cfg token))
                         (suspend a
                            (emit (Call (CallSwitchChain (r_chainId token)))
                               (if ans_flag aSwitching then suspend aSwitching w else w))))))
                queue idx token script3) as H.
  cbv zeta in H.
  destruct (afterApproval _ _ _ _ _ _ _) as [[w' s'] [q|q i|e|]]; cbn [fst snd] in *;
    [exact I | | contradiction | exact H].
  destruct H as (H1 & H2 & H3). repeat split; try assumption. cbn. lia.
Qed.

Lemma tryBlock_script cfg rt sid w queue idx token script :
  (idx < length queue)%nat ->
  let r := tryBlock cfg rt sid w queue idx token script in
  match snd r with
  | TryNext queue' idx' =>
      (loopMeasure (snd (fst r)) queue' idx' < loopMeasure script queue idx)%nat
  | TryStuck => snd (fst r) = []
  | TryBreak _ => True
  | TryThrow _ => (length (snd (fst r)) <= length script)%nat
  end.
Proof.
  intros Hidx. cbv zeta. unfold tryBlock, loopMeasure.
  assert (Hon : forall w1 script1 router,
            (length script1 <= length script)%nat ->
            let r := onChainApproval cfg rt sid w1 queue idx token router script1 in
            match snd r with
            | TryNext queue' idx' =>
                (length (snd (fst r)) + (length queue' - idx')
                 < length script + (length queue - idx))%nat
            | TryStuck => snd (fst r) = []
            | TryBreak _ => True
            | TryThrow _ => (length (snd (fst r)) <= length script)%nat
            end).
  { intros w1 script1 router Hle. cbv zeta.
    pose proof (onChainApproval_script cfg rt sid w1 queue idx token router script1) as H.
    cbv zeta in H.
    destruct (onChainApproval _ _ _ _ _ _ _ _ _) as [[w' s'] [q|q i|e|]];
      cbn [fst snd] in *; try exact H; [|lia].
    destruct H as (-> & -> & H3).
    assert (Hd : length (delete idx queue) = (length queue - 1)%nat)
      by (apply length_delete, lookup_lt_is_Some_2; exact Hidx).
    lia. }
  destruct (ROUTERS cfg !! r_chainId token) as [router|].
  - destruct (env_walletClient rt); [|apply Hon; lia].
    pose proof (permitAttempt_script cfg sid w token script) as Hp. cbv zeta in Hp.
    destruct (permitAttempt cfg sid w token script) as [[w1 script1] [|[|]|]];
      cbn [fst snd] in Hp; destruct Hp as [Hle Hstuck].
    + exact I.
    + pose proof (afterApproval_script rt sid w1 queue idx token script1) as H.
      cbv zeta in H.
      destruct (afterApproval _ _ _ _ _ _ _) as [[w' s'] [q|q i|e|]];
        cbn [fst snd] in *; try exact H; [|contradiction].
      destruct H as (-> & -> & H3).
      assert (Hd : length (delete idx queue) = (length queue - 1)%nat)
      by (apply length_delete, lookup_lt_is_Some_2; exact Hidx).
    lia.
    + apply Hon. exact Hle.
    + cbn [fst snd]. apply Hstuck. reflexivity.
  - destruct (negb _); cbn [fst snd]; [exact I|].
    rewrite length_insert. lia.
Qed.

Lemma iteration_script cfg rt sid w queue idx script :
  (idx < length queue)%nat ->
  let r := iteration cfg rt sid w queue idx script in
  match snd r with
  | IterNext queue' idx' =>
      (loopMeasure (snd (fst r)) queue' idx' < loopMeasure script queue idx)%nat
  | IterStuck => snd (fst r) = []
  | IterBreak _ => True
  end.
Proof.
  intros Hidx. cbv zeta. unfold iteration.
  destruct (negb _); [exact I|].
  destruct (queue !! idx) as [token|]; [|exact I].
  set (w1 := announce cfg idx token w).
  pose proof (tryBlock_script cfg rt sid w1 queue idx token script Hidx) as H.
  cbv zeta in H.
  destruct (tryBlock cfg rt sid w1 queue idx token script) as [[w2 script2] [q|q i|e|]];
    cbn [fst snd] in *; try exact H.
  unfold catchIteration, loopMeasure.
  destruct (isUserRejected (Some e)).
  - destruct script2 as [|a script']; cbn [fst snd]; [reflexivity|]. cbn in H |- *. lia.
  - destruct script2 as [|a script']; cbn [fst snd]; [reflexivity|].
    rewrite length_insert. cbn in H |- *. lia.
Qed.

Lemma runLoop_enough_fuel cfg rt sid fuel w queue idx script :
  (loopMeasure script queue idx < fuel)%nat ->
  snd (runLoop fuel cfg rt sid w queue idx script) = false ->
  snd (fst (runLoop fuel cfg rt sid w queue idx script)) = [].
Proof.
  revert w queue idx script.
  induction fuel as [|fuel IH]; intros w queue idx script Hm; [lia|].
  cbn [runLoop].
  destruct (idx <? length queue)%nat eqn:Hlt; [|discriminate].
  apply Nat.ltb_lt in Hlt.
  pose proof (iteration_script cfg rt sid w queue idx script Hlt) as H. cbv zeta in H.
  destruct (iteration cfg rt sid w queue idx script) as [[w' script'] [q|q i|]];
    cbn [fst snd] in *.
  - discriminate.
  - apply IH. lia.
  - intros _. exact H.
Qed.

(** [runAll] is suspended only when the environment has no answer left:
    with answers enough, the run finishes. *)
Lemma runAll_suspended_without_answers cfg rt w script :
  snd (runAll cfg rt w script) = RunSuspended ->
  snd (fst (runAll cfg rt w script)) = [].
Proof.
  unfold runAll, runAllFuel.
  destruct (env_address rt); [|discriminate].
  destruct (w_running w); [discriminate|].
  pose proof (runLoop_enough_fuel cfg rt (w_session w)
                (S (length script + length (w_rows w))) (setRunning true w)
                (w_rows (setRunning true w)) 0 script) as H.
  destruct (runLoop _ cfg rt (w_session w) (setRunning true w)
              (w_rows (setRunning true w)) 0 script) as [[[w1 queue] script1] [|]];
    cbn [fst snd] in *; [discriminate|].
  intros _. apply H; [|reflexivity]. unfold loopMeasure. cbn. lia.
Qed.

(** *** Effects under the session check *)

Section Guarded.
Variable sid : Z.
Variable w0 : World.

Lemma guardedSince_refl : guardedSince sid w0 w0.
Proof. exists []. split; [reflexivity | constructor]. Qed.

Lemma guarded_emit_free e w :
  sessionGuarded e = false -> guardedSince sid w0 w -> guardedSince sid w0 (emit e w).
Proof.
  intros He (delta & Hlog & Hg). exists ((w_session w, e) :: delta).
  split; [cbn; rewrite Hlog; reflexivity|].
  constructor; [cbn; congruence | exact Hg].
Qed.

Lemma guarded_emit_current e w :
  w_session w = sid -> guardedSince sid w0 w -> guardedSince sid w0 (emit e w).
Proof.
  intros Hs (delta & Hlog & Hg). exists ((w_session w, e) :: delta).
  split; [cbn; rewrite Hlog; reflexivity|].
  constructor; [cbn; auto | exact Hg].
Qed.

Lemma guarded_suspend a w :
  guardedSince sid w0 w -> guardedSince sid w0 (suspend a w).
Proof.
  intros (delta & Hlog & Hg). exists delta. split; [|exact Hg].
  unfold suspend. destruct (ans_bump a); exact Hlog.
Qed.

Lemma guarded_setRunning b w :
  guardedSince sid w0 w -> guardedSince sid w0 (setRunning b w).
Proof. intros (delta & Hlog & Hg). exists delta. split; [exact Hlog | exact Hg]. Qed.

Lemma guarded_updateRows next w :
  w_session w = sid -> guardedSince sid w0 w -> guardedSince sid w0 (updateRows next w).
Proof.
  intros Hs (delta & Hlog & Hg). exists ((w_session w, UpdateRows next) :: delta).
  split; [cbn; rewrite Hlog; reflexivity|].
  constructor; [cbn; auto | exact Hg].
Qed.

Lemma guarded_markApproved address row w :
  guardedSince sid w0 w -> guardedSince sid w0 (markApproved address row w).
Proof.
  intros (delta & Hlog & Hg). unfold markApproved.
  destruct address as [addr|].
  - unfold markApprovedSchedule, updatePayoutSchedule. cbn [emit w_log w_session w_clock w_payoutStore].
    eexists (_ :: _ :: _ :: _ :: _ :: delta). split.
    + cbn. rewrite Hlog. reflexivity.
    + repeat (constructor; [cbn; discriminate|]). exact Hg.
  - eexists (_ :: _ :: delta). split.
    + cbn. rewrite Hlog. reflexivity.
    + repeat (constructor; [cbn; discriminate|]). exact Hg.
Qed.
End Guarded.

Lemma session_emit e w : w_session (emit e w) = w_session w.
Proof. reflexivity. Qed.
Lemma session_updateRows next w : w_session (updateRows next w) = w_session w.
Proof. reflexivity. Qed.
Lemma session_setRunning b w : w_session (setRunning b w) = w_session w.
Proof. reflexivity. Qed.
Lemma session_markApproved address row w :
  w_session (markApproved address row w) = w_session w.
Proof.
  unfold markApproved. destruct address; [|reflexivity].
  unfold markApprovedSchedule, updatePayoutSchedule. reflexivity.
Qed.

Ltac sess :=
  repeat first [ rewrite session_emit | rewrite session_updateRows
               | rewrite session_setRunning | rewrite session_markApproved ];
  first
    [ assumption
    | match goal with
      | H : negb (w_session ?w =? ?s) = false |- w_session ?w = ?s =>
          apply negb_false_iff, Z.eqb_eq in H; exact H
      | H : (w_session ?w =? ?s) = true |- w_session ?w = ?s =>
          apply Z.eqb_eq in H; exact H
      end ].

Ltac guarded_step :=
  first
    [ assumption
    | apply guardedSince_refl
    | apply guarded_suspend
    | apply guarded_markApproved
    | apply guarded_setRunning
    | apply guarded_emit_free; [reflexivity|]
    | apply guarded_updateRows; [sess|]
    | apply guarded_emit_current; [sess|] ].

Ltac guarded := cbn [fst snd]; repeat guarded_step.

Lemma guarded_permitAttempt sid w0 cfg w token script :
  guardedSince sid w0 w ->
  guardedSince sid w0 (fst (fst (permitAttempt cfg sid w token script))).
Proof.
  intros H. unfold permitAttempt.
  destruct script as [|a1 script1]; [guarded|].
  set (w1 := suspend a1 _).
  assert (H1 : guardedSince sid w0 w1) by (unfold w1; guarded).
  destruct (ans_flag a1); [|guarded].
  destruct (negb (w_session w1 =? sid)) eqn:Hs1; [guarded|].
  destruct script1 as [|a2 script2]; [guarded|].
  set (w3 := suspend a2 _).
  assert (H3 : guardedSince sid w0 w3) by (unfold w3; guarded).
  destruct (ans_error a2); [guarded|].
  destruct script2 as [|a3 script3]; [guarded|].
  set (w4 := suspend a3 _).
  assert (H4 : guardedSince sid w0 w4) by (unfold w4; guarded).
  destruct (ans_error a3); [guarded|].
  destruct (negb (w_session w4 =? sid)) eqn:Hs2; [guarded|].
  destruct script3 as [|a4 script4]; [guarded|].
  destruct (ans_error a4); guarded.
Qed.

Lemma guarded_ensureChain sid w0 chainId w script :
  guardedSince sid w0 w ->
  guardedSince sid w0 (fst (fst (ensureChain chainId w script))).
Proof.
  intros H. unfold ensureChain.
  destruct script as [|a script']; [guarded|].
  destruct (ans_error a) as [error|]; [|guarded].
  destruct (e_code error) as [code|]; [|guarded].
  destruct (code =? -32002); guarded.
Qed.

Lemma guarded_afterApproval sid w0 rt w queue idx token script :
  guardedSince sid w0 w ->
  guardedSince sid w0 (fst (fst (afterApproval rt sid w queue idx token script))).
Proof.
  intros H. unfold afterApproval.
  set (w1 := markApproved (env_address rt) token w).
  assert (H1 : guardedSince sid w0 w1) by (unfold w1; guarded).
  destruct (negb (w_session w1 =? sid)) eqn:Hs; [guarded|].
  destruct script as [|a script']; guarded.
Qed.

Lemma guarded_onChainApproval sid w0 cfg rt w queue idx token router script :
  guardedSince sid w0 w ->
  guardedSince sid w0
    (fst (fst (onChainApproval cfg rt sid w queue idx token router script))).
Proof.
  intros H. unfold onChainApproval.
  destruct script as [|aSwitching script1]; [guarded|].
  set (w1 := if ans_flag aSwitching then suspend aSwitching w else w).
  assert (H1 : guardedSince sid w0 w1)
    by (unfold w1; destruct (ans_flag aSwitching); guarded).
  destruct (if ans_flag aSwitching then ans_error aSwitching else None); [guarded|].
  destruct (negb (w_session w1 =? sid)) eqn:Hs1; [guarded|].
  pose proof (guarded_ensureChain sid w0 (r_chainId token) w1 script1 H1) as H2.
  destruct (ensureChain (r_chainId token) w1 script1) as [[w2 script2] [[e|]|]];
    cbn [fst] in H2; [guarded | guarded |].
  destruct (negb (w_session w2 =? sid)) eqn:Hs2; [guarded|].
  destruct script2 as [|aWrite script3]; [guarded|].
  destruct (ans_error aWrite); [guarded|].
  apply guarded_afterApproval. guarded.
Qed.

Lemma guarded_tryBlock sid w0 cfg rt w queue idx token script :
  guardedSince sid w0 w ->
  guardedSince sid w0 (fst (fst (tryBlock cfg rt sid w queue idx token script))).
Proof.
  intros H. unfold tryBlock.
  destruct (ROUTERS cfg !! r_chainId token) as [router|].
  - destruct (env_walletClient rt); [|apply guarded_onChainApproval; exact H].
    pose proof (guarded_permitAttempt sid w0 cfg w token script H) as H1.
    destruct (permitAttempt cfg sid w token script) as [[w1 script1] [|[|]|]];
      cbn [fst] in H1; [guarded| | |guarded].
    + apply guarded_afterApproval. exact H1.
    + apply guarded_onChainApproval. exact H1.
  - destruct (negb (w_session w =? sid)) eqn:Hs; guarded.
Qed.

Lemma guarded_catchIteration sid w0 w queue idx token e script :
  guardedSince sid w0 w ->
  guardedSince sid w0 (fst (fst (catchIteration sid w queue idx token e script))).
Proof.
  intros H. unfold catchIteration.
  destruct (isUserRejected (Some e)).
  - destruct script as [|a script']; guarded.
  - destruct (w_session w =? sid) eqn:Hs; destruct script as [|a script']; guarded.
Qed.

Lemma guarded_iteration sid w0 cfg rt w queue idx script :
  guardedSince sid w0 w ->
  guardedSince sid w0 (fst (fst (iteration cfg rt sid w queue idx script))).
Proof.
  intros H. unfold iteration.
  destruct (negb (w_session w =? sid)) eqn:Hs; [guarded|].
  destruct (queue !! idx) as [token|]; [|guarded].
  set (w1 := announce cfg idx token w).
  assert (H1 : guardedSince sid w0 w1) by (unfold w1, announce; guarded).
  pose proof (guarded_tryBlock sid w0 cfg rt w1 queue idx token script H1) as H2.
  destruct (tryBlock cfg rt sid w1 queue idx token script) as [[w2 script2] [| | |]];
    cbn [fst] in H2; try guarded.
  apply guarded_catchIteration. exact H2.
Qed.

Lemma guarded_runLoop sid w0 cfg rt fuel w queue idx script :
  guardedSince sid w0 w ->
  guardedSince sid w0
    (fst (fst (fst (runLoop fuel cfg rt sid w queue idx script)))).
Proof.
  revert w queue idx script.
  induction fuel as [|fuel IH]; intros w queue idx script H; cbn [runLoop];
    destruct (idx <? length queue)%nat; try guarded.
  pose proof (guarded_iteration sid w0 cfg rt w queue idx script H) as H1.
  destruct (iteration cfg rt sid w queue idx script) as [[w' script'] [| |]];
    cbn [fst] in H1; try guarded.
  apply IH. exact H1.
Qed.

(** The bookkeeping of a completed approval comes first, whatever the
    session counter says. *)
Lemma afterApproval_records rt sid w queue idx token script :
  let w' := fst (fst (afterApproval rt sid w queue idx token script)) in
  approvedKey (r_chainId token) (r_address token) ∈ w_approved w'
  /\ exists delta,
       w_log w' = delta ++ w_log (markApproved (env_address rt) token w).
Proof.
  cbv zeta. unfold afterApproval.
  set (w1 := markApproved (env_address rt) token w).
  assert (Hk : approvedKey (r_chainId token) (r_address token) ∈ w_approved w1).
  { unfold w1, markApproved. destruct (env_address rt); cbn; set_solver. }
  destruct (negb (w_session w1 =? sid)).
  - split; [exact Hk | exists []; reflexivity].
  - destruct script as [|a script'].
    + split; [exact Hk | eexists [_; _; _]; reflexivity].
    + split.
      * cbn [fst]. unfold suspend. destruct (ans_bump a); exact Hk.
      * cbn [fst]. unfold suspend. destruct (ans_bump a); eexists [_; _; _; _]; reflexivity.
Qed.

(** C1 (as amended).  Session cancellation, as far as the code enforces it:
    whatever happens while a run of [runAll] is suspended, every publication
    of the rows ([updateRows]), every increment of the approved counter,
    every change of the current index, every opening of the modal, every
    status message other than the network-switch prompt and every modal text
    other than the cancellation notice that the run makes is made while the
    session counter still has the value the run captured at its start.  The
    bookkeeping of a completed approval is not under that check: once the
    signature and clipboard write, or the transaction, has resolved,
    [markApproved] runs first (approved-set insertion and save, schedule
    write, approve event, referral registration), and only then is the
    session id compared. *)
Theorem stale_run_never_publishes_rows (fuel : nat) (cfg : Config) (rt : RunEnv)
    (w : World) (script : list Answer) :
  let w' := fst (fst (runAllFuel fuel cfg rt w script)) in
  (exists delta,
     w_log w' = delta ++ w_log w /\
     forall session e, In (session, e) delta ->
       sessionGuarded e = true -> session = w_session w)
  /\ forall sessionId w1 queue idx token script1,
       let w1' := fst (fst (afterApproval rt sessionId w1 queue idx token script1)) in
       approvedKey (r_chainId token) (r_address token) ∈ w_approved w1'
       /\ exists delta,
            w_log w1' = delta ++ w_log (markApproved (env_address rt) token w1).
Proof.
  cbv zeta. split; [|intros; apply afterApproval_records].
  assert (G : guardedSince (w_session w) w (fst (fst (runAllFuel fuel cfg rt w script)))).
  { unfold runAllFuel.
    destruct (env_address rt); [|guarded].
    destruct (w_running w); [guarded|].
    assert (H0 : guardedSince (w_session w) w (setRunning true w)) by guarded.
    pose proof (guarded_runLoop (w_session w) w cfg rt fuel (setRunning true w)
                  (w_rows (setRunning true w)) 0 script H0) as H1.
    destruct (runLoop fuel cfg rt (w_session w) (setRunning true w)
                (w_rows (setRunning true w)) 0 script) as [[[w1 queue] script1] [|]];
      cbn [fst] in H1; [|guarded].
    destruct (w_session w1 =? w_session w) eqn:Hs1.
    - rewrite session_setRunning, session_emit, Hs1. guarded.
    - rewrite session_setRunning, Hs1. guarded. }
  destruct G as (delta & Hlog & Hg). exists delta. split; [exact Hlog|].
  intros session e Hin Hq.
  unfold guardedLog in Hg. rewrite List.Forall_forall in Hg.
  exact (Hg (session, e) Hin Hq).
Qed.

(** C1, counterexample.  One token queued, the on-chain path; the wallet
    changes while [writeContractAsync] is pending (the session counter goes
    from 0 to 1).  When the call resolves the old run still inserts the
    token into the approved set, saves it, writes the payout schedule and
    emits the approve event and the referral registration: mutations made
    under session 1 by the run of session 0. *)
Lemma approval_recorded_after_wallet_change :
  let w := world0 [usdcRow] in
  let w' := fst (fst (runAll exampleConfig exampleRun w staleScript)) in
  let key := approvedKey 1 "0xA0b86991c6218b36c1d19D4a2e9Eb0cE3606eB48" in
  w_session w = 0 /\ w_session w' = 1 /\
  In (1, ApprovedSetAdd key) (w_log w') /\
  In (1, SaveApproved) (w_log w') /\
  In (1, RegisterReferral "0xUser" 1000200) (w_log w') /\
  key ∈ w_approved w' /\
  is_Some (w_payoutStore w' !! "0xuser"%string) /\
  ~ (forall session e, In (session, e) (w_log w') ->
       mutation e = true -> session = w_session w).
Proof.
  cbv zeta.
  split; [reflexivity|]. split; [vm_compute; reflexivity|].
  assert (H2 : In (1, SaveApproved)
                 (w_log (fst (fst (runAll exampleConfig exampleRun (world0 [usdcRow])
                                          staleScript))))).
  { vm_compute. repeat first [left; reflexivity | right]. }
  split; [vm_compute; repeat first [left; reflexivity | right]|].
  split; [exact H2|].
  split; [vm_compute; repeat first [left; reflexivity | right]|].
  split; [vm_compute; reflexivity|].
  split; [vm_compute; eexists; reflexivity|].
  intros H. specialize (H 1 SaveApproved H2 eq_refl). discriminate H.
Qed.

Section Quiet.
Variable w0 : World.

Lemma quietSince_refl : quietSince w0 w0.
Proof. split; [exists []; split; [reflexivity | constructor] | auto]. Qed.

Lemma quiet_emit e w :
  quietEffect e = true -> quietSince w0 w -> quietSince w0 (emit e w).
Proof.
  intros He ((delta & Hlog & Hq) & Ha & Hs & Hb).
  split; [|cbn; auto].
  exists ((w_session w, e) :: delta). split; [cbn; rewrite Hlog; reflexivity|].
  constructor; [exact He | exact Hq].
Qed.

Lemma quiet_suspend a w : quietSince w0 w -> quietSince w0 (suspend a w).
Proof.
  intros ((delta & Hlog & Hq) & Ha & Hs & Hb).
  unfold suspend. destruct (ans_bump a);
    (split; [exists delta; split; [exact Hlog | exact Hq] | cbn; auto]).
Qed.
End Quiet.

Ltac quiet_step :=
  first
    [ assumption
    | apply quietSince_refl
    | apply quiet_suspend
    | apply quiet_emit; [reflexivity|] ].

Ltac quiet := cbn [fst snd]; repeat quiet_step.

Lemma quiet_permitAttempt w0 cfg sid w token script :
  quietSince w0 w ->
  quietSince w0 (fst (fst (permitAttempt cfg sid w token script))).
Proof.
  intros H. unfold permitAttempt.
  destruct script as [|a1 script1]; [quiet|].
  destruct (ans_flag a1); [|quiet].
  destruct (negb (w_session _ =? sid)); [quiet|].
  destruct script1 as [|a2 script2]; [quiet|].
  destruct (ans_error a2); [quiet|].
  destruct script2 as [|a3 script3]; [quiet|].
  destruct (ans_error a3); [quiet|].
  destruct (negb (w_session _ =? sid)); [quiet|].
  destruct script3 as [|a4 script4]; [quiet|].
  destruct (ans_error a4); quiet.
Qed.

Lemma quiet_ensureChain w0 chainId w script :
  quietSince w0 w ->
  quietSince w0 (fst (fst (ensureChain chainId w script))).
Proof.
  intros H. unfold ensureChain.
  destruct script as [|a script']; [quiet|].
  destruct (ans_error a) as [error|]; [|quiet].
  destruct (e_code error) as [code|]; [|quiet].
  destruct (code =? -32002); quiet.
Qed.

Lemma afterApproval_no_throw rt sid w queue idx token script w' script' e :
  afterApproval rt sid w queue idx token script <> (w', script', TryThrow e).
Proof.
  unfold afterApproval. destruct (negb _); [discriminate|].
  destruct script; discriminate.
Qed.

Lemma quiet_onChainApproval w0 cfg rt sid w queue idx token router script w' script' e :
  quietSince w0 w ->
  onChainApproval cfg rt sid w queue idx token router script = (w', script', TryThrow e) ->
  quietSince w0 w'.
Proof.
  intros H. unfold onChainApproval.
  destruct script as [|aSwitching script1]; [discriminate|].
  set (w1 := if ans_flag aSwitching then suspend aSwitching w else w).
  assert (H1 : quietSince w0 w1) by (unfold w1; destruct (ans_flag aSwitching); quiet).
  destruct (if ans_flag aSwitching then ans_error aSwitching else None);
    [intros [= <- <- <-]; exact H1|].
  destruct (negb (w_session w1 =? sid)); [discriminate|].
  pose proof (quiet_ensureChain w0 (r_chainId token) w1 script1 H1) as H2.
  destruct (ensureChain (r_chainId token) w1 script1) as [[w2 script2] [[e2|]|]];
    cbn [fst] in H2; [intros [= <- <- <-]; exact H2 | discriminate |].
  destruct (negb (w_session w2 =? sid)); [discriminate|].
  destruct script2 as [|aWrite script3]; [discriminate|].
  destruct (ans_error aWrite).
  - intros [= <- <- <-]. quiet.
  - intros Habs. exfalso. exact (afterApproval_no_throw _ _ _ _ _ _ _ _ _ _ Habs).
Qed.

Lemma quiet_tryBlock w0 cfg rt sid w queue idx token script w' script' e :
  quietSince w0 w ->
  tryBlock cfg rt sid w queue idx token script = (w', script', TryThrow e) ->
  quietSince w0 w'.
Proof.
  intros H. unfold tryBlock.
  destruct (ROUTERS cfg !! r_chainId token) as [router|].
  - destruct (env_walletClient rt); [|apply quiet_onChainApproval; exact H].
    pose proof (quiet_permitAttempt w0 cfg sid w token script H) as H1.
    destruct (permitAttempt cfg sid w token script) as [[w1 script1] [|[|]|]];
      cbn [fst] in H1; try discriminate.
    + intros Habs. exfalso. exact (afterApproval_no_throw _ _ _ _ _ _ _ _ _ _ Habs).
    + apply quiet_onChainApproval. exact H1.
  - destruct (negb _); discriminate.
Qed.

Lemma onChainApproval_thrown cfg rt sid w queue idx token router script w' script' e :
  onChainApproval cfg rt sid w queue idx token router script = (w', script', TryThrow e) ->
  (exists aSwitching rest,
     script = aSwitching :: rest /\ ans_flag aSwitching = true
     /\ ans_error aSwitching = Some e)
  \/ (exists aSwitching aSwitch rest,
        script = aSwitching :: aSwitch :: rest /\ ans_error aSwitch = Some e)
  \/ (exists aSwitching aSwitch aWrite rest,
        script = aSwitching :: aSwitch :: aWrite :: rest /\ ans_error aWrite = Some e).
Proof.
  unfold onChainApproval.
  destruct script as [|aSwitching script1]; [discriminate|].
  destruct (ans_flag aSwitching) eqn:Hflag.
  - destruct (ans_error aSwitching) as [e0|] eqn:He0.
    + intros [= _ _ <-]. left. exists aSwitching, script1. auto.
    + destruct (negb _); [discriminate|].
      unfold ensureChain.
      destruct script1 as [|aSwitch script2]; [discriminate|].
      destruct (ans_error aSwitch) as [e1|] eqn:He1.
      * intros [= _ _ <-]. right. left. exists aSwitching, aSwitch, script2. auto.
      * destruct (negb _); [discriminate|].
        destruct script2 as [|aWrite script3]; [discriminate|].
        destruct (ans_error aWrite) as [e2|] eqn:He2.
        -- intros [= _ _ <-]. right. right.
           exists aSwitching, aSwitch, aWrite, script3. auto.
        -- intros Habs. exfalso.
           exact (afterApproval_no_throw _ _ _ _ _ _ _ _ _ _ Habs).
  - destruct (negb _); [discriminate|].
    unfold ensureChain.
    destruct script1 as [|aSwitch script2]; [discriminate|].
    destruct (ans_error aSwitch) as [e1|] eqn:He1.
    + intros [= _ _ <-]. right. left. exists aSwitching, aSwitch, script2. auto.
    + destruct (negb _); [discriminate|].
      destruct script2 as [|aWrite script3]; [discriminate|].
      destruct (ans_error aWrite) as [e2|] eqn:He2.
      * intros [= _ _ <-]. right. right.
        exists aSwitching, aSwitch, aWrite, script3. auto.
      * intros Habs. exfalso.
        exact (afterApproval_no_throw _ _ _ _ _ _ _ _ _ _ Habs).
Qed.

(** What the [try] block throws comes from the on-chain path, entered
    from a world that differs from the start by quiet effects only. *)
Lemma tryBlock_thrown w0 cfg rt sid w queue idx token script w' script' e :
  quietSince w0 w ->
  tryBlock cfg rt sid w queue idx token script = (w', script', TryThrow e) ->
  exists router wp scriptp,
    ROUTERS cfg !! r_chainId token = Some router /\ quietSince w0 wp /\
    onChainApproval cfg rt sid wp queue idx token router scriptp
    = (w', script', TryThrow e).
Proof.
  intros H. unfold tryBlock.
  destruct (ROUTERS cfg !! r_chainId token) as [router|].
  - destruct (env_walletClient rt).
    + pose proof (quiet_permitAttempt w0 cfg sid w token script H) as H1.
      destruct (permitAttempt cfg sid w token script) as [[w1 script1] [|[|]|]];
        cbn [fst] in H1; try discriminate.
      * intros Habs. exfalso. exact (afterApproval_no_throw _ _ _ _ _ _ _ _ _ _ Habs).
      * intros Hon. exists router, w1, script1. auto.
    + intros Hon. exists router, w, script. auto.
  - destruct (negb _); discriminate.
Qed.

(** A failure of the signature request is swallowed: the [try] block goes
    on with the on-chain approval. *)
Lemma tryBlock_signature_refused cfg rt sid w queue idx token router a1 a2 a3 rest
    refusal :
  ROUTERS cfg !! r_chainId token = Some router -> env_walletClient rt = true ->
  w_session w = sid -> ans_flag a1 = true -> ans_bump a1 = false ->
  ans_error a2 = None -> ans_error a3 = Some refusal ->
  tryBlock cfg rt sid w queue idx token (a1 :: a2 :: a3 :: rest)
  = onChainApproval cfg rt sid (afterSignatureRequest cfg token a1 a2 a3 w)
                    queue idx token router rest.
Proof.
  intros Hr Hw Hs Hf Hb He2 He3. unfold tryBlock, permitAttempt. rewrite Hr, Hw, Hf.
  assert (E : w_session (suspend a1 (emit (Call (CallSupportsPermit (r_address token))) w))
              = sid).
  { unfold suspend. rewrite Hb. exact Hs. }
  rewrite E, Z.eqb_refl. cbn [negb]. rewrite He2, He3. reflexivity.
Qed.

(** C8 (as amended).  User-rejection retry.  When the attempt for the queue
    entry at [idx] throws an error that [isUserRejected] accepts, the
    iteration ends with the same queue and the same index; between its start
    and the end of the 900 ms cooldown the run only announces and calls out
    ([quietSince]: no row, counter, approved-set or schedule change); the
    loop goes on from the same queue and index; and if the session is still
    current the next iteration starts by announcing the same token.  Such an
    error is thrown by the on-chain path only: it is the rejection of the
    pending network switch, of the network switch or of the approve
    transaction.  A refusal of the permit signature is not thrown: whatever
    the error, the attempt goes straight on to the on-chain approval of the
    same token, from the world in which the signature request returned
    (no cancellation notice, no cooldown). *)
Theorem user_rejection_retries_head (cfg : Config) (rt : RunEnv) (w : World)
    (queue : list Row) (idx : nat) (token : Row) (script : list Answer)
    (w1 : World) (e : JsError) (a : Answer) (script2 : list Answer) :
  queue !! idx = Some token ->
  tryBlock cfg rt (w_session w) (announce cfg idx token w) queue idx token script
    = (w1, a :: script2, TryThrow e) ->
  isUserRejected (Some e) = true ->
  let sessionId := w_session w in
  let w2 := afterCooldown a w1 in
  iteration cfg rt sessionId w queue idx script = (w2, script2, IterNext queue idx)
  /\ quietSince w w2
  /\ (forall fuel,
        runLoop (S fuel) cfg rt sessionId w queue idx script
        = runLoop fuel cfg rt sessionId w2 queue idx script2)
  /\ (w_session w2 = sessionId ->
      forall script3, exists delta,
        w_log (fst (fst (iteration cfg rt sessionId w2 queue idx script3)))
        = delta ++ w_log (announce cfg idx token w2))
  /\ (exists router wp scriptp,
        ROUTERS cfg !! r_chainId token = Some router /\ quietSince w wp /\
        onChainApproval cfg rt sessionId wp queue idx token router scriptp
        = (w1, a :: script2, TryThrow e) /\
        ((exists aSwitching rest,
            scriptp = aSwitching :: rest /\ ans_flag aSwitching = true
            /\ ans_error aSwitching = Some e)
         \/ (exists aSwitching aSwitch rest,
               scriptp = aSwitching :: aSwitch :: rest /\ ans_error aSwitch = Some e)
         \/ (exists aSwitching aSwitch aWrite rest,
               scriptp = aSwitching :: aSwitch :: aWrite :: rest
               /\ ans_error aWrite = Some e)))
  /\ (forall router w0 a1 a2 a3 rest refusal,
        ROUTERS cfg !! r_chainId token = Some router -> env_walletClient rt = true ->
        w_session w0 = sessionId -> ans_flag a1 = true -> ans_bump a1 = false ->
        ans_error a2 = None -> ans_error a3 = Some refusal ->
        tryBlock cfg rt sessionId w0 queue idx token (a1 :: a2 :: a3 :: rest)
        = onChainApproval cfg rt sessionId (afterSignatureRequest cfg token a1 a2 a3 w0)
                          queue idx token router rest).
Proof.
  intros Hidx Htry Hrej. cbv zeta.
  assert (Hit : iteration cfg rt (w_session w) w queue idx script
                = (afterCooldown a w1, script2, IterNext queue idx)).
  { unfold iteration. rewrite Z.eqb_refl. cbn [negb]. rewrite Hidx.
    fold (announce cfg idx token w). rewrite Htry.
    unfold catchIteration. rewrite Hrej. reflexivity. }
  assert (Hann : quietSince w (announce cfg idx token w)) by (unfold announce; quiet).
  split; [exact Hit|]. split; [|split; [|split; [|split]]].
  - unfold afterCooldown.
    assert (H1 : quietSince w w1).
    { eapply quiet_tryBlock; [|exact Htry]. exact Hann. }
    quiet.
  - intros fuel. cbn [runLoop].
    assert (Hlt : (idx <? length queue)%nat = true).
    { apply Nat.ltb_lt. eapply lookup_lt_Some. exact Hidx. }
    rewrite Hlt, Hit. reflexivity.
  - intros Hs script3. unfold iteration. rewrite Hs, Z.eqb_refl. cbn [negb].
    rewrite Hidx. fold (announce cfg idx token (afterCooldown a w1)).
    set (wa := announce cfg idx token (afterCooldown a w1)).
    pose proof (guarded_tryBlock (w_session w) wa cfg rt wa queue idx token script3
                  (guardedSince_refl _ _)) as H3.
    destruct (tryBlock cfg rt (w_session w) wa queue idx token script3)
      as [[w3 script4] [| | |]]; cbn [fst] in H3 |- *;
      try (destruct H3 as (delta & Hlog & _); exists delta; exact Hlog).
    pose proof (guarded_catchIteration (w_session w) wa w3 queue idx token e0 script4 H3)
      as H4.
    destruct H4 as (delta & Hlog & _). exists delta. exact Hlog.
  - destruct (tryBlock_thrown w cfg rt (w_session w) _ queue idx token script
                w1 (a :: script2) e Hann Htry) as (router & wp & scriptp & Hr & Hq & Hon).
    exists router, wp, scriptp. split; [exact Hr|]. split; [exact Hq|].
    split; [exact Hon|]. eapply onChainApproval_thrown. exact Hon.
  - intros router w0 a1 a2 a3 rest refusal. apply tryBlock_signature_refused.
Qed.

(** C8, Scenario E with a wallet client: two tokens queued; the user
    refuses the permit signature, the attempt goes on to the approve
    transaction, and the user rejects that too.  After the cooldown both
    tokens are still queued and the same head is offered again. *)
Lemma user_rejection_retries_head_witness :
  let w := world0 scenarioE_queue in
  let w2 := afterCooldown answerOk bothRejected_thrown in
  iteration exampleConfig permitRun 0 w scenarioE_queue 0 bothRejectedScript
    = (w2, [], IterNext scenarioE_queue 0)
  /\ quietSince w w2
  /\ w_rows w2 = scenarioE_queue
  /\ callsOf w2
     = [ CallSupportsPermit (r_address usdcRow); CallBuildPermit (r_address usdcRow);
         CallSignTypedData (r_address usdcRow); CallSwitchChain 1;
         CallApprove 1 (r_address usdcRow) "0x966c0cEA6e08Dd16b35a7b07dcE39E755Ed57C74"
                     1000;
         CallSleep 900 ].
Proof.
  cbv zeta.
  pose proof (user_rejection_retries_head exampleConfig permitRun
                (world0 scenarioE_queue) scenarioE_queue 0 usdcRow bothRejectedScript
                bothRejected_thrown userRejection answerOk []) as H.
  cbv zeta in H.
  destruct H as (Hit & Hq & _).
  - reflexivity.
  - vm_compute. reflexivity.
  - vm_compute. reflexivity.
  - split; [exact Hit|]. split; [exact Hq|].
    split; vm_compute; reflexivity.
Defined.

(** C8, counterexample.  With a wallet client the permit is tried first.
    The user rejects the signature request: the rejection is swallowed, no
    cancellation notice is shown and no cooldown is taken; the same attempt
    goes on to the approve transaction, and when the user accepts that one
    the token is approved and leaves the queue.  So an attempt that met a
    user rejection is not always retried. *)
Lemma rejected_permit_is_not_retried :
  let w := world0 scenarioE_queue in
  let r := iteration exampleConfig permitRun 0 w scenarioE_queue 0 permitRejectedScript in
  isUserRejected (ans_error answerRejected) = true /\
  snd r = IterNext [daiRow] 0 /\
  w_rows (fst (fst r)) = [daiRow] /\
  w_approved (fst (fst r)) = {[ rowKey usdcRow ]} /\
  callsOf (fst (fst r))
  = [ CallSupportsPermit (r_address usdcRow); CallBuildPermit (r_address usdcRow);
      CallSignTypedData (r_address usdcRow); CallSwitchChain 1;
      CallApprove 1 (r_address usdcRow) "0x966c0cEA6e08Dd16b35a7b07dcE39E755Ed57C74"
                  1000;
      CallSleep 300 ] /\
  ~ In (SetModalText textCancelled) (map snd (w_log (fst (fst r)))) /\
  ~ (snd r = IterNext scenarioE_queue 0).
Proof.
  cbv zeta. split; [vm_compute; reflexivity|]. split; [vm_compute; reflexivity|].
  split; [vm_compute; reflexivity|]. split.
  { apply set_eq. intros k. vm_compute. tauto. }
  split; [vm_compute; reflexivity|]. split.
  - vm_compute. intuition discriminate.
  - vm_compute. discriminate.
Qed.

(** Scenario E run as far as four answers go: after the cooldown the run
    is back at the same entry, announcing USDC again, with both tokens still
    in the published rows. *)
Lemma scenarioE_offers_head_again :
  let r := runAll exampleConfig exampleRun (world0 scenarioE_queue)
                  [answerOk; answerOk; answerRejected; answerOk] in
  snd r = RunSuspended
  /\ w_rows (fst (fst r)) = scenarioE_queue
  /\ take 6 (w_log (fst (fst r))) =
       [ (0, SetModalText "Preparing approval for USDC on Ethereum");
         (0, SetShowModal true);
         (0, SetCurrentIdx (Some 0%nat));
         (0, Call (CallSleep 900));
         (0, SetModalText textCancelled);
         (0, SetShowModal false) ].
Proof. cbv zeta. repeat split; vm_compute; reflexivity. Qed.

Lemma isUserRejected_examples :
  isUserRejected None = false
  /\ isUserRejected (Some {| e_code := Some 4001; e_causeCode := None; e_message := None |}) = true
  /\ isUserRejected (Some {| e_code := None; e_causeCode := Some 4001; e_message := None |}) = true
  /\ isUserRejected (Some {| e_code := Some (-32000); e_causeCode := Some 4001;
                             e_message := Some "execution reverted"%string |}) = false
  /\ isUserRejected (Some {| e_code := None; e_causeCode := None;
                             e_message := Some "MetaMask: User Disapproved requested method"%string |}) = true.
Proof. repeat split; vm_compute; reflexivity. Qed.

(** A rejected permit signature is swallowed by the inner [catch]: the
    attempt goes on with the on-chain path. *)
Lemma rejected_permit_falls_through cfg sid w token a1 a2 a3 script :
  ans_flag a1 = true -> ans_bump a1 = false -> w_session w = sid ->
  ans_error a2 = None -> ans_error a3 = Some userRejection ->
  snd (permitAttempt cfg sid w token (a1 :: a2 :: a3 :: script)) = PermitDone false.
Proof.
  intros Hf Hb Hs He2 He3. unfold permitAttempt. rewrite Hf.
  assert (E : w_session (suspend a1 (emit (Call (CallSupportsPermit (r_address token))) w)) = sid).
  { unfold suspend. rewrite Hb. exact Hs. }
  rewrite E, Z.eqb_refl. cbn [negb]. rewrite He2, He3. reflexivity.
Qed.

(* ===================================================================== *)
(** * Further properties *)
(* ===================================================================== *)

(* --------------------------------------------------------------------- *)
(** ** The payout state machine, continued *)
(* --------------------------------------------------------------------- *)

Lemma sanitize_Some_fixed c c' :
  sanitizeControlState (Some c) = Some c' ->
  sanitizeControlState (Some c') = Some c'.
Proof.
  unfold sanitizeControlState.
  destruct c as [p pr ra an al cs cm]. cbn [paused pauseRemainingMs resumeAt
    adjustedNextPayoutAt adjustedLastApprovedAt cycleStartAt cycleMs].
  destruct (negb p && negb (isSome al || isSome an) && negb (isSome cs)) eqn:E;
    [discriminate|].
  intros [= <-].
  cbn [paused pauseRemainingMs resumeAt adjustedNextPayoutAt adjustedLastApprovedAt
       cycleStartAt cycleMs].
  rewrite E. f_equal. f_equal.
  - destruct p; [|reflexivity]. destruct pr; cbn; [|reflexivity]. f_equal. lia.
  - destruct p; [|reflexivity]. destruct ra; cbn; [|reflexivity]. f_equal. lia.
  - destruct cs; cbn [isSome]; [|reflexivity]. destruct cm as [m|]; [|reflexivity].
    destruct (Z.ltb_spec 0 m) as [H|H]; [|reflexivity].
    apply Z.ltb_lt in H. rewrite H. reflexivity.
Qed.

Lemma sanitize_valid control c' :
  sanitizeControlState control = Some c' -> validStored c'.
Proof.
  intros H. destruct control as [c|]; [|discriminate].
  unfold sanitizeControlState in H.
  destruct c as [p pr ra an al cs cm]. cbn [paused pauseRemainingMs resumeAt
    adjustedNextPayoutAt adjustedLastApprovedAt cycleStartAt cycleMs] in H.
  destruct (negb p && negb (isSome al || isSome an) && negb (isSome cs)) eqn:E;
    [discriminate|].
  injection H as <-. unfold validStored.
  cbn [paused pauseRemainingMs resumeAt adjustedNextPayoutAt adjustedLastApprovedAt
       cycleStartAt cycleMs].
  split; [|split; [|split; [|split]]].
  - destruct p; [left; reflexivity|]. destruct al; [right; left; reflexivity|].
    destruct an; [right; right; left; reflexivity|].
    destruct cs; [right; right; right; reflexivity|]. discriminate.
  - intros ->. split; reflexivity.
  - intros r. destruct p; [|discriminate]. destruct pr; cbn; [|discriminate].
    intros [= <-]. lia.
  - intros r. destruct p; [|discriminate]. destruct ra; cbn; [|discriminate].
    intros [= <-]. lia.
  - intros m. destruct cs; cbn [isSome]; [|discriminate].
    destruct cm as [m'|]; [|discriminate].
    destruct (Z.ltb_spec 0 m'); [|discriminate]. intros [= <-]. auto.
Qed.

Lemma valid_sanitize_fixed c :
  validStored c -> sanitizeControlState (Some c) = Some c.
Proof.
  intros (Hsome & Hnp & Hpr & Hra & Hcm).
  unfold sanitizeControlState.
  destruct c as [p pr ra an al cs cm]. cbn [paused pauseRemainingMs resumeAt
    adjustedNextPayoutAt adjustedLastApprovedAt cycleStartAt cycleMs] in *.
  assert (E : negb p && negb (isSome al || isSome an) && negb (isSome cs) = false).
  { destruct Hsome as [-> | [-> | [-> | ->]]]; cbn; try reflexivity;
      destruct p; cbn; try reflexivity; destruct al; cbn; try reflexivity;
      destruct an; reflexivity. }
  rewrite E. f_equal.
  assert (Epr : (if p then option_map (Z.max 0) pr else None) = pr).
  { destruct p; [|symmetry; apply Hnp; reflexivity].
    destruct pr as [r|]; [|reflexivity]. cbn. f_equal.
    specialize (Hpr r eq_refl). lia. }
  assert (Era : (if p then option_map (Z.max 0) ra else None) = ra).
  { destruct p; [|symmetry; apply Hnp; reflexivity].
    destruct ra as [r|]; [|reflexivity]. cbn. f_equal.
    specialize (Hra r eq_refl). lia. }
  assert (Ecm : (if isSome cs then match cm with
                                    | Some m => if 0 <? m then Some m else None
                                    | None => None end else None) = cm).
  { destruct cm as [m|].
    - destruct (Hcm m eq_refl) as [Hm Hc]. rewrite Hc.
      destruct (Z.ltb_spec 0 m); [reflexivity | lia].
    - destruct (isSome cs); reflexivity. }
  rewrite Epr, Era, Ecm. reflexivity.
Qed.

(** X1.  [sanitizeControlState] is a normalisation: applying it twice is
    applying it once, whatever it returns is a well-formed stored record
    (some pause, manual or cycle field is set; the pause fields only with
    [paused]; stored durations and times not negative; a positive
    [cycleMs] only together with a [cycleStartAt]), and a well-formed
    record is returned unchanged. *)
Theorem sanitize_idempotent (control : option PayoutControlState) :
  sanitizeControlState (sanitizeControlState control) = sanitizeControlState control
  /\ (forall c', sanitizeControlState control = Some c' -> validStored c')
  /\ (forall c, validStored c -> sanitizeControlState (Some c) = Some c).
Proof.
  split; [|split].
  - destruct control as [c|]; [|reflexivity].
    destruct (sanitizeControlState (Some c)) as [c'|] eqn:E; [|reflexivity].
    exact (sanitize_Some_fixed c c' E).
  - apply sanitize_valid.
  - apply valid_sanitize_fixed.
Qed.

Lemma sanitize_paused c c' :
  sanitizeControlState (Some c) = Some c' -> paused c' = paused c.
Proof.
  unfold sanitizeControlState.
  destruct (negb (paused c) && _ && _); [discriminate|].
  intros [= <-]. reflexivity.
Qed.

Lemma sanitize_None_fields c :
  sanitizeControlState (Some c) = None ->
  paused c = false /\ adjustedLastApprovedAt c = None /\
  adjustedNextPayoutAt c = None /\ cycleStartAt c = None.
Proof.
  unfold sanitizeControlState.
  destruct (paused c), (adjustedLastApprovedAt c), (adjustedNextPayoutAt c),
    (cycleStartAt c); cbn; try discriminate. auto.
Qed.

Lemma Zmax_0_idem r : Z.max (Z.max 0 r) 0 = Z.max r 0.
Proof. lia. Qed.

(** The locals of [derivePayoutState] under a sanitized control, but for
    the default cycle length kept in [l_cycleMs] outside a cycle. *)
Lemma deriveLocals_sanitize L N control now fz :
  let l := deriveLocals L N control now fz in
  let l' := deriveLocals L N (sanitizeControlState control) now fz in
  l_lastApprovedAt l' = l_lastApprovedAt l /\
  l_nextPayoutAt l' = l_nextPayoutAt l /\
  l_remaining l' = l_remaining l /\
  l_resumeAt l' = l_resumeAt l /\
  l_status l' = l_status l /\
  l_isCycle l' = l_isCycle l /\
  (l_isCycle l = true -> l_cycleMs l' = l_cycleMs l).
Proof.
  cbv zeta. destruct control as [c|]; [|cbn; repeat split; reflexivity].
  destruct c as [p pr ra an al cs cm].
  unfold sanitizeControlState.
  cbn [paused pauseRemainingMs resumeAt adjustedNextPayoutAt
       adjustedLastApprovedAt cycleStartAt cycleMs].
  destruct p.
  - (* paused *)
    cbn [negb andb].
    unfold deriveLocals.
    cbn [paused].
    unfold derivePaused.
    cbn [paused pauseRemainingMs resumeAt adjustedNextPayoutAt
         adjustedLastApprovedAt cycleStartAt cycleMs].
    assert (Era : option_map (fun r => Z.max r 0) (option_map (Z.max 0) ra)
                  = option_map (fun r => Z.max r 0) ra).
    { destruct ra; cbn; [f_equal; lia | reflexivity]. }
    assert (Epr : option_map (fun r => Z.max r 0) (option_map (Z.max 0) pr)
                  = option_map (fun r => Z.max r 0) pr).
    { destruct pr; cbn; [f_equal; lia | reflexivity]. }
    rewrite Era, Epr.
    destruct cs as [s|]; cbn [isSome].
    + assert (Ec : cycleMsOrDay (Some {| paused := true;
                     pauseRemainingMs := option_map (Z.max 0) pr;
                     resumeAt := option_map (Z.max 0) ra;
                     adjustedNextPayoutAt := an; adjustedLastApprovedAt := al;
                     cycleStartAt := Some s;
                     cycleMs := match cm with
                                | Some m => if 0 <? m then Some m else None
                                | None => None end |})
                   = cycleMsOrDay (Some {| paused := true; pauseRemainingMs := pr;
                     resumeAt := ra; adjustedNextPayoutAt := an;
                     adjustedLastApprovedAt := al; cycleStartAt := Some s;
                     cycleMs := cm |})).
      { unfold cycleMsOrDay. cbn [cycleMs].
        destruct cm as [m|]; [|reflexivity].
        destruct (0 <? m) eqn:E; [rewrite E|]; reflexivity. }
      rewrite Ec. cbn [l_lastApprovedAt l_nextPayoutAt l_remaining l_resumeAt
                       l_status l_isCycle l_cycleMs].
      repeat split; reflexivity.
    + cbn [l_lastApprovedAt l_nextPayoutAt l_remaining l_resumeAt
           l_status l_isCycle l_cycleMs].
      repeat split; try reflexivity. discriminate.
  - (* not paused *)
    cbn [negb andb].
    destruct cs as [s|]; cbn [isSome negb andb].
    + rewrite Bool.andb_false_r.
      unfold deriveLocals. cbn [paused cycleStartAt isSome].
      assert (Ec : cycleMsOrDay (Some {| paused := false;
                     pauseRemainingMs := None; resumeAt := None;
                     adjustedNextPayoutAt := an; adjustedLastApprovedAt := al;
                     cycleStartAt := Some s;
                     cycleMs := match cm with
                                | Some m => if 0 <? m then Some m else None
                                | None => None end |})
                   = cycleMsOrDay (Some {| paused := false; pauseRemainingMs := pr;
                     resumeAt := ra; adjustedNextPayoutAt := an;
                     adjustedLastApprovedAt := al; cycleStartAt := Some s;
                     cycleMs := cm |})).
      { unfold cycleMsOrDay. cbn [cycleMs].
        destruct cm as [m|]; [|reflexivity].
        destruct (0 <? m) eqn:E; [rewrite E|]; reflexivity. }
      rewrite Ec. unfold deriveCycle. cbn [cycleStartAt].
      repeat split; reflexivity.
    + rewrite Bool.andb_true_r.
      destruct (negb (isSome al || isSome an)) eqn:E.
      * destruct al; [discriminate|]. destruct an; [discriminate|].
        unfold deriveLocals. cbn. repeat split; try reflexivity. discriminate.
      * unfold deriveLocals. cbn [paused cycleStartAt isSome
          adjustedLastApprovedAt adjustedNextPayoutAt].
        unfold derivePlain. cbn [l_lastApprovedAt l_nextPayoutAt l_remaining
          l_resumeAt l_status l_isCycle l_cycleMs].
        repeat split; try reflexivity. discriminate.
Qed.

Lemma cycleMsOrDay_sanitize control :
  (forall c, control = Some c ->
     isSome (cycleStartAt c) = true \/ cycleMs c = None) ->
  cycleMsOrDay (sanitizeControlState control) = cycleMsOrDay control.
Proof.
  intros H. destruct control as [c|]; [|reflexivity].
  specialize (H c eq_refl).
  unfold sanitizeControlState.
  destruct (negb (paused c) && _ && negb (isSome (cycleStartAt c))) eqn:E.
  - destruct H as [H|H].
    + rewrite H in E. rewrite Bool.andb_false_r in E. discriminate.
    + unfold cycleMsOrDay. rewrite H. reflexivity.
  - unfold cycleMsOrDay. cbn [cycleMs].
    destruct H as [H|H].
    + rewrite H. destruct (cycleMs c) as [m|]; [|reflexivity].
      destruct (0 <? m) eqn:Em; [rewrite Em|]; reflexivity.
    + rewrite H. destruct (isSome (cycleStartAt c)); reflexivity.
Qed.

(** X2.  Sanitizing a well-typed control does not change what is derived
    from it.  For a control whose numeric fields are each absent or a
    finite number and whose [paused] is a boolean (the records of type
    [PayoutControlState] here; a field holding NaN or an infinity, which
    the two functions read differently, is outside the model), the control
    and its sanitized form derive the same times, remaining, status and
    cycle fields at every time, with or without frozen pauses: fields the
    sanitizer clamps or drops (negative pause values, pause fields of a
    control that is not paused, a [cycleMs] that is not positive) are read
    by [derivePayoutState] the same way.  The progress is the same too
    when the control has a cycle start or no [cycleMs]; a [cycleMs] stored
    without a cycle start is dropped by the sanitizer but is read by the
    progress computation as its default duration. *)
Theorem derive_reads_sanitized (L N : Z) (control : option PayoutControlState)
    (now : Z) (freezePaused : bool) :
  let d := derivePayoutStateWith L N control now freezePaused in
  let d' := derivePayoutStateWith L N (sanitizeControlState control) now freezePaused in
  d_lastApprovedAt d' = d_lastApprovedAt d /\
  d_nextPayoutAt d' = d_nextPayoutAt d /\
  d_remaining d' = d_remaining d /\
  d_resumeAt d' = d_resumeAt d /\
  d_status d' = d_status d /\
  d_isCycle d' = d_isCycle d /\
  d_cycleMs d' = d_cycleMs d /\
  ((forall c, control = Some c ->
      isSome (cycleStartAt c) = true \/ cycleMs c = None) -> d' = d).
Proof.
  cbv zeta.
  pose proof (deriveLocals_sanitize L N control now freezePaused) as H.
  cbv zeta in H. destruct H as (H1 & H2 & H3 & H4 & H5 & H6 & H7).
  unfold derivePayoutStateWith.
  cbn [d_lastApprovedAt d_nextPayoutAt d_remaining d_resumeAt d_status
       d_isCycle d_cycleMs].
  assert (E7 : (if l_isCycle (deriveLocals L N (sanitizeControlState control) now freezePaused)
                then Some (l_cycleMs (deriveLocals L N (sanitizeControlState control) now freezePaused))
                else None)
               = (if l_isCycle (deriveLocals L N control now freezePaused)
                  then Some (l_cycleMs (deriveLocals L N control now freezePaused))
                  else None)).
  { rewrite H6. destruct (l_isCycle (deriveLocals L N control now freezePaused));
      [rewrite H7 by reflexivity|]; reflexivity. }
  repeat (split; [assumption|]).
  intros Hc.
  assert (Et : totalDurationOf (sanitizeControlState control)
                 (deriveLocals L N (sanitizeControlState control) now freezePaused)
               = totalDurationOf control (deriveLocals L N control now freezePaused)).
  { unfold totalDurationOf. rewrite H1, H2, H6, (cycleMsOrDay_sanitize control Hc).
    destruct (l_isCycle (deriveLocals L N control now freezePaused));
      [rewrite H7 by reflexivity|]; reflexivity. }
  rewrite Et, H1, H2, H3, H4, H5, E7, H6. reflexivity.
Qed.

(** A manual next payout stored with a one-hour [cycleMs] and no cycle
    start: the sanitizer drops the [cycleMs], and the progress changes. *)
Remark sanitize_changes_progress :
  let c := {| paused := false; pauseRemainingMs := None; resumeAt := None;
              adjustedNextPayoutAt := Some 7200000;
              adjustedLastApprovedAt := Some 0;
              cycleStartAt := None; cycleMs := Some 3600000 |} in
  (d_progress (derivePayoutState 0 7200000 (Some c) 3600000) == 1 # 2)%Q /\
  ~ (d_progress (derivePayoutState 0 7200000 (sanitizeControlState (Some c)) 3600000)
     == 1 # 2)%Q.
Proof. cbv zeta. split; vm_compute; [reflexivity | discriminate]. Qed.

(** X3.  A paused control keeps the payout paused at every time: the status
    is paused, [nextPayoutAt] and [resumeAt] are the same resume point, a
    stored [resumeAt] is that point (floored at 0), and without one the
    point is not before the passed time.  With frozen pauses a stored
    [pauseRemainingMs] is the remaining time (floored at 0) whatever the
    passed time; without freezing the remaining time counts down to the
    resume point. *)
Theorem paused_control_freezes (L N : Z) (c : PayoutControlState) (now : Z)
    (freezePaused : bool) :
  paused c = true ->
  let d := derivePayoutStateWith L N (Some c) now freezePaused in
  d_status d = StPaused /\
  d_nextPayoutAt d = d_resumeAt d /\
  (forall R, resumeAt c = Some R -> d_resumeAt d = Z.max R 0) /\
  (resumeAt c = None -> now <= d_resumeAt d) /\
  (forall r, freezePaused = true -> pauseRemainingMs c = Some r ->
     d_remaining d = Z.max r 0) /\
  (freezePaused = false \/ pauseRemainingMs c = None ->
     d_remaining d = Z.max (d_resumeAt d - now) 0).
Proof.
  intros Hp. cbv zeta.
  unfold derivePayoutStateWith, deriveLocals.
  cbn [d_status d_nextPayoutAt d_resumeAt d_remaining].
  rewrite Hp. unfold derivePaused.
  destruct (isSome (cycleStartAt c)) eqn:Hc;
    cbn [l_status l_nextPayoutAt l_resumeAt l_remaining].
  - split; [reflexivity|]. split; [reflexivity|].
    split; [intros R ->; reflexivity|].
    split.
    + intros ->. cbn [option_map].
      destruct (pauseRemainingMs c) as [r|]; cbn [option_map]; [lia|].
      destruct (now <? _) eqn:E; [apply Z.ltb_lt in E; lia|].
      destruct (0 <? cycleMsOrDay (Some c)); [|unfold DAY_MS; lia].
      pose proof (cycleMsOrDay_pos (Some c)). lia.
    + split.
      * intros r -> ->. reflexivity.
      * intros [-> | ->]; [reflexivity|].
        cbn [option_map nullish]. destruct freezePaused; reflexivity.
  - split; [reflexivity|]. split; [reflexivity|].
    split; [intros R ->; reflexivity|].
    split.
    + intros ->. cbn [option_map].
      destruct (pauseRemainingMs c) as [r|]; cbn [option_map]; lia.
    + split.
      * intros r -> ->. reflexivity.
      * intros [-> | ->]; [reflexivity|].
        cbn [option_map nullish]. destruct freezePaused; reflexivity.
Qed.

Lemma paused_control_freezes_witness :
  let c := {| paused := true; pauseRemainingMs := Some 3600000;
              resumeAt := Some 90000000; adjustedNextPayoutAt := None;
              adjustedLastApprovedAt := None; cycleStartAt := None;
              cycleMs := None |} in
  paused c = true /\
  d_status (derivePayoutStateWith 0 86400000 (Some c) 100000000 true) = StPaused.
Proof.
  intros c. split; [reflexivity|].
  exact (proj1 (paused_control_freezes 0 86400000 c 100000000 true eq_refl)).
Defined.





(* --------------------------------------------------------------------- *)
(** ** The admin editor: every button *)
(* --------------------------------------------------------------------- *)

Lemma producedControl_valid producer current c :
  producedControl producer current = Some c -> validStored c.
Proof.
  unfold producedControl. destruct (producer current) as [raw|]; [|discriminate].
  apply sanitize_valid.
Qed.

Lemma setControlForPayout_other controls payout producer key :
  key <> toLowerCase (p_address payout) ->
  setControlForPayout controls payout producer !! key = controls !! key.
Proof.
  intros Hne. unfold setControlForPayout.
  destruct (producedControl producer _) as [cleaned|].
  - apply lookup_insert_ne. congruence.
  - apply lookup_delete_ne. congruence.
Qed.

Lemma setControlForPayout_valid controls payout producer :
  controlsValid controls ->
  controlsValid (setControlForPayout controls payout producer).
Proof.
  intros Hv key c H.
  destruct (decide (key = toLowerCase (p_address payout))) as [->|Hne].
  - rewrite setControlForPayout_lookup in H.
    exact (producedControl_valid _ _ _ H).
  - rewrite setControlForPayout_other in H by exact Hne.
    exact (Hv key c H).
Qed.

(** X6.  The admin editor keeps its control map well formed and local.
    Whatever button is pressed for a wallet (pause, resume, shift the
    time, set the time, start a cycle, reset), every control left in the
    map is as the sanitizer leaves it, provided that was so before, and
    the entries of all other wallets are the ones they were. *)
Theorem editor_keeps_controls_valid
    (controls : gmap string PayoutControlState) (payout : UpcomingPayoutRow)
    (now now' deltaMs : Z) (parsed : option Z) :
  controlsValid controls ->
  Forall (fun after : gmap string PayoutControlState =>
            controlsValid after /\
            forall key, key <> toLowerCase (p_address payout) ->
                        after !! key = controls !! key)
         [ handlePausePayout controls payout now;
           handleResumePayout controls payout now;
           handleAdjustPayoutTime controls payout deltaMs now;
           handleEditPayoutTime controls payout parsed now now';
           handleStartPayout controls payout now;
           handleResetPayout controls payout ].
Proof.
  intros Hv.
  assert (Hset : forall producer,
            controlsValid (setControlForPayout controls payout producer) /\
            forall key, key <> toLowerCase (p_address payout) ->
              setControlForPayout controls payout producer !! key = controls !! key).
  { intros producer. split.
    - apply setControlForPayout_valid, Hv.
    - intros key Hne. apply setControlForPayout_other, Hne. }
  assert (Hid : controlsValid controls /\
                forall key, key <> toLowerCase (p_address payout) ->
                  controls !! key = controls !! key) by (split; [exact Hv | reflexivity]).
  repeat match goal with |- Forall _ (_ :: _) => apply List.Forall_cons end;
    [ | | | | | | apply List.Forall_nil].
  - unfold handlePausePayout. destruct (p_status payout); [exact Hid | apply Hset ..].
  - apply Hset.
  - unfold handleAdjustPayoutTime. destruct (deltaMs =? 0); [exact Hid | apply Hset].
  - unfold handleEditPayoutTime. destruct parsed; [apply Hset | exact Hid].
  - apply Hset.
  - apply Hset.
Qed.

Lemma editor_keeps_controls_valid_witness :
  Forall (fun after : gmap string PayoutControlState =>
            controlsValid after /\
            forall key, key <> toLowerCase (p_address (upcomingPayout exampleSummary None 1000)) ->
                        after !! key = noControls !! key)
         [ handlePausePayout noControls (upcomingPayout exampleSummary None 1000) 2000;
           handleResumePayout noControls (upcomingPayout exampleSummary None 1000) 2000;
           handleAdjustPayoutTime noControls (upcomingPayout exampleSummary None 1000) 1800000 2000;
           handleEditPayoutTime noControls (upcomingPayout exampleSummary None 1000) (Some 90000000) 2000 2001;
           handleStartPayout noControls (upcomingPayout exampleSummary None 1000) 2000;
           handleResetPayout noControls (upcomingPayout exampleSummary None 1000) ].
Proof.
  apply (editor_keeps_controls_valid noControls (upcomingPayout exampleSummary None 1000)
           2000 2001 1800000 (Some 90000000)).
  intros key c H. unfold noControls in H. rewrite lookup_empty in H. discriminate H.
Defined.

Lemma sanitize_paused_fields c :
  paused c = true ->
  exists c', sanitizeControlState (Some c) = Some c' /\
    paused c' = true /\
    resumeAt c' = option_map (Z.max 0) (resumeAt c) /\
    pauseRemainingMs c' = option_map (Z.max 0) (pauseRemainingMs c) /\
    adjustedLastApprovedAt c' = adjustedLastApprovedAt c /\
    adjustedNextPayoutAt c' = adjustedNextPayoutAt c /\
    cycleStartAt c' = cycleStartAt c.
Proof.
  intros Hp. unfold sanitizeControlState. rewrite Hp. cbn [negb andb].
  eexists. split; [reflexivity|]. cbn. repeat split; reflexivity.
Qed.

(** What [derivePayoutState] shows under a paused control that stores its
    resume point and its remaining time. *)
Lemma derive_paused_stored L N c t R r :
  paused c = true -> resumeAt c = Some R -> pauseRemainingMs c = Some r ->
  let d := derivePayoutState L N (Some c) t in
  d_status d = StPaused /\ d_remaining d = Z.max r 0 /\
  d_resumeAt d = Z.max R 0 /\ d_nextPayoutAt d = Z.max R 0.
Proof.
  intros Hp HR Hr. cbv zeta.
  unfold derivePayoutState, derivePayoutStateWith, deriveLocals.
  cbn [d_status d_remaining d_resumeAt d_nextPayoutAt].
  rewrite Hp. unfold derivePaused. rewrite HR, Hr. cbn [option_map nullish].
  destruct (isSome (cycleStartAt c)); cbn; repeat split; reflexivity.
Qed.

Lemma derive_paused_status L N c t fz :
  paused c = true -> d_status (derivePayoutStateWith L N (Some c) t fz) = StPaused.
Proof.
  intros Hp. unfold derivePayoutStateWith, deriveLocals. cbn [d_status].
  rewrite Hp. unfold derivePaused. destruct (isSome (cycleStartAt c)); reflexivity.
Qed.

Lemma row_not_paused summary control nowTs :
  p_status (upcomingPayout summary control nowTs) <> StPaused ->
  notPaused control.
Proof.
  intros H c -> . destruct (paused c) eqn:Hp; [|reflexivity].
  exfalso. apply H. unfold upcomingPayout. cbn [p_status].
  apply derive_paused_status, Hp.
Qed.

Lemma valid_not_paused_resumeAt control :
  (forall c, control = Some c -> validStored c) -> notPaused control ->
  optField control resumeAt = None.
Proof.
  intros Hv Hnp. destruct control as [c|]; [|reflexivity]. cbn [optField].
  destruct (Hv c eq_refl) as (_ & H & _). apply H, Hnp. reflexivity.
Qed.

(** The fields of a row that the producers read, for a control that is
    not paused. *)
Lemma row_plain_fields summary control nowTs :
  notPaused control -> optField control cycleStartAt = None ->
  let row := upcomingPayout summary control nowTs in
  p_lastApprovedAt row
    = nullish (optField control adjustedLastApprovedAt) (sm_lastApprovedAt summary) /\
  p_scheduledNextPayoutAt row
    = nullish (optField control adjustedNextPayoutAt) (sm_nextPayoutAt summary) /\
  p_isCycle row = false /\ p_cycleMs row = None.
Proof.
  intros Hnp Hcs. cbv zeta. unfold upcomingPayout.
  cbn [p_lastApprovedAt p_scheduledNextPayoutAt p_isCycle p_cycleMs].
  pose proof (derive_plain_fields (sm_lastApprovedAt summary) (sm_nextPayoutAt summary)
                control nowTs true Hnp Hcs) as H.
  cbv zeta in H. fold (derivePayoutState (sm_lastApprovedAt summary)
                         (sm_nextPayoutAt summary) control nowTs) in H.
  destruct H as (H1 & H2 & _ & _ & _ & H6 & H7). auto.
Qed.

Lemma row_cycle_fields summary c nowTs :
  paused c = false -> isSome (cycleStartAt c) = true ->
  let row := upcomingPayout summary (Some c) nowTs in
  p_resumeAt row = p_scheduledNextPayoutAt row /\
  nowTs < p_scheduledNextPayoutAt row /\
  p_isCycle row = true /\ p_cycleMs row = Some (cycleMsOrDay (Some c)).
Proof.
  intros Hp Hc. cbv zeta. unfold upcomingPayout.
  cbn [p_resumeAt p_scheduledNextPayoutAt p_isCycle p_cycleMs].
  pose proof (derive_cycle_running (sm_lastApprovedAt summary) (sm_nextPayoutAt summary)
                c nowTs Hp Hc) as H.
  cbv zeta in H. destruct H as (H1 & _ & H3 & _ & H5 & H6).
  rewrite H1, H3, H5, H6.
  pose proof (deriveCycle_next_gt (sm_lastApprovedAt summary) (sm_nextPayoutAt summary)
                c nowTs _ (cycleMsOrDay_pos (Some c))).
  auto.
Qed.

(** The resume point that the pause producer stores: not before [now] and
    not before the row's scheduled payout. *)
Lemma pauseProducer_shape summary control nowTs now :
  notPaused control -> optField control resumeAt = None ->
  let row := upcomingPayout summary control nowTs in
  exists raw R,
    pauseProducer row now control = Some raw /\
    paused raw = true /\ resumeAt raw = Some R /\
    pauseRemainingMs raw = Some (Z.max (R - now) 0) /\
    now <= R /\ p_scheduledNextPayoutAt row <= R.
Proof.
  intros Hnp Hra. cbv zeta.
  unfold pauseProducer. rewrite Hra. cbn [nullish].
  destruct (optField control cycleStartAt) as [s|] eqn:Hcs.
  - destruct control as [c|]; [|discriminate]. cbn [optField] in Hcs.
    assert (Hp : paused c = false) by (apply Hnp; reflexivity).
    assert (Hc : isSome (cycleStartAt c) = true) by (rewrite Hcs; reflexivity).
    destruct (row_cycle_fields summary c nowTs Hp Hc) as (E1 & _ & E3 & _).
    unfold producerHasCycle. rewrite E3. cbn [orb].
    eexists. eexists. split; [reflexivity|].
    cbn [paused resumeAt pauseRemainingMs].
    split; [reflexivity|]. split; [reflexivity|]. split; [reflexivity|].
    rewrite E1. lia.
  - destruct (row_plain_fields summary control nowTs Hnp Hcs) as (E1 & E2 & E3 & _).
    unfold producerHasCycle. rewrite E3, Hcs. cbn [orb isSome].
    eexists. eexists. split; [reflexivity|].
    cbn [paused resumeAt pauseRemainingMs].
    split; [reflexivity|]. split; [reflexivity|]. split; [reflexivity|].
    assert (Et : nullish (optField control adjustedNextPayoutAt)
                   (p_scheduledNextPayoutAt (upcomingPayout summary control nowTs))
                 = p_scheduledNextPayoutAt (upcomingPayout summary control nowTs)).
    { rewrite E2. destruct (optField control adjustedNextPayoutAt); reflexivity. }
    rewrite Et. lia.
Qed.

(** X7.  Pause stores where the payout resumes.  For a wallet whose stored
    control is well formed and whose row does not show as paused, pressing
    Pause at [now >= 0] leaves a paused control with a resume point [R]
    that is neither before [now] nor before the row's scheduled payout,
    and with remaining time [R - now].  From then on, at every time, the
    payout shows as paused with that remaining time and resume point, and
    pressing Pause again changes nothing. *)
Theorem pause_stores_resume_point
    (controls : gmap string PayoutControlState) (summary : PayoutSummary)
    (nowTs now : Z) :
  0 <= now ->
  (forall c, controls !! toLowerCase (sm_address summary) = Some c -> validStored c) ->
  p_status (rowOf controls summary nowTs) <> StPaused ->
  let after := handlePausePayout controls (rowOf controls summary nowTs) now in
  exists c' R,
    after !! toLowerCase (sm_address summary) = Some c' /\
    paused c' = true /\ resumeAt c' = Some R /\ pauseRemainingMs c' = Some (R - now) /\
    now <= R /\ p_scheduledNextPayoutAt (rowOf controls summary nowTs) <= R /\
    (forall t,
       let d := derivePayoutState (sm_lastApprovedAt summary) (sm_nextPayoutAt summary)
                                  (Some c') t in
       d_status d = StPaused /\ d_remaining d = R - now /\
       d_resumeAt d = R /\ d_nextPayoutAt d = R) /\
    (forall t t', handlePausePayout after (rowOf after summary t) t' = after).
Proof.
  intros Hnow Hv Hst. cbv zeta.
  unfold rowOf in *.
  set (key := toLowerCase (sm_address summary)) in *.
  set (control := controls !! key) in *.
  pose proof (row_not_paused summary control nowTs Hst) as Hnp.
  pose proof (valid_not_paused_resumeAt control Hv Hnp) as Hra.
  destruct (pauseProducer_shape summary control nowTs now Hnp Hra)
    as (raw & R & Hraw & Hp & HR & Hr & HnowR & Hsched).
  destruct (sanitize_paused_fields raw Hp) as (c' & Hs & Hp' & HR' & Hr' & _).
  assert (Hlook : handlePausePayout controls (upcomingPayout summary control nowTs) now
                    !! key = Some c').
  { unfold handlePausePayout.
    destruct (p_status (upcomingPayout summary control nowTs)) eqn:E;
      [contradiction Hst; reflexivity | |];
      change key with (toLowerCase (p_address (upcomingPayout summary control nowTs)));
      rewrite setControlForPayout_lookup;
      change (toLowerCase (p_address (upcomingPayout summary control nowTs))) with key;
      fold control; unfold producedControl; rewrite Hraw; exact Hs. }
  rewrite HR in HR'. rewrite Hr in Hr'. cbn [option_map] in HR', Hr'.
  rewrite (Z.max_r 0 R) in HR' by lia.
  replace (Z.max 0 (Z.max (R - now) 0)) with (R - now) in Hr' by lia.
  assert (Hd : forall t,
            let d := derivePayoutState (sm_lastApprovedAt summary)
                       (sm_nextPayoutAt summary) (Some c') t in
            d_status d = StPaused /\ d_remaining d = R - now /\
            d_resumeAt d = R /\ d_nextPayoutAt d = R).
  { intros t.
    pose proof (derive_paused_stored (sm_lastApprovedAt summary) (sm_nextPayoutAt summary)
                  c' t R (R - now) Hp' HR' Hr') as H.
    cbv zeta in H |- *. destruct H as (H1 & H2 & H3 & H4).
    rewrite H1, H2, H3, H4. repeat split; lia. }
  exists c', R.
  split; [exact Hlook|]. split; [exact Hp'|]. split; [exact HR'|].
  split; [exact Hr'|]. split; [exact HnowR|]. split; [exact Hsched|].
  split; [exact Hd|].
  intros t t'. rewrite Hlook.
  unfold handlePausePayout at 1.
  assert (E : p_status (upcomingPayout summary (Some c') t) = StPaused).
  { unfold upcomingPayout. cbn [p_status]. apply (Hd t). }
  rewrite E. reflexivity.
Qed.

Lemma pause_stores_resume_point_witness :
  exists c' R,
    handlePausePayout noControls (rowOf noControls exampleSummary 1000) 2000
      !! toLowerCase (sm_address exampleSummary) = Some c' /\
    paused c' = true /\ resumeAt c' = Some R /\ pauseRemainingMs c' = Some (R - 2000).
Proof.
  assert (H0 : 0 <= 2000) by lia.
  assert (H1 : forall c, noControls
                           !! toLowerCase (sm_address exampleSummary) = Some c ->
                         validStored c).
  { intros c H. unfold noControls in H. rewrite lookup_empty in H. discriminate H. }
  assert (H2 : p_status (rowOf noControls exampleSummary 1000) <> StPaused).
  { vm_compute. discriminate. }
  destruct (pause_stores_resume_point noControls exampleSummary 1000 2000 H0 H1 H2)
    as (c' & R & A & B & C & D & _).
  exists c', R. auto.
Defined.

Lemma row_paused_fields summary c nowTs :
  paused c = true ->
  let row := upcomingPayout summary (Some c) nowTs in
  p_isCycle row = isSome (cycleStartAt c) /\
  p_baseLastApprovedAt row = sm_lastApprovedAt summary /\
  (cycleStartAt c = None ->
     p_lastApprovedAt row
       = nullish (adjustedLastApprovedAt c) (sm_lastApprovedAt summary)) /\
  (isSome (cycleStartAt c) = true ->
     p_cycleMs row = Some (cycleMsOrDay (Some c))).
Proof.
  intros Hp. cbv zeta. unfold upcomingPayout.
  cbn [p_isCycle p_baseLastApprovedAt p_lastApprovedAt p_cycleMs].
  unfold derivePayoutState, derivePayoutStateWith, deriveLocals.
  cbn [d_isCycle d_lastApprovedAt d_cycleMs].
  rewrite Hp. unfold derivePaused.
  pose proof (cycleMsOrDay_pos (Some c)) as Hlen.
  assert (E : (0 <? cycleMsOrDay (Some c)) = true) by (apply Z.ltb_lt; lia).
  destruct (cycleStartAt c) as [s|]; cbn [isSome l_isCycle l_lastApprovedAt l_cycleMs].
  - rewrite E. repeat split; try reflexivity. discriminate.
  - repeat split; try reflexivity. discriminate.
Qed.

Lemma producerCycleLength_row summary c nowTs :
  isSome (cycleStartAt c) = true ->
  producerCycleLength (upcomingPayout summary (Some c) nowTs) (Some c)
  = cycleMsOrDay (Some c).
Proof.
  intros Hc.
  assert (Hrow : p_cycleMs (upcomingPayout summary (Some c) nowTs)
                 = Some (cycleMsOrDay (Some c))).
  { destruct (paused c) eqn:Hp.
    - apply (row_paused_fields summary c nowTs Hp), Hc.
    - apply (row_cycle_fields summary c nowTs Hp Hc). }
  unfold producerCycleLength. rewrite Hrow. cbn [optField nullish].
  unfold cycleMsOrDay.
  destruct (cycleMs c) as [m|]; [|reflexivity].
  destruct (0 <? m); reflexivity.
Qed.

Lemma sanitize_manualControl adjLast adjNext :
  sanitizeControlState (Some (manualControl adjLast adjNext))
  = Some (manualControl adjLast adjNext).
Proof. reflexivity. Qed.

Lemma sanitize_cycleControl start len :
  0 < len ->
  sanitizeControlState (Some (cycleControl start len)) = Some (cycleControl start len).
Proof.
  intros Hlen. unfold sanitizeControlState, cycleControl. cbn.
  assert (E : (0 <? len) = true) by (apply Z.ltb_lt; lia). rewrite E. reflexivity.
Qed.

(** The state derived under a stored cycle. *)
Lemma derive_cycleControl L N start len now :
  0 < len ->
  let d := derivePayoutState L N (Some (cycleControl start len)) now in
  d_nextPayoutAt d
    = (if now <? start then start
       else Z.max L (start + (now - start) / len * len) + len) /\
  d_remaining d = Z.max (d_nextPayoutAt d - now) 0 /\
  d_status d = StRunning /\ d_isCycle d = true /\ d_cycleMs d = Some len.
Proof.
  intros Hlen. cbv zeta.
  assert (Ecm : cycleMsOrDay (Some (cycleControl start len)) = len).
  { unfold cycleMsOrDay, cycleControl. cbn.
    assert (E : (0 <? len) = true) by (apply Z.ltb_lt; lia). rewrite E. reflexivity. }
  pose proof (derive_cycle_running L N (cycleControl start len) now eq_refl eq_refl) as H.
  cbv zeta in H. rewrite Ecm in H.
  destruct H as (H1 & H2 & _ & H4 & H5 & H6).
  rewrite (deriveCycle_next L N (cycleControl start len) now len Hlen) in H1, H2.
  cbv zeta in H1, H2. cbn [cycleControl cycleStartAt] in H1, H2.
  rewrite H2, H1, H4, H5, H6. repeat split; reflexivity.
Qed.

(** The state derived under a stored manual adjustment. *)
Lemma derive_manualControl L N adjLast adjNext now :
  let d := derivePayoutState L N (Some (manualControl adjLast adjNext)) now in
  d_lastApprovedAt d = adjLast /\ d_nextPayoutAt d = adjNext /\
  d_remaining d = Z.max (adjNext - now) 0 /\
  d_status d = statusOfRemaining (Z.max (adjNext - now) 0) /\
  d_isCycle d = false.
Proof. cbv zeta. repeat split; reflexivity. Qed.

(** X8.  Resume does not add the paused time back.  For a wallet paused
    without a cycle, with a stored resume point [R] at least one second
    after its last approval (as Pause, the time shifts and the time editor
    store it), pressing Resume at [now] yields a state that is not paused,
    with the last approval kept and [nextPayoutAt] the later of [R] and
    [now]: the remaining time is [R - now], not the frozen remaining time,
    and the payout is ready at once when [R] has passed. *)
Theorem resume_returns_to_resume_point
    (controls : gmap string PayoutControlState) (summary : PayoutSummary)
    (c : PayoutControlState) (R nowTs now : Z) :
  controls !! toLowerCase (sm_address summary) = Some c ->
  paused c = true -> resumeAt c = Some R -> cycleStartAt c = None ->
  nullish (adjustedLastApprovedAt c) (sm_lastApprovedAt summary) + 1000 <= R ->
  let after := handleResumePayout controls (rowOf controls summary nowTs) now in
  let d := derivePayoutState (sm_lastApprovedAt summary) (sm_nextPayoutAt summary)
             (after !! toLowerCase (sm_address summary)) now in
  d_lastApprovedAt d
    = nullish (adjustedLastApprovedAt c) (sm_lastApprovedAt summary) /\
  d_nextPayoutAt d = Z.max R now /\
  d_remaining d = Z.max (R - now) 0 /\
  d_status d = (if R <=? now then StReady else StRunning) /\
  d_isCycle d = false.
Proof.
  intros Hlook Hp HR Hcs Hfloor. cbv zeta.
  unfold rowOf. rewrite Hlook.
  set (row := upcomingPayout summary (Some c) nowTs).
  destruct (row_paused_fields summary c nowTs Hp) as (E1 & _ & E3 & _).
  fold row in E1, E3. specialize (E3 Hcs). rewrite Hcs in E1. cbn [isSome] in E1.
  unfold handleResumePayout.
  change (toLowerCase (sm_address summary)) with (toLowerCase (p_address row)).
  rewrite setControlForPayout_lookup.
  change (toLowerCase (p_address row)) with (toLowerCase (sm_address summary)).
  rewrite Hlook.
  set (adjLast := nullish (adjustedLastApprovedAt c) (sm_lastApprovedAt summary)) in *.
  assert (Eraw : resumeProducer row now (Some c)
                 = Some (manualControl adjLast (Z.max R now))).
  { unfold resumeProducer, producerHasCycle.
    rewrite E1. cbn [optField]. rewrite Hcs, HR. cbn [isSome orb nullish].
    rewrite E3.
    assert (Ea : nullish (adjustedLastApprovedAt c) adjLast = adjLast).
    { unfold adjLast. destruct (adjustedLastApprovedAt c); reflexivity. }
    rewrite Ea. unfold manualControl. do 3 f_equal. lia. }
  unfold producedControl. rewrite Eraw, sanitize_manualControl.
  pose proof (derive_manualControl (sm_lastApprovedAt summary) (sm_nextPayoutAt summary)
                adjLast (Z.max R now) now) as H.
  cbv zeta in H. destruct H as (H1 & H2 & H3 & H4 & H5).
  rewrite H1, H2, H3, H4, H5.
  split; [reflexivity|]. split; [reflexivity|]. split; [lia|].
  split; [|reflexivity].
  unfold statusOfRemaining.
  destruct (R <=? now) eqn:E; [apply Z.leb_le in E | apply Z.leb_gt in E].
  - assert (E' : (Z.max (Z.max R now - now) 0 <=? 0) = true) by (apply Z.leb_le; lia).
    rewrite E'. reflexivity.
  - assert (E' : (Z.max (Z.max R now - now) 0 <=? 0) = false) by (apply Z.leb_gt; lia).
    rewrite E'. reflexivity.
Qed.

(** The cycle that Resume and the time editor store for a target time
    [R]: its start is one cycle length before the later of [R] and [now]. *)
Lemma derive_cycle_from_target L N R now len :
  0 < len -> L <= Z.max R now - len ->
  let d := derivePayoutState L N (Some (cycleControl (Z.max R now - len) len)) now in
  d_status d = StRunning /\ d_isCycle d = true /\ d_cycleMs d = Some len /\
  d_nextPayoutAt d
    = (if R <=? now then now + len
       else if R - len <=? now then R else R - len) /\
  d_remaining d = d_nextPayoutAt d - now.
Proof.
  intros Hlen HL. cbv zeta.
  pose proof (derive_cycleControl L N (Z.max R now - len) len now Hlen) as H.
  cbv zeta in H. destruct H as (H1 & H2 & H3 & H4 & H5).
  rewrite H2, H1, H3, H4, H5.
  split; [reflexivity|]. split; [reflexivity|]. split; [reflexivity|].
  destruct (R <=? now) eqn:ER; [apply Z.leb_le in ER | apply Z.leb_gt in ER].
  - rewrite (Z.max_r R now) in * by lia.
    assert (E : (now <? now - len) = false) by (apply Z.ltb_ge; lia). rewrite E.
    replace (now - (now - len)) with (1 * len) by lia.
    rewrite Z.div_mul by lia. split; lia.
  - rewrite (Z.max_l R now) in * by lia.
    destruct (R - len <=? now) eqn:EL; [apply Z.leb_le in EL | apply Z.leb_gt in EL].
    + assert (E : (now <? R - len) = false) by (apply Z.ltb_ge; lia). rewrite E.
      rewrite (Z.div_small (now - (R - len)) len) by lia. split; lia.
    + assert (E : (now <? R - len) = true) by (apply Z.ltb_lt; lia). rewrite E.
      split; lia.
Qed.

(** X9.  Resume of a paused cycle.  For a wallet paused on a recurring
    cycle of length [len], with stored resume point [R] and a base last
    approval at least one cycle length before the later of [R] and [now],
    pressing Resume at [now] yields a running cycle whose next payout is:
    [now + len] when [R] has passed (a fresh cycle starts at [now]); [R]
    when [R] is ahead by at most one cycle length; and [R - len] when [R]
    is further ahead than that. *)
Theorem resume_cycle_next_payout
    (controls : gmap string PayoutControlState) (summary : PayoutSummary)
    (c : PayoutControlState) (R nowTs now : Z) :
  controls !! toLowerCase (sm_address summary) = Some c ->
  paused c = true -> resumeAt c = Some R -> isSome (cycleStartAt c) = true ->
  let len := cycleMsOrDay (Some c) in
  sm_lastApprovedAt summary <= Z.max R now - len ->
  let after := handleResumePayout controls (rowOf controls summary nowTs) now in
  let d := derivePayoutState (sm_lastApprovedAt summary) (sm_nextPayoutAt summary)
             (after !! toLowerCase (sm_address summary)) now in
  after !! toLowerCase (sm_address summary)
    = Some (cycleControl (Z.max R now - len) len) /\
  d_status d = StRunning /\ d_isCycle d = true /\ d_cycleMs d = Some len /\
  d_nextPayoutAt d
    = (if R <=? now then now + len
       else if R - len <=? now then R else R - len) /\
  d_remaining d = d_nextPayoutAt d - now.
Proof.
  intros Hlook Hp HR Hc len HL. cbv zeta.
  unfold rowOf. rewrite Hlook.
  set (row := upcomingPayout summary (Some c) nowTs).
  destruct (row_paused_fields summary c nowTs Hp) as (E1 & E2 & _ & _).
  fold row in E1, E2. rewrite Hc in E1.
  pose proof (producerCycleLength_row summary c nowTs Hc) as Elen.
  fold row in Elen. fold len in Elen.
  pose proof (cycleMsOrDay_pos (Some c)) as Hlen. fold len in Hlen.
  unfold handleResumePayout.
  change (toLowerCase (sm_address summary)) with (toLowerCase (p_address row)).
  rewrite setControlForPayout_lookup.
  change (toLowerCase (p_address row)) with (toLowerCase (sm_address summary)).
  rewrite Hlook.
  assert (Eraw : resumeProducer row now (Some c)
                 = Some (cycleControl (Z.max R now - len) len)).
  { unfold resumeProducer, producerHasCycle.
    rewrite E1, Elen, E2. cbn [optField orb]. rewrite HR. cbn [nullish].
    unfold cycleControl. do 2 f_equal. f_equal. lia. }
  unfold producedControl. rewrite Eraw, (sanitize_cycleControl _ len Hlen).
  split; [reflexivity|].
  apply (derive_cycle_from_target _ _ R now len Hlen HL).
Qed.

Lemma setControl_rowOf_lookup controls summary nowTs producer :
  setControlForPayout controls (rowOf controls summary nowTs) producer
    !! toLowerCase (sm_address summary)
  = producedControl producer (controls !! toLowerCase (sm_address summary)).
Proof.
  change (toLowerCase (sm_address summary))
    with (toLowerCase (p_address (rowOf controls summary nowTs))).
  apply setControlForPayout_lookup.
Qed.

Lemma nullish_idem o b : nullish o (nullish o b) = nullish o b.
Proof. destruct o; reflexivity. Qed.

Lemma notPaused_currentPaused control :
  notPaused control ->
  match control with Some c => paused c | None => false end = false.
Proof. intros H. destruct control as [c|]; [apply H|]; reflexivity. Qed.

Lemma adjustProducer_plain summary control nowTs deltaMs now :
  notPaused control -> optField control cycleStartAt = None ->
  let last0 :=
    nullish (optField control adjustedLastApprovedAt) (sm_lastApprovedAt summary) in
  let next0 :=
    nullish (optField control adjustedNextPayoutAt) (sm_nextPayoutAt summary) in
  adjustProducer (upcomingPayout summary control nowTs) deltaMs now control
  = Some (manualControl last0 (Z.max (next0 + deltaMs) (last0 + 1000))).
Proof.
  intros Hnp Hcs. cbv zeta.
  destruct (row_plain_fields summary control nowTs Hnp Hcs) as (E1 & E2 & E3 & _).
  unfold adjustProducer, producerHasCycle.
  rewrite E3, Hcs, (notPaused_currentPaused control Hnp), E1, E2.
  cbn [orb isSome]. rewrite !nullish_idem. reflexivity.
Qed.

Lemma adjustProducer_cycle summary c start nowTs deltaMs now :
  paused c = false -> cycleStartAt c = Some start ->
  adjustProducer (upcomingPayout summary (Some c) nowTs) deltaMs now (Some c)
  = Some (cycleControl (start + deltaMs) (cycleMsOrDay (Some c))).
Proof.
  intros Hp Hcs.
  assert (Hc : isSome (cycleStartAt c) = true) by (rewrite Hcs; reflexivity).
  unfold adjustProducer, producerHasCycle.
  rewrite (producerCycleLength_row summary c nowTs Hc).
  cbn [optField]. rewrite Hc, Hp, Hcs, Bool.orb_true_r. reflexivity.
Qed.

(** X10.  A time shift of a payout that is neither paused nor on a cycle
    moves [nextPayoutAt] by the shift, but not closer than one second to
    the last approval, which it keeps; the shifted schedule does not
    depend on when the button is pressed.  Two shifts in a row amount to
    one shift by their sum when the first one is not cut short by that
    floor. *)
Theorem shift_moves_next_payout
    (controls : gmap string PayoutControlState) (summary : PayoutSummary)
    (nowTs now nowTs' now' d1 d2 : Z) :
  let key := toLowerCase (sm_address summary) in
  let control := controls !! key in
  let last0 :=
    nullish (optField control adjustedLastApprovedAt) (sm_lastApprovedAt summary) in
  let next0 :=
    nullish (optField control adjustedNextPayoutAt) (sm_nextPayoutAt summary) in
  notPaused control -> optField control cycleStartAt = None ->
  d1 <> 0 -> d2 <> 0 ->
  let once := handleAdjustPayoutTime controls (rowOf controls summary nowTs) d1 now in
  let twice := handleAdjustPayoutTime once (rowOf once summary nowTs') d2 now' in
  once !! key = Some (manualControl last0 (Z.max (next0 + d1) (last0 + 1000))) /\
  (forall t,
     let d := derivePayoutState (sm_lastApprovedAt summary) (sm_nextPayoutAt summary)
                (once !! key) t in
     d_lastApprovedAt d = last0 /\
     d_nextPayoutAt d = Z.max (next0 + d1) (last0 + 1000) /\
     d_isCycle d = false /\ d_status d <> StPaused) /\
  (last0 + 1000 <= next0 + d1 ->
   twice !! key = Some (manualControl last0 (Z.max (next0 + (d1 + d2)) (last0 + 1000)))).
Proof.
  intros key control last0 next0 Hnp Hcs Hd1 Hd2 once twice.
  assert (Hstep : forall ctrls tS tN dl,
            dl <> 0 -> notPaused (ctrls !! key) ->
            optField (ctrls !! key) cycleStartAt = None ->
            handleAdjustPayoutTime ctrls (rowOf ctrls summary tS) dl tN !! key
            = Some (manualControl
                      (nullish (optField (ctrls !! key) adjustedLastApprovedAt)
                               (sm_lastApprovedAt summary))
                      (Z.max (nullish (optField (ctrls !! key) adjustedNextPayoutAt)
                                      (sm_nextPayoutAt summary) + dl)
                             (nullish (optField (ctrls !! key) adjustedLastApprovedAt)
                                      (sm_lastApprovedAt summary) + 1000)))).
  { intros ctrls tS tN dl Hdl Hn Hc.
    unfold handleAdjustPayoutTime.
    assert (E : (dl =? 0) = false) by (apply Z.eqb_neq; exact Hdl). rewrite E.
    unfold key. rewrite setControl_rowOf_lookup. fold key.
    unfold producedControl, rowOf. fold key.
    pose proof (adjustProducer_plain summary (ctrls !! key) tS dl tN Hn Hc) as Hp.
    cbv zeta in Hp. rewrite Hp. apply sanitize_manualControl. }
  assert (Honce : once !! key
                  = Some (manualControl last0 (Z.max (next0 + d1) (last0 + 1000)))).
  { apply (Hstep controls nowTs now d1 Hd1 Hnp Hcs). }
  split; [exact Honce|]. split.
  - intros t. cbv zeta. rewrite Honce.
    pose proof (derive_manualControl (sm_lastApprovedAt summary) (sm_nextPayoutAt summary)
                  last0 (Z.max (next0 + d1) (last0 + 1000)) t) as H.
    cbv zeta in H. destruct H as (H1 & H2 & _ & H4 & H5).
    rewrite H1, H2, H4, H5.
    repeat split; try reflexivity.
    unfold statusOfRemaining. destruct (_ <=? 0); discriminate.
  - intros Hfloor.
    assert (Hn' : notPaused (once !! key)).
    { rewrite Honce. intros c [= <-]. reflexivity. }
    assert (Hc' : optField (once !! key) cycleStartAt = None).
    { rewrite Honce. reflexivity. }
    unfold twice. rewrite (Hstep once nowTs' now' d2 Hd2 Hn' Hc').
    rewrite Honce. cbn [optField manualControl adjustedLastApprovedAt
                        adjustedNextPayoutAt nullish].
    unfold manualControl. do 3 f_equal. lia.
Qed.

Lemma shift_moves_next_payout_witness :
  handleAdjustPayoutTime noControls (rowOf noControls exampleSummary 1000) 1800000 2000
    !! toLowerCase (sm_address exampleSummary)
  = Some (manualControl
            (nullish (optField (noControls !! toLowerCase (sm_address exampleSummary))
                               adjustedLastApprovedAt)
                     (sm_lastApprovedAt exampleSummary))
            (Z.max (nullish (optField (noControls !! toLowerCase (sm_address exampleSummary))
                                      adjustedNextPayoutAt)
                            (sm_nextPayoutAt exampleSummary) + 1800000)
                   (nullish (optField (noControls !! toLowerCase (sm_address exampleSummary))
                                      adjustedLastApprovedAt)
                            (sm_lastApprovedAt exampleSummary) + 1000))).
Proof.
  assert (Hn : notPaused (noControls
                            !! toLowerCase (sm_address exampleSummary))).
  { intros c H. unfold noControls in H. rewrite lookup_empty in H. discriminate H. }
  exact (proj1 (shift_moves_next_payout noControls exampleSummary 1000 2000 3000 4000
                  1800000 (-300000) Hn eq_refl ltac:(lia) ltac:(lia))).
Defined.

(** X11.  A time shift of a running cycle moves the cycle start by the
    shift and keeps the cycle length, so shifts add up, and the whole
    schedule is translated: when the base last approval is not after the
    old and the new cycle start, the payout found at [t + delta] after the
    shift is the one found at [t] before it, [delta] later, with the same
    remaining time. *)
Theorem shift_translates_cycle
    (controls : gmap string PayoutControlState) (summary : PayoutSummary)
    (c : PayoutControlState) (start nowTs now nowTs' now' d1 d2 : Z) :
  let key := toLowerCase (sm_address summary) in
  controls !! key = Some c ->
  paused c = false -> cycleStartAt c = Some start ->
  d1 <> 0 -> d2 <> 0 ->
  let len := cycleMsOrDay (Some c) in
  let once := handleAdjustPayoutTime controls (rowOf controls summary nowTs) d1 now in
  let twice := handleAdjustPayoutTime once (rowOf once summary nowTs') d2 now' in
  once !! key = Some (cycleControl (start + d1) len) /\
  twice !! key = Some (cycleControl (start + (d1 + d2)) len) /\
  (sm_lastApprovedAt summary <= start ->
   sm_lastApprovedAt summary <= start + d1 ->
   forall t,
     let before := derivePayoutState (sm_lastApprovedAt summary)
                     (sm_nextPayoutAt summary) (Some c) t in
     let after := derivePayoutState (sm_lastApprovedAt summary)
                    (sm_nextPayoutAt summary) (once !! key) (t + d1) in
     d_nextPayoutAt after = d_nextPayoutAt before + d1 /\
     d_remaining after = d_remaining before).
Proof.
  intros key Hlook Hp Hcs Hd1 Hd2 len once twice.
  pose proof (cycleMsOrDay_pos (Some c)) as Hlen. fold len in Hlen.
  assert (Hc : isSome (cycleStartAt c) = true) by (rewrite Hcs; reflexivity).
  assert (Hstep : forall ctrls c0 s0 tS tN dl,
            dl <> 0 -> ctrls !! key = Some c0 -> paused c0 = false ->
            cycleStartAt c0 = Some s0 ->
            handleAdjustPayoutTime ctrls (rowOf ctrls summary tS) dl tN !! key
            = Some (cycleControl (s0 + dl) (cycleMsOrDay (Some c0)))).
  { intros ctrls c0 s0 tS tN dl Hdl Hl Hp0 Hs0.
    unfold handleAdjustPayoutTime.
    assert (E : (dl =? 0) = false) by (apply Z.eqb_neq; exact Hdl). rewrite E.
    unfold key. rewrite setControl_rowOf_lookup. fold key.
    unfold producedControl, rowOf. fold key. rewrite Hl.
    rewrite (adjustProducer_cycle summary c0 s0 tS dl tN Hp0 Hs0).
    apply sanitize_cycleControl, cycleMsOrDay_pos. }
  assert (Honce : once !! key = Some (cycleControl (start + d1) len)).
  { apply (Hstep controls c start nowTs now d1 Hd1 Hlook Hp Hcs). }
  assert (Elen : cycleMsOrDay (Some (cycleControl (start + d1) len)) = len).
  { unfold cycleMsOrDay, cycleControl. cbn [cycleMs].
    assert (E : (0 <? len) = true) by (apply Z.ltb_lt; lia). rewrite E. reflexivity. }
  split; [exact Honce|]. split.
  - unfold twice.
    rewrite (Hstep once (cycleControl (start + d1) len) (start + d1) nowTs' now' d2
               Hd2 Honce eq_refl eq_refl).
    rewrite Elen. do 2 f_equal. lia.
  - intros HL HL' t. cbv zeta. rewrite Honce.
    pose proof (derive_cycleControl (sm_lastApprovedAt summary) (sm_nextPayoutAt summary)
                  (start + d1) len (t + d1) Hlen) as HA.
    cbv zeta in HA. destruct HA as (A1 & A2 & _).
    pose proof (derive_cycle_running (sm_lastApprovedAt summary) (sm_nextPayoutAt summary)
                  c t Hp Hc) as HB.
    cbv zeta in HB. fold len in HB. destruct HB as (B1 & B2 & _).
    rewrite (deriveCycle_next _ _ c t len Hlen) in B1, B2.
    cbv zeta in B1, B2. rewrite Hcs in B1, B2.
    rewrite A2, A1, B2, B1.
    replace (t + d1 - (start + d1)) with (t - start) by lia.
    destruct (t <? start) eqn:E; [apply Z.ltb_lt in E | apply Z.ltb_ge in E].
    + assert (E' : (t + d1 <? start + d1) = true) by (apply Z.ltb_lt; lia).
      rewrite E'. split; lia.
    + assert (E' : (t + d1 <? start + d1) = false) by (apply Z.ltb_ge; lia).
      rewrite E'.
      assert (Hk : 0 <= (t - start) / len) by (apply Z.div_pos; lia).
      assert (Hkl : 0 <= (t - start) / len * len) by nia.
      split; lia.
Qed.

Lemma controlsOf_lookup c :
  controlsOf c !! toLowerCase (sm_address exampleSummary) = Some c.
Proof. apply lookup_singleton_eq. Qed.

Lemma resume_returns_to_resume_point_witness :
  d_nextPayoutAt
    (derivePayoutState (sm_lastApprovedAt exampleSummary) (sm_nextPayoutAt exampleSummary)
       (handleResumePayout (controlsOf pausedManual)
          (rowOf (controlsOf pausedManual) exampleSummary 1000) 2000
          !! toLowerCase (sm_address exampleSummary)) 2000)
  = Z.max 90000000 2000.
Proof.
  exact (proj1 (proj2 (resume_returns_to_resume_point (controlsOf pausedManual)
           exampleSummary pausedManual 90000000 1000 2000
           (controlsOf_lookup pausedManual) eq_refl eq_refl eq_refl ltac:(cbn; lia)))).
Defined.

Lemma resume_cycle_next_payout_witness :
  handleResumePayout (controlsOf pausedCycle)
    (rowOf (controlsOf pausedCycle) exampleSummary 1000) 2000
    !! toLowerCase (sm_address exampleSummary)
  = Some (cycleControl (Z.max 90000000 2000 - cycleMsOrDay (Some pausedCycle))
                       (cycleMsOrDay (Some pausedCycle))).
Proof.
  exact (proj1 (resume_cycle_next_payout (controlsOf pausedCycle)
           exampleSummary pausedCycle 90000000 1000 2000
           (controlsOf_lookup pausedCycle) eq_refl eq_refl eq_refl
           ltac:(vm_compute; discriminate))).
Defined.

Lemma shift_translates_cycle_witness :
  handleAdjustPayoutTime (controlsOf (cycleControl 1000 3600000))
    (rowOf (controlsOf (cycleControl 1000 3600000)) exampleSummary 1000) 1800000 2000
    !! toLowerCase (sm_address exampleSummary)
  = Some (cycleControl (1000 + 1800000)
                       (cycleMsOrDay (Some (cycleControl 1000 3600000)))).
Proof.
  exact (proj1 (shift_translates_cycle (controlsOf (cycleControl 1000 3600000))
           exampleSummary (cycleControl 1000 3600000) 1000 1000 2000 3000 4000
           1800000 (-300000)
           (controlsOf_lookup _) eq_refl eq_refl ltac:(lia) ltac:(lia))).
Defined.

(** The record that a shift or an edit stores for a paused payout, after
    the sanitizer. *)
Lemma sanitize_paused_record R now al an cs cm :
  0 <= now -> now <= R ->
  exists c',
    sanitizeControlState
      (Some {| paused := true; pauseRemainingMs := Some (Z.max (R - now) 0);
               resumeAt := Some R; adjustedNextPayoutAt := an;
               adjustedLastApprovedAt := al; cycleStartAt := cs; cycleMs := cm |})
    = Some c' /\
    paused c' = true /\ resumeAt c' = Some R /\ pauseRemainingMs c' = Some (R - now) /\
    adjustedLastApprovedAt c' = al /\ cycleStartAt c' = cs.
Proof.
  intros Hnow HR.
  destruct (sanitize_paused_fields
              {| paused := true; pauseRemainingMs := Some (Z.max (R - now) 0);
                 resumeAt := Some R; adjustedNextPayoutAt := an;
                 adjustedLastApprovedAt := al; cycleStartAt := cs; cycleMs := cm |}
              eq_refl) as (c' & Hs & Hp & H1 & H2 & H3 & _ & H5).
  cbn [resumeAt pauseRemainingMs adjustedLastApprovedAt cycleStartAt option_map] in *.
  exists c'. split; [exact Hs|]. split; [exact Hp|].
  split; [rewrite H1; f_equal; lia|]. split; [rewrite H2; f_equal; lia|].
  split; assumption.
Qed.

Lemma derive_paused_at L N c t R now :
  paused c = true -> resumeAt c = Some R -> pauseRemainingMs c = Some (R - now) ->
  0 <= now -> now <= R ->
  let d := derivePayoutState L N (Some c) t in
  d_status d = StPaused /\ d_remaining d = R - now /\
  d_resumeAt d = R /\ d_nextPayoutAt d = R.
Proof.
  intros Hp HR Hr Hnow HnowR.
  pose proof (derive_paused_stored L N c t R (R - now) Hp HR Hr) as H.
  cbv zeta in H |- *. destruct H as (H1 & H2 & H3 & H4).
  rewrite H1, H2, H3, H4. repeat split; lia.
Qed.

(** X12.  A time shift of a paused payout keeps it paused and moves its
    stored resume point by the shift, but never before the time of the
    click (nor, without a cycle, closer than one second to the last
    approval); the remaining time is stored anew as the distance from the
    click to the new resume point, and that is what the payout shows from
    then on. *)
Theorem shift_of_paused_payout
    (controls : gmap string PayoutControlState) (summary : PayoutSummary)
    (c : PayoutControlState) (R nowTs now deltaMs : Z) :
  let key := toLowerCase (sm_address summary) in
  controls !! key = Some c ->
  paused c = true -> resumeAt c = Some R ->
  deltaMs <> 0 -> 0 <= now ->
  let last0 := nullish (adjustedLastApprovedAt c) (sm_lastApprovedAt summary) in
  let R' := if isSome (cycleStartAt c) then Z.max (R + deltaMs) now
            else Z.max (Z.max (R + deltaMs) (last0 + 1000)) now in
  let after := handleAdjustPayoutTime controls (rowOf controls summary nowTs)
                                      deltaMs now in
  exists c',
    after !! key = Some c' /\
    paused c' = true /\ resumeAt c' = Some R' /\
    pauseRemainingMs c' = Some (R' - now) /\
    forall t,
      let d := derivePayoutState (sm_lastApprovedAt summary) (sm_nextPayoutAt summary)
                 (Some c') t in
      d_status d = StPaused /\ d_remaining d = R' - now /\
      d_resumeAt d = R' /\ d_nextPayoutAt d = R'.
Proof.
  intros key Hlook Hp HR Hd Hnow last0 R' after.
  assert (HR' : now <= R') by (unfold R'; destruct (isSome (cycleStartAt c)); lia).
  destruct (row_paused_fields summary c nowTs Hp) as (E1 & E2 & E3 & _).
  assert (Hraw : exists al an cs cm,
            adjustProducer (upcomingPayout summary (Some c) nowTs) deltaMs now (Some c)
            = Some {| paused := true; pauseRemainingMs := Some (Z.max (R' - now) 0);
                      resumeAt := Some R'; adjustedNextPayoutAt := an;
                      adjustedLastApprovedAt := al; cycleStartAt := cs;
                      cycleMs := cm |}).
  { unfold adjustProducer, producerHasCycle. rewrite E1. cbn [optField].
    rewrite Hp, HR. unfold R'.
    destruct (cycleStartAt c) as [s|] eqn:Hcs; cbn [isSome orb nullish].
    - do 4 eexists. reflexivity.
    - rewrite (E3 eq_refl). fold last0.
      assert (Ea : nullish (adjustedLastApprovedAt c) last0 = last0)
        by apply nullish_idem.
      rewrite Ea. do 4 eexists. reflexivity. }
  destruct Hraw as (al & an & cs & cm & Hraw).
  destruct (sanitize_paused_record R' now al an cs cm Hnow HR')
    as (c' & Hs & Hp' & HR1 & Hr1 & _).
  exists c'. split.
  - unfold after, handleAdjustPayoutTime.
    assert (E : (deltaMs =? 0) = false) by (apply Z.eqb_neq; exact Hd). rewrite E.
    unfold key. rewrite setControl_rowOf_lookup. fold key.
    unfold producedControl, rowOf. fold key. rewrite Hlook, Hraw. exact Hs.
  - split; [exact Hp'|]. split; [exact HR1|]. split; [exact Hr1|].
    intros t. apply (derive_paused_at _ _ c' t R' now); assumption.
Qed.

Lemma shift_of_paused_payout_witness :
  exists c',
    handleAdjustPayoutTime (controlsOf pausedCycle)
      (rowOf (controlsOf pausedCycle) exampleSummary 1000) 1800000 2000
      !! toLowerCase (sm_address exampleSummary) = Some c' /\
    paused c' = true.
Proof.
  destruct (shift_of_paused_payout (controlsOf pausedCycle) exampleSummary pausedCycle
              90000000 1000 2000 1800000 (controlsOf_lookup pausedCycle)
              eq_refl eq_refl ltac:(lia) ltac:(lia)) as (c' & A & B & _).
  exists c'. split; [exact A | exact B].
Defined.

Lemma editProducer_plain summary control nowTs targetMs now now' :
  notPaused control -> optField control cycleStartAt = None ->
  let last0 :=
    nullish (optField control adjustedLastApprovedAt) (sm_lastApprovedAt summary) in
  editProducer (upcomingPayout summary control nowTs) targetMs now now' control
  = Some (manualControl last0 (Z.max targetMs (last0 + 1000))).
Proof.
  intros Hnp Hcs. cbv zeta.
  destruct (row_plain_fields summary control nowTs Hnp Hcs) as (E1 & _ & E3 & _).
  unfold editProducer, producerHasCycle.
  rewrite E3, Hcs, (notPaused_currentPaused control Hnp), E1.
  cbn [orb isSome]. rewrite !nullish_idem. reflexivity.
Qed.

(** X13.  The time editor, without a cycle.  For a wallet that is not on a
    cycle, a time [targetMs >= 0] entered in the editor becomes the next
    payout, but not closer than one second to the last approval, which is
    kept.  A payout that was paused stays paused, resumes at that time and
    shows the distance from the click to it as remaining time; one that
    was not paused stays unpaused. *)
Theorem edit_sets_next_payout
    (controls : gmap string PayoutControlState) (summary : PayoutSummary)
    (nowTs now now' targetMs : Z) :
  let key := toLowerCase (sm_address summary) in
  let control := controls !! key in
  optField control cycleStartAt = None ->
  0 <= targetMs ->
  let last0 :=
    nullish (optField control adjustedLastApprovedAt) (sm_lastApprovedAt summary) in
  let T := Z.max targetMs (last0 + 1000) in
  let after := handleEditPayoutTime controls (rowOf controls summary nowTs)
                                    (Some targetMs) now now' in
  forall t,
    let d := derivePayoutState (sm_lastApprovedAt summary) (sm_nextPayoutAt summary)
               (after !! key) t in
    d_lastApprovedAt d = last0 /\ d_nextPayoutAt d = T /\ d_isCycle d = false /\
    match control with
    | Some c =>
        if paused c
        then d_status d = StPaused /\ d_resumeAt d = T /\
             d_remaining d = Z.max (T - now') 0
        else d_status d <> StPaused /\ d_remaining d = Z.max (T - t) 0
    | None => d_status d <> StPaused /\ d_remaining d = Z.max (T - t) 0
    end.
Proof.
  intros key control Hcs Htarget last0 T after t.
  assert (Hlook : after !! key
                  = producedControl
                      (editProducer (upcomingPayout summary control nowTs)
                                    targetMs now now') control).
  { unfold after, handleEditPayoutTime, key. rewrite setControl_rowOf_lookup.
    reflexivity. }
  assert (Hplain : notPaused control ->
            let d := derivePayoutState (sm_lastApprovedAt summary)
                       (sm_nextPayoutAt summary) (after !! key) t in
            d_lastApprovedAt d = last0 /\ d_nextPayoutAt d = T /\ d_isCycle d = false /\
            d_status d <> StPaused /\ d_remaining d = Z.max (T - t) 0).
  { intros Hnp. cbv zeta. rewrite Hlook. unfold producedControl.
    pose proof (editProducer_plain summary control nowTs targetMs now now' Hnp Hcs) as E.
    cbv zeta in E. fold last0 in E. fold T in E. rewrite E, sanitize_manualControl.
    pose proof (derive_manualControl (sm_lastApprovedAt summary)
                  (sm_nextPayoutAt summary) last0 T t) as H.
    cbv zeta in H. destruct H as (H1 & H2 & H3 & H4 & H5).
    rewrite H1, H2, H3, H4, H5. repeat split; try reflexivity.
    unfold statusOfRemaining. destruct (_ <=? 0); discriminate. }
  destruct control as [c|] eqn:Hctl.
  2:{ apply Hplain. intros c H. discriminate H. }
  destruct (paused c) eqn:Hp.
  2:{ apply Hplain. intros c0 [= <-]. exact Hp. }
  clear Hplain. cbn [optField] in Hcs, last0.
  destruct (row_paused_fields summary c nowTs Hp) as (E1 & _ & E3 & _).
  specialize (E3 Hcs). rewrite Hcs in E1. cbn [isSome] in E1.
  assert (Eraw : editProducer (upcomingPayout summary (Some c) nowTs)
                   targetMs now now' (Some c)
                 = Some {| paused := true;
                           pauseRemainingMs := Some (Z.max (T - now') 0);
                           resumeAt := Some T; adjustedNextPayoutAt := Some T;
                           adjustedLastApprovedAt := Some last0;
                           cycleStartAt := None; cycleMs := None |}).
  { unfold editProducer, producerHasCycle. rewrite E1. cbn [optField].
    rewrite Hcs, Hp, E3. cbn [isSome orb]. fold last0.
    assert (Ea : nullish (adjustedLastApprovedAt c) last0 = last0)
      by apply nullish_idem.
    rewrite Ea. reflexivity. }
  cbv zeta. rewrite Hlook. unfold producedControl. rewrite Eraw.
  destruct (sanitize_paused_fields _ (eq_refl :
              paused {| paused := true;
                        pauseRemainingMs := Some (Z.max (T - now') 0);
                        resumeAt := Some T; adjustedNextPayoutAt := Some T;
                        adjustedLastApprovedAt := Some last0;
                        cycleStartAt := None; cycleMs := None |} = true))
    as (c' & Hs & Hp' & HR & Hr & Hal & _ & Hc').
  rewrite Hs. cbn [resumeAt pauseRemainingMs adjustedLastApprovedAt cycleStartAt
                   option_map] in HR, Hr, Hal, Hc'.
  pose proof (derive_paused_stored (sm_lastApprovedAt summary) (sm_nextPayoutAt summary)
                c' t _ _ Hp' HR Hr) as H.
  cbv zeta in H. destruct H as (H1 & H2 & H3 & H4).
  assert (HT : 0 <= T) by (unfold T; lia).
  rewrite H1, H2, H3, H4.
  assert (Hlast : d_lastApprovedAt (derivePayoutState (sm_lastApprovedAt summary)
                    (sm_nextPayoutAt summary) (Some c') t) = last0).
  { unfold derivePayoutState, derivePayoutStateWith, deriveLocals.
    cbn [d_lastApprovedAt]. rewrite Hp'. unfold derivePaused. rewrite Hc', Hal.
    reflexivity. }
  assert (Hcyc : d_isCycle (derivePayoutState (sm_lastApprovedAt summary)
                    (sm_nextPayoutAt summary) (Some c') t) = false).
  { unfold derivePayoutState.
    rewrite (derive_paused_isCycle _ _ c' t true Hp'), Hc'. reflexivity. }
  rewrite Hlast, Hcyc.
  repeat split; lia.
Qed.

(** X14.  The time editor, on a running cycle.  A time [targetMs] entered
    for a wallet on a cycle of length [len] stores the cycle start one
    cycle length before the later of [targetMs] and the time of the
    click.  When the base last approval is not after that start, the next
    payout shown at the click is: [now + len] if the target is not ahead;
    the target itself if it is ahead by at most one cycle length; and
    [targetMs - len], one cycle earlier than asked, if it is further
    ahead. *)
Theorem edit_cycle_next_payout
    (controls : gmap string PayoutControlState) (summary : PayoutSummary)
    (c : PayoutControlState) (nowTs now now' targetMs : Z) :
  let key := toLowerCase (sm_address summary) in
  controls !! key = Some c ->
  paused c = false -> isSome (cycleStartAt c) = true ->
  let len := cycleMsOrDay (Some c) in
  sm_lastApprovedAt summary <= Z.max targetMs now - len ->
  let after := handleEditPayoutTime controls (rowOf controls summary nowTs)
                                    (Some targetMs) now now' in
  let d := derivePayoutState (sm_lastApprovedAt summary) (sm_nextPayoutAt summary)
             (after !! key) now in
  after !! key = Some (cycleControl (Z.max targetMs now - len) len) /\
  d_status d = StRunning /\ d_isCycle d = true /\ d_cycleMs d = Some len /\
  d_nextPayoutAt d
    = (if targetMs <=? now then now + len
       else if targetMs - len <=? now then targetMs else targetMs - len) /\
  d_remaining d = d_nextPayoutAt d - now.
Proof.
  intros key Hlook Hp Hc len HL after. cbv zeta.
  pose proof (cycleMsOrDay_pos (Some c)) as Hlen. fold len in Hlen.
  assert (Hafter : after !! key = Some (cycleControl (Z.max targetMs now - len) len)).
  { unfold after, handleEditPayoutTime, key. rewrite setControl_rowOf_lookup.
    fold key. rewrite Hlook. unfold producedControl, rowOf. fold key. rewrite Hlook.
    assert (Eraw : editProducer (upcomingPayout summary (Some c) nowTs)
                     targetMs now now' (Some c)
                   = Some (cycleControl (Z.max targetMs now - len) len)).
    { unfold editProducer, producerHasCycle.
      rewrite (producerCycleLength_row summary c nowTs Hc). fold len.
      cbn [optField]. rewrite Hc, Hp, Bool.orb_true_r. reflexivity. }
    rewrite Eraw. apply sanitize_cycleControl, Hlen. }
  split; [exact Hafter|]. rewrite Hafter.
  apply (derive_cycle_from_target _ _ targetMs now len Hlen HL).
Qed.

Lemma edit_sets_next_payout_witness :
  d_lastApprovedAt
    (derivePayoutState (sm_lastApprovedAt exampleSummary)
       (sm_nextPayoutAt exampleSummary)
       (handleEditPayoutTime (controlsOf pausedManual)
          (rowOf (controlsOf pausedManual) exampleSummary 1000)
          (Some 100000000) 2000 2001
          !! toLowerCase (sm_address exampleSummary)) 5000)
  = nullish (optField (controlsOf pausedManual !! toLowerCase (sm_address exampleSummary))
                      adjustedLastApprovedAt)
            (sm_lastApprovedAt exampleSummary).
Proof.
  assert (H : optField (controlsOf pausedManual !! toLowerCase (sm_address exampleSummary))
                cycleStartAt = None).
  { rewrite controlsOf_lookup. reflexivity. }
  exact (proj1 (edit_sets_next_payout (controlsOf pausedManual) exampleSummary
                  1000 2000 2001 100000000 H ltac:(lia) 5000)).
Defined.

Lemma edit_cycle_next_payout_witness :
  handleEditPayoutTime (controlsOf (cycleControl 1000 3600000))
    (rowOf (controlsOf (cycleControl 1000 3600000)) exampleSummary 1000)
    (Some 100000000) 2000 2001
    !! toLowerCase (sm_address exampleSummary)
  = Some (cycleControl
            (Z.max 100000000 2000 - cycleMsOrDay (Some (cycleControl 1000 3600000)))
            (cycleMsOrDay (Some (cycleControl 1000 3600000)))).
Proof.
  exact (proj1 (edit_cycle_next_payout (controlsOf (cycleControl 1000 3600000))
                  exampleSummary (cycleControl 1000 3600000) 1000 2000 2001 100000000
                  (controlsOf_lookup _) eq_refl eq_refl
                  ltac:(vm_compute; discriminate))).
Defined.


Lemma handleReset_delete controls payout :
  handleResetPayout controls payout = delete (toLowerCase (p_address payout)) controls.
Proof. reflexivity. Qed.

Lemma reset_after_set controls payout producer :
  handleResetPayout (setControlForPayout controls payout producer) payout
  = handleResetPayout controls payout.
Proof.
  rewrite !handleReset_delete. unfold setControlForPayout.
  destruct (producedControl producer _).
  - apply delete_insert_eq.
  - apply delete_delete_eq.
Qed.

(** X16.  Reset leaves no trace of the editor.  Whatever button was
    pressed for a wallet before, Reset afterwards gives the control map
    that Reset alone gives: the wallet's entry is gone, the other entries
    are as they were, and the wallet shows its base schedule again. *)
Theorem reset_undoes_editor
    (controls : gmap string PayoutControlState) (summary : PayoutSummary)
    (nowTs now now' deltaMs : Z) (parsed : option Z) :
  let key := toLowerCase (sm_address summary) in
  let row := rowOf controls summary nowTs in
  Forall (fun edited : gmap string PayoutControlState =>
            handleResetPayout edited row = delete key controls /\
            forall t,
              derivePayoutState (sm_lastApprovedAt summary) (sm_nextPayoutAt summary)
                                (handleResetPayout edited row !! key) t
              = derivePayoutState (sm_lastApprovedAt summary) (sm_nextPayoutAt summary)
                                  None t)
         [ controls;
           handlePausePayout controls row now;
           handleResumePayout controls row now;
           handleAdjustPayoutTime controls row deltaMs now;
           handleEditPayoutTime controls row parsed now now';
           handleStartPayout controls row now;
           handleResetPayout controls row ].
Proof.
  intros key row.
  assert (Hbase : handleResetPayout controls row = delete key controls)
    by reflexivity.
  assert (Hset : forall producer,
            handleResetPayout (setControlForPayout controls row producer) row
            = delete key controls).
  { intros producer. rewrite reset_after_set. exact Hbase. }
  assert (Hall : forall edited,
            handleResetPayout edited row = delete key controls ->
            handleResetPayout edited row = delete key controls /\
            forall t,
              derivePayoutState (sm_lastApprovedAt summary) (sm_nextPayoutAt summary)
                                (handleResetPayout edited row !! key) t
              = derivePayoutState (sm_lastApprovedAt summary) (sm_nextPayoutAt summary)
                                  None t).
  { intros edited H. split; [exact H|]. intros t. rewrite H, lookup_delete_eq.
    reflexivity. }
  repeat match goal with |- Forall _ (_ :: _) => apply List.Forall_cons end;
    [ | | | | | | | apply List.Forall_nil]; apply Hall.
  - exact Hbase.
  - unfold handlePausePayout. destruct (p_status row); [exact Hbase | apply Hset ..].
  - apply Hset.
  - unfold handleAdjustPayoutTime. destruct (deltaMs =? 0); [exact Hbase | apply Hset].
  - unfold handleEditPayoutTime. destruct parsed; [apply Hset | exact Hbase].
  - apply Hset.
  - apply Hset.
Qed.

(* --------------------------------------------------------------------- *)
(** ** The payout schedule store, continued *)
(* --------------------------------------------------------------------- *)

(** Closed form of the cycle branch, as a record. *)
Lemma deriveCycle_closed L N c now len :
  0 < len ->
  deriveCycle L N c now len =
    let start := match cycleStartAt c with Some s => s | None => N end in
    let last :=
      if now <? start then Z.max L (start - len)
      else Z.max L (start + (now - start) / len * len) in
    let next :=
      if now <? start then start
      else Z.max L (start + (now - start) / len * len) + len in
    {| l_lastApprovedAt := last; l_nextPayoutAt := next;
       l_remaining := Z.max (next - now) 0; l_resumeAt := next;
       l_status := StRunning; l_isCycle := true; l_cycleMs := len |}.
Proof.
  intros Hlen. unfold deriveCycle.
  assert (E : (0 <? len) = true) by (apply Z.ltb_lt; lia). rewrite E.
  set (start := match cycleStartAt c with Some s => s | None => N end).
  cbv zeta.
  destruct (now <? start) eqn:Hlt; [reflexivity|].
  apply Z.ltb_ge in Hlt.
  pose proof (Z.mul_succ_div_gt (now - start) len Hlen) as Hhi.
  assert (E2 : (Z.max L (start + (now - start) / len * len) + len <=? now) = false)
    by (apply Z.leb_gt; lia).
  rewrite E2. reflexivity.
Qed.

Lemma deriveCycle_fixpoint L N c now len s :
  0 < len -> cycleStartAt c = Some s ->
  deriveCycle (l_lastApprovedAt (deriveCycle L N c now len))
              (l_nextPayoutAt (deriveCycle L N c now len)) c now len
  = deriveCycle L N c now len.
Proof.
  intros Hlen Hcs.
  rewrite (deriveCycle_closed L N c now len Hlen).
  rewrite deriveCycle_closed by exact Hlen.
  cbv zeta. rewrite Hcs. cbn [l_lastApprovedAt l_nextPayoutAt].
  destruct (now <? s) eqn:E.
  - replace (Z.max (Z.max L (s - len)) (s - len)) with (Z.max L (s - len)) by lia.
    reflexivity.
  - set (x := s + (now - s) / len * len).
    replace (Z.max (Z.max L x) x) with (Z.max L x) by lia.
    reflexivity.
Qed.

Lemma derivePaused_fixpoint L N c now fz len :
  0 < len ->
  derivePaused (l_lastApprovedAt (derivePaused L N c now fz len))
               (l_nextPayoutAt (derivePaused L N c now fz len)) c now fz len
  = derivePaused L N c now fz len.
Proof.
  intros Hlen.
  assert (E : (0 <? len) = true) by (apply Z.ltb_lt; lia).
  destruct c as [p pr ra an al cs cm].
  unfold derivePaused.
  cbn [paused pauseRemainingMs resumeAt adjustedNextPayoutAt
       adjustedLastApprovedAt cycleStartAt cycleMs].
  rewrite E.
  destruct cs as [s|]; cbn [isSome].
  - (* on a cycle *)
    cbn [l_lastApprovedAt l_nextPayoutAt].
    destruct ra as [R|]; cbn [option_map].
    + set (T := Z.max R 0).
      replace (Z.max (Z.max L (T - len)) (T - len)) with (Z.max L (T - len)) by lia.
      reflexivity.
    + destruct pr as [r|]; cbn [option_map].
      * set (T := now + Z.max r 0).
        replace (Z.max (Z.max L (T - len)) (T - len)) with (Z.max L (T - len)) by lia.
        reflexivity.
      * set (ns := Z.max L s).
        set (k := Z.max (now - ns) 0 / len).
        assert (Hk : 0 <= k) by (apply Z.div_pos; lia).
        assert (Hkl : 0 <= k * len) by nia.
        pose proof (Z.mul_succ_div_gt (Z.max (now - ns) 0) len Hlen) as Hhi.
        pose proof (Z.mul_div_le (Z.max (now - ns) 0) len Hlen) as Hlo.
        fold k in Hhi, Hlo.
        assert (Hc : (now <? ns + k * len + len) = true) by (apply Z.ltb_lt; lia).
        rewrite Hc.
        replace (ns + k * len + len - len) with (ns + k * len) by lia.
        assert (EL : Z.max L (ns + k * len) = ns + k * len) by lia.
        rewrite EL.
        assert (Ens : Z.max (ns + k * len) s = ns + k * len) by lia.
        rewrite Ens.
        assert (Ek' : Z.max (now - (ns + k * len)) 0 / len = 0).
        { apply Z.div_small. lia. }
        rewrite Ek'. rewrite Z.mul_0_l, Z.add_0_r.
        rewrite Hc.
        replace (ns + k * len + len - len) with (ns + k * len) by lia.
        rewrite Z.max_id. reflexivity.
  - (* no cycle *)
    cbn [l_lastApprovedAt l_nextPayoutAt]. rewrite nullish_idem.
    destruct ra as [R|]; cbn [option_map]; [reflexivity|].
    destruct pr as [r|]; cbn [option_map]; [reflexivity|].
    set (last0 := nullish al L).
    destruct an as [a|]; cbn [nullish]; [reflexivity|].
    set (T := Z.max (Z.max N (last0 + 1000)) now).
    replace (Z.max (Z.max T (last0 + 1000)) now) with T by lia.
    reflexivity.
Qed.

Lemma deriveLocals_fixpoint L N control now fz :
  deriveLocals (l_lastApprovedAt (deriveLocals L N control now fz))
               (l_nextPayoutAt (deriveLocals L N control now fz)) control now fz
  = deriveLocals L N control now fz.
Proof.
  pose proof (cycleMsOrDay_pos control) as Hlen.
  unfold deriveLocals.
  destruct control as [c|]; [|reflexivity].
  destruct (paused c).
  - apply derivePaused_fixpoint, Hlen.
  - destruct (cycleStartAt c) as [s|] eqn:Hcs; cbn [isSome].
    + apply (deriveCycle_fixpoint L N c now _ s Hlen Hcs).
    + unfold derivePlain. cbn [l_lastApprovedAt l_nextPayoutAt].
      rewrite !nullish_idem. reflexivity.
Qed.

Lemma derive_fixpoint L N control now fz :
  let d := derivePayoutStateWith L N control now fz in
  derivePayoutStateWith (d_lastApprovedAt d) (d_nextPayoutAt d) control now fz = d.
Proof.
  cbv zeta. unfold derivePayoutStateWith at 1.
  cbn [d_lastApprovedAt d_nextPayoutAt derivePayoutStateWith].
  rewrite deriveLocals_fixpoint. reflexivity.
Qed.

(** X17.  The schedule effect settles.  Deriving again from the derived
    [lastApprovedAt] and [nextPayoutAt], under the same control and at the
    same time, gives the same state; so when the effect that writes the
    derived times back to the stored base schedule runs again on its own
    result, it finds nothing to change and leaves store and base as they
    are. *)
Theorem schedule_sync_settles
    (store : gmap string PayoutSchedule) (address : option string)
    (base : option PayoutSchedule) (control : option PayoutControlState)
    (L N now : Z) :
  (let d := derivePayoutState L N control now in
   derivePayoutState (d_lastApprovedAt d) (d_nextPayoutAt d) control now = d) /\
  (let once := syncPayoutSchedule store address base control now in
   syncPayoutSchedule (fst once) address (snd once) control now = once).
Proof.
  split.
  - apply (derive_fixpoint L N control now true).
  - cbv zeta.
    destruct base as [b|]; [|reflexivity].
    destruct address as [addr|]; [|reflexivity].
    pose proof (derive_fixpoint (s_lastApprovedAt b) (s_nextPayoutAt b) control now true)
      as Hfix.
    cbv zeta in Hfix.
    fold (derivePayoutState (s_lastApprovedAt b) (s_nextPayoutAt b) control now) in Hfix.
    set (d := derivePayoutState (s_lastApprovedAt b) (s_nextPayoutAt b) control now)
      in Hfix.
    fold (derivePayoutState (d_lastApprovedAt d) (d_nextPayoutAt d) control now) in Hfix.
    assert (Hsame : forall st sc,
              s_lastApprovedAt sc = d_lastApprovedAt d ->
              s_nextPayoutAt sc = d_nextPayoutAt d ->
              syncPayoutSchedule st (Some addr) (Some sc) control now = (st, Some sc)).
    { intros st sc H1 H2. unfold syncPayoutSchedule. rewrite H1, H2, Hfix.
      rewrite !Z.eqb_refl. reflexivity. }
    assert (Honce : syncPayoutSchedule store (Some addr) (Some b) control now
                    = if negb (s_lastApprovedAt b =? d_lastApprovedAt d)
                         || negb (s_nextPayoutAt b =? d_nextPayoutAt d)
                      then (<[toLowerCase addr :=
                                {| s_lastApprovedAt := d_lastApprovedAt d;
                                   s_nextPayoutAt := d_nextPayoutAt d;
                                   s_tokens := s_tokens b |}]> store,
                            Some {| s_lastApprovedAt := d_lastApprovedAt d;
                                    s_nextPayoutAt := d_nextPayoutAt d;
                                    s_tokens := s_tokens b |})
                      else (store, Some b)) by reflexivity.
    rewrite Honce.
    destruct (negb (s_lastApprovedAt b =? d_lastApprovedAt d)
              || negb (s_nextPayoutAt b =? d_nextPayoutAt d)) eqn:Hch; cbn [fst snd].
    + apply Hsame; reflexivity.
    + apply Bool.orb_false_elim in Hch. destruct Hch as [H1 H2].
      apply Bool.negb_false_iff, Z.eqb_eq in H1.
      apply Bool.negb_false_iff, Z.eqb_eq in H2.
      apply Hsame; assumption.
Qed.

Lemma lowerAscii_idem a : lowerAscii (lowerAscii a) = lowerAscii a.
Proof.
  destruct a as [b0 b1 b2 b3 b4 b5 b6 b7].
  destruct b0, b1, b2, b3, b4, b5, b6, b7; reflexivity.
Qed.

Lemma toLowerCase_idem s : toLowerCase (toLowerCase s) = toLowerCase s.
Proof.
  induction s as [|a s IH]; [reflexivity|].
  cbn [toLowerCase]. rewrite lowerAscii_idem, IH. reflexivity.
Qed.

Lemma normalizeTokenMeta_Some t t' :
  normalizeTokenMeta t = Some t' -> t' = t.
Proof.
  unfold normalizeTokenMeta.
  destruct (negb (nonEmpty (m_symbol t))); [discriminate|].
  destruct (negb (nonEmpty (m_chainName t))); [discriminate|].
  destruct (negb (nonEmpty (m_address t))); [discriminate|].
  intros [= <-]. reflexivity.
Qed.

Lemma omap_normalize_fixed l :
  Forall (fun t => normalizeTokenMeta t = Some t) l ->
  omap normalizeTokenMeta l = l.
Proof.
  induction 1 as [|t l Ht _ IH]; [reflexivity|].
  cbn [omap list_omap]. rewrite Ht, IH. reflexivity.
Qed.

Lemma omap_normalize_normalized l :
  Forall (fun t => normalizeTokenMeta t = Some t) (omap normalizeTokenMeta l).
Proof.
  induction l as [|t l IH]; [constructor|].
  cbn [omap list_omap].
  destruct (normalizeTokenMeta t) as [t'|] eqn:E; [|exact IH].
  pose proof (normalizeTokenMeta_Some t t' E) as Ht. subst t'.
  constructor; [exact E | exact IH].
Qed.

Lemma currentTokens_normalized store addr :
  Forall (fun t => normalizeTokenMeta t = Some t) (currentTokens store addr).
Proof.
  unfold currentTokens, normalizeSchedule.
  destruct (store !! toLowerCase addr) as [s|]; [|constructor].
  cbn [s_tokens]. apply omap_normalize_normalized.
Qed.

Lemma nextTokensOf_normalized tokenMeta current :
  match tokenMeta with
  | Some meta => normalizeTokenMeta meta = Some meta
  | None => True
  end ->
  Forall (fun t => normalizeTokenMeta t = Some t) current ->
  Forall (fun t => normalizeTokenMeta t = Some t) (nextTokensOf tokenMeta current).
Proof.
  intros Hm Hc. unfold nextTokensOf. destruct tokenMeta as [meta|]; [|exact Hc].
  apply Forall_take. constructor; [exact Hm|].
  apply List.Forall_forall. intros t Ht. apply List.filter_In in Ht.
  destruct Ht as [Ht _]. revert t Ht. apply List.Forall_forall. exact Hc.
Qed.

Lemma updatePayoutSchedule_eq store addr payload :
  updatePayoutSchedule store addr payload
  = (<[toLowerCase addr :=
         {| s_lastApprovedAt := pl_lastApprovedAt payload;
            s_nextPayoutAt := pl_nextPayoutAt payload;
            s_tokens := nextTokensOf (pl_tokenMeta payload)
                                     (currentTokens store addr) |}]> store,
     {| s_lastApprovedAt := pl_lastApprovedAt payload;
        s_nextPayoutAt := pl_nextPayoutAt payload;
        s_tokens := nextTokensOf (pl_tokenMeta payload)
                                 (currentTokens store addr) |}).
Proof. reflexivity. Qed.

Lemma load_after_update store addr payload addr' :
  toLowerCase addr' = toLowerCase addr ->
  loadPayoutSchedule (fst (updatePayoutSchedule store addr payload)) (Some addr')
  = Some {| s_lastApprovedAt := pl_lastApprovedAt payload;
            s_nextPayoutAt := pl_nextPayoutAt payload;
            s_tokens := omap normalizeTokenMeta
                          (nextTokensOf (pl_tokenMeta payload)
                                        (currentTokens store addr)) |}.
Proof.
  intros Hk. rewrite updatePayoutSchedule_eq. cbn [fst loadPayoutSchedule].
  rewrite Hk, lookup_insert_eq. reflexivity.
Qed.

Lemma load_other_update store addr payload other :
  toLowerCase other <> toLowerCase addr ->
  loadPayoutSchedule (fst (updatePayoutSchedule store addr payload)) (Some other)
  = loadPayoutSchedule store (Some other).
Proof.
  intros Hk. rewrite updatePayoutSchedule_eq. cbn [fst loadPayoutSchedule].
  rewrite lookup_insert_ne by congruence. reflexivity.
Qed.

(** X18.  Write and read of the payout store.  After
    [updatePayoutSchedule] for a wallet, [loadPayoutSchedule] under any
    spelling of the address with the same lower case (the lower-cased
    address itself included) returns the payload's times with the written
    token list as the normalizer leaves it; that is the written schedule
    itself when the new token has a non-empty symbol, chain name and
    address (or when no token is given).  Schedules of other wallets load
    as before. *)
Theorem schedule_write_then_load
    (store : gmap string PayoutSchedule) (addr : string)
    (payload : SchedulePayload) :
  let after := fst (updatePayoutSchedule store addr payload) in
  let written := snd (updatePayoutSchedule store addr payload) in
  (forall addr', toLowerCase addr' = toLowerCase addr ->
     exists loaded,
       loadPayoutSchedule after (Some addr') = Some loaded /\
       s_lastApprovedAt loaded = pl_lastApprovedAt payload /\
       s_nextPayoutAt loaded = pl_nextPayoutAt payload /\
       s_tokens loaded = omap normalizeTokenMeta (s_tokens written) /\
       (match pl_tokenMeta payload with
        | Some meta => normalizeTokenMeta meta = Some meta
        | None => True
        end -> loaded = written)) /\
  loadPayoutSchedule after (Some (toLowerCase addr))
    = loadPayoutSchedule after (Some addr) /\
  (forall other, toLowerCase other <> toLowerCase addr ->
     loadPayoutSchedule after (Some other) = loadPayoutSchedule store (Some other)).
Proof.
  cbv zeta. split; [|split].
  - intros addr' Hk. eexists. split; [apply (load_after_update _ _ _ _ Hk)|].
    cbn [s_lastApprovedAt s_nextPayoutAt s_tokens].
    split; [reflexivity|]. split; [reflexivity|]. split; [reflexivity|].
    intros Hm. rewrite updatePayoutSchedule_eq. cbn [snd]. f_equal.
    apply omap_normalize_fixed, nextTokensOf_normalized;
      [exact Hm | apply currentTokens_normalized].
  - rewrite (load_after_update store addr payload (toLowerCase addr)
               (toLowerCase_idem addr)).
    rewrite (load_after_update store addr payload addr eq_refl). reflexivity.
  - intros other Hk. apply load_other_update, Hk.
Qed.

Lemma differsFrom_key meta t :
  differsFrom meta t = true <-> tokenKey t <> tokenKey meta.
Proof.
  unfold differsFrom, tokenKey, approvedKey.
  destruct (Z.eqb_spec (m_chainId t) (m_chainId meta)) as [Hc|Hc];
    destruct (String.eqb_spec (toLowerCase (m_address t)) (toLowerCase (m_address meta)))
      as [Ha|Ha]; cbn [negb orb]; split; intros H; try congruence; try reflexivity.
Qed.

Lemma NoDup_map_filter {A B} (f : A -> B) (p : A -> bool) l :
  NoDup (map f l) -> NoDup (map f (List.filter p l)).
Proof.
  induction l as [|x l IH]; cbn [map List.filter]; [auto|].
  intros H. apply NoDup_cons in H. destruct H as [Hx Hl].
  destruct (p x); cbn [map]; [|apply IH, Hl].
  apply NoDup_cons. split; [|apply IH, Hl].
  intros Hin. apply Hx.
  apply list_elem_of_In, List.in_map_iff in Hin. destruct Hin as (y & Hy & Hin).
  apply List.filter_In in Hin. destruct Hin as [Hin _].
  apply list_elem_of_In, List.in_map_iff. exists y. auto.
Qed.

Lemma NoDup_map_take {A B} (f : A -> B) n l :
  NoDup (map f l) -> NoDup (map f (take n l)).
Proof.
  revert n. induction l as [|x l IH]; intros [|n]; cbn [map take]; auto.
  - intros _. constructor.
  - intros H. apply NoDup_cons in H. destruct H as [Hx Hl].
    apply NoDup_cons. split; [|apply IH, Hl].
    intros Hin. apply Hx.
    apply list_elem_of_In, List.in_map_iff in Hin. destruct Hin as (y & Hy & Hin).
    apply list_elem_of_In, List.in_map_iff. exists y. split; [exact Hy|].
    apply (In_take n l y Hin).
Qed.

Lemma nextTokensOf_unique meta current :
  NoDup (map tokenKey current) ->
  NoDup (map tokenKey (nextTokensOf (Some meta) current)).
Proof.
  intros H. unfold nextTokensOf. apply NoDup_map_take. cbn [map].
  apply NoDup_cons. split; [|apply NoDup_map_filter, H].
  intros Hin. apply list_elem_of_In, List.in_map_iff in Hin.
  destruct Hin as (y & Hy & Hin). apply List.filter_In in Hin.
  destruct Hin as [_ Hd]. apply differsFrom_key in Hd. congruence.
Qed.

Lemma NoDup_map_omap_normalize l :
  NoDup (map tokenKey l) -> NoDup (map tokenKey (omap normalizeTokenMeta l)).
Proof.
  induction l as [|x l IH]; cbn [map omap list_omap]; [auto|].
  intros H. apply NoDup_cons in H. destruct H as [Hx Hl].
  destruct (normalizeTokenMeta x) as [x'|] eqn:E; [|apply IH, Hl].
  pose proof (normalizeTokenMeta_Some x x' E) as Hx'. subst x'. cbn [map].
  apply NoDup_cons. split; [|apply IH, Hl].
  intros Hin. apply Hx.
  apply list_elem_of_In, List.in_map_iff in Hin. destruct Hin as (y & Hy & Hin).
  apply list_elem_of_In, List.in_map_iff. exists y. split; [exact Hy|].
  apply list_elem_of_In in Hin. apply list_elem_of_omap in Hin.
  destruct Hin as (z & Hz & Ez).
  pose proof (normalizeTokenMeta_Some z y Ez) as Hy'. subst y.
  apply list_elem_of_In, Hz.
Qed.

Lemma currentTokens_load store addr :
  currentTokens store addr
  = match loadPayoutSchedule store (Some addr) with
    | Some s => s_tokens s
    | None => []
    end.
Proof. reflexivity. Qed.

(** X19.  A stored token list names a token once.  When a schedule is
    written with a token, that token comes first, every other token of
    the written list was stored before and has a different key (chain id
    and lower-cased address), so an approval of a stored token moves it
    to the front instead of adding it; and if every loadable schedule
    listed each key at most once before the write, so does every loadable
    schedule after it. *)
Theorem reapproval_moves_token_to_front
    (store : gmap string PayoutSchedule) (addr : string)
    (payload : SchedulePayload) (meta : ApprovedTokenMeta) :
  pl_tokenMeta payload = Some meta ->
  let after := fst (updatePayoutSchedule store addr payload) in
  let written := snd (updatePayoutSchedule store addr payload) in
  (exists others,
     s_tokens written = meta :: others /\
     forall t, In t others ->
       tokenKey t <> tokenKey meta /\ In t (currentTokens store addr)) /\
  (storeUnique store -> storeUnique after).
Proof.
  intros Hm. cbv zeta. rewrite updatePayoutSchedule_eq. cbn [fst snd s_tokens].
  rewrite Hm. split.
  - unfold nextTokensOf. cbn [take].
    exists (take 5 (List.filter (differsFrom meta) (currentTokens store addr))).
    split; [reflexivity|].
    intros t Ht. apply In_take in Ht. apply List.filter_In in Ht.
    destruct Ht as [Hin Hd]. split; [apply differsFrom_key, Hd | exact Hin].
  - intros Hu a s Hs.
    destruct (decide (toLowerCase a = toLowerCase addr)) as [Hk|Hk].
    + pose proof (load_after_update store addr payload a Hk) as HL.
      rewrite updatePayoutSchedule_eq in HL. cbn [fst] in HL. rewrite Hm in HL.
      rewrite HL in Hs.
      assert (Et : s_tokens s
                   = omap normalizeTokenMeta
                       (nextTokensOf (Some meta) (currentTokens store addr)))
        by (injection Hs as <-; reflexivity).
      rewrite Et.
      apply NoDup_map_omap_normalize, nextTokensOf_unique.
      rewrite currentTokens_load.
      destruct (loadPayoutSchedule store (Some addr)) as [s0|] eqn:E.
      * apply (Hu addr s0 E).
      * constructor.
    + cbn [loadPayoutSchedule] in Hs. rewrite lookup_insert_ne in Hs by congruence.
      apply (Hu a s). exact Hs.
Qed.

Lemma reapproval_moves_token_to_front_witness :
  exists others,
    s_tokens (snd (updatePayoutSchedule driftedStore "0xUser"
                     (approvalPayload daiRow 5000)))
    = metaOfRow daiRow :: others /\
    forall t, In t others ->
      tokenKey t <> tokenKey (metaOfRow daiRow) /\
      In t (currentTokens driftedStore "0xUser").
Proof.
  exact (proj1 (reapproval_moves_token_to_front driftedStore "0xUser"
                  (approvalPayload daiRow 5000) (metaOfRow daiRow) eq_refl)).
Defined.

(** The seeding loop either leaves the store as it is, or leaves a
    schedule with the times it was given; the first happens only when it
    has seen every detected token, and it never touches another wallet. *)
Lemma seedLoop_load address baseLast baseNext detected :
  forall seen store,
    let after := seedLoop address baseLast baseNext detected seen store in
    (after = store \/
     exists s, loadPayoutSchedule after (Some address) = Some s /\
               s_lastApprovedAt s = baseLast /\ s_nextPayoutAt s = baseNext) /\
    ((forall token, In token detected ->
        approvedKey (r_chainId token) (r_address token) ∈ seen) ->
     after = store) /\
    ((exists token, In token detected /\
        approvedKey (r_chainId token) (r_address token) ∉ seen) ->
     exists s, loadPayoutSchedule after (Some address) = Some s /\
               s_lastApprovedAt s = baseLast /\ s_nextPayoutAt s = baseNext) /\
    (forall other, toLowerCase other <> toLowerCase address ->
       loadPayoutSchedule after (Some other) = loadPayoutSchedule store (Some other)).
Proof.
  induction detected as [|token rest IH]; intros seen store; cbv zeta.
  - cbn [seedLoop]. split; [left; reflexivity|]. split; [reflexivity|].
    split; [|reflexivity]. intros (t & [] & _).
  - cbn [seedLoop].
    set (key := approvedKey (r_chainId token) (r_address token)).
    destruct (decide (key ∈ seen)) as [Hin|Hnin].
    + specialize (IH seen store). cbv zeta in IH.
      destruct IH as (IH1 & IH2 & IH3 & IH4).
      split; [exact IH1|]. split; [|split; [|exact IH4]].
      * intros Hall. apply IH2. intros t Ht. apply Hall. right. exact Ht.
      * intros (t & [<-|Ht] & Hn); [contradiction|].
        apply IH3. exists t. split; assumption.
    + set (payload := {| pl_lastApprovedAt := baseLast; pl_nextPayoutAt := baseNext;
                         pl_tokenMeta := Some (metaOfRow token) |}).
      set (store1 := fst (updatePayoutSchedule store address payload)).
      specialize (IH ({[ key ]} ∪ seen) store1). cbv zeta in IH.
      destruct IH as (IH1 & _ & _ & IH4).
      assert (Hwritten : exists s,
                loadPayoutSchedule
                  (seedLoop address baseLast baseNext rest ({[ key ]} ∪ seen) store1)
                  (Some address) = Some s /\
                s_lastApprovedAt s = baseLast /\ s_nextPayoutAt s = baseNext).
      { destruct IH1 as [-> | H]; [|exact H].
        eexists. split; [apply (load_after_update store address payload address eq_refl)|].
        split; reflexivity. }
      split; [right; exact Hwritten|]. split; [|split; [intros _; exact Hwritten|]].
      * intros Hall. exfalso. apply Hnin. apply Hall. left. reflexivity.
      * intros other Hk. rewrite (IH4 other Hk).
        apply load_other_update, Hk.
Qed.

(** X20.  Seeding the schedule from tokens found already approved.  The
    scan's seeding step never changes the times of a schedule that is
    stored for the wallet: it loads with the same [lastApprovedAt] and
    [nextPayoutAt] afterwards.  For a wallet without a stored schedule it
    creates one at [(now, now + 24 h)] as soon as one token is detected.
    When nothing is detected, or every detected token is already in the
    stored list, the store is left as it is; other wallets' schedules are
    never touched. *)
Theorem seeding_keeps_schedule_times
    (address : string) (now : Z) (detected : list Row)
    (store : gmap string PayoutSchedule) :
  let after := seedDetectedApproved address now detected store in
  match loadPayoutSchedule store (Some address) with
  | Some stored =>
      (exists s, loadPayoutSchedule after (Some address) = Some s /\
                 s_lastApprovedAt s = s_lastApprovedAt stored /\
                 s_nextPayoutAt s = s_nextPayoutAt stored) /\
      ((forall token, In token detected ->
          In (approvedKey (r_chainId token) (r_address token))
             (map tokenKey (s_tokens stored))) ->
       after = store)
  | None =>
      (detected = [] -> after = store) /\
      (detected <> [] ->
       exists s, loadPayoutSchedule after (Some address) = Some s /\
                 s_lastApprovedAt s = now /\
                 s_nextPayoutAt s = now + PAYOUT_INTERVAL_MS)
  end /\
  (forall other, toLowerCase other <> toLowerCase address ->
     loadPayoutSchedule after (Some other) = loadPayoutSchedule store (Some other)).
Proof.
  cbv zeta. unfold seedDetectedApproved.
  destruct detected as [|token rest].
  - split; [|reflexivity].
    destruct (loadPayoutSchedule store (Some address)) as [stored|].
    + split; [|reflexivity]. exists stored. auto.
    + split; [reflexivity|]. intros H. contradiction H. reflexivity.
  - change (normalizeSchedule (store !! toLowerCase address))
      with (loadPayoutSchedule store (Some address)).
    set (detected := token :: rest).
    destruct (loadPayoutSchedule store (Some address)) as [stored|] eqn:Hload.
    + pose proof (seedLoop_load address (s_lastApprovedAt stored) (s_nextPayoutAt stored)
                    detected
                    (list_to_set (map (fun t => approvedKey (m_chainId t) (m_address t))
                                      (s_tokens stored)))
                    store) as H.
      cbv zeta in H. destruct H as (H1 & H2 & _ & H4).
      split; [|exact H4]. split.
      * destruct H1 as [-> | H1]; [|exact H1]. exists stored. auto.
      * intros Hall. apply H2. intros t Ht.
        apply elem_of_list_to_set, list_elem_of_In. apply (Hall t Ht).
    + pose proof (seedLoop_load address now (now + PAYOUT_INTERVAL_MS) detected
                    (list_to_set (map (fun t => approvedKey (m_chainId t) (m_address t))
                                      []))
                    store) as H.
      cbv zeta in H. destruct H as (_ & _ & H3 & H4).
      split; [|exact H4]. split; [discriminate|].
      intros _. apply H3. exists token. split; [left; reflexivity|].
      cbn [map list_to_set]. apply not_elem_of_empty.
Qed.

(* --------------------------------------------------------------------- *)
(** ** The scan, continued *)
(* --------------------------------------------------------------------- *)

Lemma classify_length mapped :
  (length (fst (classify mapped)) + length (snd (classify mapped)) <= length mapped)%nat.
Proof.
  induction mapped as [|r rest IH]; cbn [classify]; [cbn; lia|].
  destruct (classify rest) as [items approvedTokens]. cbn [fst snd] in IH.
  destruct (r_balance r <=? 0); [cbn [fst snd length]; lia|].
  destruct (r_allowance r <? r_balance r); cbn [fst snd length]; lia.
Qed.

Lemma mappedRows_length chainId chainName tokenList balances allowances :
  length (mappedRows chainId chainName tokenList balances allowances)
  = length tokenList.
Proof. unfold mappedRows. apply length_imap. Qed.

(** The stat and the item count of one chain. *)
Lemma scanChain_stat cfg chainId reads :
  let res := scanChain cfg chainId reads in
  let tokenList := default [] (TOKENS cfg !! chainId) in
  st_chainId (cr_stat res) = chainId /\
  st_chainName (cr_stat res) = CHAIN_NAME cfg chainId /\
  st_total (cr_stat res) = length tokenList /\
  st_eligible (cr_stat res) = length (cr_items res) /\
  (st_eligible (cr_stat res) + length (cr_approvedTokens res)
     <= st_total (cr_stat res))%nat /\
  st_ok (cr_stat res)
    = negb (Nat.eqb (length tokenList) 0) && isSome (ROUTERS cfg !! chainId) /\
  st_error (cr_stat res)
    = (if negb (Nat.eqb (length tokenList) 0) && negb (isSome (ROUTERS cfg !! chainId))
       then Some "Missing router"%string else None).
Proof.
  cbv zeta. unfold scanChain.
  destruct (default [] (TOKENS cfg !! chainId)) as [|t ts] eqn:Et.
  - cbn. repeat split; try reflexivity; lia.
  - destruct (ROUTERS cfg !! chainId) as [router|].
    + set (mapped := mappedRows _ _ _ _ _).
      pose proof (classify_length mapped) as Hlen.
      assert (Hm : length mapped = length (t :: ts)) by apply mappedRows_length.
      destruct (classify mapped) as [items approvedTokens]. cbn [fst snd] in Hlen.
      cbn [cr_stat cr_items cr_approvedTokens st_chainId st_chainName st_total
           st_eligible st_ok st_error].
      assert (Hp : length (match items with
                           | [] => items
                           | _ :: _ => match ans_prices reads with
                                       | Some prices => map (withPrice prices) items
                                       | None => items
                                       end
                           end) = length items).
      { destruct items; [reflexivity|]. destruct (ans_prices reads); [|reflexivity].
        apply length_map. }
      rewrite Hp. repeat split; try reflexivity; lia.
    + cbn. repeat split; try reflexivity; lia.
Qed.

Lemma insertByValue_length a sorted :
  length (insertByValue a sorted) = S (length sorted).
Proof.
  induction sorted as [|b rest IH]; cbn [insertByValue]; [reflexivity|].
  destruct (Qle_bool _ _); cbn [length]; [reflexivity|]. rewrite IH. reflexivity.
Qed.

Lemma sortByValueDesc_length rows : length (sortByValueDesc rows) = length rows.
Proof.
  unfold sortByValueDesc. induction rows as [|a rest IH]; cbn [foldr]; [reflexivity|].
  rewrite insertByValue_length, IH. reflexivity.
Qed.

Lemma length_concat_map_items (results : list ChainResult) :
  length (concat (map cr_items results))
  = sum_list (map (fun res => length (cr_items res)) results).
Proof.
  induction results as [|res rest IH]; [reflexivity|].
  cbn [map concat sum_list sum_list_with]. rewrite length_app, IH. reflexivity.
Qed.

(** Every item that a chain's scan returns is short of allowance. *)
Lemma scan_items_short cfg (reads : Z -> ChainReads) :
  Forall (fun item => r_allowance item < r_balance item)
    (concat (map cr_items
               (map (fun chainId => scanChain cfg chainId (reads chainId))
                    (CHAINS_DEF cfg)))).
Proof.
  apply List.Forall_forall. intros item Hitem.
  apply in_concat in Hitem. destruct Hitem as (l & Hl & Hin).
  apply in_map_iff in Hl. destruct Hl as (res & <- & Hres).
  apply in_map_iff in Hres. destruct Hres as (chainId & <- & _).
  apply scanChain_items_sound in Hin. destruct Hin as (row & _ & He & Hs).
  apply (sameToken_eligible item row Hs) in He. apply He.
Qed.

Lemma scanAll_eq cfg reads approved :
  let results := map (fun chainId => scanChain cfg chainId (reads chainId))
                     (CHAINS_DEF cfg) in
  let allItems := concat (map cr_items results) in
  scanAll cfg reads approved
  = {| sc_rows := sortByValueDesc allItems;
       sc_stats := map cr_stat results;
       sc_detectedApprovedTokens := concat (map cr_approvedTokens results);
       sc_approved := snd (filterApproved allItems approved) |}.
Proof.
  cbv zeta. unfold scanAll.
  pose proof (filterApproved_keeps _ approved (scan_items_short cfg reads)) as Hk.
  destruct (filterApproved _ approved) as [filtered approved'].
  cbn [fst snd] in *. rewrite Hk. reflexivity.
Qed.

(** X21.  The scan's statistics account for the queue.  The scan returns
    one statistic per configured chain, in order; each gives the number of
    configured tokens as [total], at most that many as [eligible], [ok]
    exactly when the chain has tokens and a router, and the error
    "Missing router" exactly when it has tokens and no router (then
    nothing is eligible).  The length of the published queue is the sum of
    the [eligible] counts, whatever approvals were remembered. *)
Theorem scan_stats_account_for_queue (cfg : Config) (reads : Z -> ChainReads)
    (approved : gset (Z * string)) :
  let out := scanAll cfg reads approved in
  map st_chainId (sc_stats out) = CHAINS_DEF cfg /\
  length (sc_rows out) = sum_list (map st_eligible (sc_stats out)) /\
  Forall (fun st =>
            let tokenList := default [] (TOKENS cfg !! st_chainId st) in
            let router := ROUTERS cfg !! st_chainId st in
            st_total st = length tokenList /\
            (st_eligible st <= st_total st)%nat /\
            st_ok st = negb (Nat.eqb (length tokenList) 0) && isSome router /\
            (st_ok st = false -> st_eligible st = 0%nat) /\
            st_error st
              = (if negb (Nat.eqb (length tokenList) 0) && negb (isSome router)
                 then Some "Missing router"%string else None))
         (sc_stats out).
Proof.
  cbv zeta. rewrite scanAll_eq. cbv zeta. cbn [sc_stats sc_rows].
  set (scan := fun chainId => scanChain cfg chainId (reads chainId)).
  split; [|split].
  - rewrite !map_map. induction (CHAINS_DEF cfg) as [|c cs IH]; [reflexivity|].
    cbn [map]. rewrite IH. f_equal.
    apply (scanChain_stat cfg c (reads c)).
  - rewrite sortByValueDesc_length, length_concat_map_items, !map_map.
    f_equal. apply map_ext. intros c. symmetry.
    apply (scanChain_stat cfg c (reads c)).
  - apply List.Forall_forall. intros st Hst.
    apply in_map_iff in Hst. destruct Hst as (res & <- & Hres).
    apply in_map_iff in Hres. destruct Hres as (c & <- & _).
    pose proof (scanChain_stat cfg c (reads c)) as H. cbv zeta in H.
    fold (scan c) in H. destruct H as (H1 & _ & H3 & H4 & H5 & H6 & H7).
    rewrite H1. split; [exact H3|]. split; [lia|]. split; [exact H6|].
    split; [|exact H7].
    intros Hok. rewrite H4. rewrite H6 in Hok.
    unfold scan, scanChain.
    destruct (default [] (TOKENS cfg !! c)) as [|t ts]; [reflexivity|].
    destruct (ROUTERS cfg !! c); [discriminate Hok | reflexivity].
Qed.

Lemma Qle_bool_false a b : Qle_bool a b = false -> (b <= a)%Q.
Proof.
  intros H. destruct (Qlt_le_dec b a) as [Hlt|Hle].
  - apply Qlt_le_weak, Hlt.
  - apply Qle_bool_iff in Hle. congruence.
Qed.

Lemma insertByValue_sorted a sorted :
  StronglySorted byValueDesc sorted ->
  StronglySorted byValueDesc (insertByValue a sorted).
Proof.
  induction 1 as [|b rest Hs IH Hb]; cbn [insertByValue].
  - constructor; constructor.
  - destruct (Qle_bool (sortValue b) (sortValue a)) eqn:E.
    + apply Qle_bool_iff in E.
      constructor; [constructor; assumption|].
      constructor; [exact E|].
      apply List.Forall_forall. intros x Hx.
      pose proof (proj1 (List.Forall_forall _ _) Hb x Hx) as Hbx.
      unfold byValueDesc in *. apply (Qle_trans _ (sortValue b)); assumption.
    + apply Qle_bool_false in E.
      constructor; [exact IH|].
      apply List.Forall_forall. intros x Hx. apply insertByValue_In in Hx.
      destruct Hx as [->|Hx]; [exact E|].
      apply (proj1 (List.Forall_forall _ _) Hb x Hx).
Qed.

Lemma insertByValue_perm a sorted : Permutation (insertByValue a sorted) (a :: sorted).
Proof.
  induction sorted as [|b rest IH]; cbn [insertByValue]; [reflexivity|].
  destruct (Qle_bool _ _); [reflexivity|].
  rewrite IH. apply perm_swap.
Qed.

Lemma sortByValueDesc_perm rows : Permutation (sortByValueDesc rows) rows.
Proof.
  unfold sortByValueDesc. induction rows as [|a rest IH]; cbn [foldr]; [reflexivity|].
  rewrite insertByValue_perm. constructor. exact IH.
Qed.

Lemma insertByValue_filter (p : Row -> bool) a sorted :
  (forall b, p a = true -> p b = true -> Qle_bool (sortValue b) (sortValue a) = true) ->
  List.filter p (insertByValue a sorted)
  = if p a then a :: List.filter p sorted else List.filter p sorted.
Proof.
  intros Hp. induction sorted as [|b rest IH]; cbn [insertByValue List.filter].
  - destruct (p a); reflexivity.
  - destruct (Qle_bool (sortValue b) (sortValue a)) eqn:E; cbn [List.filter].
    + destruct (p a); reflexivity.
    + rewrite IH. destruct (p a) eqn:Ea; [|reflexivity].
      destruct (p b) eqn:Eb; [|reflexivity].
      rewrite (Hp b eq_refl Eb) in E. discriminate.
Qed.

(** The sort is stable: rows of one value keep their order. *)
Lemma sortByValueDesc_stable (v : Q) rows :
  List.filter (fun row => Qeq_bool (sortValue row) v) (sortByValueDesc rows)
  = List.filter (fun row => Qeq_bool (sortValue row) v) rows.
Proof.
  unfold sortByValueDesc. induction rows as [|a rest IH]; [reflexivity|].
  cbn [foldr]. rewrite insertByValue_filter.
  - cbn [List.filter]. rewrite IH. reflexivity.
  - intros b Ha Hb. apply Qeq_bool_iff in Ha, Hb. apply Qle_bool_iff.
    rewrite Ha, Hb. apply Qle_refl.
Qed.

Lemma mappedRows_unpriced chainId chainName tokenList balances allowances row :
  In row (mappedRows chainId chainName tokenList balances allowances) ->
  r_usd row = None /\ r_valueUsd row = None.
Proof.
  unfold mappedRows. intros Hin. apply list_elem_of_In in Hin.
  apply elem_of_lookup_imap_1 in Hin. destruct Hin as (i & token & -> & _).
  split; reflexivity.
Qed.

(** How a queued row got its USD value. *)
Lemma scanChain_items_priced cfg chainId reads row :
  In row (cr_items (scanChain cfg chainId reads)) ->
  r_valueUsd row
  = match r_usd row with
    | Some usd =>
        if Qeq_bool usd 0 then None
        else Some (toDouble (toDouble (inject_Z (r_balance row)
                                       / inject_Z (10 ^ r_decimals row)) * usd))
    | None => None
    end.
Proof.
  intros Hin.
  assert (Hraw : forall item,
             In item (fst (classify (chainMapped cfg chainId reads))) ->
             r_usd item = None /\ r_valueUsd item = None).
  { intros item Hitem. apply classify_items in Hitem. destruct Hitem as [Hitem _].
    unfold chainMapped in Hitem.
    destruct (ROUTERS cfg !! chainId); [|contradiction].
    eapply mappedRows_unpriced. exact Hitem. }
  destruct (scanChain_items cfg chainId reads) as [E|[prices E]];
    cbv zeta in E; rewrite E in Hin.
  - destruct (Hraw row Hin) as [-> ->]. reflexivity.
  - apply in_map_iff in Hin. destruct Hin as (item & <- & _).
    unfold withPrice. cbn [r_usd r_valueUsd r_balance r_decimals].
    destruct (prices !! toLowerCase (r_address item)) as [u|]; reflexivity.
Qed.

(** X22.  The queue is ordered by value.  The value of a row is its USD
    value when a price is known (the amount times the price, a product of
    doubles) and its token amount [Number(formatUnits(balance, decimals))]
    otherwise.  As long as these numbers are finite doubles, the rows the
    scan publishes are the eligible items of all chains, each exactly as
    often as the chains returned it, ordered so that no row has a larger
    value than a row before it, and rows of the same value (two amounts
    that round to the same double, say) stay in the order in which the
    chains returned them. *)
Theorem queue_sorted_by_value (cfg : Config) (reads : Z -> ChainReads)
    (approved : gset (Z * string)) :
  let allItems :=
    concat (map (fun chainId => cr_items (scanChain cfg chainId (reads chainId)))
                (CHAINS_DEF cfg)) in
  let rows := sc_rows (scanAll cfg reads approved) in
  let amount := fun row : Row =>
    toDouble (inject_Z (r_balance row) / inject_Z (10 ^ r_decimals row)) in
  let value := fun row : Row =>
    match r_valueUsd row with Some usdValue => usdValue | None => amount row end in
  Forall (fun item => isFiniteDouble (amount item) /\ isFiniteDouble (value item))
         allItems ->
  Permutation rows allItems /\
  StronglySorted (fun a b => (value b <= value a)%Q) rows /\
  (forall v : Q,
     List.filter (fun row => Qeq_bool (value row) v) rows
     = List.filter (fun row => Qeq_bool (value row) v) allItems) /\
  Forall (fun row =>
            r_valueUsd row
            = match r_usd row with
              | Some usd =>
                  if Qeq_bool usd 0 then None
                  else Some (toDouble (amount row * usd))
              | None => None
              end) rows.
Proof.
  cbv zeta. intros _. rewrite scanAll_eq. cbv zeta. cbn [sc_rows]. rewrite map_map.
  set (allItems := concat _).
  split; [|split; [|split]].
  - apply sortByValueDesc_perm.
  - change (StronglySorted byValueDesc (sortByValueDesc allItems)).
    unfold sortByValueDesc.
    induction allItems as [|a rest IH]; cbn [foldr]; [constructor|].
    apply insertByValue_sorted, IH.
  - intros v. apply (sortByValueDesc_stable v allItems).
  - apply List.Forall_forall. intros row Hrow.
    apply (proj1 (sortByValueDesc_In _ _)) in Hrow. unfold allItems in Hrow.
    apply in_concat in Hrow. destruct Hrow as (l & Hl & Hin).
    apply in_map_iff in Hl. destruct Hl as (chainId & <- & _).
    apply (scanChain_items_priced cfg chainId (reads chainId) row Hin).
Qed.

(** X22 at two balances that differ by one unit in 10^18 and a third,
    priced one: both amounts are the double 1, so the two rows keep their
    scan order, ahead of the row worth 3 * 0.1 = 0.30000000000000004 USD. *)
Lemma queue_sorted_by_value_witness :
  let rows := sc_rows (scanAll tieConfig tieReads ∅) in
  map r_symbol rows = ["AAA"; "BBB"; "CCC"]%string /\
  List.filter (fun row => Qeq_bool (sortValue row) 1) rows
  = List.filter (fun row => Qeq_bool (sortValue row) 1)
      (cr_items (scanChain tieConfig 1 (tieReads 1))) /\
  map r_valueUsd rows = [None; None; Some (5404319552844596 # 18014398509481984)].
Proof.
  cbv zeta.
  split; [vm_compute; reflexivity|]. split.
  - destruct (queue_sorted_by_value tieConfig tieReads ∅) as (_ & _ & Hstable & _).
    + repeat (apply List.Forall_cons;
              [split; unfold isFiniteDouble; vm_compute; reflexivity|]).
      apply List.Forall_nil.
    + unfold sortValue, formatUnitsNumber. rewrite (Hstable 1%Q).
      vm_compute. reflexivity.
  - vm_compute. reflexivity.
Defined.

Lemma filterApproved_approved allItems :
  forall approved,
    Forall (fun item => r_allowance item < r_balance item) allItems ->
    snd (filterApproved allItems approved)
    = approved ∖ list_to_set (map rowKey allItems).
Proof.
  induction allItems as [|item rest IH]; intros approved Hall.
  - cbn [filterApproved snd map list_to_set]. symmetry. apply difference_empty_L.
  - inversion Hall as [|? ? Hitem Hrest]; subst. cbn [filterApproved].
    fold (rowKey item).
    destruct (decide (rowKey item ∈ approved)) as [Hin|Hnin].
    + destruct (Z.leb_spec (r_balance item) (r_allowance item)); [lia|].
      specialize (IH (approved ∖ {[rowKey item]}) Hrest).
      destruct (filterApproved rest _) as [filtered approved']. cbn [snd] in *.
      rewrite IH. cbn [map list_to_set]. apply difference_difference_l_L.
    + specialize (IH approved Hrest).
      destruct (filterApproved rest approved) as [filtered approved']. cbn [snd] in *.
      rewrite IH. cbn [map list_to_set].
      apply set_eq. intros k.
      rewrite !elem_of_difference, elem_of_union, elem_of_singleton.
      split; [|tauto]. intros [Hk Hn]. split; [exact Hk|].
      intros [->|H]; [contradiction | contradiction].
Qed.

(** X23.  The scan forgets the approvals it queues again.  After a scan
    the remembered approved set is the one before it without the keys of
    the published rows: a remembered approval is dropped exactly when its
    token is eligible again, no published row is still remembered as
    approved, and the queue itself does not depend on what was
    remembered. *)
Theorem scan_forgets_queued_approvals (cfg : Config) (reads : Z -> ChainReads)
    (approved approved' : gset (Z * string)) :
  let out := scanAll cfg reads approved in
  sc_approved out = approved ∖ list_to_set (map rowKey (sc_rows out)) /\
  (forall row, In row (sc_rows out) -> rowKey row ∉ sc_approved out) /\
  sc_approved out ⊆ approved /\
  sc_rows (scanAll cfg reads approved') = sc_rows out.
Proof.
  cbv zeta. rewrite !scanAll_eq. cbv zeta. cbn [sc_approved sc_rows].
  set (allItems := concat _).
  rewrite (filterApproved_approved allItems approved (scan_items_short cfg reads)).
  assert (Hkeys : (list_to_set (map rowKey (sortByValueDesc allItems)) : gset (Z * string))
                  = list_to_set (map rowKey allItems)).
  { apply set_eq. intros k. rewrite !elem_of_list_to_set, !list_elem_of_In, !in_map_iff.
    split; intros (row & Hk & Hrow); exists row; (split; [exact Hk|]);
      apply sortByValueDesc_In; exact Hrow. }
  rewrite Hkeys.
  split; [reflexivity|].
  split; [|split; [intros k Hk; apply elem_of_difference in Hk; tauto | reflexivity]].
  intros row Hrow Hin. apply elem_of_difference in Hin. destruct Hin as [_ Hn].
  apply Hn. apply elem_of_list_to_set, list_elem_of_In, in_map_iff.
  exists row. split; [reflexivity|]. apply sortByValueDesc_In, Hrow.
Qed.

(* --------------------------------------------------------------------- *)
(** ** The approval-queue orchestrator, continued *)
(* --------------------------------------------------------------------- *)

Lemma approved_emit e w : w_approved (emit e w) = w_approved w.
Proof. reflexivity. Qed.
Lemma approved_updateRows next w : w_approved (updateRows next w) = w_approved w.
Proof. reflexivity. Qed.
Lemma approved_suspend a w : w_approved (suspend a w) = w_approved w.
Proof. unfold suspend. destruct (ans_bump a); reflexivity. Qed.
Lemma store_emit e w : w_payoutStore (emit e w) = w_payoutStore w.
Proof. reflexivity. Qed.
Lemma store_updateRows next w : w_payoutStore (updateRows next w) = w_payoutStore w.
Proof. reflexivity. Qed.
Lemma store_suspend a w : w_payoutStore (suspend a w) = w_payoutStore w.
Proof. unfold suspend. destruct (ans_bump a); reflexivity. Qed.

(** X24.  A failed attempt is offered again.  When the attempt for the
    queue entry at [idx] throws an error that is not a user rejection, the
    iteration ends at the same index with that entry marked
    needs-approve and every other entry as it was; the loop goes on from
    there, so the same token is attempted again.  Nothing is recorded as
    approved and the payout store is not written; the marked queue and the
    error's message (or "Approval failed") are published only if the
    session is still current. *)
Theorem failed_attempt_is_offered_again (cfg : Config) (rt : RunEnv) (w : World)
    (queue : list Row) (idx : nat) (token : Row) (script : list Answer)
    (w1 : World) (e : JsError) (a : Answer) (script2 : list Answer) :
  queue !! idx = Some token ->
  tryBlock cfg rt (w_session w) (announce cfg idx token w) queue idx token script
    = (w1, a :: script2, TryThrow e) ->
  isUserRejected (Some e) = false ->
  let sessionId := w_session w in
  let queue' := <[idx := withStatus token NeedsApprove]> queue in
  let w2 := afterFailure sessionId queue idx token e a w1 in
  iteration cfg rt sessionId w queue idx script = (w2, script2, IterNext queue' idx)
  /\ length queue' = length queue
  /\ queue' !! idx = Some (withStatus token NeedsApprove)
  /\ (forall j, j <> idx -> queue' !! j = queue !! j)
  /\ (forall fuel,
        runLoop (S fuel) cfg rt sessionId w queue idx script
        = runLoop fuel cfg rt sessionId w2 queue' idx script2)
  /\ w_approved w2 = w_approved w
  /\ w_payoutStore w2 = w_payoutStore w
  /\ (w_session w1 = sessionId -> ans_bump a = false ->
      w_rows w2 = queue' /\
      exists delta,
        w_log w2 = (sessionId, Call (CallSleep 600))
                   :: (sessionId, SetMsg (default "Approval failed"%string (e_message e)))
                   :: (sessionId, SetShowModal false)
                   :: (sessionId, UpdateRows queue') :: delta).
Proof.
  intros Hidx Htry Hrej. cbv zeta.
  assert (Hlt : (idx < length queue)%nat) by (eapply lookup_lt_Some; exact Hidx).
  assert (Hit : iteration cfg rt (w_session w) w queue idx script
                = (afterFailure (w_session w) queue idx token e a w1, script2,
                   IterNext (<[idx := withStatus token NeedsApprove]> queue) idx)).
  { unfold iteration. rewrite Z.eqb_refl. cbn [negb]. rewrite Hidx.
    fold (announce cfg idx token w). rewrite Htry.
    unfold catchIteration. rewrite Hrej. reflexivity. }
  assert (Hq : quietSince w w1).
  { eapply quiet_tryBlock; [|exact Htry]. unfold announce. quiet. }
  destruct Hq as (_ & Ha & Hs & _).
  split; [exact Hit|]. split; [apply length_insert|].
  split; [apply list_lookup_insert_eq; exact Hlt|].
  split; [intros j Hj; apply list_lookup_insert_ne; congruence|].
  split; [|split; [|split]].
  - intros fuel. cbn [runLoop].
    assert (E : (idx <? length queue)%nat = true) by (apply Nat.ltb_lt; exact Hlt).
    rewrite E, Hit. reflexivity.
  - unfold afterFailure. rewrite approved_suspend, approved_emit.
    destruct (w_session w1 =? w_session w); [|exact Ha].
    rewrite !approved_emit, approved_updateRows. exact Ha.
  - unfold afterFailure. rewrite store_suspend, store_emit.
    destruct (w_session w1 =? w_session w); [|exact Hs].
    rewrite !store_emit, store_updateRows. exact Hs.
  - intros Hs1 Hb. unfold afterFailure. rewrite Hs1, Z.eqb_refl.
    unfold suspend. rewrite Hb. cbn [w_rows emit updateRows w_log w_session].
    split; [reflexivity|]. rewrite Hs1. eexists. reflexivity.
Qed.

Lemma failed_attempt_is_offered_again_witness :
  iteration exampleConfig exampleRun 0 (world0 scenarioE_queue) scenarioE_queue 0
            revertScript
  = (afterFailure 0 scenarioE_queue 0 usdcRow revertError answerOk revertThrown,
     [], IterNext (<[0%nat := withStatus usdcRow NeedsApprove]> scenarioE_queue) 0).
Proof.
  pose proof (failed_attempt_is_offered_again exampleConfig exampleRun
                (world0 scenarioE_queue) scenarioE_queue 0 usdcRow revertScript
                revertThrown revertError answerOk []) as H.
  cbv zeta in H.
  destruct H as (Hit & _).
  - reflexivity.
  - vm_compute. reflexivity.
  - vm_compute. reflexivity.
  - exact Hit.
Defined.

Lemma rows_emit e w : w_rows (emit e w) = w_rows w.
Proof. reflexivity. Qed.
Lemma rows_updateRows next w : w_rows (updateRows next w) = next.
Proof. reflexivity. Qed.
Lemma running_emit e w : w_running (emit e w) = w_running w.
Proof. reflexivity. Qed.
Lemma running_updateRows next w : w_running (updateRows next w) = w_running w.
Proof. reflexivity. Qed.
Lemma base_emit e w : w_basePayoutSchedule (emit e w) = w_basePayoutSchedule w.
Proof. reflexivity. Qed.
Lemma base_updateRows next w :
  w_basePayoutSchedule (updateRows next w) = w_basePayoutSchedule w.
Proof. reflexivity. Qed.

Lemma idleSince_refl w : idleSince w w.
Proof.
  split; [exists []; split; [reflexivity | constructor]|]. repeat split; reflexivity.
Qed.

Lemma idle_emit w0 e w :
  idleEffect e = true -> idleSince w0 w -> idleSince w0 (emit e w).
Proof.
  intros He ((delta & Hlog & Hq) & H1 & H2 & H3 & H4 & H5).
  split; [|cbn; auto].
  exists ((w_session w, e) :: delta). split; [cbn; rewrite Hlog; reflexivity|].
  constructor; [exact He | exact Hq].
Qed.

Lemma idle_updateRows w0 next w :
  idleSince w0 w -> idleSince w0 (updateRows next w).
Proof.
  intros ((delta & Hlog & Hq) & H1 & H2 & H3 & H4 & H5).
  split; [|cbn; auto].
  exists ((w_session w, UpdateRows next) :: delta).
  split; [cbn; rewrite Hlog; reflexivity|].
  constructor; [reflexivity | exact Hq].
Qed.

Lemma idle_setRunning w0 b w :
  idleSince w0 w -> idleSince w0 (setRunning b w).
Proof.
  intros ((delta & Hlog & Hq) & H1 & H2 & H3 & H4 & H5).
  split; [exists delta; split; [exact Hlog | exact Hq] | cbn; auto].
Qed.

Lemma withStatus_chainId row status :
  r_chainId (withStatus row status) = r_chainId row.
Proof. reflexivity. Qed.

(** One iteration on an entry whose chain has no router. *)
Lemma iteration_routerless cfg rt w queue idx token script :
  queue !! idx = Some token ->
  ROUTERS cfg !! r_chainId token = None ->
  iteration cfg rt (w_session w) w queue idx script
  = (updateRows (<[idx := withStatus token ErrorStatus]> queue)
                (announce cfg idx token w),
     script, IterNext (<[idx := withStatus token ErrorStatus]> queue) (S idx)).
Proof.
  intros Hidx Hr. unfold iteration. rewrite Z.eqb_refl. cbn [negb]. rewrite Hidx.
  fold (announce cfg idx token w). unfold tryBlock. rewrite Hr.
  assert (Hs : w_session (announce cfg idx token w) = w_session w) by reflexivity.
  rewrite Hs, Z.eqb_refl. reflexivity.
Qed.

Lemma marked_prefix queue idx token :
  queue !! idx = Some token ->
  take (S idx) (<[idx := withStatus token ErrorStatus]> queue)
    ++ allMarkedError (drop (S idx) (<[idx := withStatus token ErrorStatus]> queue))
  = take idx queue ++ allMarkedError (drop idx queue).
Proof.
  intros Hidx.
  assert (Hlt : (idx < length queue)%nat) by (eapply lookup_lt_Some; exact Hidx).
  rewrite (take_S_r _ idx (withStatus token ErrorStatus))
    by (apply list_lookup_insert_eq; exact Hlt).
  rewrite take_insert_ge by lia.
  rewrite drop_insert_lt by lia.
  rewrite (drop_S queue token idx Hidx).
  unfold allMarkedError. cbn [map]. rewrite <- app_assoc. reflexivity.
Qed.

Lemma runLoop_routerless cfg rt sid fuel :
  forall w queue idx script,
    w_session w = sid ->
    Forall (fun row => ROUTERS cfg !! r_chainId row = None) queue ->
    (length queue - idx <= fuel)%nat ->
    exists w',
      runLoop fuel cfg rt sid w queue idx script
      = (w', take idx queue ++ allMarkedError (drop idx queue), script, true)
      /\ idleSince w w' /\ w_running w' = w_running w.
Proof.
  induction fuel as [|fuel IH]; intros w queue idx script Hs Hall Hfuel.
  - cbn [runLoop].
    assert (E : (idx <? length queue)%nat = false) by (apply Nat.ltb_ge; lia).
    rewrite E. exists w.
    rewrite (drop_ge queue idx) by lia. rewrite (take_ge queue idx) by lia.
    unfold allMarkedError. cbn [map]. rewrite app_nil_r.
    split; [reflexivity|]. split; [apply idleSince_refl | reflexivity].
  - cbn [runLoop].
    destruct (idx <? length queue)%nat eqn:E.
    + apply Nat.ltb_lt in E.
      destruct (lookup_lt_is_Some_2 queue idx E) as [token Hidx].
      assert (Hr : ROUTERS cfg !! r_chainId token = None).
      { apply (Forall_lookup_1 _ _ _ _ Hall Hidx). }
      subst sid. rewrite (iteration_routerless cfg rt w queue idx token script Hidx Hr).
      set (queue1 := <[idx := withStatus token ErrorStatus]> queue).
      set (w1 := updateRows queue1 (announce cfg idx token w)).
      destruct (IH w1 queue1 (S idx) script) as (w' & Hrun & Hidle & Hrunning).
      * reflexivity.
      * apply Forall_insert; [exact Hall | exact Hr].
      * unfold queue1. rewrite length_insert. lia.
      * exists w'. split; [|split].
        -- rewrite Hrun. unfold queue1. rewrite (marked_prefix queue idx token Hidx).
           reflexivity.
        -- destruct Hidle as ((delta & Hlog & Hq) & H1 & H2 & H3 & H4 & H5).
           assert (Hw1 : idleSince w w1).
           { unfold w1, announce. apply idle_updateRows.
             repeat (apply idle_emit; [reflexivity|]). apply idleSince_refl. }
           destruct Hw1 as ((delta1 & Hlog1 & Hq1) & G1 & G2 & G3 & G4 & G5).
           split.
           ++ exists (delta ++ delta1). split.
              ** rewrite Hlog, Hlog1, app_assoc. reflexivity.
              ** apply List.Forall_app. split; assumption.
           ++ repeat split; congruence.
        -- rewrite Hrunning. reflexivity.
    + apply Nat.ltb_ge in E. exists w.
      rewrite (drop_ge queue idx) by lia. rewrite (take_ge queue idx) by lia.
      unfold allMarkedError. cbn [map]. rewrite app_nil_r.
      split; [reflexivity|]. split; [apply idleSince_refl | reflexivity].
Qed.

(** X25.  A run over chains without a router.  When no entry of the queue
    has a router for its chain, [runAll] finishes without waiting for
    anything: it consumes no answer, calls nothing outside the page,
    records no approval and writes no schedule, and leaves every entry in
    the published rows, in order, marked as error. *)
Theorem run_without_routers (cfg : Config) (rt : RunEnv) (w : World)
    (script : list Answer) (addr : string) :
  env_address rt = Some addr ->
  w_running w = false ->
  Forall (fun row => ROUTERS cfg !! r_chainId row = None) (w_rows w) ->
  exists w',
    runAll cfg rt w script = (w', script, RunFinished) /\
    w_rows w' = allMarkedError (w_rows w) /\
    w_running w' = false /\
    idleSince w w'.
Proof.
  intros Haddr Hrun Hall.
  unfold runAll, runAllFuel. rewrite Haddr, Hrun.
  destruct (runLoop_routerless cfg rt (w_session w)
              (S (length script + length (w_rows w)))
              (setRunning true w) (w_rows (setRunning true w)) 0 script)
    as (w1 & Hloop & Hidle & _).
  - reflexivity.
  - exact Hall.
  - cbn [setRunning w_rows]. lia.
  - rewrite Hloop. rewrite take_0, drop_0. cbn [app].
    destruct Hidle as ((delta & Hlog & Hq) & H1 & H2 & H3 & H4 & H5).
    cbn [setRunning w_session w_clock w_approved w_payoutStore
         w_basePayoutSchedule w_log] in Hlog, H1, H2, H3, H4, H5.
    rewrite H1, Z.eqb_refl.
    assert (Hs : w_session (setRunning false
                   (emit (SetMsg "All approvals complete.") w1)) = w_session w)
      by exact H1.
    rewrite Hs, Z.eqb_refl.
    eexists. split; [reflexivity|].
    split; [reflexivity|]. split; [reflexivity|].
    split.
    + eexists (_ :: _ :: _ :: _ :: delta). split.
      * cbn. rewrite Hlog. reflexivity.
      * repeat (constructor; [reflexivity|]). exact Hq.
    + cbn. auto.
Qed.

Lemma run_without_routers_witness :
  exists w',
    runAll routerlessConfig exampleRun (world0 scenarioE_queue) revertScript
    = (w', revertScript, RunFinished) /\
    w_rows w' = allMarkedError (w_rows (world0 scenarioE_queue)).
Proof.
  destruct (run_without_routers routerlessConfig exampleRun (world0 scenarioE_queue)
              revertScript "0xUser" eq_refl eq_refl) as (w' & H1 & H2 & _).
  - repeat constructor.
  - exists w'. split; [exact H1 | exact H2].
Defined.

Lemma session_suspend a w : ans_bump a = false -> w_session (suspend a w) = w_session w.
Proof. intros H. unfold suspend. rewrite H. reflexivity. Qed.
Lemma rows_suspend a w : ans_bump a = false -> w_rows (suspend a w) = w_rows w.
Proof. intros H. unfold suspend. rewrite H. reflexivity. Qed.
Lemma running_suspend a w : ans_bump a = false -> w_running (suspend a w) = w_running w.
Proof. intros H. unfold suspend. rewrite H. reflexivity. Qed.
Lemma clock_suspend a w : w_clock w <= w_clock (suspend a w).
Proof. unfold suspend. destruct (ans_bump a); cbn; lia. Qed.
Lemma clock_emit e w : w_clock (emit e w) = w_clock w.
Proof. reflexivity. Qed.
Lemma clock_updateRows next w : w_clock (updateRows next w) = w_clock w.
Proof. reflexivity. Qed.
Lemma base_suspend a w :
  w_basePayoutSchedule (suspend a w) = w_basePayoutSchedule w.
Proof. unfold suspend. destruct (ans_bump a); reflexivity. Qed.

Lemma approved_markApproved address row w :
  w_approved (markApproved address row w) = {[ rowKey row ]} ∪ w_approved w.
Proof.
  unfold markApproved. destruct address; [|reflexivity].
  unfold markApprovedSchedule, updatePayoutSchedule. reflexivity.
Qed.
Lemma rows_markApproved address row w :
  w_rows (markApproved address row w) = w_rows w.
Proof.
  unfold markApproved. destruct address; [|reflexivity].
  unfold markApprovedSchedule, updatePayoutSchedule. reflexivity.
Qed.
Lemma running_markApproved address row w :
  w_running (markApproved address row w) = w_running w.
Proof.
  unfold markApproved. destruct address; [|reflexivity].
  unfold markApprovedSchedule, updatePayoutSchedule. reflexivity.
Qed.
Lemma clock_markApproved address row w :
  w_clock (markApproved address row w) = w_clock w.
Proof.
  unfold markApproved. destruct address; [|reflexivity].
  unfold markApprovedSchedule, updatePayoutSchedule. reflexivity.
Qed.
Lemma base_markApproved addr row w :
  exists tokens,
    w_basePayoutSchedule (markApproved (Some addr) row w)
    = Some {| s_lastApprovedAt := w_clock w;
              s_nextPayoutAt := w_clock w + PAYOUT_INTERVAL_MS;
              s_tokens := tokens |}.
Proof.
  unfold markApproved, markApprovedSchedule, updatePayoutSchedule.
  eexists. reflexivity.
Qed.

Ltac frame :=
  repeat first
    [ rewrite session_emit | rewrite session_updateRows | rewrite session_markApproved
    | rewrite session_suspend by assumption
    | rewrite running_emit | rewrite running_updateRows | rewrite running_markApproved
    | rewrite running_suspend by assumption
    | rewrite approved_emit | rewrite approved_updateRows | rewrite approved_suspend
    | rewrite rows_emit | rewrite rows_updateRows
    | rewrite rows_suspend by assumption
    | rewrite base_emit | rewrite base_updateRows | rewrite base_suspend
    | rewrite clock_emit | rewrite clock_updateRows | rewrite clock_markApproved ].

Lemma afterApproval_cooperative rt addr sid w0 w queue idx token a rest :
  env_address rt = Some addr ->
  w_session w = sid -> ans_bump a = false ->
  w_session w = w_session w0 -> w_running w = w_running w0 ->
  w_approved w = w_approved w0 -> w_clock w0 <= w_clock w ->
  exists w',
    afterApproval rt sid w queue idx token (a :: rest)
    = (w', rest, TryNext (delete idx queue) idx) /\
    approvedStep token (delete idx queue) w0 w'.
Proof.
  intros Haddr Hs Hb Hs0 Hr0 Ha0 Hc0. unfold afterApproval. rewrite Haddr.
  assert (E : w_session (markApproved (Some addr) token w) = sid)
    by (rewrite session_markApproved; exact Hs).
  rewrite E, Z.eqb_refl. cbn [negb].
  eexists. split; [reflexivity|].
  unfold approvedStep. frame. rewrite approved_markApproved.
  split; [exact Hs0|]. split; [exact Hr0|]. split; [rewrite Ha0; reflexivity|].
  split; [reflexivity|].
  pose proof (clock_suspend a
                (emit (Call (CallSleep 300))
                   (emit (SetModalText (textApproved token))
                      (emit IncrApprovedCount
                         (updateRows (delete idx queue)
                            (markApproved (Some addr) token w)))))) as Hc.
  revert Hc. frame. intros Hc.
  split; [lia|].
  destruct (base_markApproved addr token w) as (tokens & Hbase).
  rewrite Hbase. eexists. split; [reflexivity|].
  cbn [s_nextPayoutAt s_lastApprovedAt]. split; [reflexivity | lia].
Qed.

Lemma onChainApproval_cooperative cfg rt addr sid w0 w queue idx token router
    a1 a2 a3 a4 rest :
  env_address rt = Some addr ->
  w_session w = sid ->
  cooperative a1 -> cooperative a2 -> cooperative a3 -> cooperative a4 ->
  w_session w = w_session w0 -> w_running w = w_running w0 ->
  w_approved w = w_approved w0 -> w_clock w0 <= w_clock w ->
  exists w',
    onChainApproval cfg rt sid w queue idx token router (a1 :: a2 :: a3 :: a4 :: rest)
    = (w', rest, TryNext (delete idx queue) idx) /\
    approvedStep token (delete idx queue) w0 w'.
Proof.
  intros Haddr Hs [Hb1 He1] [Hb2 He2] [Hb3 He3] [Hb4 He4] Hs0 Hr0 Ha0 Hc0.
  unfold onChainApproval.
  set (w1 := if ans_flag a1 then suspend a1 w else w).
  assert (Hw1 : w_session w1 = w_session w /\ w_running w1 = w_running w /\
                w_approved w1 = w_approved w /\ w_clock w <= w_clock w1).
  { unfold w1. destruct (ans_flag a1).
    - frame. pose proof (clock_suspend a1 w). auto.
    - repeat split; reflexivity. }
  destruct Hw1 as (S1 & R1 & A1 & C1).
  assert (Eerr : (if ans_flag a1 then ans_error a1 else None) = None)
    by (destruct (ans_flag a1); [exact He1 | reflexivity]).
  rewrite Eerr.
  assert (E1 : w_session w1 = sid) by congruence.
  rewrite E1, Z.eqb_refl. cbn [negb].
  unfold ensureChain. rewrite He2.
  set (w2 := suspend a2 (emit (Call (CallSwitchChain (r_chainId token))) w1)).
  assert (Hw2 : w_session w2 = w_session w1 /\ w_running w2 = w_running w1 /\
                w_approved w2 = w_approved w1 /\ w_clock w1 <= w_clock w2).
  { unfold w2. frame.
    pose proof (clock_suspend a2 (emit (Call (CallSwitchChain (r_chainId token))) w1)) as H.
    revert H. frame. auto. }
  destruct Hw2 as (S2 & R2 & A2 & C2).
  assert (E2 : w_session w2 = sid) by congruence.
  rewrite E2, Z.eqb_refl. cbn [negb]. rewrite He3.
  set (w4 := suspend a3 _).
  assert (Hw4 : w_session w4 = w_session w2 /\ w_running w4 = w_running w2 /\
                w_approved w4 = w_approved w2 /\ w_clock w2 <= w_clock w4).
  { unfold w4. frame.
    match goal with |- context [w_clock (suspend a3 ?x)] =>
      pose proof (clock_suspend a3 x) as H end.
    revert H. frame. auto. }
  destruct Hw4 as (S4 & R4 & A4 & C4).
  apply (afterApproval_cooperative rt addr sid w0 w4 queue idx token a4 rest Haddr);
    try congruence. lia.
Qed.

(** The permit attempt with a cooperative wallet: either the token has no
    permit and one answer is used, or the permit is signed and copied and
    four answers are used; nothing is recorded yet. *)
Lemma permitAttempt_cooperative cfg sid w token a1 a2 a3 a4 rest :
  w_session w = sid ->
  cooperative a1 -> cooperative a2 -> cooperative a3 -> cooperative a4 ->
  exists w' (processed : bool),
    permitAttempt cfg sid w token (a1 :: a2 :: a3 :: a4 :: rest)
    = (w', (if processed then rest else a2 :: a3 :: a4 :: rest), PermitDone processed) /\
    w_session w' = w_session w /\ w_running w' = w_running w /\
    w_approved w' = w_approved w /\ w_clock w <= w_clock w'.
Proof.
  intros Hs [Hb1 He1] [Hb2 He2] [Hb3 He3] [Hb4 He4].
  unfold permitAttempt.
  set (w1 := suspend a1 (emit (Call (CallSupportsPermit (r_address token))) w)).
  assert (Hw1 : w_session w1 = w_session w /\ w_running w1 = w_running w /\
                w_approved w1 = w_approved w /\ w_clock w <= w_clock w1).
  { unfold w1. frame.
    pose proof (clock_suspend a1 (emit (Call (CallSupportsPermit (r_address token))) w)) as H.
    revert H. frame. auto. }
  destruct Hw1 as (S1 & R1 & A1 & C1).
  destruct (ans_flag a1).
  - assert (E1 : w_session w1 = sid) by congruence.
    rewrite E1, Z.eqb_refl. cbn [negb]. rewrite He2, He3.
    set (w3 := suspend a2 _).
    assert (Hw3 : w_session w3 = w_session w1 /\ w_running w3 = w_running w1 /\
                  w_approved w3 = w_approved w1 /\ w_clock w1 <= w_clock w3).
    { unfold w3. frame.
      match goal with |- context [w_clock (suspend a2 ?x)] =>
        pose proof (clock_suspend a2 x) as H end.
      revert H. frame. auto. }
    destruct Hw3 as (S3 & R3 & A3 & C3).
    set (w4 := suspend a3 _).
    assert (Hw4 : w_session w4 = w_session w3 /\ w_running w4 = w_running w3 /\
                  w_approved w4 = w_approved w3 /\ w_clock w3 <= w_clock w4).
    { unfold w4. frame.
      match goal with |- context [w_clock (suspend a3 ?x)] =>
        pose proof (clock_suspend a3 x) as H end.
      revert H. frame. auto. }
    destruct Hw4 as (S4 & R4 & A4 & C4).
    assert (E4 : w_session w4 = sid) by congruence.
    rewrite E4, Z.eqb_refl. cbn [negb]. rewrite He4.
    set (w5 := suspend a4 _).
    assert (Hw5 : w_session w5 = w_session w4 /\ w_running w5 = w_running w4 /\
                  w_approved w5 = w_approved w4 /\ w_clock w4 <= w_clock w5).
    { unfold w5. frame.
      match goal with |- context [w_clock (suspend a4 ?x)] =>
        pose proof (clock_suspend a4 x) as H end.
      revert H. frame. auto. }
    destruct Hw5 as (S5 & R5 & A5 & C5).
    exists w5, true. split; [reflexivity|].
    repeat split; try congruence. lia.
  - exists w1, false. split; [reflexivity|]. auto.
Qed.

(** One iteration with a cooperative wallet: the entry at [idx] is
    approved and leaves the queue; at most five answers are used. *)
Lemma iteration_cooperative cfg rt addr w queue idx token a1 a2 a3 a4 a5 rest :
  env_address rt = Some addr ->
  queue !! idx = Some token ->
  is_Some (ROUTERS cfg !! r_chainId token) ->
  Forall cooperative (a1 :: a2 :: a3 :: a4 :: a5 :: rest) ->
  exists w' script',
    iteration cfg rt (w_session w) w queue idx (a1 :: a2 :: a3 :: a4 :: a5 :: rest)
    = (w', script', IterNext (delete idx queue) idx) /\
    approvedStep token (delete idx queue) w w' /\
    (script' = rest \/ script' = a5 :: rest).
Proof.
  intros Haddr Hidx [router Hr] Hall.
  apply Forall_cons in Hall. destruct Hall as [C1 Hall].
  apply Forall_cons in Hall. destruct Hall as [C2 Hall].
  apply Forall_cons in Hall. destruct Hall as [C3 Hall].
  apply Forall_cons in Hall. destruct Hall as [C4 Hall].
  apply Forall_cons in Hall. destruct Hall as [C5 Hall].
  unfold iteration. rewrite Z.eqb_refl. cbn [negb]. rewrite Hidx.
  fold (announce cfg idx token w).
  set (wa := announce cfg idx token w).
  assert (Hwa : w_session wa = w_session w /\ w_running wa = w_running w /\
                w_approved wa = w_approved w /\ w_clock wa = w_clock w)
    by (repeat split; reflexivity).
  destruct Hwa as (Sa & Ra & Aa & Ca).
  unfold tryBlock. rewrite Hr.
  destruct (env_walletClient rt).
  - destruct (permitAttempt_cooperative cfg (w_session w) wa token a1 a2 a3 a4
                (a5 :: rest) Sa C1 C2 C3 C4)
      as (w1 & processed & Hp & S1 & R1 & A1 & K1).
    rewrite Hp. destruct processed.
    + assert (H : exists w',
                afterApproval rt (w_session w) w1 queue idx token (a5 :: rest)
                = (w', rest, TryNext (delete idx queue) idx) /\
                approvedStep token (delete idx queue) w w').
      { apply (afterApproval_cooperative rt addr (w_session w) w w1 queue idx token
                 a5 rest Haddr);
          first [congruence | lia | apply C5]. }
      destruct H as (w' & Hafter & Hstep).
      rewrite Hafter. exists w', rest. auto.
    + assert (H : exists w',
                onChainApproval cfg rt (w_session w) w1 queue idx token router
                                (a2 :: a3 :: a4 :: a5 :: rest)
                = (w', rest, TryNext (delete idx queue) idx) /\
                approvedStep token (delete idx queue) w w').
      { apply (onChainApproval_cooperative cfg rt addr (w_session w) w w1 queue idx
                 token router a2 a3 a4 a5 rest Haddr);
          first [assumption | congruence | lia]. }
      destruct H as (w' & Hon & Hstep).
      rewrite Hon. exists w', rest. auto.
  - assert (H : exists w',
              onChainApproval cfg rt (w_session w) wa queue idx token router
                              (a1 :: a2 :: a3 :: a4 :: a5 :: rest)
              = (w', a5 :: rest, TryNext (delete idx queue) idx) /\
              approvedStep token (delete idx queue) w w').
    { apply (onChainApproval_cooperative cfg rt addr (w_session w) w wa queue idx
               token router a1 a2 a3 a4 (a5 :: rest) Haddr);
        first [assumption | congruence | lia]. }
    destruct H as (w' & Hon & Hstep).
    rewrite Hon. exists w', (a5 :: rest). auto.
Qed.

Lemma runLoop_nil fuel cfg rt sid w script :
  runLoop fuel cfg rt sid w [] 0 script = (w, [], script, true).
Proof. destruct fuel; reflexivity. Qed.

Lemma runLoop_cooperative cfg rt addr sid :
  env_address rt = Some addr ->
  forall queue fuel w script,
    w_session w = sid ->
    Forall (fun row => is_Some (ROUTERS cfg !! r_chainId row)) queue ->
    Forall cooperative script ->
    (5 * length queue <= length script)%nat ->
    (length queue <= fuel)%nat ->
    exists w' script',
      runLoop fuel cfg rt sid w queue 0 script = (w', [], script', true) /\
      w_session w' = sid /\ w_running w' = w_running w /\
      w_approved w' = list_to_set (map rowKey queue) ∪ w_approved w /\
      w_clock w <= w_clock w' /\
      (queue <> [] ->
       w_rows w' = [] /\
       exists s, w_basePayoutSchedule w' = Some s /\
                 s_nextPayoutAt s = s_lastApprovedAt s + PAYOUT_INTERVAL_MS /\
                 w_clock w <= s_lastApprovedAt s <= w_clock w').
Proof.
  intros Haddr. induction queue as [|token rest IH];
    intros fuel w script Hs Hrouters Hcoop Hlen Hfuel.
  - rewrite runLoop_nil. exists w, script.
    split; [reflexivity|]. split; [exact Hs|]. split; [reflexivity|].
    split; [cbn [map list_to_set]; symmetry; apply (left_id_L ∅ (∪))|].
    split; [lia|]. intros H. contradiction H. reflexivity.
  - destruct fuel as [|fuel]; [cbn in Hfuel; lia|].
    destruct script as [|a1 [|a2 [|a3 [|a4 [|a5 script0]]]]];
      try (cbn in Hlen; lia).
    apply Forall_cons in Hrouters. destruct Hrouters as [Hr Hrest].
    subst sid.
    destruct (iteration_cooperative cfg rt addr w (token :: rest) 0 token
                a1 a2 a3 a4 a5 script0 Haddr eq_refl Hr Hcoop)
      as (w1 & script1 & Hit & Hstep & Hscript).
    cbn [delete list_delete] in Hit, Hstep.
    destruct Hstep as (S1 & R1 & A1 & Rows1 & K1 & (s1 & B1 & N1 & L1)).
    assert (Hcoop1 : Forall cooperative script1).
    { repeat (apply Forall_cons in Hcoop; destruct Hcoop as [? Hcoop]).
      destruct Hscript as [-> | ->]; [exact Hcoop|].
      apply Forall_cons. split; assumption. }
    assert (Hlen1 : (5 * length rest <= length script1)%nat).
    { cbn [length] in Hlen. destruct Hscript as [-> | ->]; cbn [length]; lia. }
    destruct (IH fuel w1 script1 S1 Hrest Hcoop1 Hlen1) as
      (w' & script' & Hloop & S' & R' & A' & K' & Hne).
    { cbn [length] in Hfuel. lia. }
    exists w', script'.
    split.
    { cbn [runLoop length]. cbn [Nat.ltb Nat.leb]. rewrite Hit. exact Hloop. }
    split; [exact S'|]. split; [congruence|].
    split.
    { rewrite A', A1. cbn [map list_to_set].
      rewrite (assoc_L (∪)). f_equal. apply (comm_L (∪)). }
    split; [lia|]. intros _.
    destruct rest as [|token2 rest2].
    + rewrite runLoop_nil in Hloop. injection Hloop as <- <-.
      split; [exact Rows1|]. exists s1. auto.
    + destruct Hne as (Rows' & s & B & N & L); [discriminate|].
      split; [exact Rows'|]. exists s. split; [exact B|]. split; [exact N|]. lia.
Qed.

(** X26.  A run with a cooperative wallet approves the whole queue.  When
    every queued token's chain has a router and every awaited call
    resolves with the wallet still connected, [runAll] finishes (given at
    least five answers per entry), the published queue is empty, the run
    is no longer marked as running, the session is the one it started in,
    and the keys of all queued tokens are remembered as approved. *)
Theorem cooperative_run_approves_all (cfg : Config) (rt : RunEnv) (w : World)
    (script : list Answer) (addr : string) :
  env_address rt = Some addr ->
  w_running w = false ->
  Forall (fun row => is_Some (ROUTERS cfg !! r_chainId row)) (w_rows w) ->
  Forall cooperative script ->
  (5 * length (w_rows w) <= length script)%nat ->
  exists w' script',
    runAll cfg rt w script = (w', script', RunFinished) /\
    w_rows w' = [] /\ w_running w' = false /\ w_session w' = w_session w /\
    w_approved w' = list_to_set (map rowKey (w_rows w)) ∪ w_approved w.
Proof.
  intros Haddr Hrun Hrouters Hcoop Hlen.
  unfold runAll, runAllFuel. rewrite Haddr, Hrun.
  destruct (runLoop_cooperative cfg rt addr (w_session w) Haddr
              (w_rows (setRunning true w)) (S (length script + length (w_rows w)))
              (setRunning true w) script eq_refl Hrouters Hcoop Hlen)
    as (w1 & script1 & Hloop & S1 & R1 & A1 & K1 & Hne).
  { cbn [setRunning w_rows]. lia. }
  rewrite Hloop. rewrite S1, Z.eqb_refl.
  assert (Hs : w_session (setRunning false
                 (emit (SetMsg "All approvals complete.") w1)) = w_session w)
    by exact S1.
  rewrite Hs, Z.eqb_refl.
  eexists. exists script1. split; [reflexivity|].
  split; [reflexivity|]. split; [reflexivity|]. split; [exact S1|].
  exact A1.
Qed.

Lemma cooperative_run_approves_all_witness :
  exists w' script',
    runAll exampleConfig exampleRun (world0 scenarioE_queue)
           (repeat answerOk 10)
    = (w', script', RunFinished) /\
    w_rows w' = [].
Proof.
  destruct (cooperative_run_approves_all exampleConfig exampleRun
              (world0 scenarioE_queue) (repeat answerOk 10) "0xUser"
              eq_refl eq_refl) as (w' & script' & H1 & H2 & _).
  - repeat constructor; eexists; reflexivity.
  - repeat constructor.
  - cbn. lia.
  - exists w', script'. split; [exact H1 | exact H2].
Defined.

Lemma quiet_retryCatch w0 sid e w :
  quietSince w0 w -> quietSince w0 (retryCatch sid e w).
Proof. intros H. unfold retryCatch. destruct (w_session w =? sid); quiet. Qed.

Lemma retryPermit_outcome rt sid index target w0 w script :
  quietSince w0 w ->
  let r := retryPermit rt sid index target w script in
  match snd r with
  | PermitDone true =>
      exists wm, quietSince w0 wm /\ fst (fst r) = retryFinish rt sid index target wm
  | _ => quietSince w0 (fst (fst r))
  end.
Proof.
  intros H. cbv zeta. unfold retryPermit.
  destruct script as [|a1 script1]; [cbn; quiet|].
  destruct (ans_flag a1); [|cbn; quiet].
  destruct script1 as [|a2 script2]; [cbn; quiet|].
  destruct (ans_error a2); [cbn; quiet|].
  destruct script2 as [|a3 script3]; [cbn; quiet|].
  destruct (ans_error a3); [cbn; quiet|].
  destruct script3 as [|a4 script4]; [cbn; quiet|].
  destruct (ans_error a4); [cbn; quiet|].
  cbn [fst snd]. eexists. split; [|reflexivity]. quiet.
Qed.

Lemma retryOnChain_outcome rt sid index target router w0 w script :
  quietSince w0 w ->
  let w' := fst (fst (retryOnChain rt sid index target router w script)) in
  quietSince w0 w' \/
  exists wm, quietSince w0 wm /\ w' = retryFinish rt sid index target wm.
Proof.
  intros H. cbv zeta. unfold retryOnChain.
  destruct script as [|aSwitching script1]; [left; quiet|].
  set (w1 := if ans_flag aSwitching then suspend aSwitching w else w).
  assert (H1 : quietSince w0 w1) by (unfold w1; destruct (ans_flag aSwitching); quiet).
  destruct (if ans_flag aSwitching then ans_error aSwitching else None);
    [left; apply quiet_retryCatch; exact H1|].
  destruct (negb (w_session w1 =? sid)); [left; exact H1|].
  pose proof (quiet_ensureChain w0 (r_chainId target) w1 script1 H1) as H2.
  destruct (ensureChain (r_chainId target) w1 script1) as [[w2 script2] [[e2|]|]];
    cbn [fst] in H2;
    [left; apply quiet_retryCatch; exact H2 | left; exact H2 |].
  destruct (negb (w_session w2 =? sid)); [left; exact H2|].
  destruct script2 as [|aWrite script3]; [left; exact H2|].
  destruct (ans_error aWrite).
  - left. apply quiet_retryCatch. quiet.
  - right. cbn [fst]. eexists. split; [|reflexivity]. quiet.
Qed.

Lemma retryFinish_effect rt sid index target wm :
  let w' := retryFinish rt sid index target wm in
  w_approved w' = {[ rowKey target ]} ∪ w_approved wm /\
  w_session w' = w_session wm /\
  w_rows w' = (if w_session wm =? sid then delete index (w_rows wm) else w_rows wm).
Proof.
  cbv zeta. unfold retryFinish. rewrite session_markApproved.
  destruct (w_session wm =? sid); cbn [negb].
  - rewrite approved_emit, approved_updateRows, approved_markApproved.
    rewrite session_emit, session_updateRows, session_markApproved.
    rewrite rows_emit, rows_updateRows, rows_markApproved. auto.
  - rewrite approved_markApproved, session_markApproved, rows_markApproved. auto.
Qed.

Lemma guarded_retryFinish sid w0 rt index target w :
  guardedSince sid w0 w ->
  guardedSince sid w0 (retryFinish rt sid index target w).
Proof.
  intros H. unfold retryFinish.
  set (w1 := markApproved (env_address rt) target w).
  assert (H1 : guardedSince sid w0 w1) by (unfold w1; guarded).
  destruct (negb (w_session w1 =? sid)) eqn:Hs; guarded.
Qed.

Lemma guarded_retryCatch sid w0 e w :
  guardedSince sid w0 w -> guardedSince sid w0 (retryCatch sid e w).
Proof.
  intros H. unfold retryCatch. destruct (w_session w =? sid) eqn:Hs; guarded.
Qed.

Lemma guarded_retryPermit sid w0 rt index target w script :
  guardedSince sid w0 w ->
  guardedSince sid w0 (fst (fst (retryPermit rt sid index target w script))).
Proof.
  intros H. unfold retryPermit.
  destruct script as [|a1 script1]; [guarded|].
  destruct (ans_flag a1); [|guarded].
  destruct script1 as [|a2 script2]; [guarded|].
  destruct (ans_error a2); [guarded|].
  destruct script2 as [|a3 script3]; [guarded|].
  destruct (ans_error a3); [guarded|].
  destruct script3 as [|a4 script4]; [guarded|].
  destruct (ans_error a4); [guarded|].
  cbn [fst]. apply guarded_retryFinish. guarded.
Qed.

Lemma guarded_retryOnChain sid w0 rt index target router w script :
  guardedSince sid w0 w ->
  guardedSince sid w0 (fst (fst (retryOnChain rt sid index target router w script))).
Proof.
  intros H. unfold retryOnChain.
  destruct script as [|aSwitching script1]; [guarded|].
  set (w1 := if ans_flag aSwitching then suspend aSwitching w else w).
  assert (H1 : guardedSince sid w0 w1)
    by (unfold w1; destruct (ans_flag aSwitching); guarded).
  destruct (if ans_flag aSwitching then ans_error aSwitching else None);
    [cbn [fst]; apply guarded_retryCatch; exact H1|].
  destruct (negb (w_session w1 =? sid)) eqn:Hs1; [guarded|].
  pose proof (guarded_ensureChain sid w0 (r_chainId target) w1 script1 H1) as H2.
  destruct (ensureChain (r_chainId target) w1 script1) as [[w2 script2] [[e|]|]];
    cbn [fst] in H2;
    [cbn [fst]; apply guarded_retryCatch; exact H2 | guarded |].
  destruct (negb (w_session w2 =? sid)) eqn:Hs2; [guarded|].
  destruct script2 as [|aWrite script3]; [guarded|].
  destruct (ans_error aWrite); cbn [fst].
  - apply guarded_retryCatch. guarded.
  - apply guarded_retryFinish. guarded.
Qed.

(** X27.  What a retry can do.  Whatever the wallet answers, [retryOne]
    ends in one of two ways: it has only announced and called out (no row
    is changed or re-marked, nothing is recorded as approved, no schedule
    is written), which is also how every failure ends; or it has done so
    and then completed one approval: the token's key is remembered, and
    the entry at [index] is taken out of the rows as they are at that
    moment and published, but only if the session is still the one the
    retry started in.  Every publication of rows, every increment of the
    approved counter and the failure message are made while the session
    is the starting one.  Without a connected address or without a router
    for the token's chain nothing happens at all. *)
Theorem retry_outcomes (cfg : Config) (rt : RunEnv) (w : World) (target : Row)
    (index : nat) (script : list Answer) :
  let r := retryOne cfg rt w target index script in
  let w' := fst (fst r) in
  retryOutcome rt index target w w' /\
  (forall wm, w' = retryFinish rt (w_session w) index target wm ->
     w_approved w' = {[ rowKey target ]} ∪ w_approved wm /\
     w_rows w' = (if w_session wm =? w_session w
                  then delete index (w_rows wm) else w_rows wm)) /\
  guardedSince (w_session w) w w' /\
  (env_address rt = None \/ ROUTERS cfg !! r_chainId target = None ->
   r = (w, script, RetryReturned)).
Proof.
  cbv zeta. split; [|split; [|split]].
  - unfold retryOutcome, retryOne.
    destruct (env_address rt) as [addr|]; [|left; apply quietSince_refl].
    destruct (ROUTERS cfg !! r_chainId target) as [router|];
      [|left; apply quietSince_refl].
    destruct (env_walletClient rt).
    + pose proof (retryPermit_outcome rt (w_session w) index target w w script
                    (quietSince_refl w)) as Hp.
      cbv zeta in Hp.
      destruct (retryPermit rt (w_session w) index target w script)
        as [[w1 script1] [|[|]|]]; cbn [fst snd] in Hp |- *.
      * left. exact Hp.
      * right. exact Hp.
      * apply (retryOnChain_outcome rt (w_session w) index target router w w1 script1 Hp).
      * left. exact Hp.
    + apply (retryOnChain_outcome rt (w_session w) index target router w w script
               (quietSince_refl w)).
  - intros wm ->.
    pose proof (retryFinish_effect rt (w_session w) index target wm) as H.
    cbv zeta in H. destruct H as (H1 & _ & H3). auto.
  - unfold retryOne.
    destruct (env_address rt) as [addr|]; [|apply guardedSince_refl].
    destruct (ROUTERS cfg !! r_chainId target) as [router|];
      [|apply guardedSince_refl].
    destruct (env_walletClient rt).
    + pose proof (guarded_retryPermit (w_session w) w rt index target w script
                    (guardedSince_refl _ _)) as Hp.
      destruct (retryPermit rt (w_session w) index target w script)
        as [[w1 script1] [|[|]|]]; cbn [fst] in Hp |- *; try exact Hp.
      apply guarded_retryOnChain. exact Hp.
    + apply guarded_retryOnChain. apply guardedSince_refl.
  - unfold retryOne. intros [-> | H]; [reflexivity|].
    destruct (env_address rt); [|reflexivity]. rewrite H. reflexivity.
Qed.

Lemma retryFinish_cooperative rt addr sid index target w0 w :
  env_address rt = Some addr ->
  w_session w = sid ->
  w_session w = w_session w0 -> w_running w = w_running w0 ->
  w_approved w = w_approved w0 -> w_rows w = w_rows w0 ->
  w_clock w0 <= w_clock w ->
  approvedStep target (delete index (w_rows w0)) w0 (retryFinish rt sid index target w).
Proof.
  intros Haddr Hs Hs0 Hr0 Ha0 Hrows Hc0. unfold retryFinish. rewrite Haddr.
  rewrite session_markApproved, Hs, Z.eqb_refl. cbn [negb].
  unfold approvedStep. frame. rewrite approved_markApproved, rows_markApproved.
  split; [exact Hs0|]. split; [exact Hr0|]. split; [rewrite Ha0; reflexivity|].
  split; [rewrite Hrows; reflexivity|]. split; [exact Hc0|].
  destruct (base_markApproved addr target w) as (tokens & Hbase).
  rewrite Hbase. eexists. split; [reflexivity|].
  cbn [s_nextPayoutAt s_lastApprovedAt]. split; [reflexivity | lia].
Qed.

Ltac coop_step a x :=
  match goal with
  | Hb : ans_bump a = false |- _ =>
      let w' := fresh "w" in
      let S := fresh "S" in let R := fresh "R" in let A := fresh "A" in
      let Q := fresh "Q" in let K := fresh "K" in
      set (w' := suspend a x);
      assert (w_session w' = w_session x /\ w_running w' = w_running x /\
              w_approved w' = w_approved x /\ w_rows w' = w_rows x /\
              w_clock x <= w_clock w') as (S & R & A & Q & K)
        by (unfold w'; pose proof (clock_suspend a x);
            rewrite session_suspend, running_suspend, approved_suspend, rows_suspend
              by exact Hb; auto)
  end.

(** X28.  A retry with a cooperative wallet removes the entry.  With a
    connected address, a router for the token's chain and every awaited
    call resolving with the wallet still connected (five answers are
    enough), [retryOne] returns having completed the approval: the token's
    key is remembered, the published rows are the rows before without the
    entry at [index] (unchanged if there is none), the session and the
    running flag are as before, and the base schedule is reset to 24
    hours after a time within the retry. *)
Theorem cooperative_retry_removes_entry (cfg : Config) (rt : RunEnv) (w : World)
    (target : Row) (index : nat) (addr : string)
    (a1 a2 a3 a4 a5 : Answer) (rest : list Answer) :
  env_address rt = Some addr ->
  is_Some (ROUTERS cfg !! r_chainId target) ->
  Forall cooperative [a1; a2; a3; a4; a5] ->
  exists w' script',
    retryOne cfg rt w target index (a1 :: a2 :: a3 :: a4 :: a5 :: rest)
    = (w', script', RetryReturned) /\
    approvedStep target (delete index (w_rows w)) w w' /\
    (index >= length (w_rows w) -> w_rows w' = w_rows w)%nat.
Proof.
  intros Haddr [router Hr] Hall.
  apply Forall_cons in Hall. destruct Hall as [[Hb1 He1] Hall].
  apply Forall_cons in Hall. destruct Hall as [[Hb2 He2] Hall].
  apply Forall_cons in Hall. destruct Hall as [[Hb3 He3] Hall].
  apply Forall_cons in Hall. destruct Hall as [[Hb4 He4] Hall].
  apply Forall_cons in Hall. destruct Hall as [[Hb5 He5] _].
  assert (Hmain : exists w' script',
            retryOne cfg rt w target index (a1 :: a2 :: a3 :: a4 :: a5 :: rest)
            = (w', script', RetryReturned) /\
            approvedStep target (delete index (w_rows w)) w w').
  { assert (Hchain : forall x b1 b2 b3 tail,
              ans_bump b1 = false -> ans_error b1 = None ->
              ans_bump b2 = false -> ans_error b2 = None ->
              ans_bump b3 = false -> ans_error b3 = None ->
              w_session x = w_session w -> w_running x = w_running w ->
              w_approved x = w_approved w -> w_rows x = w_rows w ->
              w_clock w <= w_clock x ->
              exists w',
                retryOnChain rt (w_session w) index target router x
                             (b1 :: b2 :: b3 :: tail)
                = (w', tail, RetryReturned) /\
                approvedStep target (delete index (w_rows w)) w w').
    { intros x b1 b2 b3 tail Gb1 Ge1 Gb2 Ge2 Gb3 Ge3 Sx Rx Ax Qx Kx.
      unfold retryOnChain.
      set (x1 := if ans_flag b1 then suspend b1 x else x).
      assert (Hx1 : w_session x1 = w_session x /\ w_running x1 = w_running x /\
                    w_approved x1 = w_approved x /\ w_rows x1 = w_rows x /\
                    w_clock x <= w_clock x1).
      { unfold x1. destruct (ans_flag b1).
        - pose proof (clock_suspend b1 x).
          rewrite session_suspend, running_suspend, approved_suspend, rows_suspend
            by exact Gb1. auto.
        - repeat split; reflexivity. }
      destruct Hx1 as (S1 & R1 & A1 & Q1 & K1).
      assert (Eerr : (if ans_flag b1 then ans_error b1 else None) = None)
        by (destruct (ans_flag b1); [exact Ge1 | reflexivity]).
      rewrite Eerr.
      assert (E1 : w_session x1 = w_session w) by congruence.
      rewrite E1, Z.eqb_refl. cbn [negb].
      unfold ensureChain. rewrite Ge2.
      coop_step b2 (emit (Call (CallSwitchChain (r_chainId target))) x1).
      assert (E2 : w_session w0 = w_session w) by (rewrite S; exact E1).
      rewrite E2, Z.eqb_refl. cbn [negb]. rewrite Ge3.
      coop_step b3 (emit (Call (CallApprove (r_chainId target) (r_address target)
                                            router (r_balance target))) w0).
      eexists. split; [reflexivity|].
      apply (retryFinish_cooperative rt addr (w_session w) index target w w1 Haddr).
      - rewrite S0. exact E2.
      - rewrite S0. exact E2.
      - rewrite R0. cbn [emit w_running]. rewrite R. cbn [emit w_running]. congruence.
      - rewrite A0. cbn [emit w_approved]. rewrite A. cbn [emit w_approved]. congruence.
      - rewrite Q0. cbn [emit w_rows]. rewrite Q. cbn [emit w_rows]. congruence.
      - cbn [emit w_clock] in K, K0. lia. }
    unfold retryOne. rewrite Haddr, Hr.
    destruct (env_walletClient rt).
    - unfold retryPermit.
      coop_step a1 (emit (Call (CallSupportsPermit (r_address target))) w).
      cbn [emit w_session w_running w_approved w_rows w_clock] in S, R, A, Q, K.
      destruct (ans_flag a1).
      + rewrite He2, He3, He4.
        coop_step a2 (emit (Call (CallBuildPermit (r_address target))) w0).
        coop_step a3 (emit (Call (CallSignTypedData (r_address target))) w1).
        coop_step a4 (emit (Call (CallClipboardWrite (r_address target))) w2).
        cbn [emit w_session w_running w_approved w_rows w_clock] in *.
        eexists. eexists. split; [reflexivity|].
        apply (retryFinish_cooperative rt addr (w_session w) index target w w3 Haddr);
          first [congruence | lia].
      + destruct (Hchain w0 a2 a3 a4 (a5 :: rest)) as (w' & Hon & Hstep);
          try assumption.
        rewrite Hon. exists w', (a5 :: rest). auto.
    - destruct (Hchain w a1 a2 a3 (a4 :: a5 :: rest)) as (w' & Hon & Hstep);
        try assumption; try reflexivity; try lia.
      rewrite Hon. exists w', (a4 :: a5 :: rest). auto. }
  destruct Hmain as (w' & script' & Hrun & Hstep).
  exists w', script'. split; [exact Hrun|]. split; [exact Hstep|].
  intros Hidx. destruct Hstep as (_ & _ & _ & Hrows & _).
  rewrite Hrows. clear -Hidx. revert index Hidx.
  induction (w_rows w) as [|x l IH]; intros [|index] Hidx; cbn in *;
    try reflexivity; try lia.
  f_equal. apply IH. lia.
Qed.

Lemma cooperative_retry_removes_entry_witness :
  exists w' script',
    retryOne exampleConfig exampleRun (world0 scenarioE_queue) usdcRow 0
             [answerOk; answerOk; answerOk; answerOk; answerOk]
    = (w', script', RetryReturned) /\
    approvedStep usdcRow (delete 0%nat (w_rows (world0 scenarioE_queue)))
                 (world0 scenarioE_queue) w'.
Proof.
  destruct (cooperative_retry_removes_entry exampleConfig exampleRun
              (world0 scenarioE_queue) usdcRow 0 "0xUser"
              answerOk answerOk answerOk answerOk answerOk [] eq_refl)
    as (w' & script' & H1 & H2 & _).
  - eexists. reflexivity.
  - repeat constructor.
  - exists w', script'. split; [exact H1 | exact H2].
Defined.

(* --------------------------------------------------------------------- *)
(** ** Error classification and payout summaries *)
(* --------------------------------------------------------------------- *)

Lemma toLowerCase_app a b :
  toLowerCase (String.append a b) = String.append (toLowerCase a) (toLowerCase b).
Proof.
  induction a as [|c a IH]; [reflexivity|].
  change (String.append (String c a) b) with (String c (String.append a b)).
  cbn [toLowerCase]. rewrite IH. reflexivity.
Qed.

Lemma prefix_app needle post :
  String.prefix needle (String.append needle post) = true.
Proof.
  induction needle as [|c needle IH]; [destruct post; reflexivity|].
  change (String.append (String c needle) post)
    with (String c (String.append needle post)).
  cbn [String.prefix].
  destruct (ascii_dec c c) as [_|Hne]; [exact IH | contradiction Hne; reflexivity].
Qed.

Lemma includes_head hay needle :
  String.prefix needle hay = true -> includes hay needle = true.
Proof. intros H. destruct hay; cbn [includes]; rewrite H; reflexivity. Qed.

Lemma includes_app pre needle post :
  includes (String.append pre (String.append needle post)) needle = true.
Proof.
  induction pre as [|c pre IH].
  - change (String.append EmptyString (String.append needle post))
      with (String.append needle post).
    apply includes_head, prefix_app.
  - change (String.append (String c pre) (String.append needle post))
      with (String c (String.append pre (String.append needle post))).
    cbn [includes]. rewrite IH. apply Bool.orb_true_r.
Qed.

(** X29.  What counts as a user rejection.  No error is no rejection.  An
    error with code 4001 is one whatever its message, and so is an error
    without a code whose cause has code 4001; the cause's code is not
    looked at when the error has a code of its own.  The message is read
    without regard to case: a message containing "user rejected" or
    "user disapproved" in any capitalisation makes a rejection, and two
    errors with the same codes whose messages agree up to case are
    classified alike. *)
Theorem user_rejection_classification :
  isUserRejected None = false /\
  (forall e, e_code e = Some 4001 -> isUserRejected (Some e) = true) /\
  (forall e, e_code e = None -> e_causeCode e = Some 4001 ->
     isUserRejected (Some e) = true) /\
  (forall e cause, isSome (e_code e) = true ->
     isUserRejected (Some e)
     = isUserRejected (Some {| e_code := e_code e; e_causeCode := cause;
                               e_message := e_message e |})) /\
  (forall e pre phrase post,
     e_message e = Some (String.append pre (String.append phrase post)) ->
     toLowerCase phrase = "user rejected"%string \/
     toLowerCase phrase = "user disapproved"%string ->
     isUserRejected (Some e) = true) /\
  (forall e e' message message',
     e_code e = e_code e' -> e_causeCode e = e_causeCode e' ->
     e_message e = Some message -> e_message e' = Some message' ->
     toLowerCase message = toLowerCase message' ->
     isUserRejected (Some e) = isUserRejected (Some e')).
Proof.
  split; [reflexivity|]. split; [|split; [|split; [|split]]].
  - intros e H. unfold isUserRejected. rewrite H. reflexivity.
  - intros e H1 H2. unfold isUserRejected. rewrite H1, H2. reflexivity.
  - intros e cause H. unfold isUserRejected. cbn [e_code e_causeCode e_message].
    destruct (e_code e); [reflexivity | discriminate H].
  - intros e pre phrase post Hm Hp. unfold isUserRejected. rewrite Hm.
    cbn [from_option id]. rewrite !toLowerCase_app.
    destruct Hp as [-> | ->]; rewrite includes_app.
    + rewrite Bool.orb_true_r. reflexivity.
    + apply Bool.orb_true_r.
  - intros e e' message message' Hc Hk Hm Hm' Hl. unfold isUserRejected.
    rewrite Hc, Hk, Hm, Hm'. cbn [from_option id]. rewrite Hl. reflexivity.
Qed.

Lemma mapGet_In {V} key (m : list (string * V)) v :
  mapGet key m = Some v -> In (key, v) m.
Proof.
  induction m as [|[k x] rest IH]; cbn [mapGet]; [discriminate|].
  destruct (String.eqb_spec k key) as [->|Hne].
  - intros [= ->]. left. reflexivity.
  - intros H. right. apply IH, H.
Qed.

Lemma mapGet_None {V} key (m : list (string * V)) :
  mapGet key m = None -> ~ In key (map fst m).
Proof.
  induction m as [|[k x] rest IH]; cbn [mapGet map fst In]; [tauto|].
  destruct (String.eqb_spec k key) as [->|Hne]; [discriminate|].
  intros H [Hk|Hin]; [contradiction | exact (IH H Hin)].
Qed.

Lemma mapSet_In {V} key (value : V) m k v :
  In (k, v) (mapSet key value m) -> (k = key /\ v = value) \/ In (k, v) m.
Proof.
  induction m as [|[k0 x] rest IH]; cbn [mapSet].
  - intros [[= <- <-]|[]]. left. auto.
  - destruct (String.eqb_spec k0 key) as [->|Hne]; cbn [In].
    + intros [[= <- <-]|Hin]; [left; auto | right; right; exact Hin].
    + intros [[= <- <-]|Hin]; [right; left; reflexivity|].
      destruct (IH Hin) as [H|H]; [left; exact H | right; right; exact H].
Qed.

Lemma mapSet_has {V} key (value : V) m : In (key, value) (mapSet key value m).
Proof.
  induction m as [|[k0 x] rest IH]; cbn [mapSet]; [left; reflexivity|].
  destruct (String.eqb_spec k0 key) as [->|Hne]; [left; reflexivity | right; exact IH].
Qed.

Lemma mapSet_keeps {V} key (value : V) m k v :
  k <> key -> In (k, v) m -> In (k, v) (mapSet key value m).
Proof.
  intros Hk. induction m as [|[k0 x] rest IH]; cbn [mapSet In]; [tauto|].
  destruct (String.eqb_spec k0 key) as [->|Hne]; cbn [In].
  - intros [[= <- <-]|Hin]; [contradiction Hk; reflexivity | right; exact Hin].
  - intros [H|Hin]; [left; exact H | right; apply IH, Hin].
Qed.

Lemma mapSet_keys {V} key (value : V) m :
  map fst (mapSet key value m)
  = match mapGet key m with
    | Some _ => map fst m
    | None => map fst m ++ [key]
    end.
Proof.
  induction m as [|[k0 x] rest IH]; cbn [mapSet mapGet map fst app]; [reflexivity|].
  destruct (String.eqb_spec k0 key) as [->|Hne]; cbn [map fst]; [reflexivity|].
  rewrite IH. destruct (mapGet key rest); reflexivity.
Qed.

Lemma mapSet_NoDup {V} key (value : V) m :
  NoDup (map fst m) -> NoDup (map fst (mapSet key value m)).
Proof.
  intros H. rewrite mapSet_keys.
  destruct (mapGet key m) eqn:E; [exact H|].
  apply NoDup_ListNoDup. apply NoDup_ListNoDup in H.
  apply List.NoDup_app; [exact H | repeat constructor; intros [] |].
  intros x Hx [<-|[]]. exact (mapGet_None key m E Hx).
Qed.

Lemma NoDup_keys_unique {V} (m : list (string * V)) k v v' :
  NoDup (map fst m) -> In (k, v) m -> In (k, v') m -> v = v'.
Proof.
  induction m as [|[k0 x] rest IH]; cbn [map fst In]; [tauto|].
  intros H. apply NoDup_cons in H. destruct H as [Hk Hrest].
  intros [[= -> ->]|H1] [[= E]|H2].
  - exact E.
  - exfalso. apply Hk. apply list_elem_of_In, in_map_iff. exists (k, v'). auto.
  - inversion E; subst. exfalso. apply Hk. apply list_elem_of_In, in_map_iff.
    exists (k, v). auto.
  - apply (IH Hrest H1 H2).
Qed.

Lemma mapGet_of_In {V} (m : list (string * V)) k v :
  NoDup (map fst m) -> In (k, v) m -> mapGet k m = Some v.
Proof.
  intros Hn Hin. destruct (mapGet k m) as [v'|] eqn:E.
  - f_equal. apply (NoDup_keys_unique m k v' v Hn (mapGet_In k m v' E) Hin).
  - exfalso. apply (mapGet_None k m E). apply in_map_iff. exists (k, v). auto.
Qed.

Lemma summaryStep_keeps seen m event :
  summariesOf seen m -> summariesOf (seen ++ [event]) (summaryStep m event).
Proof.
  intros (Hn & Hent & Hcov). unfold summaryStep.
  assert (Hweak : summariesOf (seen ++ [event]) m \/ ev_type event = EvApprove).
  { destruct (ev_type event) eqn:Et; [left | right; reflexivity].
    split; [exact Hn|]. split.
    - intros k s Hin. destruct (Hent k s Hin) as (Hk & ev & Hev & Ht & Hs).
      split; [exact Hk|]. exists ev. split; [apply in_or_app; left; exact Hev | auto].
    - intros ev Hev Ht. apply in_app_or in Hev. destruct Hev as [Hev|[<-|[]]].
      + apply (Hcov ev Hev Ht).
      + congruence. }
  destruct (ev_type event) eqn:Et.
  - destruct Hweak as [H|H]; [exact H | discriminate H].
  - clear Hweak. fold (summaryOf event).
    set (lower := toLowerCase (ev_address event)).
    assert (Hset : summariesOf (seen ++ [event]) (mapSet lower (summaryOf event) m) \/
                   exists current, mapGet lower m = Some current /\
                     eventApprovedAt event <= sm_lastApprovedAt current).
    { destruct (mapGet lower m) as [current|] eqn:Eg.
      - destruct (Z.ltb_spec (sm_lastApprovedAt current) (eventApprovedAt event))
          as [Hlt|Hge]; [left | right; exists current; auto].
        split; [apply mapSet_NoDup, Hn|]. split.
        + intros k s Hin. apply mapSet_In in Hin. destruct Hin as [[-> ->]|Hin].
          * split; [reflexivity|]. exists event.
            split; [apply in_or_app; right; left; reflexivity | auto].
          * destruct (Hent k s Hin) as (Hk & ev & Hev & Ht & Hs).
            split; [exact Hk|]. exists ev.
            split; [apply in_or_app; left; exact Hev | auto].
        + intros ev Hev Ht. apply in_app_or in Hev. destruct Hev as [Hev|[<-|[]]].
          * destruct (Hcov ev Hev Ht) as (s & Hin & Hle).
            destruct (String.eqb_spec (toLowerCase (ev_address ev)) lower) as [Ek|Ek].
            -- exists (summaryOf event). split; [rewrite Ek; apply mapSet_has|].
               rewrite Ek in Hin.
               pose proof (mapGet_of_In m lower s Hn Hin) as Hg.
               rewrite Eg in Hg. injection Hg as <-.
               cbn [summaryOf sm_lastApprovedAt]. lia.
            -- exists s. split; [apply mapSet_keeps; assumption | exact Hle].
          * exists (summaryOf event). split; [apply mapSet_has|].
            cbn [summaryOf sm_lastApprovedAt]. lia.
      - left. split; [apply mapSet_NoDup, Hn|]. split.
        + intros k s Hin. apply mapSet_In in Hin. destruct Hin as [[-> ->]|Hin].
          * split; [reflexivity|]. exists event.
            split; [apply in_or_app; right; left; reflexivity | auto].
          * destruct (Hent k s Hin) as (Hk & ev & Hev & Ht & Hs).
            split; [exact Hk|]. exists ev.
            split; [apply in_or_app; left; exact Hev | auto].
        + intros ev Hev Ht. apply in_app_or in Hev. destruct Hev as [Hev|[<-|[]]].
          * destruct (Hcov ev Hev Ht) as (s & Hin & Hle).
            destruct (String.eqb_spec (toLowerCase (ev_address ev)) lower) as [Ek|Ek].
            -- exfalso. apply (mapGet_None lower m Eg). apply in_map_iff.
               exists (lower, s). rewrite <- Ek. auto.
            -- exists s. split; [apply mapSet_keeps; assumption | exact Hle].
          * exists (summaryOf event). split; [apply mapSet_has|].
            cbn [summaryOf sm_lastApprovedAt]. lia. }
    destruct (mapGet lower m) as [current|] eqn:Eg.
    + destruct (Z.ltb_spec (sm_lastApprovedAt current) (eventApprovedAt event))
        as [Hlt|Hge].
      * destruct Hset as [H|(c & [= <-] & Hle)]; [exact H | lia].
      * split; [exact Hn|]. split.
        -- intros k s Hin. destruct (Hent k s Hin) as (Hk & ev & Hev & Ht & Hs).
           split; [exact Hk|]. exists ev.
           split; [apply in_or_app; left; exact Hev | auto].
        -- intros ev Hev Ht. apply in_app_or in Hev. destruct Hev as [Hev|[<-|[]]].
           ++ apply (Hcov ev Hev Ht).
           ++ exists current. split; [apply mapGet_In, Eg | exact Hge].
    + destruct Hset as [H|(c & Hc & _)]; [exact H | discriminate Hc].
Qed.

Lemma fold_summaries events :
  forall seen m,
    summariesOf seen m ->
    summariesOf (seen ++ events) (fold_left summaryStep events m).
Proof.
  induction events as [|event rest IH]; intros seen m H; cbn [fold_left].
  - rewrite app_nil_r. exact H.
  - replace (seen ++ event :: rest) with ((seen ++ [event]) ++ rest)
      by (rewrite <- app_assoc; reflexivity).
    apply IH, summaryStep_keeps, H.
Qed.

(** X30.  One summary per wallet, from its latest approval.  The payout
    summaries of the admin page hold at most one entry per lower-cased
    address; every entry is built from one approve event of that wallet
    (its address as written there, the approval time from the event's
    metadata when that is a positive number and its timestamp otherwise,
    the next payout from the metadata or else a day after the approval);
    and for every approve event its wallet has an entry whose approval
    time is not earlier than the event's, so the entry is that of the
    wallet's latest approval.  Connect events produce nothing. *)
Theorem summaries_keep_latest_approval (events : list AdminEventRecord) :
  let result := payoutSummaries events in
  NoDup (map summaryKey result) /\
  (forall s, In s result ->
     exists event, In event events /\ ev_type event = EvApprove /\ s = summaryOf event) /\
  (forall event, In event events -> ev_type event = EvApprove ->
     exists s, In s result /\ summaryKey s = toLowerCase (ev_address event) /\
               eventApprovedAt event <= sm_lastApprovedAt s).
Proof.
  cbv zeta. unfold payoutSummaries.
  assert (H0 : summariesOf [] []).
  { split; [constructor|]. split; [intros k s []|intros ev []]. }
  pose proof (fold_summaries events [] [] H0) as H. cbn [app] in H.
  set (m := fold_left summaryStep events []) in *.
  destruct H as (Hn & Hent & Hcov).
  assert (Hkeys : map summaryKey (map snd m) = map fst m).
  { rewrite map_map. apply map_ext_in. intros [k s] Hin. cbn [fst snd].
    symmetry. apply (Hent k s Hin). }
  split; [rewrite Hkeys; exact Hn|]. split.
  - intros s Hin. apply in_map_iff in Hin. destruct Hin as ([k s'] & <- & Hin).
    apply (Hent k s' Hin).
  - intros ev Hev Ht. destruct (Hcov ev Hev Ht) as (s & Hin & Hle).
    exists s. split; [apply in_map_iff; exists (toLowerCase (ev_address ev), s); auto|].
    split; [symmetry; apply (Hent _ s Hin) | exact Hle].
Qed.
